(** * OLED frame store, rasteriser and transfer state machine

    A shallow embedding of [src/hardware/OLED.c] (SSD1306 driver for the
    STM32F103, hardware I2C + DMA, double buffered build:
    [OLED_I2C_TYPE == 1], [OLED_USE_DMA == 1], [OLED_DOUBLE_BUFFER == 1]).

    Conventions.
    - C integers are [Z]; every conversion to a narrower type is written
      out ([u8], [u16], [s16]).  [/] and [%] of C truncate towards zero
      and are [Z.quot] and [Z.rem].
    - A frame buffer [uint8_t [8][128]] is a [list (list Z)], pages first.
    - Functions that draw take the buffer [OLED_GRAM] points to and return
      its new contents.  The transfer functions work on the whole driver
      state and append every bus operation they issue to a trace.
    - A [while] loop whose trip count depends on data takes fuel and
      returns [None] when the fuel is used up. *)

From Stdlib Require Import ZArith Lia List Bool.
From stdpp Require Import base list.
Import ListNotations.
Local Open Scope Z_scope.

(** ** Integer types of the C code *)

Definition u8 (z : Z) : Z := z mod 256.
Definition u16 (z : Z) : Z := z mod 65536.
Definition s16 (z : Z) : Z := (z + 32768) mod 65536 - 32768.

(** ** Constants of OLED.h *)

Definition OLED_WIDTH : Z := 128.
Definition OLED_HEIGHT : Z := 64.
Definition OLED_PAGE_COUNT : Z := 8.
Definition OLED_COLUMN_COUNT : Z := 128.
Definition OLED_COLOR_BLACK : Z := 0.
Definition OLED_COLOR_WHITE : Z := 1.
Definition OLED_ADDRESS : Z := 0x78.

(** ** Loops *)

(** [for (j = a; j < b; j++) body(j)], for a body that assigns neither
    [j] nor [b], and [b] representable in the type of [j]. *)
Fixpoint for_count {T : Type} (n : nat) (j : Z) (body : Z -> T -> T) (s : T) : T :=
  match n with
  | O => s
  | S n' => for_count n' (j + 1) body (body j s)
  end.

Definition for_range {T : Type} (a b : Z) (body : Z -> T -> T) (s : T) : T :=
  for_count (Z.to_nat (b - a)) a body s.

(** [while (cond) body], with fuel. *)
Fixpoint while_loop {T : Type} (fuel : nat) (cond : T -> bool) (body : T -> T) (s : T)
  : option T :=
  match fuel with
  | O => None
  | S fuel' => if cond s then while_loop fuel' cond body (body s) else Some s
  end.

(** ** The frame buffer *)

Abbreviation gram := (list (list Z)).

(** [g[p][c]]; an index outside the array (undefined in C) reads 0. *)
Definition gram_get (g : gram) (p c : Z) : Z :=
  if (0 <=? p) && (0 <=? c) then
    match g !! Z.to_nat p with
    | Some row => default 0 (row !! Z.to_nat c)
    | None => 0
    end
  else 0.

(** [g[p][c] = v]; an index outside the array (undefined in C) stores
    nothing. *)
Definition gram_set (g : gram) (p c v : Z) : gram :=
  if (0 <=? p) && (0 <=? c) then
    match g !! Z.to_nat p with
    | Some row => <[Z.to_nat p := <[Z.to_nat c := v]> row]> g
    | None => g
    end
  else g.

(** The type [uint8_t [OLED_PAGE_COUNT][OLED_COLUMN_COUNT]]. *)
Definition row_ok (row : list Z) : bool :=
  (Z.of_nat (length row) =? OLED_COLUMN_COUNT) && forallb (fun b => (0 <=? b) && (b <? 256)) row.

Definition gram_ok (g : gram) : bool :=
  (Z.of_nat (length g) =? OLED_PAGE_COUNT) && forallb row_ok g.

(** The dimensions alone, which every store preserves. *)
Definition gram_shape (g : gram) : Prop :=
  length g = 8%nat /\ Forall (fun row => length row = 128%nat) g.

(** [static uint8_t OLED_GRAM1[..][..] = {0}], also what [OLED_Clear]'s
    [memset] leaves. *)
Definition gram_zero : gram :=
  repeat (repeat 0 (Z.to_nat OLED_COLUMN_COUNT)) (Z.to_nat OLED_PAGE_COUNT).

(** Pixel [(x, y)] read back by the page/bit formula of the data model. *)
Definition pixel (g : gram) (x y : Z) : bool :=
  Z.testbit (gram_get g (y / 8) x) (y mod 8).

(** ** OLED_DrawPoint *)

(** The condition under which [OLED_CHECK_COORDINATES] returns from the
    calling function. *)
Definition OLED_CHECK_COORDINATES (x y : Z) : bool :=
  (x <? 0) || (x >=? OLED_WIDTH) || (y <? 0) || (y >=? OLED_HEIGHT).

Definition OLED_DrawPoint (X Y Color : Z) (g : gram) : gram :=
  if OLED_CHECK_COORDINATES X Y then g
  else if Color =? OLED_COLOR_WHITE then
    gram_set g (Y ÷ 8) X
      (u8 (Z.lor (gram_get g (Y ÷ 8) X) (Z.shiftl 1 (Z.rem Y 8))))
  else
    gram_set g (Y ÷ 8) X
      (u8 (Z.land (gram_get g (Y ÷ 8) X) (Z.lnot (Z.shiftl 1 (Z.rem Y 8))))).

(** ** OLED_Clear and OLED_Reverse *)

Definition OLED_Clear (g : gram) : gram := gram_zero.

Definition OLED_Reverse (g : gram) : gram :=
  for_range 0 OLED_PAGE_COUNT (fun j g =>
    for_range 0 OLED_COLUMN_COUNT (fun i g =>
      gram_set g j i (u8 (Z.lxor (gram_get g j i) 0xFF))) g) g.

(** ** OLED_DrawLine *)

(** The point Bresenham's loop has reached, mapped back through the
    octant normalisation. *)
Definition line_plot (yflag xyflag : bool) (x y : Z) (g : gram) : gram :=
  if yflag && xyflag then OLED_DrawPoint y (s16 (- x)) 1 g
  else if yflag then OLED_DrawPoint x (s16 (- y)) 1 g
  else if xyflag then OLED_DrawPoint y x 1 g
  else OLED_DrawPoint x y 1 g.

Record line_state : Type := mk_line { ln_x : Z; ln_y : Z; ln_d : Z; ln_g : gram }.

Definition line_step (yflag xyflag : bool) (incrE incrNE : Z) (s : line_state) : line_state :=
  let x := s16 (ln_x s + 1) in
  let y := if ln_d s <? 0 then ln_y s else s16 (ln_y s + 1) in
  let d := if ln_d s <? 0 then s16 (ln_d s + incrE) else s16 (ln_d s + incrNE) in
  mk_line x y d (line_plot yflag xyflag x y (ln_g s)).

Definition OLED_DrawLine (fuel : nat) (X0 Y0 X1 Y1 Color : Z) (g : gram) : option gram :=
  if OLED_CHECK_COORDINATES X0 Y0 then Some g
  else if OLED_CHECK_COORDINATES X1 Y1 then Some g
  else if Y0 =? Y1 then
    let '(x0, x1) := if X0 >? X1 then (X1, X0) else (X0, X1) in
    Some (for_range x0 (x1 + 1) (fun x g => OLED_DrawPoint x Y0 1 g) g)
  else if X0 =? X1 then
    let '(y0, y1) := if Y0 >? Y1 then (Y1, Y0) else (Y0, Y1) in
    Some (for_range y0 (y1 + 1) (fun y g => OLED_DrawPoint X0 y 1 g) g)
  else
    let '(x0, y0, x1, y1) :=
      if X0 >? X1 then (X1, Y1, X0, Y0) else (X0, Y0, X1, Y1) in
    let '(y0, y1, yflag) :=
      if y0 >? y1 then (s16 (- y0), s16 (- y1), true) else (y0, y1, false) in
    let '(x0, y0, x1, y1, xyflag) :=
      if y1 - y0 >? x1 - x0 then (y0, x0, y1, x1, true) else (x0, y0, x1, y1, false) in
    let dx := s16 (x1 - x0) in
    let dy := s16 (y1 - y0) in
    let incrE := s16 (2 * dy) in
    let incrNE := s16 (2 * (dy - dx)) in
    let d := s16 (2 * dy - dx) in
    let s0 := mk_line x0 y0 d (line_plot yflag xyflag x0 y0 g) in
    option_map ln_g
      (while_loop fuel (fun s => ln_x s <? x1) (line_step yflag xyflag incrE incrNE) s0).

(** ** OLED_DrawCircle *)

Record circle_state : Type := mk_circle { ci_x : Z; ci_y : Z; ci_d : Z; ci_g : gram }.

(** The eight symmetric points of one step. *)
Definition circle_octants (X Y x y : Z) (g : gram) : gram :=
  let g := OLED_DrawPoint (s16 (X + x)) (s16 (Y + y)) 1 g in
  let g := OLED_DrawPoint (s16 (X + y)) (s16 (Y + x)) 1 g in
  let g := OLED_DrawPoint (s16 (X - x)) (s16 (Y - y)) 1 g in
  let g := OLED_DrawPoint (s16 (X - y)) (s16 (Y - x)) 1 g in
  let g := OLED_DrawPoint (s16 (X + x)) (s16 (Y - y)) 1 g in
  let g := OLED_DrawPoint (s16 (X + y)) (s16 (Y - x)) 1 g in
  let g := OLED_DrawPoint (s16 (X - x)) (s16 (Y + y)) 1 g in
  OLED_DrawPoint (s16 (X - y)) (s16 (Y + x)) 1 g.

(** The two span loops of one step of the filled circle. *)
Definition circle_spans (X Y x y : Z) (g : gram) : gram :=
  let g := for_range (s16 (- y)) y (fun j g =>
             OLED_DrawPoint (s16 (X - x)) (s16 (Y + j)) 1
               (OLED_DrawPoint (s16 (X + x)) (s16 (Y + j)) 1 g)) g in
  for_range (s16 (- x)) x (fun j g =>
    OLED_DrawPoint (s16 (X + y)) (s16 (Y + j)) 1
      (OLED_DrawPoint (s16 (X - y)) (s16 (Y + j)) 1 g)) g.

Definition circle_step (X Y IsFilled : Z) (s : circle_state) : circle_state :=
  let x := s16 (ci_x s + 1) in
  let y := if ci_d s <? 0 then ci_y s else s16 (ci_y s - 1) in
  let d := if ci_d s <? 0 then s16 (ci_d s + (2 * x + 1))
           else s16 (ci_d s + (2 * (x - y) + 1)) in
  let g := circle_octants X Y x y (ci_g s) in
  let g := if IsFilled =? 0 then g else circle_spans X Y x y g in
  mk_circle x y d g.

Definition OLED_DrawCircle (fuel : nat) (X Y Radius IsFilled : Z) (g : gram) : option gram :=
  let d := s16 (1 - Radius) in
  let x := 0 in
  let y := Radius in
  let g := OLED_DrawPoint (s16 (X + x)) (s16 (Y + y)) 1 g in
  let g := OLED_DrawPoint (s16 (X - x)) (s16 (Y - y)) 1 g in
  let g := OLED_DrawPoint (s16 (X + y)) (s16 (Y + x)) 1 g in
  let g := OLED_DrawPoint (s16 (X - y)) (s16 (Y - x)) 1 g in
  let g := if IsFilled =? 0 then g
           else for_range (s16 (- y)) y (fun j g => OLED_DrawPoint X (s16 (Y + j)) 1 g) g in
  option_map ci_g
    (while_loop fuel (fun s => ci_x s <? ci_y s) (circle_step X Y IsFilled)
       (mk_circle x y d g)).

(** ** OLED_DrawRectangle *)

(** The condition under which [OLED_CHECK_RECTANGLE] returns from the
    calling function. *)
Definition OLED_CHECK_RECTANGLE (x y w h : Z) : bool :=
  (w =? 0) || (h =? 0) || (x >=? OLED_WIDTH) || (y >=? OLED_HEIGHT).

(** [for (i = a; i < bound; i++)] with [uint8_t i] and an [int] bound:
    [i] wraps at 256, so the loop need not end. *)
Fixpoint for_u8 {T : Type} (fuel : nat) (i bound : Z) (body : Z -> T -> option T) (s : T)
  : option T :=
  match fuel with
  | O => None
  | S fuel' =>
      if i <? bound then
        match body i s with
        | Some s' => for_u8 fuel' (u8 (i + 1)) bound body s'
        | None => None
        end
      else Some s
  end.

Definition OLED_DrawRectangle (fuel : nat) (X Y Width Height IsFilled : Z) (g : gram)
  : option gram :=
  if OLED_CHECK_RECTANGLE X Y Width Height then Some g
  else
    let X := if X >=? 128 then s16 (Z.rem X 128) else X in
    let X := if X <? 0 then s16 (128 + Z.rem X 128) else X in
    let Y := if Y >=? 64 then s16 (Z.rem Y 64) else Y in
    let Y := if Y <? 0 then s16 (64 + Z.rem Y 64) else Y in
    if IsFilled =? 0 then
      match for_u8 fuel (u8 X) (X + Width) (fun i g =>
              Some (OLED_DrawPoint (s16 (Z.rem i 128)) (s16 (Z.rem (Y + Height - 1) 64)) 1
                      (OLED_DrawPoint (s16 (Z.rem i 128)) Y 1 g))) g with
      | Some g =>
          for_u8 fuel (u8 Y) (Y + Height) (fun i g =>
            Some (OLED_DrawPoint (s16 (Z.rem (X + Width - 1) 128)) (s16 (Z.rem i 64)) 1
                    (OLED_DrawPoint X (s16 (Z.rem i 64)) 1 g))) g
      | None => None
      end
    else
      for_u8 fuel (u8 X) (X + Width) (fun i g =>
        for_u8 fuel (u8 Y) (Y + Height) (fun j g =>
          Some (OLED_DrawPoint (s16 (Z.rem i 128)) (s16 (Z.rem j 64)) 1 g)) g) g.

(** ** Text: OLED_DrawASCIIFast and OLED_Printf *)

(** [for (j = a; j < a + n; j++)] whose body may [break] before it has
    stored anything: the body answers [None] for [break]. *)
Fixpoint for_break {T : Type} (n : nat) (j : Z) (body : Z -> T -> option T) (s : T) : T :=
  match n with
  | O => s
  | S n' =>
      match body j s with
      | Some s' => for_break n' (j + 1) body s'
      | None => s
      end
  end.

(** [OLED_IsPureASCII]: no byte of the string has bit 7 set. *)
Definition OLED_IsPureASCII (str : list Z) : bool :=
  forallb (fun c => Z.land c 0x80 =? 0) str.

(** What [vsnprintf (String, sizeof String, format, ...)] leaves in
    [char String[128]], as a C string: at most 127 bytes of the expanded
    text, ending before its first NUL. *)
Fixpoint until_nul (text : list Z) : list Z :=
  match text with
  | [] => []
  | c :: rest => if c =? 0 then [] else c :: until_nul rest
  end.

Definition vsnprintf_128 (text : list Z) : list Z := firstn 127 (until_nul text).

(** [strlen (p) >= 3] for a C string given by its bytes. *)
Definition strlen_ge_3 (str : list Z) : bool :=
  match str with
  | _ :: _ :: _ :: _ => true
  | _ => false
  end.

Section Text.

(** The glyph tables [OLED_F8x16[][16]] and [OLED_F6x8[][6]] are defined
    outside OLED.c (declared [extern] in OLED_Data.h); [gram_get] reads
    them as the two-dimensional byte arrays they are. *)
Variable OLED_F8x16 : list (list Z).
Variable OLED_F6x8 : list (list Z).

(** The two callees of the multi-byte path of [OLED_Printf], kept
    abstract: the glyph found for the bytes at the cursor, if any, and
    the blit of a 16x16 image. *)
Variable OLED_FindChineseChar : list Z -> option (list Z).
Variable OLED_ShowImage : Z -> Z -> Z -> Z -> list Z -> gram -> gram.

(** One column of a glyph, OR-ed into page [destPage] at column
    [x + col], shifted down by [bitOffset] with the overflow going to the
    next page. *)
Definition ascii_column (x col destPage bitOffset data : Z) (shifted : bool) (g : gram) : gram :=
  if shifted then
    let g :=
      gram_set g destPage (x + col)
        (u8 (Z.lor (gram_get g destPage (x + col)) (Z.shiftl data bitOffset))) in
    if (destPage + 1 <? 8) && negb (Z.shiftr data (8 - bitOffset) =? 0) then
      gram_set g (destPage + 1) (x + col)
        (u8 (Z.lor (gram_get g (destPage + 1) (x + col)) (Z.shiftr data (8 - bitOffset))))
    else g
  else
    gram_set g destPage (x + col) (u8 (Z.lor (gram_get g destPage (x + col)) data)).

Definition OLED_DrawASCIIFast (x y c fontHeight : Z) (g : gram) : gram :=
  if (x <? 0) || (x >=? 128) || (y <? 0) || (y >=? 64) || (c <? 32) || (c >? 126) then g
  else
    let pageStart := u8 (y ÷ 8) in
    let bitOffset := u8 (Z.rem y 8) in
    if fontHeight =? 16 then
      for_break 2 0 (fun page g =>
        let destPage := u8 (pageStart + page) in
        if destPage >=? 8 then None
        else Some (for_break 8 0 (fun col g =>
          if x + col >=? 128 then None
          else Some (ascii_column x col destPage bitOffset
                       (gram_get OLED_F8x16 (c - 32) (page * 8 + col))
                       ((bitOffset >? 0) && (page =? 0)) g)) g)) g
    else if fontHeight =? 8 then
      for_break 6 0 (fun col g =>
        if x + col >=? 128 then None
        else Some (ascii_column x col pageStart bitOffset
                     (gram_get OLED_F6x8 (c - 32) col) (bitOffset >? 0) g)) g
    else g.

(** The cursor and the buffer, as the render loops of [OLED_Printf]
    carry them. *)
Record cursor : Type := mk_cursor { currentX : Z; currentY : Z; cur_g : gram }.

(** The fast path: the [while] loop over a pure ASCII string, up to
    its terminating NUL; every iteration consumes one byte. *)
Fixpoint Printf_ascii (X lineHeight charWidth : Z) (str : list Z) (k : cursor) : cursor :=
  match str with
  | [] => k
  | c :: rest =>
      if c =? 10 then
        Printf_ascii X lineHeight charWidth rest
          (mk_cursor X (s16 (currentY k + lineHeight)) (cur_g k))
      else if c =? 13 then
        Printf_ascii X lineHeight charWidth rest (mk_cursor X (currentY k) (cur_g k))
      else
        Printf_ascii X lineHeight charWidth rest
          (mk_cursor (s16 (currentX k + charWidth)) (currentY k)
             (OLED_DrawASCIIFast (currentX k) (currentY k) c lineHeight (cur_g k)))
  end.

(** The standard path, for a string with a byte above 0x7F; an
    iteration consumes one or three bytes, so the loop runs on fuel (the
    length of the string is enough). *)
Fixpoint Printf_mixed (fuel : nat) (X lineHeight charWidth : Z) (str : list Z) (k : cursor)
  : cursor :=
  match fuel, str with
  | O, _ => k
  | _, [] => k
  | S fuel', c :: rest =>
      if Z.land c 0x80 =? 0 then
        if c =? 10 then
          Printf_mixed fuel' X lineHeight charWidth rest
            (mk_cursor X (s16 (currentY k + lineHeight)) (cur_g k))
        else if c =? 13 then
          Printf_mixed fuel' X lineHeight charWidth rest (mk_cursor X (currentY k) (cur_g k))
        else
          Printf_mixed fuel' X lineHeight charWidth rest
            (mk_cursor (s16 (currentX k + charWidth)) (currentY k)
               (OLED_DrawASCIIFast (currentX k) (currentY k) c lineHeight (cur_g k)))
      else
        match OLED_FindChineseChar str with
        | Some chineseData =>
            if (currentX k >=? 0) && (currentY k >=? 0) then
              let k' := mk_cursor (s16 (currentX k + 16)) (currentY k)
                          (OLED_ShowImage (currentX k) (currentY k) 16 16 chineseData (cur_g k)) in
              if strlen_ge_3 str && negb (Z.land (hd 0 rest) 0x80 =? 0)
              then Printf_mixed fuel' X lineHeight charWidth (skipn 2 rest) k'
              else Printf_mixed fuel' X lineHeight charWidth rest k'
            else
              Printf_mixed fuel' X lineHeight charWidth rest
                (mk_cursor (s16 (currentX k + charWidth)) (currentY k) (cur_g k))
        | None =>
            Printf_mixed fuel' X lineHeight charWidth rest
              (mk_cursor (s16 (currentX k + charWidth)) (currentY k) (cur_g k))
        end
  end.

(** [OLED_Printf (X, Y, FontSize, format, ...)], given the text the
    format expands to ([format != NULL]).  The C function returns
    nothing; the embedding returns the cursor the loop ends with next to
    the buffer. *)
Definition OLED_Printf (X Y FontSize : Z) (text : list Z) (g : gram) : cursor :=
  if OLED_CHECK_COORDINATES X Y then mk_cursor X Y g
  else if negb (FontSize =? 8) && negb (FontSize =? 16) then mk_cursor X Y g
  else
    let lineHeight := if FontSize =? 16 then 16 else 8 in
    let charWidth := if lineHeight =? 16 then 8 else 6 in
    let String := vsnprintf_128 text in
    if OLED_IsPureASCII String
    then Printf_ascii X lineHeight charWidth String (mk_cursor X Y g)
    else Printf_mixed (length String) X lineHeight charWidth String (mk_cursor X Y g).

End Text.

(** ** The driver state and the bus *)

Inductive BufferSelect : Type := BUFFER_A | BUFFER_B.

(** What the row pointers [OLED_GRAM] and [OLED_DISPLAY_GRAM] of the
    driver point to. *)
Inductive gram_ptr : Type := PTR_GRAM1 | PTR_GRAM2.

(** The calls into the I2C and DMA peripherals, in the order the driver
    makes them.  [DMA_Block src page col len] stands for the two register
    writes [CNDTR = len; CMAR = &src[page][col]].  [DISPLAY_GRAM_Write]
    is not a bus operation: it records an assignment to the pointer
    [OLED_DISPLAY_GRAM]. *)
Inductive event : Type :=
| Write_IIC_Command (b : Z)
| I2C_GenerateSTART
| I2C_GenerateSTOP
| I2C_Send7bitAddress (a : Z)
| I2C_SendData (b : Z)
| DMA_ClearITPendingBit
| DMA_Cmd (en : bool)
| I2C_DMACmd (en : bool)
| DMA_Block (src : gram_ptr) (page col len : Z)
| DISPLAY_GRAM_Write (p : gram_ptr).

Record driver : Type := mk_driver {
  OLED_GRAM1 : gram;
  OLED_GRAM2 : gram;
  OLED_GRAM : gram_ptr;
  OLED_DISPLAY_GRAM : gram_ptr;
  OLED_DMA_TransferBusy : Z;
  OLED_DMA_TransferComplete : Z;
  active_buffer : BufferSelect;
  display_buffer : BufferSelect;
  current_dma_page : Z;
  current_dma_buffer : Z;
  dma_transfer_start_time : Z;
  dma_transfer_end_time : Z;
  trace : list event
}.

(** The static initialisers of OLED.c. *)
Definition driver_init : driver :=
  mk_driver gram_zero gram_zero PTR_GRAM1 PTR_GRAM1 0 0 BUFFER_A BUFFER_A 0 0 0 0 [].

Definition emit (e : event) (s : driver) : driver :=
  mk_driver (OLED_GRAM1 s) (OLED_GRAM2 s) (OLED_GRAM s) (OLED_DISPLAY_GRAM s)
    (OLED_DMA_TransferBusy s) (OLED_DMA_TransferComplete s) (active_buffer s)
    (display_buffer s) (current_dma_page s) (current_dma_buffer s)
    (dma_transfer_start_time s) (dma_transfer_end_time s) (trace s ++ [e]).

Definition set_OLED_GRAM (p : gram_ptr) (s : driver) : driver :=
  mk_driver (OLED_GRAM1 s) (OLED_GRAM2 s) p (OLED_DISPLAY_GRAM s)
    (OLED_DMA_TransferBusy s) (OLED_DMA_TransferComplete s) (active_buffer s)
    (display_buffer s) (current_dma_page s) (current_dma_buffer s)
    (dma_transfer_start_time s) (dma_transfer_end_time s) (trace s).

Definition set_OLED_DISPLAY_GRAM (p : gram_ptr) (s : driver) : driver :=
  mk_driver (OLED_GRAM1 s) (OLED_GRAM2 s) (OLED_GRAM s) p
    (OLED_DMA_TransferBusy s) (OLED_DMA_TransferComplete s) (active_buffer s)
    (display_buffer s) (current_dma_page s) (current_dma_buffer s)
    (dma_transfer_start_time s) (dma_transfer_end_time s)
    (trace s ++ [DISPLAY_GRAM_Write p]).

Definition set_TransferBusy (v : Z) (s : driver) : driver :=
  mk_driver (OLED_GRAM1 s) (OLED_GRAM2 s) (OLED_GRAM s) (OLED_DISPLAY_GRAM s)
    v (OLED_DMA_TransferComplete s) (active_buffer s)
    (display_buffer s) (current_dma_page s) (current_dma_buffer s)
    (dma_transfer_start_time s) (dma_transfer_end_time s) (trace s).

Definition set_TransferComplete (v : Z) (s : driver) : driver :=
  mk_driver (OLED_GRAM1 s) (OLED_GRAM2 s) (OLED_GRAM s) (OLED_DISPLAY_GRAM s)
    (OLED_DMA_TransferBusy s) v (active_buffer s)
    (display_buffer s) (current_dma_page s) (current_dma_buffer s)
    (dma_transfer_start_time s) (dma_transfer_end_time s) (trace s).

Definition set_active_buffer (b : BufferSelect) (s : driver) : driver :=
  mk_driver (OLED_GRAM1 s) (OLED_GRAM2 s) (OLED_GRAM s) (OLED_DISPLAY_GRAM s)
    (OLED_DMA_TransferBusy s) (OLED_DMA_TransferComplete s) b
    (display_buffer s) (current_dma_page s) (current_dma_buffer s)
    (dma_transfer_start_time s) (dma_transfer_end_time s) (trace s).

Definition set_display_buffer (b : BufferSelect) (s : driver) : driver :=
  mk_driver (OLED_GRAM1 s) (OLED_GRAM2 s) (OLED_GRAM s) (OLED_DISPLAY_GRAM s)
    (OLED_DMA_TransferBusy s) (OLED_DMA_TransferComplete s) (active_buffer s)
    b (current_dma_page s) (current_dma_buffer s)
    (dma_transfer_start_time s) (dma_transfer_end_time s) (trace s).

Definition set_current_dma_page (v : Z) (s : driver) : driver :=
  mk_driver (OLED_GRAM1 s) (OLED_GRAM2 s) (OLED_GRAM s) (OLED_DISPLAY_GRAM s)
    (OLED_DMA_TransferBusy s) (OLED_DMA_TransferComplete s) (active_buffer s)
    (display_buffer s) v (current_dma_buffer s)
    (dma_transfer_start_time s) (dma_transfer_end_time s) (trace s).

Definition set_current_dma_buffer (v : Z) (s : driver) : driver :=
  mk_driver (OLED_GRAM1 s) (OLED_GRAM2 s) (OLED_GRAM s) (OLED_DISPLAY_GRAM s)
    (OLED_DMA_TransferBusy s) (OLED_DMA_TransferComplete s) (active_buffer s)
    (display_buffer s) (current_dma_page s) v
    (dma_transfer_start_time s) (dma_transfer_end_time s) (trace s).

Definition set_start_time (v : Z) (s : driver) : driver :=
  mk_driver (OLED_GRAM1 s) (OLED_GRAM2 s) (OLED_GRAM s) (OLED_DISPLAY_GRAM s)
    (OLED_DMA_TransferBusy s) (OLED_DMA_TransferComplete s) (active_buffer s)
    (display_buffer s) (current_dma_page s) (current_dma_buffer s)
    v (dma_transfer_end_time s) (trace s).

Definition set_end_time (v : Z) (s : driver) : driver :=
  mk_driver (OLED_GRAM1 s) (OLED_GRAM2 s) (OLED_GRAM s) (OLED_DISPLAY_GRAM s)
    (OLED_DMA_TransferBusy s) (OLED_DMA_TransferComplete s) (active_buffer s)
    (display_buffer s) (current_dma_page s) (current_dma_buffer s)
    (dma_transfer_start_time s) v (trace s).

(** The enum as the [uint8_t] it is stored in. *)
Definition BufferSelect_value (b : BufferSelect) : Z :=
  match b with BUFFER_A => 0 | BUFFER_B => 1 end.

Definition gram_of (s : driver) (p : gram_ptr) : gram :=
  match p with PTR_GRAM1 => OLED_GRAM1 s | PTR_GRAM2 => OLED_GRAM2 s end.

(** [OLED_Set_Pos (x, y)] with [unsigned char] arguments: three command
    writes. *)
Definition OLED_Set_Pos (x y : Z) (s : driver) : driver :=
  let s := emit (Write_IIC_Command (u8 (Z.lor 0xb0 y))) s in
  let s := emit (Write_IIC_Command (u8 (Z.lor (Z.shiftr (Z.land x 0xf0) 4) 0x10))) s in
  emit (Write_IIC_Command (u8 (Z.lor 0x00 (Z.land x 0x0f)))) s.

(** ** The asynchronous full-frame transfer *)

(** How far the bus lets [OLED_StartDMATransferPage] get: each of its
    four waits can run out of its iteration budget. *)
Inductive page_reply : Type :=
| BusStuck          (* I2C_FLAG_BUSY never clears *)
| NoStartEvent      (* no I2C_EVENT_MASTER_MODE_SELECT *)
| NoAddressEvent    (* no I2C_EVENT_MASTER_TRANSMITTER_MODE_SELECTED *)
| NoByteEvent       (* no I2C_EVENT_MASTER_BYTE_TRANSMITTING *)
| PageArmed.

(** [system_time] is read from another translation unit and is an
    input here.  The result is the [uint8_t] the C function returns. *)
Definition OLED_StartDMATransferPage (hw : page_reply) (system_time : Z)
    (page buffer_select : Z) (s : driver) : Z * driver :=
  let s := if page =? 0 then set_start_time system_time s else s in
  let s := OLED_Set_Pos 0 page s in
  match hw with
  | BusStuck => (0, s)
  | _ =>
    let s := emit I2C_GenerateSTART s in
    match hw with
    | NoStartEvent => (0, s)
    | _ =>
      let s := emit (I2C_Send7bitAddress OLED_ADDRESS) s in
      match hw with
      | NoAddressEvent => (0, s)
      | _ =>
        let s := emit (I2C_SendData 0x40) s in
        match hw with
        | NoByteEvent => (0, s)
        | _ =>
          let s := emit (DMA_Cmd false) s in
          let s := emit (DMA_Block (if buffer_select =? 0 then PTR_GRAM1 else PTR_GRAM2)
                           page 0 OLED_COLUMN_COUNT) s in
          let s := set_TransferComplete 0 s in
          let s := emit (DMA_Cmd true) s in
          let s := emit (I2C_DMACmd true) s in
          (1, s)
        end
      end
    end
  end.

(** The DMA transfer-complete interrupt.  [tc] is
    [DMA_GetITStatus (OLED_DMA_TC_FLAG)]; [hw] and [system_time] are what
    the chained page start meets.  The elapsed time kept in the [float]
    [dma_last_transfer_time] is left out. *)
Definition OLED_DMA_IRQHandler (tc : bool) (hw : page_reply) (system_time : Z)
    (s : driver) : driver :=
  if tc then
    let s := emit DMA_ClearITPendingBit s in
    let s := emit I2C_GenerateSTOP s in
    let s := set_TransferComplete 1 s in
    let s := emit (DMA_Cmd false) s in
    let s := emit (I2C_DMACmd false) s in
    let s := set_current_dma_page (u8 (current_dma_page s + 1)) s in
    if current_dma_page s <? OLED_PAGE_COUNT then
      snd (OLED_StartDMATransferPage hw system_time
             (current_dma_page s) (current_dma_buffer s) s)
    else
      let s := set_end_time system_time s in
      let s := set_TransferBusy 0 s in
      set_OLED_DISPLAY_GRAM (if current_dma_buffer s =? 0 then PTR_GRAM1 else PTR_GRAM2) s
  else s.

Definition OLED_UpdateAsync (hw : page_reply) (system_time : Z) (s : driver) : Z * driver :=
  if negb (OLED_DMA_TransferBusy s =? 0) then (0, s)
  else
    let s := set_TransferBusy 1 s in
    let s := set_current_dma_buffer (BufferSelect_value (active_buffer s)) s in
    let s := set_display_buffer (active_buffer s) s in
    let s := set_active_buffer
               (match active_buffer s with BUFFER_A => BUFFER_B | BUFFER_B => BUFFER_A end) s in
    let s := set_OLED_GRAM
               (match active_buffer s with BUFFER_A => PTR_GRAM1 | BUFFER_B => PTR_GRAM2 end) s in
    let s := set_OLED_DISPLAY_GRAM
               (match display_buffer s with BUFFER_A => PTR_GRAM1 | BUFFER_B => PTR_GRAM2 end) s in
    let s := set_current_dma_page 0 s in
    match OLED_StartDMATransferPage hw system_time 0 (current_dma_buffer s) s with
    | (0, s) => (0, set_TransferBusy 0 s)
    | (_, s) => (1, s)
    end.

Definition OLED_IsUpdating (s : driver) : Z := OLED_DMA_TransferBusy s.

(** [k] completion interrupts in a row, each meeting a bus that is
    ready, at the times [ticks]. *)
Definition completions (ticks : list Z) (s : driver) : driver :=
  fold_left (fun s t => OLED_DMA_IRQHandler true PageArmed t s) ticks s.

(** The blocks handed to the DMA channel, and the assignments to
    [OLED_DISPLAY_GRAM], in a trace. *)
Definition dma_blocks (t : list event) : list (gram_ptr * Z * Z * Z) :=
  flat_map (fun e => match e with
                     | DMA_Block src page col len => [(src, page, col, len)]
                     | _ => []
                     end) t.

Definition display_writes (t : list event) : list gram_ptr :=
  flat_map (fun e => match e with DISPLAY_GRAM_Write p => [p] | _ => [] end) t.

(** The page-address commands ([0xB0 | page]) in a trace: one opens
    every page-begin sequence. *)
Definition page_commands (t : list event) : list Z :=
  flat_map (fun e => match e with
                     | Write_IIC_Command b => if Z.land b 0xF0 =? 0xB0 then [b] else []
                     | _ => []
                     end) t.


(** ** OLED_UpdateArea *)

(** What one page of [OLED_UpdateArea] meets on the bus: how far its
    four waits let the page start get ([PageArmed]: all the way); the
    transfer-complete interrupts that arrive while the loop polls
    [OLED_DMA_TransferComplete], each with the reply that the page start
    chained by its handler meets and the [system_time] the handler
    reads; and whether [I2C_EVENT_MASTER_BYTE_TRANSMITTED] is seen
    after the block. *)
Record area_reply : Type := mk_area_reply {
  area_start : page_reply;
  area_irqs : list (page_reply * Z);
  area_tx : bool
}.

(** [while (!OLED_DMA_TransferComplete && --timeout);].  The flag has
    two writers: [OLED_DMA_IRQHandler] sets it and
    [OLED_StartDMATransferPage], which the handler calls for a page
    before the last, clears it again.  The loop is left with the flag
    seen ([true]) after an interrupt whose handler leaves it set, and
    with the budget used up ([false]) when the interrupts run out
    first.  While the flag is clear a block is with the DMA channel, the
    one of [OLED_UpdateArea] or one that a handler has chained; once the
    flag is seen none is, and no further interrupt is due. *)
Fixpoint UpdateArea_wait (irqs : list (page_reply * Z)) (s : driver) : bool * driver :=
  if negb (OLED_DMA_TransferComplete s =? 0) then (true, s)
  else
    match irqs with
    | [] => (false, s)
    | (hw, system_time) :: irqs =>
        UpdateArea_wait irqs (OLED_DMA_IRQHandler true hw system_time s)
    end.

(** The body of the page loop; [false] when it has returned from
    [OLED_UpdateArea]. *)
Definition UpdateArea_page (hw : area_reply) (x1 data_len page : Z) (s : driver)
  : bool * driver :=
  let s := OLED_Set_Pos (u8 x1) page s in
  match area_start hw with
  | BusStuck => (false, set_TransferBusy 0 s)
  | _ =>
    let s := emit I2C_GenerateSTART s in
    match area_start hw with
    | NoStartEvent => (false, set_TransferBusy 0 s)
    | _ =>
      let s := emit (I2C_Send7bitAddress OLED_ADDRESS) s in
      match area_start hw with
      | NoAddressEvent => (false, set_TransferBusy 0 s)
      | _ =>
        let s := emit (I2C_SendData 0x40) s in
        match area_start hw with
        | NoByteEvent => (false, set_TransferBusy 0 s)
        | _ =>
          let s := set_TransferComplete 0 s in
          let s := emit (DMA_Cmd false) s in
          let s := emit (DMA_Block (OLED_DISPLAY_GRAM s) page x1 data_len) s in
          let s := emit (DMA_Cmd true) s in
          let s := emit (I2C_DMACmd true) s in
          match UpdateArea_wait (area_irqs hw) s with
          | (false, s) => (false, set_TransferBusy 0 (emit (DMA_Cmd false) s))
          | (true, s) =>
              if area_tx hw then (true, emit I2C_GenerateSTOP s)
              else (false, set_TransferBusy 0 s)
          end
        end
      end
    end
  end.

(** [for (page = start_page; page <= end_page; page++)] with [uint8_t]
    counters. *)
Fixpoint UpdateArea_pages (fuel : nat) (hw : Z -> area_reply) (x1 data_len page end_page : Z)
    (s : driver) : option driver :=
  match fuel with
  | O => None
  | S fuel' =>
      if page <=? end_page then
        match UpdateArea_page (hw page) x1 data_len page s with
        | (true, s') => UpdateArea_pages fuel' hw x1 data_len (u8 (page + 1)) end_page s'
        | (false, s') => Some s'
        end
      else Some (set_TransferBusy 0 s)
  end.

(** [None]: the call does not return, either because the page loop has
    no end, or because it is entered with [OLED_DMA_TransferBusy] set
    and spins on [while (OLED_DMA_TransferBusy);]: the interrupts of a
    frame in flight are not delivered to that wait here, and what is
    proved is about calls that find the driver idle. *)
Definition OLED_UpdateArea (fuel : nat) (hw : Z -> area_reply) (x1 y1 x2 y2 : Z) (s : driver)
  : option driver :=
  if (x1 >=? OLED_COLUMN_COUNT) || (y1 >=? OLED_HEIGHT) || (x2 <? 0) || (y2 <? 0)
     || (x1 >? x2) || (y1 >? y2)
  then Some s
  else
    let start_page := u8 (y1 ÷ 8) in
    let end_page := u8 (y2 ÷ 8) in
    let data_len := u16 (x2 - x1 + 1) in
    if negb (OLED_DMA_TransferBusy s =? 0) then None
    else
      let s := set_TransferBusy 1 s in
      UpdateArea_pages fuel hw x1 data_len start_page end_page s.


(** The replies of a bus that is ready, with the interrupts [irqs]. *)
Definition area_ready (irqs : list (page_reply * Z)) : area_reply :=
  mk_area_reply PageArmed irqs true.

(** ** Reading a trace *)

(** What one successful page start puts on the bus. *)
Definition page_begin_events (src : gram_ptr) (x page len : Z) : list event :=
  [ Write_IIC_Command (u8 (Z.lor 0xb0 page));
    Write_IIC_Command (u8 (Z.lor (Z.shiftr (Z.land (u8 x) 0xf0) 4) 0x10));
    Write_IIC_Command (u8 (Z.lor 0x00 (Z.land (u8 x) 0x0f)));
    I2C_GenerateSTART;
    I2C_Send7bitAddress OLED_ADDRESS;
    I2C_SendData 0x40;
    DMA_Cmd false;
    DMA_Block src page x len;
    DMA_Cmd true;
    I2C_DMACmd true ].

(** What the completion handler puts on the bus before it looks at the
    page counter. *)
Definition completion_events : list event :=
  [ DMA_ClearITPendingBit; I2C_GenerateSTOP; DMA_Cmd false; I2C_DMACmd false ].

(** The session variables of the transfer state machine. *)
Definition session (s : driver) : Z * Z * Z * gram_ptr :=
  (OLED_DMA_TransferBusy s, current_dma_page s, current_dma_buffer s, OLED_DISPLAY_GRAM s).

Definition ptr_of (b : BufferSelect) : gram_ptr :=
  match b with BUFFER_A => PTR_GRAM1 | BUFFER_B => PTR_GRAM2 end.

(** ** Comparing buffers *)

(** Every bit that is 1 in [g] is 1 in [g']. *)
Definition gram_le (g g' : gram) : Prop :=
  forall p c b, Z.testbit (gram_get g p c) b = true -> Z.testbit (gram_get g' p c) b = true.

(** [g'] is a buffer that has every bit of [g]. *)
Definition grows (g g' : gram) : Prop := gram_ok g' = true /\ gram_le g g'.

(** The logical screen. *)
Definition on_screen (x y : Z) : Prop := 0 <= x < OLED_WIDTH /\ 0 <= y < OLED_HEIGHT.

(** The screen coordinates [line_plot] hands to [OLED_DrawPoint]. *)
Definition line_point (yflag xyflag : bool) (x y : Z) : Z * Z :=
  if yflag && xyflag then (y, s16 (- x))
  else if yflag then (x, s16 (- y))
  else if xyflag then (y, x)
  else (x, y).

(** Two buffers of which the second has every bit of the first. *)
Definition covers (g1 g2 : gram) : Prop :=
  gram_ok g1 = true /\ gram_ok g2 = true /\ gram_le g1 g2.

(* ================================================================== *)
(** * Further functions of OLED.c *)
(* ================================================================== *)

(** ** The buffer selectors and the row pointers *)

(** The row pointers designate the arrays the selectors name, and the
    buffer a session reads is the display buffer. *)
Definition coherent (s : driver) : Prop :=
  OLED_GRAM s = ptr_of (active_buffer s)
  /\ OLED_DISPLAY_GRAM s = ptr_of (display_buffer s)
  /\ current_dma_buffer s = BufferSelect_value (display_buffer s).

Definition other_buffer (b : BufferSelect) : BufferSelect :=
  match b with BUFFER_A => BUFFER_B | BUFFER_B => BUFFER_A end.

(** What no transfer function writes: the two arrays, the selectors and
    the drawing pointer. *)
Definition frame (s : driver) : gram * gram * gram_ptr * BufferSelect * BufferSelect :=
  (OLED_GRAM1 s, OLED_GRAM2 s, OLED_GRAM s, active_buffer s, display_buffer s).

(** ** Where a line may draw *)

(** The bounding box of two points. *)
Definition in_box (X0 Y0 X1 Y1 x y : Z) : Prop :=
  Z.min X0 X1 <= x <= Z.max X0 X1 /\ Z.min Y0 Y1 <= y <= Z.max Y0 Y1.

(** The cross product of the segment with the vector to [(x, y)]: it
    vanishes on the ideal line, and divided by the longer extent of the
    segment it is the distance of [(x, y)] from the line along the
    minor axis. *)
Definition line_error (X0 Y0 X1 Y1 x y : Z) : Z :=
  (Y1 - Y0) * (x - X0) - (X1 - X0) * (y - Y0).

(** Within the bounding box and at most half a pixel off the ideal
    line. *)
Definition near_segment (X0 Y0 X1 Y1 x y : Z) : Prop :=
  in_box X0 Y0 X1 Y1 x y
  /\ 2 * Z.abs (line_error X0 Y0 X1 Y1 x y) <= Z.max (Z.abs (X1 - X0)) (Z.abs (Y1 - Y0)).

(** ** Where a circle may draw *)

(** The squared distance of [(x, y)] from the centre, less the squared
    radius. *)
Definition circle_error (X Y Radius x y : Z) : Z :=
  (x - X) * (x - X) + (y - Y) * (y - Y) - Radius * Radius.

(** On the rim of the circle to within [Radius] in the squared distance,
    which is less than one pixel in the distance; for a filled circle,
    anywhere inside that rim. *)
Definition in_circle (X Y Radius IsFilled x y : Z) : Prop :=
  circle_error X Y Radius x y <= Radius
  /\ (IsFilled = 0 -> - Radius <= circle_error X Y Radius x y).

(** Pixels that are new in [t] satisfy [Q]. *)
Definition new_pixels_in (Q : Z -> Z -> Prop) (g t : gram) : Prop :=
  gram_ok t = true /\ forall x y, pixel t x y = true -> pixel g x y = true \/ Q x y.

(** ** OLED_ReverseArea and OLED_ClearArea *)

(** [for (i = a; i <= last; i++)] with [uint8_t i]: [i] wraps at 256,
    so with [last = 255] the loop has no end. *)
Fixpoint for_u8_le {T : Type} (fuel : nat) (i last : Z) (body : Z -> T -> option T) (s : T)
  : option T :=
  match fuel with
  | O => None
  | S fuel' =>
      if i <=? last then
        match body i s with
        | Some s' => for_u8_le fuel' (u8 (i + 1)) last body s'
        | None => None
        end
      else Some s
  end.

(** The loop nest the two functions share: pages, then the bits of the
    page that belong to the area, then the columns.  [op byte yBit] is
    what the innermost statement stores.  The columns are indexed from
    [X] on, which for a negative [X] is outside the row. *)
Definition area_bits (fuel : nat) (op : Z -> Z -> Z)
    (X Width startPage endPage startBit endBit : Z) (g : gram) : option gram :=
  for_u8_le fuel startPage endPage (fun page g =>
    let startY := if page =? startPage then startBit else 0 in
    let endY := if page =? endPage then endBit else 7 in
    for_u8_le fuel startY endY (fun yBit g =>
      Some (for_range X (X + Width) (fun x g =>
              gram_set g page x (op (gram_get g page x) yBit)) g)) g) g.

(** [gramPage[x] ^= mask] with [mask = 0x01 << yBit]. *)
Definition xor_bit (a yBit : Z) : Z := u8 (Z.lxor a (u8 (Z.shiftl 1 yBit))).

(** [gramPage[x] &= mask] with [mask = ~(0x01 << yBit)]. *)
Definition clear_bit (a yBit : Z) : Z := u8 (Z.land a (u8 (Z.lnot (Z.shiftl 1 yBit)))).

(** [Width] and [Height] are [uint8_t] parameters. *)
Definition OLED_ReverseArea (fuel : nat) (X Y Width Height : Z) (g : gram) : option gram :=
  if OLED_CHECK_RECTANGLE X Y Width Height then Some g
  else
    let Width := if X + Width >? 128 then u8 (128 - X) else Width in
    let Height := if Y + Height >? 64 then u8 (64 - Y) else Height in
    let startPage := u8 (Y ÷ 8) in
    let endPage := u8 ((Y + Height - 1) ÷ 8) in
    let startBit := u8 (Z.rem Y 8) in
    let endBit := u8 (Z.rem (Y + Height - 1) 8) in
    area_bits fuel xor_bit X Width startPage endPage startBit endBit g.

Definition OLED_ClearArea (fuel : nat) (X Y Width Height : Z) (g : gram) : option gram :=
  if OLED_CHECK_RECTANGLE X Y Width Height then Some g
  else
    let Width := if X + Width >? 128 then u8 (128 - X) else Width in
    let Height := if Y + Height >? 64 then u8 (64 - Y) else Height in
    let startPage := u8 (Y ÷ 8) in
    let endPage := u8 ((Y + Height - 1) ÷ 8) in
    let startBit := u8 (Z.rem Y 8) in
    let endBit := u8 (Z.rem (Y + Height - 1) 8) in
    if (startPage =? endPage) && (startBit =? 0) && (endBit =? 7) then
      (* memset (OLED_GRAM[startPage] + X, 0x00, Width) *)
      Some (for_range X (X + Width) (fun x g => gram_set g startPage x 0) g)
    else
      area_bits fuel clear_bit X Width startPage endPage startBit endBit g.

(** The part of the screen a rectangle covers. *)
Definition in_area (X Y Width Height x y : Z) : bool :=
  (X <=? x) && (x <? Z.min (X + Width) OLED_WIDTH)
  && (Y <=? y) && (y <? Z.min (Y + Height) OLED_HEIGHT).

(** [t'] is [t] with [f] applied to the bits in [S], the other bits as
    they were. *)
Definition acts (f : bool -> bool) (S : Z -> Z -> Z -> bool) (t t' : gram) : Prop :=
  gram_ok t' = true
  /\ forall p c b, 0 <= p < 8 -> 0 <= c < 128 -> 0 <= b < 8 ->
       Z.testbit (gram_get t' p c) b
       = if S p c b then f (Z.testbit (gram_get t p c) b) else Z.testbit (gram_get t p c) b.

(** ** Sets of pixels *)

(** [t] is [g] with the pixels of [S] turned on. *)
Definition painted (S : Z -> Z -> Prop) (g t : gram) : Prop :=
  gram_ok t = true
  /\ forall x y, pixel t x y = true <-> pixel g x y = true \/ S x y.

(** The pixels of a rectangle that has its corner on the screen and
    runs past the right or the lower edge: columns are taken modulo 128
    and rows modulo 64.  The outline is the part on the first or last
    column or row of the rectangle. *)
Definition wrapped_rectangle (X Y Width Height IsFilled x y : Z) : Prop :=
  exists i j,
    X <= i < X + Width /\ Y <= j < Y + Height
    /\ x = i mod 128 /\ y = j mod 64
    /\ (IsFilled = 0 -> i = X \/ i = X + Width - 1 \/ j = Y \/ j = Y + Height - 1).

(** ** OLED_pnpoly and OLED_DrawTriangle *)

(** [a[i]] for an array given by its elements. *)
Definition array_get (a : list Z) (i : Z) : Z := nth (Z.to_nat i) a 0.

(** The crossing test of W. R. Franklin.  The loop carries [j] and [c];
    the arithmetic is done in [int], which the values of a screen do not
    overflow. *)
Definition OLED_pnpoly (nvert : Z) (vertx verty : list Z) (testx testy : Z) : Z :=
  snd (for_range 0 nvert (fun i (jc : Z * Z) =>
         let (j, c) := jc in
         (i,
          if negb (Bool.eqb (array_get verty i >? testy) (array_get verty j >? testy))
             && (testx <? (array_get vertx j - array_get vertx i) * (testy - array_get verty i)
                            ÷ (array_get verty j - array_get verty i) + array_get vertx i)
          then (if c =? 0 then 1 else 0)
          else c))
         (nvert - 1, 0)).

(** The unfilled triangle is three calls of [OLED_DrawLine]; the filled
    one scans the bounding box, kept in [uint8_t] variables, with
    [uint8_t] counters. *)
Definition OLED_DrawTriangle (fuel : nat) (X0 Y0 X1 Y1 X2 Y2 IsFilled : Z) (g : gram)
  : option gram :=
  let minx := u8 X0 in let miny := u8 Y0 in
  let maxx := u8 X0 in let maxy := u8 Y0 in
  let vx := [X0; X1; X2] in
  let vy := [Y0; Y1; Y2] in
  if IsFilled =? 0 then
    match OLED_DrawLine fuel X0 Y0 X1 Y1 1 g with
    | Some g =>
        match OLED_DrawLine fuel X0 Y0 X2 Y2 1 g with
        | Some g => OLED_DrawLine fuel X1 Y1 X2 Y2 1 g
        | None => None
        end
    | None => None
    end
  else
    let minx := if X1 <? minx then u8 X1 else minx in
    let minx := if X2 <? minx then u8 X2 else minx in
    let miny := if Y1 <? miny then u8 Y1 else miny in
    let miny := if Y2 <? miny then u8 Y2 else miny in
    let maxx := if X1 >? maxx then u8 X1 else maxx in
    let maxx := if X2 >? maxx then u8 X2 else maxx in
    let maxy := if Y1 >? maxy then u8 Y1 else maxy in
    let maxy := if Y2 >? maxy then u8 Y2 else maxy in
    for_u8_le fuel minx maxx (fun i g =>
      for_u8_le fuel miny maxy (fun j g =>
        Some (if negb (OLED_pnpoly 3 vx vy i j =? 0) then OLED_DrawPoint i j 1 g else g)) g) g.

(** ** OLED_Pow *)

Definition u32 (z : Z) : Z := z mod 4294967296.

(** [while (Y --) Result *= X;] on [uint32_t]: the loop carries [Y] and
    [Result]. *)
Definition OLED_Pow (fuel : nat) (X Y : Z) : option Z :=
  option_map snd
    (while_loop fuel (fun s : Z * Z => negb (fst s =? 0))
       (fun s => (u32 (fst s - 1), u32 (snd s * X))) (Y, 1)).

(** ** The glyph catalogue and its hash table *)

Definition HASH_TABLE_SIZE : Z := 131.
Definition OLED_CHN_CHAR_WIDTH : Z := 3.

(** A C string is the list of its bytes: the end of the list stands for
    the terminating NUL, and so does a byte that is zero as an 8-bit
    value.  [str_head] is [str[0]], [tl] is [str + 1]. *)
Definition str_head (str : list Z) : Z := u8 (hd 0 str).

(** [ChineseCell_t]; [Name] is [None] for a [NULL] pointer. *)
Record ChineseCell_t : Type := mk_cell {
  Name : option (list Z);
  Data : list Z;
  CellWidth : Z;
  CellHeight : Z
}.

(** [ChineseCharHashTable]: the two pointers and the flag. *)
Record ChineseCharHashTable : Type := mk_slot {
  name : option (list Z);
  data : option (list Z);
  isUsed : Z
}.

(** A zeroed entry, as the static initialiser and [memset] leave it. *)
Definition slot_zero : ChineseCharHashTable := mk_slot None None 0.

(** The two statics of the table. *)
Record hash_state : Type := mk_hash {
  chineseHashTable : list ChineseCharHashTable;
  isHashTableInitialized : Z
}.

Definition hash_state_init : hash_state :=
  mk_hash (repeat slot_zero (Z.to_nat HASH_TABLE_SIZE)) 0.

(** [chineseHashTable[hash]], for an index inside the table. *)
Definition table_get (T : list ChineseCharHashTable) (hash : Z) : ChineseCharHashTable :=
  default slot_zero (T !! Z.to_nat hash).

(** The array [OLED_CF16x16] as the list of its elements; the element
    that ends the array is what is read after them. *)
Definition cell_end : ChineseCell_t := mk_cell None [] 0 0.

Definition catalog_get (catalog : list ChineseCell_t) (i : Z) : ChineseCell_t :=
  default cell_end (catalog !! Z.to_nat i).

(** The loop of [OLED_HashString]: at most [n] bytes, up to the NUL. *)
Fixpoint hash_bytes (n : nat) (str : list Z) (hash : Z) : Z :=
  match n with
  | O => hash
  | S n' =>
      if str_head str =? 0 then hash
      else hash_bytes n' (tl str) (u16 (hash * 31 + str_head str))
  end.

Definition OLED_HashString (str : list Z) : Z :=
  Z.rem (hash_bytes (Z.to_nat OLED_CHN_CHAR_WIDTH) str 0) HASH_TABLE_SIZE.

(** [strncmp (a, b, n) == 0]. *)
Fixpoint strncmp_eq (n : nat) (a b : list Z) : bool :=
  match n with
  | O => true
  | S n' =>
      if str_head a =? str_head b then
        if str_head a =? 0 then true else strncmp_eq n' (tl a) (tl b)
      else false
  end.

(** [while (chineseHashTable[hash].isUsed && attempts < HASH_TABLE_SIZE)]
    of the insertion, with [n] attempts left: the slot it stops at. *)
Fixpoint probe_free (n : nat) (T : list ChineseCharHashTable) (hash : Z) : Z :=
  match n with
  | O => hash
  | S n' =>
      if negb (isUsed (table_get T hash) =? 0)
      then probe_free n' T (Z.rem (hash + 1) HASH_TABLE_SIZE)
      else hash
  end.

(** The body of the loop of [OLED_InitChineseHashTable] for one cell
    with the name [nm]. *)
Definition hash_add (T : list ChineseCharHashTable) (nm : list Z) (cell : ChineseCell_t)
  : list ChineseCharHashTable :=
  let hash := OLED_HashString nm in
  let hash := probe_free (Z.to_nat HASH_TABLE_SIZE) T hash in
  if isUsed (table_get T hash) =? 0
  then <[Z.to_nat hash := mk_slot (Some nm) (Some (Data cell)) 1]> T
  else T.

(** [for (uint8_t i = 0; OLED_CF16x16[i].Name != NULL
    && OLED_CF16x16[i].Name[0] != '\0'; i++)]. *)
Fixpoint hash_fill (fuel : nat) (catalog : list ChineseCell_t) (i : Z)
    (T : list ChineseCharHashTable) : option (list ChineseCharHashTable) :=
  match fuel with
  | O => None
  | S fuel' =>
      match Name (catalog_get catalog i) with
      | None => Some T
      | Some nm =>
          if str_head nm =? 0 then Some T
          else hash_fill fuel' catalog (u8 (i + 1)) (hash_add T nm (catalog_get catalog i))
      end
  end.

Definition OLED_InitChineseHashTable (fuel : nat) (catalog : list ChineseCell_t)
    (st : hash_state) : option hash_state :=
  if negb (isHashTableInitialized st =? 0) then Some st
  else
    match hash_fill fuel catalog 0 (repeat slot_zero (Z.to_nat HASH_TABLE_SIZE)) with
    | Some T => Some (mk_hash T 1)
    | None => None
    end.

(** The lookup loop, with [n] attempts left; [None] is [NULL]. *)
Fixpoint find_probe (n : nat) (T : list ChineseCharHashTable) (hash : Z) (str : list Z)
  : option (list Z) :=
  match n with
  | O => None
  | S n' =>
      if negb (isUsed (table_get T hash) =? 0) then
        match name (table_get T hash) with
        | Some nm =>
            if strncmp_eq 3 nm str then data (table_get T hash)
            else find_probe n' T (Z.rem (hash + 1) HASH_TABLE_SIZE) str
        | None => find_probe n' T (Z.rem (hash + 1) HASH_TABLE_SIZE) str
        end
      else None
  end.

(** [chineseChar] is [None] for [NULL]; so is the result. *)
Definition OLED_FindChineseChar (fuel : nat) (catalog : list ChineseCell_t)
    (chineseChar : option (list Z)) (st : hash_state)
  : option (option (list Z) * hash_state) :=
  match (if isHashTableInitialized st =? 0
         then OLED_InitChineseHashTable fuel catalog st else Some st) with
  | None => None
  | Some st =>
      match chineseChar with
      | None => Some (None, st)
      | Some str =>
          if str_head str =? 0 then Some (None, st)
          else Some (find_probe (Z.to_nat HASH_TABLE_SIZE) (chineseHashTable st)
                       (OLED_HashString str) str, st)
      end
  end.

(** *** What the table holds *)

Definition used (T : list ChineseCharHashTable) (h : Z) : Prop :=
  isUsed (table_get T h) <> 0.

(** The slot [h] steps after the home slot of a string. *)
Definition probe_slot (home d : Z) : Z := (home + d) mod HASH_TABLE_SIZE.

(** Every used slot holds the name and the glyph of a cell of the
    catalogue, and every slot between the home slot of that name and the
    slot is used. *)
Definition table_ok (catalog : list ChineseCell_t) (T : list ChineseCharHashTable) : Prop :=
  length T = Z.to_nat HASH_TABLE_SIZE
  /\ forall s, 0 <= s < HASH_TABLE_SIZE -> used T s ->
       exists cell nm,
         cell ∈ catalog /\ Name cell = Some nm
         /\ name (table_get T s) = Some nm /\ data (table_get T s) = Some (Data cell)
         /\ exists d, 0 <= d < HASH_TABLE_SIZE /\ s = probe_slot (OLED_HashString nm) d
              /\ forall d', 0 <= d' < d -> used T (probe_slot (OLED_HashString nm) d').

(** The cell is in the table. *)
Definition stored (T : list ChineseCharHashTable) (nm : list Z) (cell : ChineseCell_t) : Prop :=
  exists d, 0 <= d < HASH_TABLE_SIZE
    /\ used T (probe_slot (OLED_HashString nm) d)
    /\ name (table_get T (probe_slot (OLED_HashString nm) d)) = Some nm
    /\ data (table_get T (probe_slot (OLED_HashString nm) d)) = Some (Data cell)
    /\ forall d', 0 <= d' < d -> used T (probe_slot (OLED_HashString nm) d').

(** The number of free slots. *)
Definition free_count (T : list ChineseCharHashTable) : nat :=
  length (filter (fun s => isUsed s = 0) T).

(** A catalogue of cells that all have a name, no two of which agree
    on their first three bytes. *)
Definition named_cells (catalog : list ChineseCell_t) : Prop :=
  Forall (fun cell => exists nm, Name cell = Some nm /\ str_head nm <> 0) catalog.

Definition distinct_names (catalog : list ChineseCell_t) : Prop :=
  forall i j ci cj ni nj,
    catalog !! i = Some ci -> catalog !! j = Some cj ->
    Name ci = Some ni -> Name cj = Some nj ->
    strncmp_eq 3 ni nj = true -> i = j.

(** A catalogue of two cells with three-byte names. *)
Definition sample_catalog : list ChineseCell_t :=
  [ mk_cell (Some [228; 184; 173]) [1; 2; 3] 16 16;
    mk_cell (Some [230; 150; 135]) [4; 5; 6] 16 16 ].

(** ** Glyphs *)

(** Bit [row] of byte [k] of the glyph of the character [c] in a font
    table. *)
Definition glyph_bit (font : list (list Z)) (c k row : Z) : bool :=
  Z.testbit (gram_get font (c - 32) k) row.

(** A font table holds bytes. *)
Definition font_ok (font : list (list Z)) : Prop :=
  forall i j, 0 <= gram_get font i j < 256.

(** ** OLED_ShowImage *)

(** The body of the column loop: the byte for column [col] of the
    destination page is put together from one or two bytes of the image
    and OR-ed in, shifted into place in the first page. *)
Definition ShowImage_column (Width Height : Z) (Image : list Z) (displayX srcXOffset : Z)
    (destPage srcPage srcBitOffset currentDestBitOffset : Z) (col : Z) (g : gram) : gram :=
  let totalImageSize := u16 (Width * Height) in
  let srcPageOffset := u16 (srcPage * Width) in
  let srcIndex := u16 (srcPageOffset + srcXOffset + col) in
  if srcIndex >=? totalImageSize then g
  else
    let srcData := array_get Image srcIndex in
    let nextData :=
      if negb (srcBitOffset =? 0) && ((srcPage + 1) * 8 <? Height)
         && (u16 (srcIndex + Width) <? totalImageSize)
      then array_get Image (u16 (srcIndex + Width)) else 0 in
    let combinedData :=
      if srcBitOffset =? 0 then srcData
      else u8 (Z.lor (Z.shiftr srcData srcBitOffset)
                 (Z.shiftl nextData (8 - srcBitOffset))) in
    let destPos := s16 (displayX + col) in
    if currentDestBitOffset =? 0 then
      gram_set g destPage destPos (u8 (Z.lor (gram_get g destPage destPos) combinedData))
    else
      let g :=
        gram_set g destPage destPos
          (u8 (Z.lor (gram_get g destPage destPos)
                 (Z.shiftl combinedData currentDestBitOffset))) in
      if destPage <? 7 then
        gram_set g (destPage + 1) destPos
          (u8 (Z.lor (gram_get g (destPage + 1) destPos)
                 (Z.shiftr combinedData (8 - currentDestBitOffset))))
      else g.

(** The body of the page loop; [None] for [break]. *)
Definition ShowImage_page (Width Height : Z) (Image : list Z)
    (displayX displayWidth srcXOffset srcYOffset destStartPage destStartBit : Z)
    (page : Z) (g : gram) : option gram :=
  let destPage := u8 (destStartPage + page) in
  if destPage >=? 8 then None
  else
    let srcStartRow := s16 (srcYOffset + page * 8 - destStartBit) in
    let srcStartRow := if srcStartRow <? 0 then 0 else srcStartRow in
    let srcPage := u8 (srcStartRow ÷ 8) in
    let srcBitOffset := u8 (Z.rem srcStartRow 8) in
    let currentDestBitOffset := if page =? 0 then destStartBit else 0 in
    Some (for_range 0 displayWidth
            (ShowImage_column Width Height Image displayX srcXOffset
               destPage srcPage srcBitOffset currentDestBitOffset) g).

(** [Image] is a pointer that is not [NULL]; the bytes it points to are
    read through [array_get].  [Width] and [Height] are [uint8_t]
    parameters. *)
Definition OLED_ShowImage (X Y Width Height : Z) (Image : list Z) (g : gram) : gram :=
  if OLED_CHECK_RECTANGLE X Y Width Height then g
  else
    let displayX := if X <? 0 then 0 else X in
    let displayY := if Y <? 0 then 0 else Y in
    let displayWidth := if X <? 0 then s16 (Width + X) else Width in
    let displayHeight := if Y <? 0 then s16 (Height + Y) else Height in
    if (displayWidth <=? 0) || (displayHeight <=? 0) || (displayX >=? 128) || (displayY >=? 64)
    then g
    else
      let displayWidth := if displayWidth <? 0 then 0 else displayWidth in
      let displayHeight := if displayHeight <? 0 then 0 else displayHeight in
      let displayWidth :=
        if displayX + displayWidth >? 128 then s16 (128 - displayX) else displayWidth in
      let displayHeight :=
        if displayY + displayHeight >? 64 then s16 (64 - displayY) else displayHeight in
      if (displayWidth <=? 0) || (displayHeight <=? 0) then g
      else
        let srcXOffset := if X <? 0 then s16 (- X) else 0 in
        let srcYOffset := if Y <? 0 then s16 (- Y) else 0 in
        let destStartPage := u8 (displayY ÷ 8) in
        let destStartBit := u8 (Z.rem displayY 8) in
        let pageCount := u8 ((displayHeight + destStartBit + 7) ÷ 8) in
        for_break (Z.to_nat pageCount) 0
          (ShowImage_page Width Height Image displayX displayWidth srcXOffset srcYOffset
             destStartPage destStartBit) g.

(** Bit [(col, row)] of an image of [Width] columns stored page by
    page, eight rows to the byte. *)
Definition image_bit (Width : Z) (Image : list Z) (col row : Z) : bool :=
  Z.testbit (array_get Image ((row / 8) * Width + col)) (row mod 8).

(** The bytes of an image are bytes. *)
Definition image_ok (Image : list Z) : Prop := forall i, 0 <= array_get Image i < 256.


(** ** OLED_ReverseRectangle *)

(** [OLED_GRAM[p][c] ^= 0x01 << k]. *)
Definition xor_store (p c k : Z) (g : gram) : gram :=
  gram_set g p c (u8 (Z.lxor (gram_get g p c) (Z.shiftl 1 k))).

(** One vertical side: the rows [start_y] to [end_y] of column [x], as
    two runs (to row 63, then from row 0) when [start_y > end_y]. *)
Definition ReverseRectangle_side (fuel : nat) (x start_y end_y : Z) (g : gram)
  : option gram :=
  let flip := fun j g => Some (xor_store (j ÷ 8) x (Z.rem j 8) g) in
  if start_y <=? end_y then for_u8_le fuel start_y end_y flip g
  else
    match for_u8 fuel start_y 64 flip g with
    | Some g => for_u8_le fuel 0 end_y flip g
    | None => None
    end.

Definition OLED_ReverseRectangle (fuel : nat) (X Y Width Height IsFilled : Z) (g : gram)
  : option gram :=
  if OLED_CHECK_RECTANGLE X Y Width Height then Some g
  else
    let X := if X >=? 128 then s16 (Z.rem X 128) else X in
    let X := if X <? 0 then s16 (128 + Z.rem X 128) else X in
    let Y := if Y >=? 64 then s16 (Z.rem Y 64) else Y in
    let Y := if Y <? 0 then s16 (64 + Z.rem Y 64) else Y in
    let x2 := u8 (Z.rem (X + Width - 1) 128) in
    let y2 := u8 (Z.rem (Y + Height - 1) 64) in
    if IsFilled =? 0 then
      match for_u8 fuel (u8 X) (X + Width) (fun i g =>
              let curr_x := u8 (Z.rem i 128) in
              Some (xor_store (Y ÷ 8) curr_x (Z.rem Y 8) g)) g with
      | None => None
      | Some g =>
          match for_u8 fuel (u8 X) (X + Width) (fun i g =>
                  let curr_x := u8 (Z.rem i 128) in
                  Some (xor_store (y2 ÷ 8) curr_x (Z.rem y2 8) g)) g with
          | None => None
          | Some g =>
              let start_y := u8 (Z.rem (Y + 1) 64) in
              let end_y := u8 (Z.rem (Y + Height - 2) 64) in
              match ReverseRectangle_side fuel X start_y end_y g with
              | None => None
              | Some g => ReverseRectangle_side fuel x2 start_y end_y g
              end
          end
      end
    else
      for_u8 fuel (u8 Y) (Y + Height) (fun j g =>
        for_u8 fuel (u8 X) (X + Width) (fun i g =>
          Some (xor_store (Z.rem j 64 ÷ 8) (Z.rem i 128) (Z.rem j 8) g)) g) g.

(** [F] returns on every buffer and inverts a set of bits that does
    not depend on the buffer. *)
Definition flipper (F : gram -> option gram) : Prop :=
  exists M, forall g, gram_ok g = true -> exists t, F g = Some t /\ acts negb M g t.

(** The pixels of a rectangle; of its border when [IsFilled] is 0. *)
Definition rectangle_bits (X Y Width Height IsFilled x y : Z) : bool :=
  (X <=? x) && (x <? X + Width) && (Y <=? y) && (y <? Y + Height)
  && (negb (IsFilled =? 0)
      || (x =? X) || (x =? X + Width - 1) || (y =? Y) || (y =? Y + Height - 1)).

(** ** The inside of a filled circle *)

(** The pixel [(x, y)] is on in [t], if it is a pixel of the screen. *)
Definition lit (t : gram) (x y : Z) : Prop := on_screen x y -> pixel t x y = true.

(** ** OLED_DrawLineChart *)







Section Chart.

(** The glyph tables and the glyph lookup, as for [OLED_Printf], and
    the text that the C library's [sprintf] writes for the format of the
    mean label and a mean value. *)
Variable OLED_F8x16 : list (list Z).
Variable OLED_F6x8 : list (list Z).
Variable OLED_FindChineseChar : list Z -> option (list Z).
Variable sprintf_mean : Z -> list Z.




End Chart.

(* ================================================================== *)
(** * Properties *)
(* ================================================================== *)

(** ** Integer conversions *)

Lemma u8_range z : 0 <= u8 z < 256.
Proof. unfold u8. apply Z.mod_pos_bound. lia. Qed.

Lemma u8_small z : 0 <= z < 256 -> u8 z = z.
Proof. intros H. unfold u8. apply Z.mod_small. exact H. Qed.

Lemma s16_range z : -32768 <= s16 z <= 32767.
Proof. unfold s16. pose proof (Z.mod_pos_bound (z + 32768) 65536). lia. Qed.

Lemma s16_small z : -32768 <= z <= 32767 -> s16 z = z.
Proof. intros H. unfold s16. rewrite Z.mod_small; lia. Qed.

(** ** The frame buffer as an array *)

Lemma gram_ok_shape g : gram_ok g = true -> gram_shape g.
Proof.
  unfold gram_ok, gram_shape, OLED_PAGE_COUNT. intros H.
  apply andb_true_iff in H as [Hl Hr]. split; [lia|].
  apply Forall_forall. intros row Hin.
  rewrite forallb_forall in Hr. specialize (Hr row).
  rewrite <- list_elem_of_In in Hr. specialize (Hr Hin).
  unfold row_ok, OLED_COLUMN_COUNT in Hr. apply andb_true_iff in Hr as [Hr _]. lia.
Qed.

Lemma gram_shape_row g p :
  gram_shape g -> 0 <= p < 8 ->
  exists row, g !! Z.to_nat p = Some row /\ length row = 128%nat.
Proof.
  intros [Hl Hr] Hp.
  destruct (lookup_lt_is_Some_2 g (Z.to_nat p)) as [row Hrow]; [lia|].
  exists row. split; [exact Hrow|].
  rewrite Forall_lookup in Hr. eapply Hr. exact Hrow.
Qed.

Lemma gram_get_byte g p c : gram_ok g = true -> 0 <= gram_get g p c < 256.
Proof.
  intros H. unfold gram_get.
  destruct ((0 <=? p) && (0 <=? c)); [|lia].
  destruct (g !! Z.to_nat p) as [row|] eqn:Hrow; [|lia].
  destruct (row !! Z.to_nat c) as [b|] eqn:Hb; simpl; [|lia].
  unfold gram_ok in H. apply andb_true_iff in H as [_ H].
  rewrite forallb_forall in H. specialize (H row).
  rewrite <- list_elem_of_In in H.
  assert (Hin : row ∈ g) by (eapply list_elem_of_lookup_2; exact Hrow).
  specialize (H Hin). unfold row_ok in H. apply andb_true_iff in H as [_ H].
  rewrite forallb_forall in H. specialize (H b).
  rewrite <- list_elem_of_In in H.
  assert (Hinb : b ∈ row) by (eapply list_elem_of_lookup_2; exact Hb).
  specialize (H Hinb). lia.
Qed.

Lemma gram_set_shape g p c v : gram_shape g -> gram_shape (gram_set g p c v).
Proof.
  intros [Hl Hr]. unfold gram_set.
  destruct ((0 <=? p) && (0 <=? c)); [|split; assumption].
  destruct (g !! Z.to_nat p) as [row|] eqn:Hrow; [|split; assumption].
  split.
  - rewrite length_insert. exact Hl.
  - apply Forall_insert; [exact Hr|].
    rewrite length_insert. rewrite Forall_lookup in Hr. eapply Hr. exact Hrow.
Qed.

Lemma gram_get_set g p c v p' c' :
  gram_shape g -> 0 <= p < 8 -> 0 <= c < 128 ->
  gram_get (gram_set g p c v) p' c' =
  if (p' =? p) && (c' =? c) then v else gram_get g p' c'.
Proof.
  intros Hs Hp Hc.
  destruct (gram_shape_row g p Hs Hp) as (row & Hrow & Hlen).
  unfold gram_set.
  replace ((0 <=? p) && (0 <=? c)) with true by (symmetry; apply andb_true_iff; lia).
  rewrite Hrow. unfold gram_get.
  destruct ((0 <=? p') && (0 <=? c')) eqn:Hnn.
  2:{ apply andb_false_iff in Hnn.
      replace ((p' =? p) && (c' =? c)) with false; [reflexivity|].
      symmetry. apply andb_false_iff. lia. }
  apply andb_true_iff in Hnn as [Hp' Hc'].
  destruct (Z.eqb_spec p' p) as [->|Hne]; simpl.
  - rewrite list_lookup_insert_eq by (destruct Hs; lia).
    destruct (Z.eqb_spec c' c) as [->|Hnc].
    + rewrite list_lookup_insert_eq by lia. reflexivity.
    + rewrite list_lookup_insert_ne by lia. rewrite Hrow. reflexivity.
  - rewrite list_lookup_insert_ne by lia. reflexivity.
Qed.

Lemma gram_ext g g' :
  gram_shape g -> gram_shape g' ->
  (forall p c, 0 <= p < 8 -> 0 <= c < 128 -> gram_get g p c = gram_get g' p c) ->
  g = g'.
Proof.
  intros Hs Hs' Heq. apply list_eq. intros i.
  destruct (Nat.lt_ge_cases i 8) as [Hi|Hi].
  2:{ rewrite !lookup_ge_None_2; [reflexivity| |]; [destruct Hs'|destruct Hs]; lia. }
  destruct (gram_shape_row g (Z.of_nat i) Hs ltac:(lia)) as (r & Hr & Hlr).
  destruct (gram_shape_row g' (Z.of_nat i) Hs' ltac:(lia)) as (r' & Hr' & Hlr').
  rewrite Nat2Z.id in Hr, Hr'. rewrite Hr, Hr'. f_equal.
  apply list_eq. intros k.
  destruct (Nat.lt_ge_cases k 128) as [Hk|Hk].
  2:{ rewrite !lookup_ge_None_2; [reflexivity| |]; lia. }
  specialize (Heq (Z.of_nat i) (Z.of_nat k) ltac:(lia) ltac:(lia)).
  unfold gram_get in Heq.
  replace ((0 <=? Z.of_nat i) && (0 <=? Z.of_nat k)) with true in Heq
    by (symmetry; apply andb_true_iff; lia).
  rewrite !Nat2Z.id, Hr, Hr' in Heq.
  destruct (lookup_lt_is_Some_2 r k ltac:(lia)) as [b Hb].
  destruct (lookup_lt_is_Some_2 r' k ltac:(lia)) as [b' Hb'].
  rewrite Hb, Hb' in Heq |- *. simpl in Heq. congruence.
Qed.

Lemma gram_ok_intro g :
  gram_shape g ->
  (forall p c, 0 <= p < 8 -> 0 <= c < 128 -> 0 <= gram_get g p c < 256) ->
  gram_ok g = true.
Proof.
  intros Hs Hb. unfold gram_ok. apply andb_true_iff. split.
  { destruct Hs as [Hl _]. unfold OLED_PAGE_COUNT. lia. }
  apply forallb_forall. intros row Hin. rewrite <- list_elem_of_In in Hin.
  apply list_elem_of_lookup in Hin as [i Hi].
  assert (Hi8 : (i < 8)%nat).
  { destruct Hs as [Hl _]. rewrite <- Hl. eapply lookup_lt_Some. exact Hi. }
  assert (Hlen : length row = 128%nat).
  { destruct Hs as [_ Hr]. rewrite Forall_lookup in Hr. eapply Hr. exact Hi. }
  unfold row_ok. apply andb_true_iff. split.
  { unfold OLED_COLUMN_COUNT. lia. }
  apply forallb_forall. intros b Hinb. rewrite <- list_elem_of_In in Hinb.
  apply list_elem_of_lookup in Hinb as [k Hk].
  assert (Hk128 : (k < 128)%nat).
  { rewrite <- Hlen. eapply lookup_lt_Some. exact Hk. }
  specialize (Hb (Z.of_nat i) (Z.of_nat k) ltac:(lia) ltac:(lia)).
  unfold gram_get in Hb.
  replace ((0 <=? Z.of_nat i) && (0 <=? Z.of_nat k)) with true in Hb
    by (symmetry; apply andb_true_iff; lia).
  rewrite !Nat2Z.id, Hi, Hk in Hb. simpl in Hb. lia.
Qed.

(** ** Bits of a byte *)

Lemma byte_bit_high a b : 0 <= a < 256 -> 8 <= b -> Z.testbit a b = false.
Proof.
  intros Ha Hb. rewrite <- (Z.mod_small a (2 ^ 8)) by (change (2 ^ 8) with 256; lia).
  apply Z.mod_pow2_bits_high. lia.
Qed.

Lemma byte_bit_set a k b :
  0 <= a < 256 -> 0 <= k < 8 ->
  Z.testbit (u8 (Z.lor a (Z.shiftl 1 k))) b = if b =? k then true else Z.testbit a b.
Proof.
  intros Ha Hk. destruct (Z.ltb_spec b 0) as [Hneg|Hpos].
  { rewrite !Z.testbit_neg_r by lia. destruct (Z.eqb_spec b k); [lia|reflexivity]. }
  unfold u8. change 256 with (2 ^ 8).
  rewrite Z.testbit_mod_pow2 by lia.
  rewrite Z.lor_spec, Z.shiftl_1_l, Z.pow2_bits_eqb by lia.
  rewrite (Z.eqb_sym k b).
  destruct (Z.eqb_spec b k) as [->|Hne].
  - rewrite orb_true_r, andb_true_r. apply Z.ltb_lt. lia.
  - rewrite orb_false_r. destruct (Z.ltb_spec b 8); [reflexivity|].
    simpl. symmetry. apply byte_bit_high; lia.
Qed.

Lemma byte_bit_clear a k b :
  0 <= a < 256 -> 0 <= k < 8 ->
  Z.testbit (u8 (Z.land a (Z.lnot (Z.shiftl 1 k)))) b = if b =? k then false else Z.testbit a b.
Proof.
  intros Ha Hk. destruct (Z.ltb_spec b 0) as [Hneg|Hpos].
  { rewrite !Z.testbit_neg_r by lia. destruct (Z.eqb_spec b k); reflexivity. }
  unfold u8. change 256 with (2 ^ 8).
  rewrite Z.testbit_mod_pow2 by lia.
  rewrite Z.land_spec, Z.lnot_spec, Z.shiftl_1_l, Z.pow2_bits_eqb by lia.
  rewrite (Z.eqb_sym k b).
  destruct (Z.eqb_spec b k) as [->|Hne]; simpl.
  - rewrite andb_false_r, andb_false_r. reflexivity.
  - rewrite andb_true_r. destruct (Z.ltb_spec b 8); [reflexivity|].
    simpl. symmetry. apply byte_bit_high; lia.
Qed.

Lemma byte_bit_flip a b :
  0 <= a < 256 ->
  Z.testbit (u8 (Z.lxor a 0xFF)) b = if (0 <=? b) && (b <? 8) then negb (Z.testbit a b) else Z.testbit a b.
Proof.
  intros Ha. destruct (Z.ltb_spec b 0) as [Hneg|Hpos].
  { rewrite !Z.testbit_neg_r by lia.
    replace (0 <=? b) with false by (symmetry; apply Z.leb_gt; lia). reflexivity. }
  replace (0 <=? b) with true by (symmetry; apply Z.leb_le; lia). simpl.
  unfold u8. change 256 with (2 ^ 8).
  rewrite Z.testbit_mod_pow2 by lia. rewrite Z.lxor_spec.
  destruct (Z.ltb_spec b 8) as [Hlt|Hge]; simpl.
  - change 255 with (Z.ones 8). rewrite Z.ones_spec_low by lia.
    destruct (Z.testbit a b); reflexivity.
  - symmetry. apply byte_bit_high; lia.
Qed.

Lemma byte_of_bits a : 0 <= a -> (forall b, 8 <= b -> Z.testbit a b = false) -> 0 <= a < 256.
Proof.
  intros Ha H. split; [exact Ha|].
  destruct (Z.eq_dec a 0) as [->|Hnz]; [lia|].
  assert (Hlog : Z.log2 a < 8).
  { destruct (Z.lt_ge_cases (Z.log2 a) 8) as [Hl|Hl]; [exact Hl|].
    specialize (H (Z.log2 a) Hl). rewrite Z.bit_log2 in H by lia. discriminate. }
  change 256 with (2 ^ 8). apply Z.log2_lt_pow2; lia.
Qed.

(** ** OLED_DrawPoint *)

Lemma on_screen_check x y :
  OLED_CHECK_COORDINATES x y = false <-> 0 <= x < 128 /\ 0 <= y < 64.
Proof.
  unfold OLED_CHECK_COORDINATES, OLED_WIDTH, OLED_HEIGHT.
  rewrite !orb_false_iff. rewrite !Z.ltb_ge.
  split; intros H.
  - destruct H as [[[H1 H2] H3] H4].
    destruct (Z.geb_spec x 128); [discriminate|].
    destruct (Z.geb_spec y 64); [discriminate|]. lia.
  - repeat split; lia.
Qed.

Lemma page_bit_of_row y :
  0 <= y < 64 -> y ÷ 8 = y / 8 /\ Z.rem y 8 = y mod 8 /\ 0 <= y / 8 < 8 /\ 0 <= y mod 8 < 8.
Proof.
  intros Hy. rewrite Z.quot_div_nonneg, Z.rem_mod_nonneg by lia.
  repeat split; try (apply Z.div_pos; lia); try (apply Z.div_lt_upper_bound; lia);
    apply Z.mod_pos_bound; lia.
Qed.

Lemma OLED_DrawPoint_shape X Y Color g :
  gram_shape g -> gram_shape (OLED_DrawPoint X Y Color g).
Proof.
  intros Hs. unfold OLED_DrawPoint.
  destruct (OLED_CHECK_COORDINATES X Y); [exact Hs|].
  destruct (Color =? OLED_COLOR_WHITE); apply gram_set_shape; exact Hs.
Qed.

Lemma OLED_DrawPoint_bit X Y Color g p c b :
  gram_ok g = true -> 0 <= X < 128 -> 0 <= Y < 64 ->
  Z.testbit (gram_get (OLED_DrawPoint X Y Color g) p c) b =
  if (p =? Y / 8) && (c =? X) && (b =? Y mod 8)
  then (Color =? OLED_COLOR_WHITE) else Z.testbit (gram_get g p c) b.
Proof.
  intros Hok HX HY. unfold OLED_DrawPoint.
  replace (OLED_CHECK_COORDINATES X Y) with false
    by (symmetry; apply on_screen_check; lia).
  destruct (page_bit_of_row Y HY) as (-> & -> & Hp & Hb).
  pose proof (gram_get_byte g (Y / 8) X Hok) as Hbyte.
  pose proof (gram_ok_shape g Hok) as Hs.
  destruct (Color =? OLED_COLOR_WHITE).
  - rewrite gram_get_set by assumption.
    destruct ((p =? Y / 8) && (c =? X)) eqn:E; simpl; [|reflexivity].
    apply andb_true_iff in E as [->%Z.eqb_eq ->%Z.eqb_eq].
    rewrite byte_bit_set by assumption. reflexivity.
  - rewrite gram_get_set by assumption.
    destruct ((p =? Y / 8) && (c =? X)) eqn:E; simpl; [|reflexivity].
    apply andb_true_iff in E as [->%Z.eqb_eq ->%Z.eqb_eq].
    rewrite byte_bit_clear by assumption. reflexivity.
Qed.

Lemma OLED_DrawPoint_ok X Y Color g :
  gram_ok g = true -> gram_ok (OLED_DrawPoint X Y Color g) = true.
Proof.
  intros Hok. destruct (OLED_CHECK_COORDINATES X Y) eqn:Hchk.
  { unfold OLED_DrawPoint. rewrite Hchk. exact Hok. }
  apply on_screen_check in Hchk as [HX HY].
  apply gram_ok_intro.
  { apply OLED_DrawPoint_shape, gram_ok_shape, Hok. }
  intros p c Hp Hc. unfold OLED_DrawPoint.
  replace (OLED_CHECK_COORDINATES X Y) with false
    by (symmetry; apply on_screen_check; lia).
  destruct (page_bit_of_row Y HY) as (-> & -> & Hpg & Hb).
  pose proof (gram_ok_shape g Hok) as Hs.
  destruct (Color =? OLED_COLOR_WHITE); rewrite gram_get_set by assumption;
    destruct ((p =? Y / 8) && (c =? X)); try apply u8_range; apply gram_get_byte, Hok.
Qed.

(** C3.  For a pixel of the logical screen, drawing WHITE makes bit
    [y mod 8] of byte [y/8][x] one and drawing BLACK makes it zero, and
    no other bit of the buffer changes, whatever the colour; for
    coordinates outside the screen the call returns the buffer as it
    was. *)
Theorem OLED_DrawPoint_sets_or_clears_the_addressed_bit (g : gram) (x y : Z) :
  gram_ok g = true ->
  (0 <= x < OLED_COLUMN_COUNT /\ 0 <= y < 8 * OLED_PAGE_COUNT ->
     Z.testbit (gram_get (OLED_DrawPoint x y OLED_COLOR_WHITE g) (y / 8) x) (y mod 8) = true
     /\ Z.testbit (gram_get (OLED_DrawPoint x y OLED_COLOR_BLACK g) (y / 8) x) (y mod 8) = false
     /\ forall Color p c b, ~ (p = y / 8 /\ c = x /\ b = y mod 8) ->
          Z.testbit (gram_get (OLED_DrawPoint x y Color g) p c) b
          = Z.testbit (gram_get g p c) b)
  /\ (~ (0 <= x < OLED_COLUMN_COUNT /\ 0 <= y < 8 * OLED_PAGE_COUNT) ->
      forall Color, OLED_DrawPoint x y Color g = g).
Proof.
  unfold OLED_COLUMN_COUNT, OLED_PAGE_COUNT. intros Hok. split.
  - intros [HX HY]. repeat split.
    + rewrite OLED_DrawPoint_bit by (assumption || lia).
      rewrite !Z.eqb_refl. reflexivity.
    + rewrite OLED_DrawPoint_bit by (assumption || lia).
      rewrite !Z.eqb_refl. reflexivity.
    + intros Color p c b Hne. rewrite OLED_DrawPoint_bit by (assumption || lia).
      destruct (Z.eqb_spec p (y / 8)); [|reflexivity].
      destruct (Z.eqb_spec c x); [|reflexivity].
      destruct (Z.eqb_spec b (y mod 8)); [|reflexivity].
      exfalso. apply Hne. auto.
  - intros Hout Color. unfold OLED_DrawPoint.
    destruct (OLED_CHECK_COORDINATES x y) eqn:Hchk; [reflexivity|].
    apply on_screen_check in Hchk. exfalso. apply Hout. lia.
Qed.

Lemma OLED_DrawPoint_sets_or_clears_the_addressed_bit_witness :
  gram_ok (OLED_DrawPoint 3 11 OLED_COLOR_WHITE gram_zero) = true
  /\ Z.testbit (gram_get (OLED_DrawPoint 5 10 OLED_COLOR_BLACK
                 (OLED_DrawPoint 3 11 OLED_COLOR_WHITE gram_zero)) (10 / 8) 5) (10 mod 8) = false
  /\ OLED_DrawPoint 128 10 OLED_COLOR_WHITE (OLED_DrawPoint 3 11 OLED_COLOR_WHITE gram_zero)
     = OLED_DrawPoint 3 11 OLED_COLOR_WHITE gram_zero.
Proof.
  assert (Hok : gram_ok (OLED_DrawPoint 3 11 OLED_COLOR_WHITE gram_zero) = true)
    by (vm_compute; reflexivity).
  split; [exact Hok|]. split.
  - destruct (OLED_DrawPoint_sets_or_clears_the_addressed_bit
                (OLED_DrawPoint 3 11 OLED_COLOR_WHITE gram_zero) 5 10 Hok) as [Hin _].
    destruct Hin as (_ & Hblack & _); [|exact Hblack].
    unfold OLED_COLUMN_COUNT, OLED_PAGE_COUNT. lia.
  - destruct (OLED_DrawPoint_sets_or_clears_the_addressed_bit
                (OLED_DrawPoint 3 11 OLED_COLOR_WHITE gram_zero) 128 10 Hok) as [_ Hout].
    apply Hout. unfold OLED_COLUMN_COUNT, OLED_PAGE_COUNT. lia.
Defined.

(** ** Loop rules *)

Lemma for_count_ind {T : Type} (P : nat -> T -> Prop) n j (body : Z -> T -> T) s :
  P O s ->
  (forall k t, (k < n)%nat -> P k t -> P (S k) (body (j + Z.of_nat k) t)) ->
  P n (for_count n j body s).
Proof.
  revert P j s. induction n as [|n IH]; intros P j s H0 Hstep; simpl.
  - exact H0.
  - apply (IH (fun k t => P (S k) t)).
    + specialize (Hstep O s ltac:(lia) H0). rewrite Z.add_0_r in Hstep. exact Hstep.
    + intros k t Hk HP. specialize (Hstep (S k) t ltac:(lia) HP).
      replace (j + 1 + Z.of_nat k) with (j + Z.of_nat (S k)) by lia. exact Hstep.
Qed.

Lemma for_range_ind {T : Type} (P : Z -> T -> Prop) a b (body : Z -> T -> T) s :
  a <= b ->
  P a s ->
  (forall j t, a <= j < b -> P j t -> P (j + 1) (body j t)) ->
  P b (for_range a b body s).
Proof.
  intros Hab H0 Hstep. unfold for_range.
  replace b with (a + Z.of_nat (Z.to_nat (b - a))) at 1 by lia.
  apply (for_count_ind (fun k t => P (a + Z.of_nat k) t)).
  - rewrite Z.add_0_r. exact H0.
  - intros k t Hk HP. replace (a + Z.of_nat (S k)) with (a + Z.of_nat k + 1) by lia.
    apply Hstep; [lia|exact HP].
Qed.

(** An invariant that does not mention the index. *)
Lemma for_range_inv {T : Type} (P : T -> Prop) a b (body : Z -> T -> T) s :
  P s -> (forall j t, a <= j < b -> P t -> P (body j t)) -> P (for_range a b body s).
Proof.
  intros H0 Hstep. unfold for_range.
  apply (for_count_ind (fun _ t => P t)); [exact H0|].
  intros k t Hk HP. apply Hstep; [lia|exact HP].
Qed.

(** ** OLED_Reverse *)

Lemma byte_flip_flip a : 0 <= a < 256 -> u8 (Z.lxor (u8 (Z.lxor a 0xFF)) 0xFF) = a.
Proof.
  intros Ha. apply Z.bits_inj'. intros b Hb.
  rewrite byte_bit_flip by apply u8_range. rewrite byte_bit_flip by exact Ha.
  destruct ((0 <=? b) && (b <? 8)); [apply negb_involutive|reflexivity].
Qed.

Lemma OLED_Reverse_get g :
  gram_shape g ->
  gram_shape (OLED_Reverse g) /\
  forall p c, 0 <= p < 8 -> 0 <= c < 128 ->
    gram_get (OLED_Reverse g) p c = u8 (Z.lxor (gram_get g p c) 0xFF).
Proof.
  intros Hs. unfold OLED_Reverse, OLED_PAGE_COUNT, OLED_COLUMN_COUNT.
  pose (done := fun (j : Z) (g' : gram) =>
    gram_shape g' /\ forall p c, 0 <= p < 8 -> 0 <= c < 128 ->
      gram_get g' p c = if p <? j then u8 (Z.lxor (gram_get g p c) 0xFF) else gram_get g p c).
  assert (H : done 8 (for_range 0 8 (fun j g0 => for_range 0 128 (fun i g1 =>
                gram_set g1 j i (u8 (Z.lxor (gram_get g1 j i) 0xFF))) g0) g)).
  { apply for_range_ind; [lia| |].
    - split; [exact Hs|]. intros p c Hp Hc.
      replace (p <? 0) with false by (symmetry; apply Z.ltb_ge; lia). reflexivity.
    - intros j g0 Hj [Hs0 Hg0].
      pose (row := fun (i : Z) (g1 : gram) =>
        gram_shape g1 /\ forall p c, 0 <= p < 8 -> 0 <= c < 128 ->
          gram_get g1 p c = if (p =? j) && (c <? i)
                            then u8 (Z.lxor (gram_get g0 p c) 0xFF) else gram_get g0 p c).
      assert (Hrow : row 128 (for_range 0 128 (fun i g1 =>
                gram_set g1 j i (u8 (Z.lxor (gram_get g1 j i) 0xFF))) g0)).
      { apply for_range_ind; [lia| |].
        - split; [exact Hs0|]. intros p c Hp Hc.
          replace (c <? 0) with false by (symmetry; apply Z.ltb_ge; lia).
          rewrite andb_false_r. reflexivity.
        - intros i g1 Hi [Hs1 Hg1]. split; [apply gram_set_shape, Hs1|].
          intros p c Hp Hc. rewrite gram_get_set by (assumption || lia).
          rewrite (Hg1 j i) by lia. rewrite (Hg1 p c) by lia.
          rewrite Z.eqb_refl, Z.ltb_irrefl. simpl.
          destruct (Z.eqb_spec p j) as [->|Hne]; simpl; [|reflexivity].
          destruct (Z.eqb_spec c i) as [->|Hnc].
          + replace (i <? i + 1) with true by (symmetry; apply Z.ltb_lt; lia). reflexivity.
          + destruct (Z.ltb_spec c i), (Z.ltb_spec c (i + 1)); try lia; reflexivity. }
      destruct Hrow as [Hs1 Hg1]. split; [exact Hs1|].
      intros p c Hp Hc. rewrite Hg1, Hg0 by assumption.
      replace (c <? 128) with true by (symmetry; apply Z.ltb_lt; lia).
      rewrite andb_true_r.
      destruct (Z.eqb_spec p j) as [->|Hne].
      + rewrite Z.ltb_irrefl.
        replace (j <? j + 1) with true by (symmetry; apply Z.ltb_lt; lia). reflexivity.
      + destruct (Z.ltb_spec p j), (Z.ltb_spec p (j + 1)); try lia; reflexivity. }
  destruct H as [Hs8 Hg8]. split; [exact Hs8|].
  intros p c Hp Hc. rewrite Hg8 by assumption.
  replace (p <? 8) with true by (symmetry; apply Z.ltb_lt; lia). reflexivity.
Qed.

(** C6.  Inverting the whole frame twice gives back the buffer it
    started from, byte for byte. *)
Theorem OLED_Reverse_twice_is_identity (g : gram) :
  gram_ok g = true -> OLED_Reverse (OLED_Reverse g) = g.
Proof.
  intros Hok. pose proof (gram_ok_shape g Hok) as Hs.
  destruct (OLED_Reverse_get g Hs) as [Hs1 Hg1].
  destruct (OLED_Reverse_get _ Hs1) as [Hs2 Hg2].
  apply gram_ext; [exact Hs2|exact Hs|].
  intros p c Hp Hc. rewrite Hg2, Hg1 by assumption.
  apply byte_flip_flip, gram_get_byte, Hok.
Qed.

Lemma OLED_Reverse_twice_is_identity_witness :
  gram_ok (OLED_DrawPoint 3 11 OLED_COLOR_WHITE gram_zero) = true
  /\ OLED_Reverse (OLED_Reverse (OLED_DrawPoint 3 11 OLED_COLOR_WHITE gram_zero))
     = OLED_DrawPoint 3 11 OLED_COLOR_WHITE gram_zero.
Proof.
  assert (Hok : gram_ok (OLED_DrawPoint 3 11 OLED_COLOR_WHITE gram_zero) = true)
    by (vm_compute; reflexivity).
  split; [exact Hok|].
  apply (OLED_Reverse_twice_is_identity _ Hok).
Defined.

(** ** The asynchronous transfer *)

Lemma dma_blocks_app t1 t2 : dma_blocks (t1 ++ t2) = dma_blocks t1 ++ dma_blocks t2.
Proof. unfold dma_blocks. rewrite !flat_map_concat_map, map_app. apply concat_app. Qed.

Lemma display_writes_app t1 t2 :
  display_writes (t1 ++ t2) = display_writes t1 ++ display_writes t2.
Proof. unfold display_writes. rewrite !flat_map_concat_map, map_app. apply concat_app. Qed.

Lemma page_commands_app t1 t2 :
  page_commands (t1 ++ t2) = page_commands t1 ++ page_commands t2.
Proof. unfold page_commands. rewrite !flat_map_concat_map, map_app. apply concat_app. Qed.

(** C2.  While a transfer session is active the async update answers 0
    and returns the driver state it was given: page counter, buffer
    snapshot, active and display buffers and pointers, and the bus trace
    are all as they were. *)
Theorem OLED_UpdateAsync_rejected_while_busy (hw : page_reply) (system_time : Z) (s : driver) :
  OLED_DMA_TransferBusy s <> 0 ->
  OLED_UpdateAsync hw system_time s = (0, s).
Proof.
  intros Hbusy. unfold OLED_UpdateAsync.
  destruct (Z.eqb_spec (OLED_DMA_TransferBusy s) 0) as [H0|_]; [contradiction|].
  reflexivity.
Qed.

Lemma OLED_UpdateAsync_rejected_while_busy_witness :
  OLED_DMA_TransferBusy (snd (OLED_UpdateAsync PageArmed 0 driver_init)) <> 0
  /\ OLED_UpdateAsync PageArmed 5 (snd (OLED_UpdateAsync PageArmed 0 driver_init))
     = (0, snd (OLED_UpdateAsync PageArmed 0 driver_init)).
Proof.
  assert (Hbusy : OLED_DMA_TransferBusy (snd (OLED_UpdateAsync PageArmed 0 driver_init)) <> 0)
    by (vm_compute; discriminate).
  split; [exact Hbusy|].
  apply (OLED_UpdateAsync_rejected_while_busy PageArmed 5 _ Hbusy).
Defined.

Ltac drv :=
  cbv beta iota zeta delta
    [OLED_StartDMATransferPage OLED_DMA_IRQHandler OLED_UpdateAsync OLED_Set_Pos
     UpdateArea_page
     emit set_OLED_GRAM set_OLED_DISPLAY_GRAM set_TransferBusy set_TransferComplete
     set_active_buffer set_display_buffer set_current_dma_page set_current_dma_buffer
     set_start_time set_end_time session
     OLED_GRAM1 OLED_GRAM2 OLED_GRAM OLED_DISPLAY_GRAM OLED_DMA_TransferBusy
     OLED_DMA_TransferComplete active_buffer display_buffer current_dma_page
     current_dma_buffer dma_transfer_start_time dma_transfer_end_time trace
     fst snd].

Lemma OLED_StartDMATransferPage_armed t page buf s :
  fst (OLED_StartDMATransferPage PageArmed t page buf s) = 1
  /\ session (snd (OLED_StartDMATransferPage PageArmed t page buf s)) = session s
  /\ trace (snd (OLED_StartDMATransferPage PageArmed t page buf s))
     = trace s ++ page_begin_events (if buf =? 0 then PTR_GRAM1 else PTR_GRAM2) 0 page
                    OLED_COLUMN_COUNT.
Proof.
  destruct s as [g1 g2 pg pd busy cmpl act disp pg0 bf st en tr].
  destruct (page =? 0) eqn:E; drv; rewrite E; drv;
    rewrite <- !app_assoc; repeat split; reflexivity.
Qed.

(** A completion signal before the last page: the next page is begun,
    the session stays busy, the display pointer is not touched. *)
Lemma OLED_DMA_IRQHandler_chains t s :
  0 <= current_dma_page s < 7 ->
  session (OLED_DMA_IRQHandler true PageArmed t s)
  = (OLED_DMA_TransferBusy s, current_dma_page s + 1, current_dma_buffer s,
     OLED_DISPLAY_GRAM s)
  /\ trace (OLED_DMA_IRQHandler true PageArmed t s)
     = trace s ++ completion_events
       ++ page_begin_events (if current_dma_buffer s =? 0 then PTR_GRAM1 else PTR_GRAM2)
            0 (current_dma_page s + 1) OLED_COLUMN_COUNT.
Proof.
  intros Hp.
  destruct s as [g1 g2 pg pd busy cmpl act disp pg0 bf st en tr].
  cbv [current_dma_page] in Hp.
  assert (Hu : u8 (pg0 + 1) = pg0 + 1) by (apply u8_small; lia).
  assert (Hlt : (pg0 + 1 <? OLED_PAGE_COUNT) = true)
    by (apply Z.ltb_lt; unfold OLED_PAGE_COUNT; lia).
  assert (Hz : (pg0 + 1 =? 0) = false) by (apply Z.eqb_neq; lia).
  drv. rewrite Hu, Hlt. drv. rewrite Hz. drv.
  rewrite <- !app_assoc. split; reflexivity.
Qed.

(** The completion signal of the last page: busy is cleared and the
    display pointer is assigned. *)
Lemma OLED_DMA_IRQHandler_commits t s :
  current_dma_page s = 7 ->
  session (OLED_DMA_IRQHandler true PageArmed t s)
  = (0, 8, current_dma_buffer s,
     if current_dma_buffer s =? 0 then PTR_GRAM1 else PTR_GRAM2)
  /\ trace (OLED_DMA_IRQHandler true PageArmed t s)
     = trace s ++ completion_events
       ++ [DISPLAY_GRAM_Write (if current_dma_buffer s =? 0 then PTR_GRAM1 else PTR_GRAM2)].
Proof.
  intros Hp.
  destruct s as [g1 g2 pg pd busy cmpl act disp pg0 bf st en tr].
  cbv [current_dma_page] in Hp. subst pg0.
  drv. change (u8 (7 + 1)) with 8. change (8 <? OLED_PAGE_COUNT) with false. drv.
  rewrite <- !app_assoc. split; reflexivity.
Qed.

(** The call that opens a session: the buffer drawn into becomes the
    snapshot, the display pointer is assigned to it, page 0 is begun. *)
Lemma OLED_UpdateAsync_starts t s :
  OLED_DMA_TransferBusy s = 0 ->
  fst (OLED_UpdateAsync PageArmed t s) = 1
  /\ session (snd (OLED_UpdateAsync PageArmed t s))
     = (1, 0, BufferSelect_value (active_buffer s), ptr_of (active_buffer s))
  /\ trace (snd (OLED_UpdateAsync PageArmed t s))
     = trace s ++ [DISPLAY_GRAM_Write (ptr_of (active_buffer s))]
       ++ page_begin_events (ptr_of (active_buffer s)) 0 0 OLED_COLUMN_COUNT.
Proof.
  intros Hbusy.
  destruct s as [g1 g2 pg pd busy cmpl act disp pg0 bf st en tr].
  cbv [OLED_DMA_TransferBusy] in Hbusy. subst busy.
  destruct act; drv; change (negb (0 =? 0)) with false; drv;
    change (0 =? 0) with true; drv; rewrite <- !app_assoc; repeat split; reflexivity.
Qed.

Lemma column_high_command x :
  (Z.land (u8 (Z.lor (Z.shiftr (Z.land (u8 x) 0xf0) 4) 0x10)) 0xF0 =? 0xB0) = false.
Proof.
  apply Z.eqb_neq. intros Heq.
  assert (Hbit : Z.testbit (Z.land (u8 (Z.lor (Z.shiftr (Z.land (u8 x) 0xf0) 4) 0x10)) 0xF0) 7
                 = true) by (rewrite Heq; reflexivity).
  rewrite Z.land_spec in Hbit. apply andb_true_iff in Hbit as [Hbit _].
  unfold u8 in Hbit at 1. change 256 with (2 ^ 8) in Hbit.
  rewrite Z.mod_pow2_bits_low in Hbit by lia.
  rewrite Z.lor_spec, Z.shiftr_spec, Z.land_spec in Hbit by lia.
  change (Z.testbit 240 (7 + 4)) with false in Hbit.
  change (Z.testbit 16 7) with false in Hbit.
  rewrite andb_false_r in Hbit. discriminate.
Qed.

Lemma column_low_command x :
  (Z.land (u8 (Z.lor 0x00 (Z.land (u8 x) 0x0f))) 0xF0 =? 0xB0) = false.
Proof.
  apply Z.eqb_neq. intros Heq.
  assert (Hbit : Z.testbit (Z.land (u8 (Z.lor 0x00 (Z.land (u8 x) 0x0f))) 0xF0) 7 = true)
    by (rewrite Heq; reflexivity).
  rewrite Z.land_spec in Hbit. apply andb_true_iff in Hbit as [Hbit _].
  unfold u8 in Hbit at 1. change 256 with (2 ^ 8) in Hbit.
  rewrite Z.mod_pow2_bits_low in Hbit by lia.
  rewrite Z.lor_spec, Z.land_spec in Hbit.
  change (Z.testbit 15 7) with false in Hbit.
  rewrite andb_false_r in Hbit. discriminate.
Qed.

Lemma page_commands_page_begin src x p len :
  0 <= p < 8 -> page_commands (page_begin_events src x p len) = [Z.lor 0xB0 p].
Proof.
  intros Hp. unfold page_begin_events, page_commands. simpl flat_map.
  rewrite column_high_command, column_low_command.
  assert (Hc : p = 0 \/ p = 1 \/ p = 2 \/ p = 3 \/ p = 4 \/ p = 5 \/ p = 6 \/ p = 7) by lia.
  destruct Hc as [->|[->|[->|[->|[->|[->|[->| ->]]]]]]]; reflexivity.
Qed.

Lemma completions_snoc ticks t s :
  completions (ticks ++ [t]) s = OLED_DMA_IRQHandler true PageArmed t (completions ticks s).
Proof. unfold completions. rewrite fold_left_app. reflexivity. Qed.

Lemma session_eq s busy page buf disp :
  session s = (busy, page, buf, disp) ->
  OLED_DMA_TransferBusy s = busy /\ current_dma_page s = page
  /\ current_dma_buffer s = buf /\ OLED_DISPLAY_GRAM s = disp.
Proof. unfold session. intros H. injection H as H1 H2 H3 H4. auto. Qed.

(** After [k <= 7] completion signals the session is on page [k]: pages
    [1..k] have been begun after page 0, nothing else has changed. *)
Lemma completions_progress ticks s0 k :
  current_dma_page s0 = 0 -> (k <= 7)%nat -> (k <= length ticks)%nat ->
  session (completions (firstn k ticks) s0)
  = (OLED_DMA_TransferBusy s0, Z.of_nat k, current_dma_buffer s0, OLED_DISPLAY_GRAM s0)
  /\ dma_blocks (trace (completions (firstn k ticks) s0))
     = dma_blocks (trace s0)
       ++ map (fun p => (if current_dma_buffer s0 =? 0 then PTR_GRAM1 else PTR_GRAM2,
                         p, 0, OLED_COLUMN_COUNT)) (seqZ 1 (Z.of_nat k))
  /\ page_commands (trace (completions (firstn k ticks) s0))
     = page_commands (trace s0) ++ map (Z.lor 0xB0) (seqZ 1 (Z.of_nat k))
  /\ display_writes (trace (completions (firstn k ticks) s0)) = display_writes (trace s0).
Proof.
  intros Hp0. induction k as [|k IH]; intros Hk Hlen.
  - simpl. unfold session. rewrite Hp0, !app_nil_r. repeat split; reflexivity.
  - destruct (lookup_lt_is_Some_2 ticks k ltac:(lia)) as [t Ht].
    rewrite (take_S_r _ _ _ Ht), completions_snoc.
    destruct IH as (Hs & Hb & Hc & Hw); [lia|lia|].
    set (sk := completions (take k ticks) s0) in *.
    apply session_eq in Hs as (Hbusy & Hpage & Hbuf & Hdisp).
    destruct (OLED_DMA_IRQHandler_chains t sk) as [Hs' Ht']; [lia|].
    rewrite Hs', Ht', Hbusy, Hpage, Hbuf, Hdisp.
    rewrite !dma_blocks_app, !page_commands_app, !display_writes_app.
    rewrite page_commands_page_begin by lia.
    rewrite Hb, Hc, Hw.
    replace (Z.of_nat (S k)) with (Z.of_nat k + 1) by lia.
    rewrite seqZ_app by lia. rewrite !map_app.
    change (dma_blocks completion_events) with (@nil (gram_ptr * Z * Z * Z)).
    change (page_commands completion_events) with (@nil Z).
    change (display_writes completion_events) with (@nil gram_ptr).
    simpl. rewrite <- !app_assoc, !app_nil_r.
    replace (1 + Z.of_nat k) with (Z.of_nat k + 1) by lia.
    repeat split; reflexivity.
Qed.

(** C1, as the code has it.  A full transfer (the call, then eight
    completion signals, the bus ready each time) begins exactly the
    eight pages 0..7, in order, 128 bytes each from the buffer that was
    being drawn into.  The display pointer is assigned that buffer
    twice: by the call itself, before page 0 is begun, and by the
    handler at the eighth completion signal and at no earlier one; busy
    is cleared at the eighth signal.  Here [k] is the number of
    completion signals received so far. *)
Theorem OLED_UpdateAsync_full_transfer (s : driver) (t0 : Z) (ticks : list Z) (k : nat) :
  OLED_DMA_TransferBusy s = 0 -> length ticks = 8%nat -> (k <= 8)%nat ->
  let src := ptr_of (active_buffer s) in
  let started := OLED_UpdateAsync PageArmed t0 s in
  let sk := completions (firstn k ticks) (snd started) in
  fst started = 1
  /\ OLED_DISPLAY_GRAM (snd started) = src
  /\ display_writes (trace (snd started)) = display_writes (trace s) ++ [src]
  /\ dma_blocks (trace sk)
     = dma_blocks (trace s)
       ++ map (fun p => (src, p, 0, OLED_COLUMN_COUNT))
              (seqZ 0 (Z.of_nat (Nat.min (k + 1) 8)))
  /\ page_commands (trace sk)
     = page_commands (trace s)
       ++ map (Z.lor 0xB0) (seqZ 0 (Z.of_nat (Nat.min (k + 1) 8)))
  /\ display_writes (trace sk)
     = display_writes (trace s) ++ (if (k <? 8)%nat then [src] else [src; src])
  /\ OLED_DMA_TransferBusy sk = (if (k <? 8)%nat then 1 else 0)
  /\ OLED_DISPLAY_GRAM sk = src.
Proof.
  intros Hbusy Hlen Hk src started sk.
  destruct (OLED_UpdateAsync_starts t0 s Hbusy) as (Hr & Hs0 & Ht0).
  fold started in Hr, Hs0, Ht0.
  apply session_eq in Hs0 as (Hb0 & Hp0 & Hbuf0 & Hd0).
  assert (Hsrc : (if current_dma_buffer (snd started) =? 0 then PTR_GRAM1 else PTR_GRAM2) = src).
  { rewrite Hbuf0. unfold src. destruct (active_buffer s); reflexivity. }
  assert (Hw0 : display_writes (trace (snd started)) = display_writes (trace s) ++ [src]).
  { rewrite Ht0, !display_writes_app. simpl. rewrite ?app_nil_r. reflexivity. }
  assert (Hbl0 : dma_blocks (trace (snd started))
                 = dma_blocks (trace s) ++ [(src, 0, 0, OLED_COLUMN_COUNT)]).
  { rewrite Ht0, !dma_blocks_app. reflexivity. }
  assert (Hc0 : page_commands (trace (snd started)) = page_commands (trace s) ++ [Z.lor 0xB0 0]).
  { rewrite Ht0, !page_commands_app. reflexivity. }
  split; [exact Hr|]. split; [exact Hd0|]. split; [exact Hw0|].
  assert (Hprog : forall j, (j <= 7)%nat ->
    session (completions (firstn j ticks) (snd started)) = (1, Z.of_nat j, current_dma_buffer (snd started), src)
    /\ dma_blocks (trace (completions (firstn j ticks) (snd started)))
       = dma_blocks (trace s)
         ++ map (fun p => (src, p, 0, OLED_COLUMN_COUNT)) (seqZ 0 (Z.of_nat (j + 1)))
    /\ page_commands (trace (completions (firstn j ticks) (snd started)))
       = page_commands (trace s) ++ map (Z.lor 0xB0) (seqZ 0 (Z.of_nat (j + 1)))
    /\ display_writes (trace (completions (firstn j ticks) (snd started)))
       = display_writes (trace s) ++ [src]).
  { intros j Hj.
    destruct (completions_progress ticks (snd started) j Hp0 Hj ltac:(lia)) as (Hs & Hb & Hc & Hw).
    rewrite Hs, Hb, Hc, Hw, Hb0, Hd0, Hsrc, Hbl0, Hc0, Hw0.
    replace (Z.of_nat (j + 1)) with (1 + Z.of_nat j) by lia.
    rewrite seqZ_app by lia. rewrite !map_app, <- !app_assoc.
    repeat split; reflexivity. }
  destruct (Nat.ltb_spec k 8) as [Hlt|Hge].
  - destruct (Hprog k ltac:(lia)) as (Hs & Hb & Hc & Hw).
    fold sk in Hs, Hb, Hc, Hw.
    apply session_eq in Hs as (Hbk & Hpk & Hbufk & Hdk).
    replace (Nat.min (k + 1) 8) with (k + 1)%nat by lia.
    repeat split; assumption.
  - assert (k = 8)%nat by lia. subst k.
    destruct (Hprog 7%nat ltac:(lia)) as (Hs & Hb & Hc & Hw).
    destruct (lookup_lt_is_Some_2 ticks 7 ltac:(lia)) as [t Ht].
    unfold sk. rewrite (take_S_r _ _ _ Ht), completions_snoc.
    set (s7 := completions (take 7 ticks) (snd started)) in *.
    apply session_eq in Hs as (Hb7 & Hp7 & Hbuf7 & Hd7).
    destruct (OLED_DMA_IRQHandler_commits t s7 Hp7) as [Hs8 Ht8].
    apply session_eq in Hs8 as (Hb8 & Hp8 & Hbuf8 & Hd8).
    rewrite Ht8, !dma_blocks_app, !page_commands_app, !display_writes_app.
    rewrite Hb, Hc, Hw, Hb8, Hd8, Hbuf7, Hsrc.
    change (dma_blocks completion_events) with (@nil (gram_ptr * Z * Z * Z)).
    change (page_commands completion_events) with (@nil Z).
    change (display_writes completion_events) with (@nil gram_ptr).
    simpl. rewrite <- !app_assoc, !app_nil_r.
    repeat split; reflexivity.
Qed.

Lemma OLED_UpdateAsync_full_transfer_witness :
  OLED_DMA_TransferBusy driver_init = 0
  /\ display_writes (trace (completions (firstn 8 [1; 2; 3; 4; 5; 6; 7; 8])
                             (snd (OLED_UpdateAsync PageArmed 0 driver_init))))
     = display_writes (trace driver_init) ++ [PTR_GRAM1; PTR_GRAM1].
Proof.
  split; [reflexivity|].
  apply (OLED_UpdateAsync_full_transfer driver_init 0 [1; 2; 3; 4; 5; 6; 7; 8] 8
           eq_refl eq_refl (le_n 8)).
Defined.

(** C1, as stated, fails.  Start from the state the first complete
    frame leaves and begin a second frame: when the call returns, with
    page 0 just begun and no completion signal received, the display
    pointer has already moved from GRAM1 to the snapshot GRAM2; and over
    the whole second frame the pointer is assigned twice, not once. *)
Lemma OLED_UpdateAsync_moves_display_pointer_at_start :
  let s1 := completions [1; 2; 3; 4; 5; 6; 7; 8]
              (snd (OLED_UpdateAsync PageArmed 0 driver_init)) in
  let s2 := snd (OLED_UpdateAsync PageArmed 9 s1) in
  let s3 := completions [10; 11; 12; 13; 14; 15; 16; 17] s2 in
  OLED_DMA_TransferBusy s1 = 0
  /\ OLED_DISPLAY_GRAM s1 = PTR_GRAM1
  /\ ptr_of (active_buffer s1) = PTR_GRAM2
  /\ OLED_DISPLAY_GRAM s2 = PTR_GRAM2
  /\ OLED_DMA_TransferBusy s2 = 1
  /\ current_dma_page s2 = 0
  /\ display_writes (trace s2) = display_writes (trace s1) ++ [PTR_GRAM2]
  /\ display_writes (trace s3) = display_writes (trace s1) ++ [PTR_GRAM2; PTR_GRAM2]
  /\ length (display_writes (trace s3)) = (length (display_writes (trace s1)) + 2)%nat.
Proof. vm_compute. repeat split; reflexivity. Qed.

(** ** Rules for loops with fuel *)

Lemma while_loop_inv {T : Type} (P : T -> Prop) fuel (cond : T -> bool) (body : T -> T) s s' :
  P s -> (forall t, P t -> cond t = true -> P (body t)) ->
  while_loop fuel cond body s = Some s' -> P s' /\ cond s' = false.
Proof.
  intros H0 Hstep. revert s H0. induction fuel as [|fuel IH]; intros s H0 Hrun; simpl in Hrun.
  - discriminate.
  - destruct (cond s) eqn:Hc.
    + apply (IH (body s)); [apply Hstep; assumption|exact Hrun].
    + injection Hrun as <-. split; assumption.
Qed.

Lemma while_loop_terminates {T : Type} (m : T -> nat) (P : T -> Prop)
    (cond : T -> bool) (body : T -> T) :
  (forall t, P t -> cond t = true -> P (body t) /\ (m (body t) < m t)%nat) ->
  forall fuel s, P s -> (m s < fuel)%nat -> exists s', while_loop fuel cond body s = Some s'.
Proof.
  intros Hstep. induction fuel as [|fuel IH]; intros s HP Hm; [lia|]. simpl.
  destruct (cond s) eqn:Hc; [|eauto].
  destruct (Hstep s HP Hc) as [HP' Hm']. apply IH; [exact HP'|lia].
Qed.

(** Two loops that test the same thing, run in step. *)
Lemma while_loop_rel {T : Type} (R : T -> T -> Prop) fuel (cond : T -> bool)
    (body1 body2 : T -> T) s1 s2 s1' :
  R s1 s2 ->
  (forall t1 t2, R t1 t2 -> cond t1 = cond t2) ->
  (forall t1 t2, R t1 t2 -> cond t1 = true -> R (body1 t1) (body2 t2)) ->
  while_loop fuel cond body1 s1 = Some s1' ->
  exists s2', while_loop fuel cond body2 s2 = Some s2' /\ R s1' s2'.
Proof.
  intros H0 Hcond Hstep. revert s1 s2 H0.
  induction fuel as [|fuel IH]; intros s1 s2 H0 Hrun; simpl in *; [discriminate|].
  rewrite <- (Hcond s1 s2 H0). destruct (cond s1) eqn:Hc.
  - apply (IH (body1 s1) (body2 s2)); [apply Hstep; assumption|exact Hrun].
  - injection Hrun as <-. eauto.
Qed.

(** ** Drawing in white never clears a bit *)

Lemma gram_le_refl g : gram_le g g.
Proof. intros p c b H. exact H. Qed.

Lemma gram_le_trans g1 g2 g3 : gram_le g1 g2 -> gram_le g2 g3 -> gram_le g1 g3.
Proof. intros H12 H23 p c b H. apply H23, H12, H. Qed.

Lemma grows_refl g : gram_ok g = true -> grows g g.
Proof. intros H. split; [exact H|apply gram_le_refl]. Qed.

Lemma OLED_DrawPoint_white_le X Y g :
  gram_ok g = true -> gram_le g (OLED_DrawPoint X Y 1 g).
Proof.
  intros Hok p c b Hbit.
  destruct (OLED_CHECK_COORDINATES X Y) eqn:Hchk.
  { unfold OLED_DrawPoint. rewrite Hchk. exact Hbit. }
  apply on_screen_check in Hchk as [HX HY].
  rewrite OLED_DrawPoint_bit by assumption.
  destruct ((p =? Y / 8) && (c =? X) && (b =? Y mod 8)); [reflexivity|exact Hbit].
Qed.

Lemma OLED_DrawPoint_white_mono X Y g1 g2 :
  gram_ok g1 = true -> gram_ok g2 = true -> gram_le g1 g2 ->
  gram_le (OLED_DrawPoint X Y 1 g1) (OLED_DrawPoint X Y 1 g2).
Proof.
  intros Hok1 Hok2 Hle p c b.
  destruct (OLED_CHECK_COORDINATES X Y) eqn:Hchk.
  { unfold OLED_DrawPoint. rewrite Hchk. apply Hle. }
  apply on_screen_check in Hchk as [HX HY].
  rewrite !OLED_DrawPoint_bit by assumption.
  destruct ((p =? Y / 8) && (c =? X) && (b =? Y mod 8)); [auto|apply Hle].
Qed.

Lemma grows_DrawPoint_white X Y g0 g :
  grows g0 g -> grows g0 (OLED_DrawPoint X Y 1 g).
Proof.
  intros [Hok Hle]. split; [apply OLED_DrawPoint_ok, Hok|].
  eapply gram_le_trans; [exact Hle|apply OLED_DrawPoint_white_le, Hok].
Qed.

(** A pixel drawn in white on the screen reads back as 1, and stays 1
    in every buffer that grows from there. *)
Lemma pixel_DrawPoint_white X Y g :
  gram_ok g = true -> 0 <= X < 128 -> 0 <= Y < 64 ->
  pixel (OLED_DrawPoint X Y 1 g) X Y = true.
Proof.
  intros Hok HX HY. unfold pixel. rewrite OLED_DrawPoint_bit by assumption.
  rewrite !Z.eqb_refl. reflexivity.
Qed.

Lemma pixel_grows g g' x y : gram_le g g' -> pixel g x y = true -> pixel g' x y = true.
Proof. intros Hle. unfold pixel. apply Hle. Qed.

(** ** OLED_DrawLine *)

Lemma line_plot_grows yflag xyflag x y g0 g :
  grows g0 g -> grows g0 (line_plot yflag xyflag x y g).
Proof.
  intros H. unfold line_plot.
  destruct (yflag && xyflag); [apply grows_DrawPoint_white, H|].
  destruct yflag; [apply grows_DrawPoint_white, H|].
  destruct xyflag; apply grows_DrawPoint_white, H.
Qed.

Lemma line_loop_grows yflag xyflag incrE incrNE x1 g0 fuel s0 :
  grows g0 (ln_g s0) -> -32768 <= ln_x s0 -> x1 <= 32767 ->
  (Z.to_nat (x1 - ln_x s0) < fuel)%nat ->
  exists s', while_loop fuel (fun s => ln_x s <? x1)
               (line_step yflag xyflag incrE incrNE) s0 = Some s'
             /\ grows g0 (ln_g s').
Proof.
  intros Hg Hx Hx1 Hfuel.
  destruct (while_loop_terminates
              (fun s => Z.to_nat (x1 - ln_x s)) (fun s => -32768 <= ln_x s)
              (fun s => ln_x s <? x1) (line_step yflag xyflag incrE incrNE)) with (fuel := fuel) (s := s0)
    as [s' Hrun]; try assumption.
  { intros t Ht Hc. apply Z.ltb_lt in Hc. unfold line_step. simpl.
    rewrite s16_small by lia. lia. }
  exists s'. split; [exact Hrun|].
  apply (while_loop_inv (fun s => grows g0 (ln_g s))) in Hrun as [Hs' _]; [exact Hs'|exact Hg|].
  intros t Ht _. unfold line_step. simpl. apply line_plot_grows, Ht.
Qed.

Lemma for_range_DrawPoint_grows a b (pt : Z -> Z * Z) g0 g :
  grows g0 g ->
  grows g0 (for_range a b (fun j g => OLED_DrawPoint (fst (pt j)) (snd (pt j)) 1 g) g).
Proof.
  intros H. apply for_range_inv; [exact H|].
  intros j t _ Ht. apply grows_DrawPoint_white, Ht.
Qed.

Lemma OLED_DrawLine_grows fuel X0 Y0 X1 Y1 Color g :
  gram_ok g = true -> (128 <= fuel)%nat ->
  exists g', OLED_DrawLine fuel X0 Y0 X1 Y1 Color g = Some g' /\ grows g g'.
Proof.
  intros Hok Hfuel. unfold OLED_DrawLine.
  destruct (OLED_CHECK_COORDINATES X0 Y0) eqn:H0; [eauto using grows_refl|].
  destruct (OLED_CHECK_COORDINATES X1 Y1) eqn:H1; [eauto using grows_refl|].
  apply on_screen_check in H0 as [HX0 HY0]. apply on_screen_check in H1 as [HX1 HY1].
  destruct (Y0 =? Y1).
  { destruct (X0 >? X1); eexists; (split; [reflexivity|]);
      apply (for_range_DrawPoint_grows _ _ (fun x => (x, Y0))), grows_refl, Hok. }
  destruct (X0 =? X1).
  { destruct (Y0 >? Y1); eexists; (split; [reflexivity|]);
      apply (for_range_DrawPoint_grows _ _ (fun y => (X0, y))), grows_refl, Hok. }
  destruct (Z.gtb_spec X0 X1) as [Hsw|Hsw];
    [destruct (Z.gtb_spec Y1 Y0) as [Hyf|Hyf]|destruct (Z.gtb_spec Y0 Y1) as [Hyf|Hyf]];
    rewrite ?(s16_small (- Y0)), ?(s16_small (- Y1)) by lia;
    match goal with |- context [?a >? ?b] => destruct (Z.gtb_spec a b) as [Hxy|Hxy] end;
    match goal with
    | |- exists g', option_map ln_g (while_loop fuel _ (line_step ?yf ?xyf ?iE ?iNE) ?s0) = Some g' /\ _ =>
        match goal with
        | |- context [while_loop fuel (fun s => ln_x s <? ?x1)] =>
            destruct (line_loop_grows yf xyf iE iNE x1 g fuel s0) as [s' [Hrun Hs']];
              [apply line_plot_grows, grows_refl, Hok|simpl; lia|lia|simpl; lia|];
              exists (ln_g s'); rewrite Hrun; split; [reflexivity|exact Hs']
        end
    end.
Qed.

(** C10.  When an endpoint lies outside the logical screen the call
    returns the buffer it was given, whatever the other endpoint, the
    colour, or how much of the segment crosses the screen. *)
Theorem OLED_DrawLine_rejects_offscreen_endpoint (fuel : nat) (X0 Y0 X1 Y1 Color : Z) (g : gram) :
  ~ on_screen X0 Y0 \/ ~ on_screen X1 Y1 ->
  OLED_DrawLine fuel X0 Y0 X1 Y1 Color g = Some g.
Proof.
  intros Hout. unfold OLED_DrawLine.
  destruct (OLED_CHECK_COORDINATES X0 Y0) eqn:H0; [reflexivity|].
  destruct (OLED_CHECK_COORDINATES X1 Y1) eqn:H1; [reflexivity|].
  apply on_screen_check in H0, H1. exfalso.
  unfold on_screen, OLED_WIDTH, OLED_HEIGHT in Hout. tauto.
Qed.

Lemma OLED_DrawLine_rejects_offscreen_endpoint_witness :
  ~ on_screen (-1) 10
  /\ OLED_DrawLine 128 (-1) 10 50 10 OLED_COLOR_WHITE gram_zero = Some gram_zero.
Proof.
  assert (Hout : ~ on_screen (-1) 10)
    by (unfold on_screen, OLED_WIDTH, OLED_HEIGHT; lia).
  split; [exact Hout|].
  apply (OLED_DrawLine_rejects_offscreen_endpoint 128 (-1) 10 50 10 OLED_COLOR_WHITE gram_zero
           (or_introl Hout)).
Defined.

Lemma line_plot_point yflag xyflag x y g :
  line_plot yflag xyflag x y g
  = OLED_DrawPoint (fst (line_point yflag xyflag x y)) (snd (line_point yflag xyflag x y)) 1 g.
Proof. unfold line_plot, line_point. destruct yflag, xyflag; reflexivity. Qed.

Lemma line_plot_pixel yflag xyflag x y g :
  gram_ok g = true ->
  on_screen (fst (line_point yflag xyflag x y)) (snd (line_point yflag xyflag x y)) ->
  pixel (line_plot yflag xyflag x y g)
    (fst (line_point yflag xyflag x y)) (snd (line_point yflag xyflag x y)) = true.
Proof.
  intros Hok [Hx Hy]. rewrite line_plot_point.
  apply pixel_DrawPoint_white; assumption.
Qed.

Lemma line_plot_le yflag xyflag x y g :
  gram_ok g = true -> gram_le g (line_plot yflag xyflag x y g).
Proof. intros Hok. rewrite line_plot_point. apply OLED_DrawPoint_white_le, Hok. Qed.

(** Bresenham's loop in the first octant ends on the far endpoint: with
    [0 <= dy <= dx] the decision variable keeps
    [d = 2 dy (x - x0 + 1) - 2 dx (y - y0) - dx] within
    [2 dy - 2 dx <= d < 2 dy], which at [x = x1] leaves [y = y1]. *)
Lemma line_loop_reaches yflag xyflag x0 y0 x1 y1 g0 g fuel :
  -127 <= x0 -> x0 < x1 <= 127 -> -127 <= y0 <= y1 -> y1 <= 127 ->
  y1 - y0 <= x1 - x0 -> x1 - x0 <= 127 ->
  grows g0 g ->
  (128 <= fuel)%nat ->
  exists s',
    while_loop fuel (fun s => ln_x s <? x1)
      (line_step yflag xyflag (2 * (y1 - y0)) (2 * (y1 - y0 - (x1 - x0))))
      (mk_line x0 y0 (2 * (y1 - y0) - (x1 - x0)) (line_plot yflag xyflag x0 y0 g)) = Some s'
    /\ grows g0 (ln_g s')
    /\ (on_screen (fst (line_point yflag xyflag x0 y0)) (snd (line_point yflag xyflag x0 y0)) ->
        pixel (ln_g s')
          (fst (line_point yflag xyflag x0 y0)) (snd (line_point yflag xyflag x0 y0)) = true)
    /\ (on_screen (fst (line_point yflag xyflag x1 y1)) (snd (line_point yflag xyflag x1 y1)) ->
        pixel (ln_g s')
          (fst (line_point yflag xyflag x1 y1)) (snd (line_point yflag xyflag x1 y1)) = true).
Proof.
  intros Hx0 Hx1 Hy0 Hy1 Hoct Hlen Hg Hfuel.
  set (dx := x1 - x0) in *. set (dy := y1 - y0) in *.
  pose (Inv := fun s : line_state =>
    x0 <= ln_x s <= x1 /\ y0 <= ln_y s <= y1
    /\ ln_d s = 2 * dy * (ln_x s - x0 + 1) - 2 * dx * (ln_y s - y0) - dx
    /\ 2 * dy - 2 * dx <= ln_d s < 2 * dy
    /\ grows g0 (ln_g s)
    /\ (on_screen (fst (line_point yflag xyflag x0 y0)) (snd (line_point yflag xyflag x0 y0)) ->
        pixel (ln_g s)
          (fst (line_point yflag xyflag x0 y0)) (snd (line_point yflag xyflag x0 y0)) = true)
    /\ (on_screen (fst (line_point yflag xyflag (ln_x s) (ln_y s)))
                  (snd (line_point yflag xyflag (ln_x s) (ln_y s))) ->
        pixel (ln_g s) (fst (line_point yflag xyflag (ln_x s) (ln_y s)))
                       (snd (line_point yflag xyflag (ln_x s) (ln_y s))) = true)).
  assert (Hstep : forall t, Inv t -> (ln_x t <? x1) = true ->
            Inv (line_step yflag xyflag (2 * dy) (2 * (dy - dx)) t)
            /\ (Z.to_nat (x1 - ln_x (line_step yflag xyflag (2 * dy) (2 * (dy - dx)) t))
                < Z.to_nat (x1 - ln_x t))%nat).
  { intros [x y d gt] (Hx & Hy & Hd & Hb & Hgt & Hst & _) Hc. simpl in *.
    apply Z.ltb_lt in Hc. unfold line_step. simpl.
    rewrite (s16_small (x + 1)) by lia.
    assert (Hyle : 0 <= d -> y + 1 <= y1).
    { intros Hd0. unfold dx, dy in *. nia. }
    split; [|lia].
    destruct (Z.ltb_spec d 0) as [Hneg|Hpos].
    - rewrite (s16_small (d + 2 * dy)) by (unfold dx, dy in *; lia).
      unfold Inv. simpl.
      split; [lia|]. split; [lia|]. split; [lia|]. split; [lia|].
      split; [apply line_plot_grows, Hgt|]. split.
      + intros Hon. eapply pixel_grows; [apply line_plot_le, Hgt|apply Hst, Hon].
      + intros Hon. apply line_plot_pixel; [exact (proj1 Hgt)|exact Hon].
    - specialize (Hyle Hpos).
      rewrite (s16_small (y + 1)) by lia.
      rewrite (s16_small (d + 2 * (dy - dx))) by (unfold dx, dy in *; lia).
      unfold Inv. simpl.
      split; [lia|]. split; [lia|]. split; [lia|]. split; [lia|].
      split; [apply line_plot_grows, Hgt|]. split.
      + intros Hon. eapply pixel_grows; [apply line_plot_le, Hgt|apply Hst, Hon].
      + intros Hon. apply line_plot_pixel; [exact (proj1 Hgt)|exact Hon]. }
  assert (Hinit : Inv (mk_line x0 y0 (2 * dy - dx) (line_plot yflag xyflag x0 y0 g))).
  { unfold Inv. simpl.
    split; [lia|]. split; [lia|]. split; [lia|]. split; [lia|].
    split; [apply line_plot_grows, Hg|].
    split; intros Hon; (apply line_plot_pixel; [exact (proj1 Hg)|exact Hon]). }
  destruct (while_loop_terminates (fun s => Z.to_nat (x1 - ln_x s)) Inv
              (fun s => ln_x s <? x1) (line_step yflag xyflag (2 * dy) (2 * (dy - dx)))
              Hstep fuel _ Hinit) as [s' Hrun].
  { simpl. unfold dx in *. lia. }
  exists s'. split; [exact Hrun|].
  apply (while_loop_inv Inv) in Hrun as [Hs' Hexit]; [|exact Hinit|intros t Ht Hc; apply Hstep; assumption].
  destruct Hs' as (Hx & Hy & Hd & Hb & Hgs & Hst & Hpix).
  apply Z.ltb_ge in Hexit.
  assert (Hxe : ln_x s' = x1) by lia.
  assert (Hye : ln_y s' = y1).
  { rewrite Hxe in Hd. unfold dx, dy in *. nia. }
  split; [exact Hgs|]. split; [exact Hst|]. rewrite Hxe, Hye in Hpix. exact Hpix.
Qed.

(** The same, on the expressions of [OLED_DrawLine], whose [int16_t]
    conversions leave these small values alone. *)
Lemma line_loop_reaches_s16 yflag xyflag x0 y0 x1 y1 g0 g fuel :
  -127 <= x0 -> x0 < x1 <= 127 -> -127 <= y0 <= y1 -> y1 <= 127 ->
  y1 - y0 <= x1 - x0 -> x1 - x0 <= 127 ->
  grows g0 g ->
  (128 <= fuel)%nat ->
  exists s',
    while_loop fuel (fun s => ln_x s <? x1)
      (line_step yflag xyflag (s16 (2 * s16 (y1 - y0)))
         (s16 (2 * (s16 (y1 - y0) - s16 (x1 - x0)))))
      (mk_line x0 y0 (s16 (2 * s16 (y1 - y0) - s16 (x1 - x0)))
         (line_plot yflag xyflag x0 y0 g)) = Some s'
    /\ grows g0 (ln_g s')
    /\ (on_screen (fst (line_point yflag xyflag x0 y0)) (snd (line_point yflag xyflag x0 y0)) ->
        pixel (ln_g s')
          (fst (line_point yflag xyflag x0 y0)) (snd (line_point yflag xyflag x0 y0)) = true)
    /\ (on_screen (fst (line_point yflag xyflag x1 y1)) (snd (line_point yflag xyflag x1 y1)) ->
        pixel (ln_g s')
          (fst (line_point yflag xyflag x1 y1)) (snd (line_point yflag xyflag x1 y1)) = true).
Proof.
  intros Hx0 Hx1 Hy0 Hy1 Hoct Hlen Hg Hfuel.
  rewrite (s16_small (y1 - y0)), (s16_small (x1 - x0)) by lia.
  rewrite (s16_small (2 * (y1 - y0))), (s16_small (2 * (y1 - y0 - (x1 - x0)))),
    (s16_small (2 * (y1 - y0) - (x1 - x0))) by lia.
  apply line_loop_reaches; assumption.
Qed.

Lemma for_range_DrawPoint_pixel a b (pt : Z -> Z * Z) j0 g0 g :
  grows g0 g -> a <= j0 < b -> on_screen (fst (pt j0)) (snd (pt j0)) ->
  pixel (for_range a b (fun j g => OLED_DrawPoint (fst (pt j)) (snd (pt j)) 1 g) g)
    (fst (pt j0)) (snd (pt j0)) = true.
Proof.
  intros Hg Hj [Hx Hy]. unfold OLED_WIDTH, OLED_HEIGHT in *.
  assert (H : grows g0 (for_range a b (fun j g => OLED_DrawPoint (fst (pt j)) (snd (pt j)) 1 g) g)
              /\ (j0 < b -> pixel (for_range a b (fun j g =>
                     OLED_DrawPoint (fst (pt j)) (snd (pt j)) 1 g) g)
                     (fst (pt j0)) (snd (pt j0)) = true)).
  { apply (for_range_ind (fun j t => grows g0 t /\
             (j0 < j -> pixel t (fst (pt j0)) (snd (pt j0)) = true))); [lia| |].
    - split; [exact Hg|lia].
    - intros j t Hjr [Ht Hp]. split; [apply grows_DrawPoint_white, Ht|].
      intros Hlt. destruct (Z.eq_dec j j0) as [->|Hne].
      + apply pixel_DrawPoint_white; [exact (proj1 Ht)|lia|lia].
      + eapply pixel_grows; [apply OLED_DrawPoint_white_le, Ht|apply Hp; lia]. }
  apply H. lia.
Qed.

(** Both endpoints of a line on the screen are white afterwards. *)
Lemma OLED_DrawLine_endpoints fuel X0 Y0 X1 Y1 Color g :
  gram_ok g = true -> (128 <= fuel)%nat ->
  on_screen X0 Y0 -> on_screen X1 Y1 ->
  exists g', OLED_DrawLine fuel X0 Y0 X1 Y1 Color g = Some g' /\ grows g g'
             /\ pixel g' X0 Y0 = true /\ pixel g' X1 Y1 = true.
Proof.
  intros Hok Hfuel Hon0 Hon1. unfold OLED_DrawLine.
  pose proof Hon0 as [HX0 HY0]. pose proof Hon1 as [HX1 HY1].
  unfold OLED_WIDTH, OLED_HEIGHT in *.
  replace (OLED_CHECK_COORDINATES X0 Y0) with false by (symmetry; apply on_screen_check; lia).
  replace (OLED_CHECK_COORDINATES X1 Y1) with false by (symmetry; apply on_screen_check; lia).
  destruct (Z.eqb_spec Y0 Y1) as [Hy|Hy].
  { subst Y1.
    destruct (Z.gtb_spec X0 X1); eexists; (split; [reflexivity|]);
      (split; [apply (for_range_DrawPoint_grows _ _ (fun x => (x, Y0))), grows_refl, Hok|]);
      split.
    all: try (apply (for_range_DrawPoint_pixel _ _ (fun x => (x, Y0)) X0 g);
              [apply grows_refl, Hok|lia|split; simpl; unfold OLED_WIDTH, OLED_HEIGHT; lia]).
    all: try (apply (for_range_DrawPoint_pixel _ _ (fun x => (x, Y0)) X1 g);
              [apply grows_refl, Hok|lia|split; simpl; unfold OLED_WIDTH, OLED_HEIGHT; lia]). }
  destruct (Z.eqb_spec X0 X1) as [Hx|Hx].
  { subst X1.
    destruct (Z.gtb_spec Y0 Y1); eexists; (split; [reflexivity|]);
      (split; [apply (for_range_DrawPoint_grows _ _ (fun y => (X0, y))), grows_refl, Hok|]);
      split.
    all: try (apply (for_range_DrawPoint_pixel _ _ (fun y => (X0, y)) Y0 g);
              [apply grows_refl, Hok|lia|split; simpl; unfold OLED_WIDTH, OLED_HEIGHT; lia]).
    all: try (apply (for_range_DrawPoint_pixel _ _ (fun y => (X0, y)) Y1 g);
              [apply grows_refl, Hok|lia|split; simpl; unfold OLED_WIDTH, OLED_HEIGHT; lia]). }
  destruct (Z.gtb_spec X0 X1) as [Hsw|Hsw];
    [destruct (Z.gtb_spec Y1 Y0) as [Hyf|Hyf]|destruct (Z.gtb_spec Y0 Y1) as [Hyf|Hyf]];
    rewrite ?(s16_small (- Y0)), ?(s16_small (- Y1)) by lia;
    match goal with |- context [?a >? ?b] => destruct (Z.gtb_spec a b) as [Hxy|Hxy] end.
  all: match goal with
    | |- context [while_loop ?f (fun s => ln_x s <? ?x1)
                    (line_step ?yf ?xyf (s16 (2 * s16 (?y1 - ?y0))) _) (mk_line ?x0 _ _ (line_plot _ _ _ _ ?g))] =>
        destruct (line_loop_reaches_s16 yf xyf x0 y0 x1 y1 g g f)
          as (s' & Hrun & Hgs & Hst & Hen);
          [lia|lia|lia|lia|lia|lia|apply grows_refl; assumption|assumption|];
          exists (ln_g s'); rewrite Hrun; split; [reflexivity|]; split; [exact Hgs|]
    end.
  all: unfold line_point in Hst, Hen; simpl in Hst, Hen.
  all: rewrite ?Z.opp_involutive in Hst, Hen.
  all: assert (E0 : s16 Y0 = Y0) by (apply s16_small; lia).
  all: assert (E1 : s16 Y1 = Y1) by (apply s16_small; lia).
  all: rewrite ?E0, ?E1 in Hst; rewrite ?E0, ?E1 in Hen.
  all: split; first [apply Hst; assumption | apply Hen; assumption].
Qed.

(** ** OLED_DrawCircle *)

Lemma covers_DrawPoint X Y g1 g2 :
  covers g1 g2 -> covers (OLED_DrawPoint X Y 1 g1) (OLED_DrawPoint X Y 1 g2).
Proof.
  intros (H1 & H2 & Hle). split; [apply OLED_DrawPoint_ok, H1|].
  split; [apply OLED_DrawPoint_ok, H2|]. apply OLED_DrawPoint_white_mono; assumption.
Qed.

Lemma covers_DrawPoint_right X Y g1 g2 :
  covers g1 g2 -> covers g1 (OLED_DrawPoint X Y 1 g2).
Proof.
  intros (H1 & H2 & Hle). split; [exact H1|].
  split; [apply OLED_DrawPoint_ok, H2|].
  eapply gram_le_trans; [exact Hle|apply OLED_DrawPoint_white_le, H2].
Qed.

Lemma covers_circle_octants X Y x y g1 g2 :
  covers g1 g2 -> covers (circle_octants X Y x y g1) (circle_octants X Y x y g2).
Proof. intros H. unfold circle_octants. do 8 apply covers_DrawPoint. exact H. Qed.

Lemma covers_circle_spans X Y x y g1 g2 :
  covers g1 g2 -> covers g1 (circle_spans X Y x y g2).
Proof.
  intros H. unfold circle_spans.
  apply (for_range_inv (covers g1)).
  - apply (for_range_inv (covers g1)); [exact H|].
    intros j t _ Ht. do 2 apply covers_DrawPoint_right. exact Ht.
  - intros j t _ Ht. do 2 apply covers_DrawPoint_right. exact Ht.
Qed.

(** The loop of the circle ends: [x] goes up by one and [y] never goes
    up while [x < y]. *)
Lemma circle_loop_terminates X Y IsFilled fuel s0 :
  -32768 <= ci_x s0 -> ci_y s0 <= 32767 ->
  (Z.to_nat (ci_y s0 - ci_x s0) < fuel)%nat ->
  exists s', while_loop fuel (fun s => ci_x s <? ci_y s) (circle_step X Y IsFilled) s0 = Some s'.
Proof.
  intros Hx Hy Hfuel.
  apply (while_loop_terminates (fun s => Z.to_nat (ci_y s - ci_x s))
           (fun s => -32768 <= ci_x s /\ ci_y s <= 32767)); [|split; assumption|exact Hfuel].
  intros [x y d g] [Hx' Hy'] Hc. simpl in *. apply Z.ltb_lt in Hc.
  unfold circle_step. simpl. rewrite (s16_small (x + 1)) by lia.
  destruct (d <? 0); [lia|]. rewrite (s16_small (y - 1)) by lia. lia.
Qed.

(** C7.  Drawn on the same buffer, every pixel that is 1 after the
    unfilled circle is 1 after the filled circle of the same centre and
    radius; on a cleared buffer these are the pixels the two calls plot.
    Both calls return when the fuel exceeds the radius. *)
Theorem OLED_DrawCircle_outline_within_fill (fuel : nat) (X Y Radius IsFilled : Z) (g : gram) :
  gram_ok g = true -> -32768 <= Radius <= 32767 -> (Z.to_nat Radius < fuel)%nat ->
  exists g1 g2,
    OLED_DrawCircle fuel X Y Radius 0 g = Some g1
    /\ OLED_DrawCircle fuel X Y Radius IsFilled g = Some g2
    /\ forall x y, pixel g1 x y = true -> pixel g2 x y = true.
Proof.
  intros Hok HR Hfuel. unfold OLED_DrawCircle. change (0 =? 0) with true. cbv iota.
  set (g4 := OLED_DrawPoint (s16 (X - Radius)) (s16 (Y - 0)) 1
               (OLED_DrawPoint (s16 (X + Radius)) (s16 (Y + 0)) 1
                  (OLED_DrawPoint (s16 (X - 0)) (s16 (Y - Radius)) 1
                     (OLED_DrawPoint (s16 (X + 0)) (s16 (Y + Radius)) 1 g)))).
  assert (Hok4 : gram_ok g4 = true) by (unfold g4; do 4 apply OLED_DrawPoint_ok; exact Hok).
  set (g5 := if IsFilled =? 0 then g4
             else for_range (s16 (- Radius)) Radius
                    (fun j g => OLED_DrawPoint X (s16 (Y + j)) 1 g) g4).
  assert (Hc5 : covers g4 g5).
  { unfold g5. destruct (IsFilled =? 0).
    - split; [exact Hok4|]. split; [exact Hok4|apply gram_le_refl].
    - apply (for_range_inv (covers g4)).
      + split; [exact Hok4|]. split; [exact Hok4|apply gram_le_refl].
      + intros j t _ Ht. apply covers_DrawPoint_right, Ht. }
  destruct (circle_loop_terminates X Y 0 fuel (mk_circle 0 Radius (s16 (1 - Radius)) g4))
    as [s1 Hrun1]; [simpl; lia|simpl; lia|simpl; rewrite Z.sub_0_r; exact Hfuel|].
  destruct (while_loop_rel
              (fun t1 t2 => ci_x t1 = ci_x t2 /\ ci_y t1 = ci_y t2 /\ ci_d t1 = ci_d t2
                            /\ covers (ci_g t1) (ci_g t2))
              fuel (fun s => ci_x s <? ci_y s) (circle_step X Y 0) (circle_step X Y IsFilled)
              (mk_circle 0 Radius (s16 (1 - Radius)) g4)
              (mk_circle 0 Radius (s16 (1 - Radius)) g5) s1)
    as (s2 & Hrun2 & Hrel); [simpl; auto| | |exact Hrun1|].
  - intros t1 t2 (Hx & Hy & _). rewrite Hx, Hy. reflexivity.
  - intros [x1 y1 d1 h1] [x2 y2 d2 h2] (Hx & Hy & Hd & Hc) _. simpl in *. subst x2 y2 d2.
    unfold circle_step. simpl.
    split; [reflexivity|]. split; [reflexivity|]. split; [reflexivity|].
    destruct (IsFilled =? 0).
    + apply covers_circle_octants, Hc.
    + apply covers_circle_spans, covers_circle_octants, Hc.
  - exists (ci_g s1), (ci_g s2). rewrite Hrun1, Hrun2.
    split; [reflexivity|]. split; [reflexivity|].
    destruct Hrel as (_ & _ & _ & _ & _ & Hle).
    intros x y. apply pixel_grows, Hle.
Qed.

Lemma OLED_DrawCircle_outline_within_fill_witness :
  gram_ok gram_zero = true
  /\ exists g1 g2,
       OLED_DrawCircle 4 10 10 3 0 gram_zero = Some g1
       /\ OLED_DrawCircle 4 10 10 3 1 gram_zero = Some g2
       /\ forall x y, pixel g1 x y = true -> pixel g2 x y = true.
Proof.
  split; [reflexivity|].
  apply (OLED_DrawCircle_outline_within_fill 4 10 10 3 1 gram_zero eq_refl).
  - lia.
  - simpl. lia.
Defined.

(** ** OLED_DrawRectangle *)

(** C5.  The claim fails on the code beyond the right and bottom edges:
    for [X >= 128] or [Y >= 64] the guard [OLED_CHECK_RECTANGLE] returns
    first and nothing is drawn, so the wrap [X %= 128], [Y %= 64] that
    follows it in the function is never reached. *)
Theorem OLED_DrawRectangle_past_edge_draws_nothing
    (fuel : nat) (X Y Width Height IsFilled : Z) (g : gram) :
  OLED_WIDTH <= X \/ OLED_HEIGHT <= Y ->
  OLED_DrawRectangle fuel X Y Width Height IsFilled g = Some g.
Proof.
  intros Hout. unfold OLED_DrawRectangle, OLED_CHECK_RECTANGLE.
  destruct (Width =? 0); [reflexivity|]. destruct (Height =? 0); [reflexivity|]. simpl.
  destruct (Z.geb_spec X OLED_WIDTH); [reflexivity|].
  destruct (Z.geb_spec Y OLED_HEIGHT); [reflexivity|]. lia.
Qed.

Lemma OLED_DrawRectangle_past_edge_draws_nothing_witness :
  (OLED_WIDTH <= 130 \/ OLED_HEIGHT <= 10)
  /\ OLED_DrawRectangle 256 130 10 4 4 1 gram_zero = Some gram_zero.
Proof.
  assert (Hout : OLED_WIDTH <= 130 \/ OLED_HEIGHT <= 10)
    by (left; unfold OLED_WIDTH; lia).
  split; [exact Hout|].
  apply (OLED_DrawRectangle_past_edge_draws_nothing 256 130 10 4 4 1 gram_zero Hout).
Defined.

(** What wrapping would have drawn for the same rectangle ([130 mod 128
    = 2]), and what the code draws for an origin on the screen whose
    extent runs past the right edge. *)
Example OLED_DrawRectangle_wraps_from_inside :
  option_map (fun g => (pixel g 2 10, pixel g 5 13))
    (OLED_DrawRectangle 256 2 10 4 4 1 gram_zero) = Some (true, true)
  /\ option_map (fun g => (pixel g 126 10, pixel g 127 10, pixel g 0 10, pixel g 1 10))
       (OLED_DrawRectangle 256 126 10 4 1 1 gram_zero) = Some (true, true, true, true).
Proof. vm_compute. split; reflexivity. Qed.

(** A negative multiple of the width is mapped to [X = 128], which
    [OLED_DrawPoint] rejects: the outline loses its left edge. *)
Example OLED_DrawRectangle_minus_width_loses_left_edge :
  option_map (fun g => (pixel g 0 10, pixel g 0 11, pixel g 0 12, pixel g 3 11))
    (OLED_DrawRectangle 256 (-128) 10 4 3 0 gram_zero) = Some (true, false, true, true).
Proof. vm_compute. reflexivity. Qed.

(** ** OLED_Printf *)

Lemma until_nul_ascii str : Forall (fun b => 0 < b < 128) str -> until_nul str = str.
Proof.
  induction 1 as [|b str Hb _ IH]; simpl; [reflexivity|].
  destruct (Z.eqb_spec b 0); [lia|]. rewrite IH. reflexivity.
Qed.

Lemma vsnprintf_128_ascii str :
  Forall (fun b => 0 < b < 128) str -> (length str <= 127)%nat -> vsnprintf_128 str = str.
Proof.
  intros Ha Hl. unfold vsnprintf_128. rewrite until_nul_ascii by exact Ha.
  apply firstn_all2. exact Hl.
Qed.

Lemma land_0x80_ascii b : 0 <= b < 128 -> Z.land b 0x80 = 0.
Proof.
  intros Hb. apply Z.bits_inj'. intros i Hi.
  rewrite Z.land_spec, Z.bits_0. change 128 with (2 ^ 7).
  rewrite Z.pow2_bits_eqb by lia.
  destruct (Z.eqb_spec 7 i) as [<-|Hne]; [|apply andb_false_r].
  rewrite andb_true_r.
  rewrite <- (Z.mod_small b (2 ^ 7)) by (change (2 ^ 7) with 128; lia).
  apply Z.mod_pow2_bits_high. lia.
Qed.

Lemma OLED_IsPureASCII_ascii str :
  Forall (fun b => 0 < b < 128) str -> OLED_IsPureASCII str = true.
Proof.
  intros Ha. unfold OLED_IsPureASCII. apply forallb_forall. intros b Hin.
  rewrite Forall_forall in Ha. rewrite <- list_elem_of_In in Hin. specialize (Ha b Hin).
  rewrite land_0x80_ascii by lia. reflexivity.
Qed.

Section TextProperties.

Variable OLED_F8x16 : list (list Z).
Variable OLED_F6x8 : list (list Z).
Variable OLED_FindChineseChar : list Z -> option (list Z).
Variable OLED_ShowImage : Z -> Z -> Z -> Z -> list Z -> gram -> gram.

Lemma Printf_ascii_app X h w str1 str2 k :
  Printf_ascii OLED_F8x16 OLED_F6x8 X h w (str1 ++ str2) k
  = Printf_ascii OLED_F8x16 OLED_F6x8 X h w str2
      (Printf_ascii OLED_F8x16 OLED_F6x8 X h w str1 k).
Proof.
  revert k. induction str1 as [|c str1 IH]; intros k; simpl; [reflexivity|].
  destruct (c =? 10); [apply IH|]. destruct (c =? 13); apply IH.
Qed.

(** The cursor stays far below the [int16_t] limit over a string that
    fits the 128-byte scratch buffer. *)
Lemma Printf_ascii_bounds X Y h w str k n :
  0 <= X <= 127 -> 0 <= Y <= 63 -> 0 <= w <= 8 -> 0 <= h <= 16 ->
  X <= currentX k <= X + w * Z.of_nat n ->
  Y <= currentY k <= Y + h * Z.of_nat n ->
  (n + length str <= 127)%nat ->
  X <= currentX (Printf_ascii OLED_F8x16 OLED_F6x8 X h w str k)
       <= X + w * Z.of_nat (n + length str)
  /\ Y <= currentY (Printf_ascii OLED_F8x16 OLED_F6x8 X h w str k)
          <= Y + h * Z.of_nat (n + length str).
Proof.
  intros HX HY Hw Hh. revert k n.
  induction str as [|c str IH]; intros k n Hcx Hcy Hlen; simpl in *.
  - rewrite Nat.add_0_r. split; assumption.
  - replace (n + S (length str))%nat with (S n + length str)%nat by lia.
    assert (Hwn : 0 <= w * Z.of_nat n <= 1016) by nia.
    assert (Hhn : 0 <= h * Z.of_nat n <= 2032) by nia.
    assert (Hws : w * Z.of_nat (S n) = w * Z.of_nat n + w) by (rewrite Nat2Z.inj_succ; ring).
    assert (Hhs : h * Z.of_nat (S n) = h * Z.of_nat n + h) by (rewrite Nat2Z.inj_succ; ring).
    destruct (c =? 10); [|destruct (c =? 13)]; apply IH; simpl;
      rewrite ?s16_small by lia; lia.
Qed.

Lemma OLED_Printf_ascii_path X Y FontSize text g :
  on_screen X Y -> FontSize = 8 \/ FontSize = 16 ->
  Forall (fun b => 0 < b < 128) text -> (length text <= 127)%nat ->
  OLED_Printf OLED_F8x16 OLED_F6x8 OLED_FindChineseChar OLED_ShowImage X Y FontSize text g
  = Printf_ascii OLED_F8x16 OLED_F6x8 X FontSize (if FontSize =? 16 then 8 else 6) text
      (mk_cursor X Y g).
Proof.
  intros [HX HY] Hf Ha Hl. unfold OLED_WIDTH, OLED_HEIGHT in *. unfold OLED_Printf.
  replace (OLED_CHECK_COORDINATES X Y) with false by (symmetry; apply on_screen_check; lia).
  rewrite vsnprintf_128_ascii, OLED_IsPureASCII_ascii by assumption.
  destruct Hf as [-> | ->]; reflexivity.
Qed.

(** C8.  Rendering a pure ASCII text followed by one more character
    [c]: the cursor the text leaves moves right by the character pitch
    (6 for the 8-tall font, 8 for the 16-tall one) when [c] is rendered;
    ['\n'] moves it down by exactly one font height (and back to the
    start column) and ['\r'] moves it back to the start column, and for
    these two the buffer is the one the text alone leaves: no glyph is
    drawn for them. *)
Theorem OLED_Printf_cursor_advance (X Y FontSize : Z) (text : list Z) (c : Z) (g : gram) :
  on_screen X Y -> FontSize = 8 \/ FontSize = 16 ->
  Forall (fun b => 0 < b < 128) (text ++ [c]) -> (length (text ++ [c]) <= 127)%nat ->
  let pitch := if FontSize =? 16 then 8 else 6 in
  let k := OLED_Printf OLED_F8x16 OLED_F6x8 OLED_FindChineseChar OLED_ShowImage
             X Y FontSize text g in
  let k' := OLED_Printf OLED_F8x16 OLED_F6x8 OLED_FindChineseChar OLED_ShowImage
              X Y FontSize (text ++ [c]) g in
  (c = 10 ->
     currentX k' = X /\ currentY k' = currentY k + FontSize /\ cur_g k' = cur_g k)
  /\ (c = 13 ->
     currentX k' = X /\ currentY k' = currentY k /\ cur_g k' = cur_g k)
  /\ (c <> 10 -> c <> 13 ->
     currentX k' = currentX k + pitch /\ currentY k' = currentY k
     /\ cur_g k' = OLED_DrawASCIIFast OLED_F8x16 OLED_F6x8
                     (currentX k) (currentY k) c FontSize (cur_g k)).
Proof.
  intros Hon Hf Ha Hl pitch k k'.
  assert (Ha' : Forall (fun b => 0 < b < 128) text) by (apply Forall_app in Ha; apply Ha).
  rewrite length_app in Hl. simpl in Hl.
  assert (Hk : k = Printf_ascii OLED_F8x16 OLED_F6x8 X FontSize pitch text (mk_cursor X Y g)).
  { unfold k. apply OLED_Printf_ascii_path; (assumption || lia). }
  assert (Hk' : k' = Printf_ascii OLED_F8x16 OLED_F6x8 X FontSize pitch [c] k).
  { unfold k'. rewrite OLED_Printf_ascii_path; try assumption.
    - rewrite Printf_ascii_app, Hk. reflexivity.
    - rewrite length_app. simpl. lia. }
  destruct Hon as [HX HY]. unfold OLED_WIDTH, OLED_HEIGHT in *.
  assert (Hpitch : 0 <= pitch <= 8) by (unfold pitch; destruct (FontSize =? 16); lia).
  destruct (Printf_ascii_bounds X Y FontSize pitch text (mk_cursor X Y g) 0)
    as [Hbx Hby]; try (simpl; lia).
  rewrite <- Hk in Hbx, Hby. simpl in Hbx, Hby.
  rewrite Hk'. simpl. split; [|split].
  - intros ->. simpl. rewrite s16_small by (destruct Hf; nia). auto.
  - intros ->. simpl. auto.
  - intros H10 H13.
    destruct (Z.eqb_spec c 10); [contradiction|]. destruct (Z.eqb_spec c 13); [contradiction|].
    simpl. rewrite s16_small by nia. auto.
Qed.

End TextProperties.

Lemma OLED_Printf_cursor_advance_witness :
  on_screen 10 20
  /\ Forall (fun b => 0 < b < 128) ([72; 105] ++ [10])
  /\ currentY (OLED_Printf [] [] (fun _ => None) (fun _ _ _ _ _ g => g) 10 20 16
                 ([72; 105] ++ [10]) gram_zero)
     = currentY (OLED_Printf [] [] (fun _ => None) (fun _ _ _ _ _ g => g) 10 20 16
                   [72; 105] gram_zero) + 16.
Proof.
  assert (Hon : on_screen 10 20) by (unfold on_screen, OLED_WIDTH, OLED_HEIGHT; lia).
  assert (Ha : Forall (fun b => 0 < b < 128) ([72; 105] ++ [10]))
    by (repeat constructor; lia).
  split; [exact Hon|]. split; [exact Ha|].
  destruct (OLED_Printf_cursor_advance [] [] (fun _ => None) (fun _ _ _ _ _ g => g)
              10 20 16 [72; 105] 10 gram_zero Hon (or_intror eq_refl) Ha) as [Hnl _].
  - simpl. lia.
  - apply Hnl. reflexivity.
Defined.

(** ** OLED_UpdateArea *)


Lemma UpdateArea_pages_unfold fuel hw x1 data_len page end_page s :
  UpdateArea_pages (S fuel) hw x1 data_len page end_page s
  = if page <=? end_page then
      match UpdateArea_page (hw page) x1 data_len page s with
      | (true, s') => UpdateArea_pages fuel hw x1 data_len (u8 (page + 1)) end_page s'
      | (false, s') => Some s'
      end
    else Some (set_TransferBusy 0 s).
Proof. reflexivity. Qed.

Lemma UpdateArea_wait_seen irqs s :
  OLED_DMA_TransferComplete s <> 0 -> UpdateArea_wait irqs s = (true, s).
Proof.
  intros H. destruct irqs as [|[hw t] irqs]; simpl;
    destruct (Z.eqb_spec (OLED_DMA_TransferComplete s) 0); try contradiction; reflexivity.
Qed.

Lemma UpdateArea_wait_irq hw t irqs s :
  OLED_DMA_TransferComplete s = 0 ->
  UpdateArea_wait ((hw, t) :: irqs) s = UpdateArea_wait irqs (OLED_DMA_IRQHandler true hw t s).
Proof. intros H. simpl. rewrite H. reflexivity. Qed.

(** What the page start of [OLED_UpdateArea] does when the bus is
    ready: the block is with the DMA channel and the flag is clear. *)
Lemma UpdateArea_page_armed hw x1 data_len page s :
  area_start hw = PageArmed ->
  exists sa,
    UpdateArea_page hw x1 data_len page s
    = match UpdateArea_wait (area_irqs hw) sa with
      | (false, s) => (false, set_TransferBusy 0 (emit (DMA_Cmd false) s))
      | (true, s) =>
          if area_tx hw then (true, emit I2C_GenerateSTOP s)
          else (false, set_TransferBusy 0 s)
      end
    /\ OLED_DMA_TransferComplete sa = 0
    /\ trace sa = trace s ++ page_begin_events (OLED_DISPLAY_GRAM s) x1 page data_len
    /\ session sa = session s
    /\ frame sa = frame s.
Proof.
  intros Hst. unfold UpdateArea_page. rewrite Hst.
  eexists. split; [reflexivity|].
  destruct s as [g1 g2 pg pd busy cmpl act disp pg0 bf st en tr].
  unfold frame. drv. rewrite <- !app_assoc. repeat split; reflexivity.
Qed.










(** Why the page counter is in the statement of C4.  The flag that
    [OLED_UpdateArea] polls is set by the completion handler of the
    full-frame transfer, which [OLED_UpdateArea] does not prepare for:
    it leaves [current_dma_page] as it finds it.  After reset the
    counter is 0.  For the one-pixel rectangle (0,0)-(0,0) the block of
    page 0 is one byte long; its completion interrupt counts the page
    counter up to 1 and, as in a full-frame transfer, begins page 1
    with a block of 128 bytes and clears the flag again.  When no
    further interrupt arrives in time the call gives up, with two
    blocks handed to the DMA channel; when they all arrive in time the
    handler goes on to page 7 before the flag stays set, eight blocks
    in all. *)
Example OLED_UpdateArea_chains_full_pages_after_reset :
  current_dma_page driver_init = 0
  /\ option_map (fun s' => (dma_blocks (trace s'), current_dma_page s'))
       (OLED_UpdateArea 9 (fun _ => area_ready [(PageArmed, 1)]) 0 0 0 0 driver_init)
     = Some ([(PTR_GRAM1, 0, 0, 1); (PTR_GRAM1, 1, 0, 128)], 1)
  /\ option_map (fun s' => (dma_blocks (trace s'), current_dma_page s'))
       (OLED_UpdateArea 9 (fun _ => area_ready (repeat (PageArmed, 1) 8)) 0 0 0 0 driver_init)
     = Some ([(PTR_GRAM1, 0, 0, 1); (PTR_GRAM1, 1, 0, 128); (PTR_GRAM1, 2, 0, 128);
              (PTR_GRAM1, 3, 0, 128); (PTR_GRAM1, 4, 0, 128); (PTR_GRAM1, 5, 0, 128);
              (PTR_GRAM1, 6, 0, 128); (PTR_GRAM1, 7, 0, 128)], 8).
Proof. vm_compute. repeat split; reflexivity. Qed.
(* ================================================================== *)
(** * Properties of the further functions *)
(* ================================================================== *)

(** ** The transfer state machine beyond the successful frame *)

Lemma OLED_StartDMATransferPage_frame hw t page buf s :
  let s' := snd (OLED_StartDMATransferPage hw t page buf s) in
  frame s' = frame s
  /\ session s' = session s.
Proof.
  destruct s as [g1 g2 pg pd busy cmpl act disp pg0 bf st en tr].
  unfold frame, session.
  destruct hw, (page =? 0) eqn:E; drv; rewrite E; drv; split; reflexivity.
Qed.

Lemma OLED_StartDMATransferPage_unarmed hw t page buf s :
  hw <> PageArmed ->
  fst (OLED_StartDMATransferPage hw t page buf s) = 0
  /\ dma_blocks (trace (snd (OLED_StartDMATransferPage hw t page buf s)))
     = dma_blocks (trace s).
Proof.
  intros Hhw.
  destruct s as [g1 g2 pg pd busy cmpl act disp pg0 bf st en tr].
  destruct hw; try congruence; destruct (page =? 0) eqn:E;
    drv; rewrite E; drv; rewrite ?dma_blocks_app; split; try reflexivity;
    simpl; rewrite ?app_nil_r; reflexivity.
Qed.

Lemma OLED_DMA_IRQHandler_frame tc hw t s :
  frame (OLED_DMA_IRQHandler tc hw t s) = frame s.
Proof.
  destruct tc; [|reflexivity].
  unfold OLED_DMA_IRQHandler.
  match goal with |- context [set_current_dma_page ?v ?x] =>
    set (s1 := set_current_dma_page v x) end.
  assert (F1 : frame s1 = frame s) by (destruct s; reflexivity).
  destruct (current_dma_page s1 <? OLED_PAGE_COUNT).
  - rewrite <- F1. apply OLED_StartDMATransferPage_frame.
  - rewrite <- F1. destruct s1; reflexivity.
Qed.

Lemma completions_frame ticks s : frame (completions ticks s) = frame s.
Proof.
  revert s. induction ticks as [|t ticks IH]; intros s; [reflexivity|].
  change (completions (t :: ticks) s)
    with (completions ticks (OLED_DMA_IRQHandler true PageArmed t s)).
  rewrite IH. apply OLED_DMA_IRQHandler_frame.
Qed.


(** The flag and the page counter after a completion interrupt: the
    flag stays set unless the handler has begun a further page. *)
Lemma OLED_DMA_IRQHandler_flag hw t s :
  current_dma_page (OLED_DMA_IRQHandler true hw t s) = u8 (current_dma_page s + 1)
  /\ OLED_DMA_TransferComplete (OLED_DMA_IRQHandler true hw t s)
     = if u8 (current_dma_page s + 1) <? OLED_PAGE_COUNT
       then match hw with PageArmed => 0 | _ => 1 end
       else 1.
Proof.
  destruct s as [g1 g2 pg pd busy cmpl act disp pg0 bf st en tr].
  destruct (u8 (pg0 + 1) <? OLED_PAGE_COUNT) eqn:Epage.
  - destruct hw, (u8 (pg0 + 1) =? 0) eqn:Ezero; drv; rewrite Epage; drv;
      rewrite Ezero; drv; rewrite ?Epage; split; reflexivity.
  - drv. rewrite Epage. drv. split; reflexivity.
Qed.




(** Nine interrupts are enough for the flag to be seen, wherever the
    page counter stands: the handler begins at most eight pages in a
    row. *)
Lemma UpdateArea_wait_enough k :
  forall irqs s,
    OLED_DMA_TransferComplete s = 0 ->
    8 - Z.of_nat k <= u8 (current_dma_page s + 1) ->
    (k < length irqs)%nat ->
    fst (UpdateArea_wait irqs s) = true.
Proof.
  induction k as [|k IH]; intros irqs s Hc Hp Hlen;
    (destruct irqs as [|[hw t] irqs]; [simpl in Hlen; lia|]);
    rewrite (UpdateArea_wait_irq hw t irqs s Hc);
    destruct (OLED_DMA_IRQHandler_flag hw t s) as [Hpg Hfl];
    unfold OLED_PAGE_COUNT in Hfl.
  - replace (u8 (current_dma_page s + 1) <? 8) with false in Hfl by lia.
    rewrite UpdateArea_wait_seen by (rewrite Hfl; discriminate). reflexivity.
  - destruct (Z.ltb_spec (u8 (current_dma_page s + 1)) 8) as [Hlt|Hge].
    + pose proof (u8_range (current_dma_page s + 1)) as Hr.
      destruct hw;
        try (rewrite UpdateArea_wait_seen by (rewrite Hfl; discriminate); reflexivity).
      apply IH; [exact Hfl| |simpl in Hlen; lia].
      rewrite Hpg, (u8_small (u8 (current_dma_page s + 1) + 1)) by lia. lia.
    + rewrite UpdateArea_wait_seen by (rewrite Hfl; discriminate). reflexivity.
Qed.

Lemma UpdateArea_page_through hw x1 data_len page s :
  area_start hw = PageArmed -> (9 <= length (area_irqs hw))%nat -> area_tx hw = true ->
  fst (UpdateArea_page hw x1 data_len page s) = true.
Proof.
  intros Hst Hlen Htx.
  destruct (UpdateArea_page_armed hw x1 data_len page s Hst) as (sa & -> & Hc & _).
  pose proof (UpdateArea_wait_enough 8 (area_irqs hw) sa Hc) as Hw.
  pose proof (u8_range (current_dma_page sa + 1)).
  specialize (Hw ltac:(lia) ltac:(lia)).
  destruct (UpdateArea_wait (area_irqs hw) sa) as [b sw]. cbv [fst] in Hw. subst b.
  rewrite Htx. reflexivity.
Qed.

(** With [end_page = 255] the loop condition is always true: while
    every page goes through, the loop goes on. *)
Lemma UpdateArea_pages_no_end hw x1 data_len :
  (forall p, area_start (hw p) = PageArmed /\ (9 <= length (area_irqs (hw p)))%nat
             /\ area_tx (hw p) = true) ->
  forall fuel page s,
    0 <= page <= 255 ->
    UpdateArea_pages fuel hw x1 data_len page 255 s = None.
Proof.
  intros Hhw. induction fuel as [|fuel IH]; intros page s Hp; [reflexivity|].
  rewrite UpdateArea_pages_unfold.
  destruct (Z.leb_spec page 255); [|lia].
  destruct (Hhw page) as (Hst & Hlen & Htx).
  pose proof (UpdateArea_page_through (hw page) x1 data_len page s Hst Hlen Htx) as Hr.
  destruct (UpdateArea_page (hw page) x1 data_len page s) as [r s1].
  cbv [fst] in Hr. subst r.
  apply IH. pose proof (u8_range (page + 1)). lia.
Qed.

(** X2: a start that the bus refuses.  When [OLED_UpdateAsync] finds
    the driver idle but the first page cannot be begun, it returns 0
    with the busy flag cleared and no block handed to the DMA channel;
    the buffers have been exchanged all the same: drawing now goes to
    the other array, and the display pointer designates the frame that
    was not sent. *)
Theorem OLED_UpdateAsync_refused_start_still_swaps hw t s :
  OLED_DMA_TransferBusy s = 0 -> hw <> PageArmed ->
  let s' := snd (OLED_UpdateAsync hw t s) in
  fst (OLED_UpdateAsync hw t s) = 0
  /\ OLED_DMA_TransferBusy s' = 0
  /\ dma_blocks (trace s') = dma_blocks (trace s)
  /\ active_buffer s' = other_buffer (active_buffer s)
  /\ display_buffer s' = active_buffer s
  /\ OLED_GRAM s' = ptr_of (other_buffer (active_buffer s))
  /\ OLED_DISPLAY_GRAM s' = ptr_of (active_buffer s)
  /\ OLED_GRAM1 s' = OLED_GRAM1 s /\ OLED_GRAM2 s' = OLED_GRAM2 s.
Proof.
  intros Hbusy Hhw.
  destruct s as [g1 g2 pg pd busy cmpl act disp pg0 bf st en tr].
  cbv [OLED_DMA_TransferBusy] in Hbusy. subst busy.
  destruct hw; try congruence; destruct act; drv;
    change (negb (0 =? 0)) with false; drv; change (0 =? 0) with true; drv;
    rewrite ?dma_blocks_app; simpl; rewrite ?app_nil_r; repeat split; reflexivity.
Qed.

Lemma OLED_UpdateAsync_refused_start_still_swaps_witness :
  let s' := snd (OLED_UpdateAsync NoStartEvent 5 driver_init) in
  fst (OLED_UpdateAsync NoStartEvent 5 driver_init) = 0
  /\ OLED_DMA_TransferBusy s' = 0
  /\ OLED_GRAM s' = PTR_GRAM2
  /\ OLED_DISPLAY_GRAM s' = PTR_GRAM1.
Proof.
  assert (Hhw : NoStartEvent <> PageArmed) by discriminate.
  destruct (OLED_UpdateAsync_refused_start_still_swaps NoStartEvent 5 driver_init
              eq_refl Hhw) as (H1 & H2 & _ & _ & _ & H6 & H7 & _).
  cbv zeta. auto.
Defined.



(** X3: a page start that the bus refuses inside the completion
    interrupt.  The handler ignores the result of
    [OLED_StartDMATransferPage]: when a page before the last cannot be
    begun, no block is handed to the DMA channel, so no further
    completion interrupt is due, and the busy flag stays as it was.  A
    session that was busy stays busy, and every later
    [OLED_UpdateAsync] is turned away without touching the state. *)
Theorem OLED_DMA_IRQHandler_refused_page_leaves_busy hw t s :
  OLED_DMA_TransferBusy s <> 0 -> 0 <= current_dma_page s < 7 -> hw <> PageArmed ->
  let s' := OLED_DMA_IRQHandler true hw t s in
  OLED_DMA_TransferBusy s' = OLED_DMA_TransferBusy s
  /\ current_dma_page s' = current_dma_page s + 1
  /\ dma_blocks (trace s') = dma_blocks (trace s)
  /\ (forall hw' t', OLED_UpdateAsync hw' t' s' = (0, s'))
  /\ (forall hw' t', OLED_DMA_IRQHandler false hw' t' s' = s').
Proof.
  intros Hbusy Hp Hhw s'.
  assert (Hb' : OLED_DMA_TransferBusy s' = OLED_DMA_TransferBusy s
                /\ current_dma_page s' = current_dma_page s + 1
                /\ dma_blocks (trace s') = dma_blocks (trace s)).
  { subst s'.
    destruct s as [g1 g2 pg pd busy cmpl act disp pg0 bf st en tr].
    cbv [current_dma_page] in Hp.
    assert (Hu : u8 (pg0 + 1) = pg0 + 1) by (apply u8_small; lia).
    assert (Hlt : (pg0 + 1 <? OLED_PAGE_COUNT) = true)
      by (apply Z.ltb_lt; unfold OLED_PAGE_COUNT; lia).
    assert (Hz : (pg0 + 1 =? 0) = false) by (apply Z.eqb_neq; lia).
    destruct hw; try congruence; drv; rewrite Hu, Hlt; drv; rewrite Hz; drv;
      rewrite ?dma_blocks_app; simpl; rewrite ?app_nil_r; repeat split; reflexivity. }
  destruct Hb' as (Hb1 & Hb2 & Hb3).
  split; [exact Hb1|]. split; [exact Hb2|]. split; [exact Hb3|]. split.
  - intros hw' t'. unfold OLED_UpdateAsync. rewrite Hb1.
    destruct (Z.eqb_spec (OLED_DMA_TransferBusy s) 0); [contradiction|reflexivity].
  - reflexivity.
Qed.

Lemma OLED_DMA_IRQHandler_refused_page_leaves_busy_witness :
  let s := snd (OLED_UpdateAsync PageArmed 0 driver_init) in
  let s' := OLED_DMA_IRQHandler true BusStuck 3 s in
  OLED_DMA_TransferBusy s' = 1
  /\ OLED_UpdateAsync PageArmed 9 s' = (0, s').
Proof.
  assert (Hhw : BusStuck <> PageArmed) by discriminate.
  assert (Hbusy : OLED_DMA_TransferBusy (snd (OLED_UpdateAsync PageArmed 0 driver_init)) <> 0)
    by (vm_compute; discriminate).
  assert (Hp : 0 <= current_dma_page (snd (OLED_UpdateAsync PageArmed 0 driver_init)) < 7)
    by (vm_compute; split; [discriminate|reflexivity]).
  destruct (OLED_DMA_IRQHandler_refused_page_leaves_busy BusStuck 3
              (snd (OLED_UpdateAsync PageArmed 0 driver_init)) Hbusy Hp Hhw)
    as (H1 & _ & _ & H4 & _).
  cbv zeta. split; [rewrite H1; reflexivity|apply H4].
Defined.

Lemma OLED_UpdateAsync_frame_armed t s :
  OLED_DMA_TransferBusy s = 0 ->
  let s' := snd (OLED_UpdateAsync PageArmed t s) in
  frame s' = (OLED_GRAM1 s, OLED_GRAM2 s, ptr_of (other_buffer (active_buffer s)),
              other_buffer (active_buffer s), active_buffer s).
Proof.
  intros Hbusy.
  destruct s as [g1 g2 pg pd busy cmpl act disp pg0 bf st en tr].
  cbv [OLED_DMA_TransferBusy] in Hbusy. subst busy. unfold frame.
  destruct act; drv; change (negb (0 =? 0)) with false; drv;
    change (0 =? 0) with true; drv; reflexivity.
Qed.

Lemma full_frame_session ticks t s :
  OLED_DMA_TransferBusy s = 0 -> length ticks = 8%nat ->
  session (completions ticks (snd (OLED_UpdateAsync PageArmed t s)))
  = (0, 8, BufferSelect_value (active_buffer s), ptr_of (active_buffer s)).
Proof.
  intros Hbusy Hlen.
  destruct (OLED_UpdateAsync_starts t s Hbusy) as (_ & Hs0 & _).
  set (s0 := snd (OLED_UpdateAsync PageArmed t s)) in *.
  apply session_eq in Hs0 as (Hb0 & Hp0 & Hbuf0 & Hd0).
  destruct (completions_progress ticks s0 7 Hp0) as (Hs7 & _); [lia|lia|].
  destruct (lookup_lt_is_Some_2 ticks 7 ltac:(lia)) as [t7 Ht7].
  assert (Hsplit : ticks = take 7 ticks ++ [t7]).
  { rewrite <- (take_S_r _ _ _ Ht7). rewrite firstn_all2 by lia. reflexivity. }
  rewrite Hsplit, completions_snoc.
  set (s7 := completions (take 7 ticks) s0) in *.
  apply session_eq in Hs7 as (Hb7 & Hp7 & Hbuf7 & Hd7).
  destruct (OLED_DMA_IRQHandler_commits t7 s7) as (Hs8 & _); [exact Hp7|].
  rewrite Hs8, Hbuf7, Hbuf0. destruct (active_buffer s); reflexivity.
Qed.

(** X4: what a full frame does to the two buffers.  From an idle
    driver, [OLED_UpdateAsync] followed by the eight completion
    interrupts of its pages leaves the driver idle with the roles
    exchanged: the display pointer designates the array that was drawn
    into, the drawing pointer the other one, and neither array has been
    written, so the new drawing buffer still holds the frame before
    last. *)
Theorem OLED_UpdateAsync_frame_exchanges_buffers ticks t s :
  coherent s -> OLED_DMA_TransferBusy s = 0 -> length ticks = 8%nat ->
  let s' := completions ticks (snd (OLED_UpdateAsync PageArmed t s)) in
  OLED_DMA_TransferBusy s' = 0
  /\ coherent s'
  /\ active_buffer s' = other_buffer (active_buffer s)
  /\ display_buffer s' = active_buffer s
  /\ gram_of s' (OLED_DISPLAY_GRAM s') = gram_of s (OLED_GRAM s)
  /\ gram_of s' (OLED_GRAM s') = gram_of s (ptr_of (other_buffer (active_buffer s))).
Proof.
  intros (Hg & Hd & Hb) Hbusy Hlen s'.
  pose proof (full_frame_session ticks t s Hbusy Hlen) as Hs.
  apply session_eq in Hs as (Hb8 & Hp8 & Hbuf8 & Hd8).
  pose proof (completions_frame ticks (snd (OLED_UpdateAsync PageArmed t s))) as Hf.
  rewrite (OLED_UpdateAsync_frame_armed t s Hbusy) in Hf.
  fold s' in Hb8, Hp8, Hbuf8, Hd8, Hf.
  unfold frame in Hf. injection Hf as H1 H2 H3 H4 H5.
  split; [exact Hb8|].
  split; [unfold coherent; rewrite H3, H4, H5, Hd8, Hbuf8; auto|].
  split; [exact H4|]. split; [exact H5|].
  rewrite Hd8, H3, Hg. unfold gram_of. rewrite H1, H2. split; reflexivity.
Qed.

Lemma OLED_UpdateAsync_frame_exchanges_buffers_witness :
  let s' := completions [1; 2; 3; 4; 5; 6; 7; 8] (snd (OLED_UpdateAsync PageArmed 0 driver_init)) in
  OLED_DMA_TransferBusy s' = 0 /\ active_buffer s' = BUFFER_B /\ display_buffer s' = BUFFER_A.
Proof.
  assert (Hc : coherent driver_init) by (repeat split; reflexivity).
  destruct (OLED_UpdateAsync_frame_exchanges_buffers [1; 2; 3; 4; 5; 6; 7; 8] 0 driver_init
              Hc eq_refl eq_refl) as (H1 & _ & H3 & H4 & _).
  cbv zeta. auto.
Defined.



(** X6: a rectangle whose last page is 255.  The page counter is a
    [uint8_t] and the loop runs while it is at most [end_page]: for a
    rectangle that passes the guard and has [y2 / 8] equal to 255 as a
    byte, a bus on which every page goes through (the bus ready, the
    completion interrupts arriving, nine being enough wherever the page
    counter of the handler stands, and the last byte seen) keeps the
    loop going for ever. *)
Theorem OLED_UpdateArea_last_page_255_never_returns fuel hw x1 y1 x2 y2 s :
  OLED_DMA_TransferBusy s = 0 ->
  x1 < OLED_COLUMN_COUNT -> y1 < OLED_HEIGHT -> 0 <= x2 -> 0 <= y2 -> x1 <= x2 -> y1 <= y2 ->
  u8 (y2 ÷ 8) = 255 ->
  (forall p, area_start (hw p) = PageArmed /\ (9 <= length (area_irqs (hw p)))%nat
             /\ area_tx (hw p) = true) ->
  OLED_UpdateArea fuel hw x1 y1 x2 y2 s = None.
Proof.
  intros Hbusy Hx1 Hy1 Hx2 Hy2 Hx Hy He Hhw. unfold OLED_UpdateArea.
  replace (_ || _) with false.
  2:{ symmetry. rewrite !orb_false_iff. repeat split; lia. }
  rewrite Hbusy, He. change (negb (0 =? 0)) with false. cbv iota zeta.
  apply UpdateArea_pages_no_end; [exact Hhw|]. pose proof (u8_range (y1 ÷ 8)). lia.
Qed.

Lemma OLED_UpdateArea_last_page_255_never_returns_witness :
  OLED_UpdateArea 1000 (fun _ => area_ready (repeat (PageArmed, 0) 9)) 0 0 127 2047 driver_init
  = None.
Proof.
  apply OLED_UpdateArea_last_page_255_never_returns;
    unfold OLED_COLUMN_COUNT, OLED_HEIGHT; try lia; try reflexivity.
  intros p. repeat split. simpl. lia.
Defined.

(** ** OLED_DrawLine: symmetry, accuracy, coverage *)

Lemma pixel_index y Y : (y / 8 =? Y / 8) && (y mod 8 =? Y mod 8) = (y =? Y).
Proof.
  destruct (Z.eqb_spec y Y) as [->|Hne]; [rewrite !Z.eqb_refl; reflexivity|].
  destruct (Z.eqb_spec (y / 8) (Y / 8)) as [Hd|]; [|reflexivity].
  destruct (Z.eqb_spec (y mod 8) (Y mod 8)) as [Hm|]; [|reflexivity].
  exfalso. apply Hne.
  rewrite (Z.div_mod y 8), (Z.div_mod Y 8), Hd, Hm by lia. reflexivity.
Qed.

(** [OLED_DrawPoint] on pixels. *)
Lemma pixel_DrawPoint X Y Color g x y :
  gram_ok g = true ->
  pixel (OLED_DrawPoint X Y Color g) x y
  = if negb (OLED_CHECK_COORDINATES X Y) && (x =? X) && (y =? Y)
    then (Color =? OLED_COLOR_WHITE) else pixel g x y.
Proof.
  intros Hok. destruct (OLED_CHECK_COORDINATES X Y) eqn:Hchk.
  { unfold OLED_DrawPoint. rewrite Hchk. reflexivity. }
  apply on_screen_check in Hchk as [HX HY].
  unfold pixel. rewrite OLED_DrawPoint_bit by assumption.
  replace ((y / 8 =? Y / 8) && (x =? X) && (y mod 8 =? Y mod 8))
    with (negb false && (x =? X) && (y =? Y)); [reflexivity|].
  rewrite <- (pixel_index y Y). simpl.
  destruct (y / 8 =? Y / 8), (x =? X), (y mod 8 =? Y mod 8); reflexivity.
Qed.

Lemma pixel_DrawPoint_white_only X Y g x y :
  gram_ok g = true ->
  pixel (OLED_DrawPoint X Y 1 g) x y = true ->
  pixel g x y = true \/ (x = X /\ y = Y).
Proof.
  intros Hok. rewrite pixel_DrawPoint by assumption.
  destruct (negb _); simpl; [|auto].
  destruct (Z.eqb_spec x X); simpl; [|auto].
  destruct (Z.eqb_spec y Y); simpl; auto.
Qed.

Lemma line_plot_only yflag xyflag u v g x y :
  gram_ok g = true ->
  pixel (line_plot yflag xyflag u v g) x y = true ->
  pixel g x y = true \/ line_point yflag xyflag u v = (x, y).
Proof.
  intros Hok. rewrite line_plot_point. intros H.
  apply pixel_DrawPoint_white_only in H; [|assumption].
  destruct H as [H|[-> ->]]; [auto|].
  right. destruct (line_point yflag xyflag u v); reflexivity.
Qed.

Lemma line_plot_ok yflag xyflag u v g :
  gram_ok g = true -> gram_ok (line_plot yflag xyflag u v g) = true.
Proof. intros Hok. rewrite line_plot_point. apply OLED_DrawPoint_ok, Hok. Qed.

(** Bresenham's loop in the first octant, in full: the points it plots
    are those of the columns [x0..x1] whose row is the ideal one rounded
    to the nearest, and every column and every row between the
    endpoints gets one. *)
Lemma line_loop_raster yflag xyflag x0 y0 x1 y1 g fuel :
  -127 <= x0 -> x0 < x1 <= 127 -> -127 <= y0 <= y1 -> y1 <= 127 ->
  y1 - y0 <= x1 - x0 -> x1 - x0 <= 127 ->
  gram_ok g = true ->
  (128 <= fuel)%nat ->
  exists s',
    while_loop fuel (fun s => ln_x s <? x1)
      (line_step yflag xyflag (2 * (y1 - y0)) (2 * (y1 - y0 - (x1 - x0))))
      (mk_line x0 y0 (2 * (y1 - y0) - (x1 - x0)) (line_plot yflag xyflag x0 y0 g)) = Some s'
    /\ gram_ok (ln_g s') = true
    /\ (forall x y, pixel (ln_g s') x y = true ->
          pixel g x y = true
          \/ exists u v, x0 <= u <= x1 /\ y0 <= v <= y1
               /\ - (x1 - x0) <= 2 * (y1 - y0) * (u - x0) - 2 * (x1 - x0) * (v - y0) < x1 - x0
               /\ line_point yflag xyflag u v = (x, y))
    /\ (forall u, x0 <= u <= x1 ->
          exists v, y0 <= v <= y1
            /\ (on_screen (fst (line_point yflag xyflag u v)) (snd (line_point yflag xyflag u v)) ->
                pixel (ln_g s') (fst (line_point yflag xyflag u v))
                  (snd (line_point yflag xyflag u v)) = true))
    /\ (forall v, y0 <= v <= y1 ->
          exists u, x0 <= u <= x1
            /\ (on_screen (fst (line_point yflag xyflag u v)) (snd (line_point yflag xyflag u v)) ->
                pixel (ln_g s') (fst (line_point yflag xyflag u v))
                  (snd (line_point yflag xyflag u v)) = true)).
Proof.
  intros Hx0 Hx1 Hy0 Hy1 Hoct Hlen Hok Hfuel.
  set (dx := x1 - x0) in *. set (dy := y1 - y0) in *.
  pose (lit := fun (t : gram) u v =>
    on_screen (fst (line_point yflag xyflag u v)) (snd (line_point yflag xyflag u v)) ->
    pixel t (fst (line_point yflag xyflag u v)) (snd (line_point yflag xyflag u v)) = true).
  pose (Inv := fun s : line_state =>
    x0 <= ln_x s <= x1 /\ y0 <= ln_y s <= y1
    /\ ln_d s = 2 * dy * (ln_x s - x0 + 1) - 2 * dx * (ln_y s - y0) - dx
    /\ 2 * dy - 2 * dx <= ln_d s < 2 * dy
    /\ gram_ok (ln_g s) = true
    /\ (forall x y, pixel (ln_g s) x y = true ->
          pixel g x y = true
          \/ exists u v, x0 <= u <= ln_x s /\ y0 <= v <= ln_y s
               /\ - dx <= 2 * dy * (u - x0) - 2 * dx * (v - y0) < dx
               /\ line_point yflag xyflag u v = (x, y))
    /\ (forall u, x0 <= u <= ln_x s -> exists v, y0 <= v <= ln_y s /\ lit (ln_g s) u v)
    /\ (forall v, y0 <= v <= ln_y s -> exists u, x0 <= u <= ln_x s /\ lit (ln_g s) u v)).
  assert (Hlit : forall t u v a b, gram_ok t = true -> lit t u v ->
                   lit (line_plot yflag xyflag a b t) u v).
  { intros t u v a b Ht Hl Hon. eapply pixel_grows; [apply line_plot_le, Ht|apply Hl, Hon]. }
  assert (Hnew : forall t u v, gram_ok t = true -> lit (line_plot yflag xyflag u v t) u v).
  { intros t u v Ht Hon. apply line_plot_pixel; assumption. }
  assert (Hstep : forall t, Inv t -> (ln_x t <? x1) = true ->
            Inv (line_step yflag xyflag (2 * dy) (2 * (dy - dx)) t)
            /\ (Z.to_nat (x1 - ln_x (line_step yflag xyflag (2 * dy) (2 * (dy - dx)) t))
                < Z.to_nat (x1 - ln_x t))%nat).
  { intros [x y d gt] (Hx & Hy & Hd & Hb & Hgt & HA & HB & HC) Hc.
    cbv [ln_x ln_y ln_d ln_g] in *.
    apply Z.ltb_lt in Hc. unfold line_step. cbv [ln_x ln_y ln_d ln_g].
    rewrite (s16_small (x + 1)) by lia.
    assert (Hyle : 0 <= d -> y + 1 <= y1).
    { intros Hd0. unfold dx, dy in *. nia. }
    split; [|lia].
    destruct (Z.ltb_spec d 0) as [Hneg|Hpos].
    - rewrite (s16_small (d + 2 * dy)) by (unfold dx, dy in *; lia).
      unfold Inv. cbv [ln_x ln_y ln_d ln_g].
      split; [lia|]. split; [lia|]. split; [lia|]. split; [lia|].
      split; [apply line_plot_ok, Hgt|]. split; [|split].
      + intros a b Hp. apply line_plot_only in Hp; [|exact Hgt]. destruct Hp as [Hp|Hp].
        * destruct (HA a b Hp) as [Hold|(u & v & Hu & Hv & He & Hpt)]; [auto|].
          right. exists u, v. repeat split; try lia. exact Hpt.
        * right. exists (x + 1), y. repeat split; try lia. exact Hp.
      + intros u Hu. destruct (Z.eq_dec u (x + 1)) as [->|Hne].
        * exists y. split; [lia|apply Hnew, Hgt].
        * destruct (HB u ltac:(lia)) as (v & Hv & Hl). exists v. split; [lia|].
          apply Hlit; assumption.
      + intros v Hv. destruct (HC v Hv) as (u & Hu & Hl). exists u. split; [lia|].
        apply Hlit; assumption.
    - specialize (Hyle Hpos).
      rewrite (s16_small (y + 1)) by lia.
      rewrite (s16_small (d + 2 * (dy - dx))) by (unfold dx, dy in *; lia).
      unfold Inv. cbv [ln_x ln_y ln_d ln_g].
      split; [lia|]. split; [lia|]. split; [lia|]. split; [lia|].
      split; [apply line_plot_ok, Hgt|]. split; [|split].
      + intros a b Hp. apply line_plot_only in Hp; [|exact Hgt]. destruct Hp as [Hp|Hp].
        * destruct (HA a b Hp) as [Hold|(u & v & Hu & Hv & He & Hpt)]; [auto|].
          right. exists u, v. repeat split; try lia. exact Hpt.
        * right. exists (x + 1), (y + 1). repeat split; try lia. exact Hp.
      + intros u Hu. destruct (Z.eq_dec u (x + 1)) as [->|Hne].
        * exists (y + 1). split; [lia|apply Hnew, Hgt].
        * destruct (HB u ltac:(lia)) as (v & Hv & Hl). exists v. split; [lia|].
          apply Hlit; assumption.
      + intros v Hv. destruct (Z.eq_dec v (y + 1)) as [->|Hne].
        * exists (x + 1). split; [lia|apply Hnew, Hgt].
        * destruct (HC v ltac:(lia)) as (u & Hu & Hl). exists u. split; [lia|].
          apply Hlit; assumption. }
  assert (Hinit : Inv (mk_line x0 y0 (2 * dy - dx) (line_plot yflag xyflag x0 y0 g))).
  { unfold Inv. cbv [ln_x ln_y ln_d ln_g].
    split; [lia|]. split; [lia|]. split; [lia|]. split; [lia|].
    split; [apply line_plot_ok, Hok|]. split; [|split].
    - intros a b Hp. apply line_plot_only in Hp; [|exact Hok]. destruct Hp as [Hp|Hp]; [auto|].
      right. exists x0, y0. repeat split; try lia. exact Hp.
    - intros u Hu. exists y0. split; [lia|]. replace u with x0 by lia. apply Hnew, Hok.
    - intros v Hv. exists x0. split; [lia|]. replace v with y0 by lia. apply Hnew, Hok. }
  destruct (while_loop_terminates (fun s => Z.to_nat (x1 - ln_x s)) Inv
              (fun s => ln_x s <? x1) (line_step yflag xyflag (2 * dy) (2 * (dy - dx)))
              Hstep fuel _ Hinit) as [s' Hrun].
  { cbv [ln_x]. unfold dx in *. lia. }
  exists s'. split; [exact Hrun|].
  apply (while_loop_inv Inv) in Hrun as [Hs' Hexit];
    [|exact Hinit|intros t Ht Hc; apply Hstep; assumption].
  destruct Hs' as (Hx & Hy & Hd & Hb & Hgs & HA & HB & HC).
  apply Z.ltb_ge in Hexit.
  assert (Hxe : ln_x s' = x1) by lia.
  assert (Hye : ln_y s' = y1).
  { rewrite Hxe in Hd. unfold dx, dy in *. nia. }
  rewrite Hxe, Hye in *.
  split; [exact Hgs|]. split; [|split].
  - intros a b Hp. destruct (HA a b Hp) as [Hold|(u & v & Hu & Hv & He & Hpt)]; [auto|].
    right. exists u, v. auto.
  - exact HB.
  - exact HC.
Qed.

Lemma line_loop_raster_s16 yflag xyflag x0 y0 x1 y1 g fuel :
  -127 <= x0 -> x0 < x1 <= 127 -> -127 <= y0 <= y1 -> y1 <= 127 ->
  y1 - y0 <= x1 - x0 -> x1 - x0 <= 127 ->
  gram_ok g = true ->
  (128 <= fuel)%nat ->
  exists s',
    while_loop fuel (fun s => ln_x s <? x1)
      (line_step yflag xyflag (s16 (2 * s16 (y1 - y0)))
         (s16 (2 * (s16 (y1 - y0) - s16 (x1 - x0)))))
      (mk_line x0 y0 (s16 (2 * s16 (y1 - y0) - s16 (x1 - x0)))
         (line_plot yflag xyflag x0 y0 g)) = Some s'
    /\ gram_ok (ln_g s') = true
    /\ (forall x y, pixel (ln_g s') x y = true ->
          pixel g x y = true
          \/ exists u v, x0 <= u <= x1 /\ y0 <= v <= y1
               /\ - (x1 - x0) <= 2 * (y1 - y0) * (u - x0) - 2 * (x1 - x0) * (v - y0) < x1 - x0
               /\ line_point yflag xyflag u v = (x, y))
    /\ (forall u, x0 <= u <= x1 ->
          exists v, y0 <= v <= y1
            /\ (on_screen (fst (line_point yflag xyflag u v)) (snd (line_point yflag xyflag u v)) ->
                pixel (ln_g s') (fst (line_point yflag xyflag u v))
                  (snd (line_point yflag xyflag u v)) = true))
    /\ (forall v, y0 <= v <= y1 ->
          exists u, x0 <= u <= x1
            /\ (on_screen (fst (line_point yflag xyflag u v)) (snd (line_point yflag xyflag u v)) ->
                pixel (ln_g s') (fst (line_point yflag xyflag u v))
                  (snd (line_point yflag xyflag u v)) = true)).
Proof.
  intros Hx0 Hx1 Hy0 Hy1 Hoct Hlen Hg Hfuel.
  rewrite (s16_small (y1 - y0)), (s16_small (x1 - x0)) by lia.
  rewrite (s16_small (2 * (y1 - y0))), (s16_small (2 * (y1 - y0 - (x1 - x0)))),
    (s16_small (2 * (y1 - y0) - (x1 - x0))) by lia.
  apply line_loop_raster; assumption.
Qed.

Lemma for_range_DrawPoint_only a b (pt : Z -> Z * Z) g x y :
  gram_ok g = true ->
  pixel (for_range a b (fun j g => OLED_DrawPoint (fst (pt j)) (snd (pt j)) 1 g) g) x y = true ->
  pixel g x y = true \/ exists j, a <= j < b /\ pt j = (x, y).
Proof.
  intros Hok.
  assert (H : gram_ok (for_range a b (fun j g => OLED_DrawPoint (fst (pt j)) (snd (pt j)) 1 g) g)
              = true
              /\ (pixel (for_range a b (fun j g =>
                     OLED_DrawPoint (fst (pt j)) (snd (pt j)) 1 g) g) x y = true ->
                  pixel g x y = true \/ exists j, a <= j < b /\ pt j = (x, y))).
  { apply (for_range_inv (fun t => gram_ok t = true /\
             (pixel t x y = true -> pixel g x y = true \/ exists j, a <= j < b /\ pt j = (x, y)))).
    - auto.
    - intros j t Hj [Ht Hp]. split; [apply OLED_DrawPoint_ok, Ht|].
      intros Hpix. apply pixel_DrawPoint_white_only in Hpix; [|exact Ht].
      destruct Hpix as [Hpix|[-> ->]]; [auto|].
      right. exists j. split; [exact Hj|]. destruct (pt j); reflexivity. }
  apply H.
Qed.

Lemma for_range_DrawPoint_ok a b (pt : Z -> Z * Z) g :
  gram_ok g = true ->
  gram_ok (for_range a b (fun j g => OLED_DrawPoint (fst (pt j)) (snd (pt j)) 1 g) g) = true.
Proof.
  intros Hok. apply for_range_inv; [exact Hok|].
  intros j t _ Ht. apply OLED_DrawPoint_ok, Ht.
Qed.

(** X7: the order of the endpoints does not matter.  Whatever the
    arguments, a line from [(X0, Y0)] to [(X1, Y1)] and the line from
    [(X1, Y1)] to [(X0, Y0)] give the same buffer. *)
Theorem OLED_DrawLine_endpoints_commute fuel X0 Y0 X1 Y1 Color g :
  OLED_DrawLine fuel X0 Y0 X1 Y1 Color g = OLED_DrawLine fuel X1 Y1 X0 Y0 Color g.
Proof.
  unfold OLED_DrawLine.
  destruct (OLED_CHECK_COORDINATES X0 Y0), (OLED_CHECK_COORDINATES X1 Y1); try reflexivity.
  rewrite (Z.eqb_sym Y1 Y0), (Z.eqb_sym X1 X0).
  destruct (Z.eqb_spec Y0 Y1) as [->|Hy].
  { destruct (Z.gtb_spec X0 X1), (Z.gtb_spec X1 X0); try reflexivity; try lia.
    replace X1 with X0 by lia. reflexivity. }
  destruct (Z.eqb_spec X0 X1) as [->|Hx].
  { destruct (Z.gtb_spec Y0 Y1), (Z.gtb_spec Y1 Y0); try reflexivity; lia. }
  destruct (Z.gtb_spec X0 X1), (Z.gtb_spec X1 X0); try reflexivity; lia.
Qed.

Lemma OLED_DrawLine_new_pixels fuel X0 Y0 X1 Y1 Color g :
  gram_ok g = true -> (128 <= fuel)%nat ->
  exists g',
    OLED_DrawLine fuel X0 Y0 X1 Y1 Color g = Some g'
    /\ gram_le g g'
    /\ forall x y, pixel g' x y = true -> pixel g x y = true \/ near_segment X0 Y0 X1 Y1 x y.
Proof.
  intros Hok Hfuel.
  destruct (OLED_DrawLine_grows fuel X0 Y0 X1 Y1 Color g Hok Hfuel) as (g1 & Hrun1 & _ & Hle1).
  unfold OLED_DrawLine in *.
  destruct (OLED_CHECK_COORDINATES X0 Y0) eqn:H0;
    [exists g; split; [reflexivity|split; [apply gram_le_refl|auto]]|].
  destruct (OLED_CHECK_COORDINATES X1 Y1) eqn:H1;
    [exists g; split; [reflexivity|split; [apply gram_le_refl|auto]]|].
  apply on_screen_check in H0 as [HX0 HY0]. apply on_screen_check in H1 as [HX1 HY1].
  exists g1. split; [exact Hrun1|]. split; [exact Hle1|].
  revert Hrun1.
  destruct (Z.eqb_spec Y0 Y1) as [Hy|Hy].
  { subst Y1.
    destruct (Z.gtb_spec X0 X1); intros [= <-] x y Hp;
      apply (for_range_DrawPoint_only _ _ (fun x => (x, Y0))) in Hp; try assumption;
      (destruct Hp as [Hp|(j & Hj & [= <- <-])]; [auto|right]);
      unfold near_segment, in_box, line_error; split; lia. }
  destruct (Z.eqb_spec X0 X1) as [Hx|Hx].
  { subst X1.
    destruct (Z.gtb_spec Y0 Y1); intros [= <-] x y Hp;
      apply (for_range_DrawPoint_only _ _ (fun y => (X0, y))) in Hp; try assumption;
      (destruct Hp as [Hp|(j & Hj & [= <- <-])]; [auto|right]);
      unfold near_segment, in_box, line_error; split; lia. }
  destruct (Z.gtb_spec X0 X1) as [Hsw|Hsw];
    [destruct (Z.gtb_spec Y1 Y0) as [Hyf|Hyf]|destruct (Z.gtb_spec Y0 Y1) as [Hyf|Hyf]];
    rewrite ?(s16_small (- Y0)), ?(s16_small (- Y1)) by lia;
    match goal with |- context [?a >? ?b] => destruct (Z.gtb_spec a b) as [Hxy|Hxy] end.
  all: match goal with
    | |- context [while_loop ?f (fun s => ln_x s <? ?x1)
                    (line_step ?yf ?xyf (s16 (2 * s16 (?y1 - ?y0))) _) (mk_line ?x0 _ _ (line_plot _ _ _ _ ?g))] =>
        destruct (line_loop_raster_s16 yf xyf x0 y0 x1 y1 g f)
          as (s' & Hrun & Hgs & HA & _ & _);
          [lia|lia|lia|lia|lia|lia|assumption|assumption|];
          rewrite Hrun; intros [= <-] x y Hp;
          destruct (HA x y Hp) as [Hold|(u & v & Hu & Hv & He & Hpt)]; [auto|right]
    end.
  all: unfold line_point in Hpt; cbn [andb] in Hpt; cbv iota in Hpt.
  all: assert (Es : s16 (- u) = - u) by (apply s16_small; lia).
  all: assert (Es' : s16 (- v) = - v) by (apply s16_small; lia).
  all: rewrite ?Es, ?Es' in Hpt; injection Hpt as <- <-.
  all: unfold near_segment, in_box, line_error; split; lia.
Qed.


(** X8: a line stays on its segment.  Every pixel that [OLED_DrawLine]
    turns on lies in the bounding box of the two endpoints and at most
    half a pixel from the ideal line through them, measured along the
    minor axis; all other pixels read as before. *)
Theorem OLED_DrawLine_stays_near_segment fuel X0 Y0 X1 Y1 Color g :
  gram_ok g = true -> (128 <= fuel)%nat ->
  exists g',
    OLED_DrawLine fuel X0 Y0 X1 Y1 Color g = Some g'
    /\ forall x y, ~ near_segment X0 Y0 X1 Y1 x y -> pixel g' x y = pixel g x y.
Proof.
  intros Hok Hfuel.
  destruct (OLED_DrawLine_new_pixels fuel X0 Y0 X1 Y1 Color g Hok Hfuel)
    as (g' & Hrun & Hle & Hnear).
  exists g'. split; [exact Hrun|].
  intros x y Hout. destruct (pixel g x y) eqn:Hp.
  - eapply pixel_grows; eassumption.
  - destruct (pixel g' x y) eqn:Hp'; [|reflexivity].
    destruct (Hnear x y Hp') as [H|H]; [congruence|contradiction].
Qed.

Lemma OLED_DrawLine_stays_near_segment_witness :
  exists g',
    OLED_DrawLine 128 3 5 20 12 1 gram_zero = Some g'
    /\ pixel g' 10 5 = pixel gram_zero 10 5.
Proof.
  destruct (OLED_DrawLine_stays_near_segment 128 3 5 20 12 1 gram_zero)
    as (g' & Hrun & Hout); [reflexivity|lia|].
  exists g'. split; [exact Hrun|]. apply Hout.
  unfold near_segment, in_box, line_error. lia.
Defined.

(** X9: a line has no gaps.  With both endpoints on the screen, every
    column between the two endpoints holds a pixel of the bounding box
    that is on afterwards, and so does every row; the line is drawn
    whatever the order and the slope of the endpoints. *)
Theorem OLED_DrawLine_leaves_no_gap fuel X0 Y0 X1 Y1 Color g :
  gram_ok g = true -> (128 <= fuel)%nat ->
  on_screen X0 Y0 -> on_screen X1 Y1 ->
  exists g',
    OLED_DrawLine fuel X0 Y0 X1 Y1 Color g = Some g'
    /\ (forall x, Z.min X0 X1 <= x <= Z.max X0 X1 ->
          exists y, Z.min Y0 Y1 <= y <= Z.max Y0 Y1 /\ pixel g' x y = true)
    /\ (forall y, Z.min Y0 Y1 <= y <= Z.max Y0 Y1 ->
          exists x, Z.min X0 X1 <= x <= Z.max X0 X1 /\ pixel g' x y = true).
Proof.
  intros Hok Hfuel Hon0 Hon1. unfold OLED_DrawLine.
  pose proof Hon0 as [HX0 HY0]. pose proof Hon1 as [HX1 HY1].
  unfold OLED_WIDTH, OLED_HEIGHT in *.
  replace (OLED_CHECK_COORDINATES X0 Y0) with false by (symmetry; apply on_screen_check; lia).
  replace (OLED_CHECK_COORDINATES X1 Y1) with false by (symmetry; apply on_screen_check; lia).
  destruct (Z.eqb_spec Y0 Y1) as [Hy|Hy].
  { subst Y1.
    destruct (Z.gtb_spec X0 X1); eexists; (split; [reflexivity|]); split.
    all: try (intros x Hx; exists Y0; split; [lia|];
              apply (for_range_DrawPoint_pixel _ _ (fun x => (x, Y0)) x g);
              [apply grows_refl, Hok|lia|split; simpl; unfold OLED_WIDTH, OLED_HEIGHT; lia]).
    all: intros y Hy; exists X0; split; [lia|]; replace y with Y0 by lia;
         apply (for_range_DrawPoint_pixel _ _ (fun x => (x, Y0)) X0 g);
         [apply grows_refl, Hok|lia|split; simpl; unfold OLED_WIDTH, OLED_HEIGHT; lia]. }
  destruct (Z.eqb_spec X0 X1) as [Hx|Hx].
  { subst X1.
    destruct (Z.gtb_spec Y0 Y1); eexists; (split; [reflexivity|]); split.
    all: try (intros y Hyr; exists X0; split; [lia|];
              apply (for_range_DrawPoint_pixel _ _ (fun y => (X0, y)) y g);
              [apply grows_refl, Hok|lia|split; simpl; unfold OLED_WIDTH, OLED_HEIGHT; lia]).
    all: intros x Hxr; exists Y0; split; [lia|]; replace x with X0 by lia;
         apply (for_range_DrawPoint_pixel _ _ (fun y => (X0, y)) Y0 g);
         [apply grows_refl, Hok|lia|split; simpl; unfold OLED_WIDTH, OLED_HEIGHT; lia]. }
  destruct (Z.gtb_spec X0 X1) as [Hsw|Hsw];
    [destruct (Z.gtb_spec Y1 Y0) as [Hyf|Hyf]|destruct (Z.gtb_spec Y0 Y1) as [Hyf|Hyf]];
    rewrite ?(s16_small (- Y0)), ?(s16_small (- Y1)) by lia;
    match goal with |- context [?a >? ?b] => destruct (Z.gtb_spec a b) as [Hxy|Hxy] end.
  all: match goal with
    | |- context [while_loop ?f (fun s => ln_x s <? ?x1)
                    (line_step ?yf ?xyf (s16 (2 * s16 (?y1 - ?y0))) _) (mk_line ?x0 _ _ (line_plot _ _ _ _ ?g))] =>
        destruct (line_loop_raster_s16 yf xyf x0 y0 x1 y1 g f)
          as (s' & Hrun & Hgs & _ & HB & HC);
          [lia|lia|lia|lia|lia|lia|assumption|assumption|];
          exists (ln_g s'); rewrite Hrun; split; [reflexivity|]
    end.
  all: unfold line_point in HB, HC; cbn [andb fst snd] in HB, HC; cbv iota in HB, HC;
       cbn [fst snd] in HB, HC.
  all: assert (Es : forall w, -127 <= w <= 127 -> s16 (- w) = - w)
         by (intros w Hw; apply s16_small; lia).
  all: split; intros w Hw.
  (* each of the sixteen goals asks for a row of a column or a column of
     a row; it is answered by the column or row rule of the loop *)
  all: first
    [ destruct (HB w ltac:(lia)) as (z & Hz & Hl);
      rewrite ?(Es z), ?(Es w) in Hl by lia;
      first [ exists z; split; [lia|]; apply Hl; split; unfold OLED_WIDTH, OLED_HEIGHT; lia
            | exists (- z); split; [lia|]; apply Hl; split; unfold OLED_WIDTH, OLED_HEIGHT; lia ]
    | destruct (HB (- w) ltac:(lia)) as (z & Hz & Hl);
      rewrite ?(Es z), ?(Es (- w)), ?Z.opp_involutive in Hl by lia;
      first [ exists z; split; [lia|]; apply Hl; split; unfold OLED_WIDTH, OLED_HEIGHT; lia
            | exists (- z); split; [lia|]; apply Hl; split; unfold OLED_WIDTH, OLED_HEIGHT; lia ]
    | destruct (HC w ltac:(lia)) as (z & Hz & Hl);
      rewrite ?(Es z), ?(Es w) in Hl by lia;
      first [ exists z; split; [lia|]; apply Hl; split; unfold OLED_WIDTH, OLED_HEIGHT; lia
            | exists (- z); split; [lia|]; apply Hl; split; unfold OLED_WIDTH, OLED_HEIGHT; lia ]
    | destruct (HC (- w) ltac:(lia)) as (z & Hz & Hl);
      rewrite ?(Es z), ?(Es (- w)), ?Z.opp_involutive in Hl by lia;
      first [ exists z; split; [lia|]; apply Hl; split; unfold OLED_WIDTH, OLED_HEIGHT; lia
            | exists (- z); split; [lia|]; apply Hl; split; unfold OLED_WIDTH, OLED_HEIGHT; lia ] ].
Qed.

Lemma OLED_DrawLine_leaves_no_gap_witness :
  exists g',
    OLED_DrawLine 128 100 60 90 2 0 gram_zero = Some g'
    /\ exists x, Z.min 100 90 <= x <= Z.max 100 90 /\ pixel g' x 30 = true.
Proof.
  destruct (OLED_DrawLine_leaves_no_gap 128 100 60 90 2 0 gram_zero)
    as (g' & Hrun & _ & Hrows);
    [reflexivity|lia|split; unfold OLED_WIDTH, OLED_HEIGHT; lia
    |split; unfold OLED_WIDTH, OLED_HEIGHT; lia|].
  exists g'. split; [exact Hrun|]. apply Hrows. lia.
Defined.

(** ** OLED_DrawCircle: the rim *)

Lemma new_pixels_in_refl Q g : gram_ok g = true -> new_pixels_in Q g g.
Proof. intros Hok. split; auto. Qed.

Lemma new_pixels_in_DrawPoint Q g t X Y :
  new_pixels_in Q g t -> Q X Y -> new_pixels_in Q g (OLED_DrawPoint X Y 1 t).
Proof.
  intros [Hok Hin] HQ. split; [apply OLED_DrawPoint_ok, Hok|].
  intros x y Hp. apply pixel_DrawPoint_white_only in Hp; [|exact Hok].
  destruct Hp as [Hp|[-> ->]]; auto.
Qed.

Lemma new_pixels_in_for_range Q g a b (body : Z -> gram -> gram) t :
  new_pixels_in Q g t ->
  (forall j t', a <= j < b -> new_pixels_in Q g t' -> new_pixels_in Q g (body j t')) ->
  new_pixels_in Q g (for_range a b body t).
Proof. intros Ht Hstep. apply for_range_inv; assumption. Qed.

Lemma new_pixels_in_unchanged Q g t x y :
  new_pixels_in Q g t -> gram_le g t -> ~ Q x y -> pixel t x y = pixel g x y.
Proof.
  intros [Hok Hin] Hle HQ. destruct (pixel g x y) eqn:Hp.
  - eapply pixel_grows; eassumption.
  - destruct (pixel t x y) eqn:Hp'; [|reflexivity].
    destruct (Hin x y Hp') as [H|H]; [congruence|contradiction].
Qed.

(** The midpoint loop keeps [d = (x + 1)^2 + y^2 - y - Radius^2], with
    [1 - 2 y <= d], and [d <= 2 x] while [x < y]: the point it plots is
    off the ideal circle by at most [y] in the squared distance. *)
Lemma circle_loop_rim X Y Radius IsFilled g fuel t0 :
  -10000 <= X <= 10000 -> -10000 <= Y <= 10000 -> 0 <= Radius <= 10000 ->
  new_pixels_in (in_circle X Y Radius IsFilled) g t0 ->
  (Z.to_nat Radius < fuel)%nat ->
  exists s',
    while_loop fuel (fun s => ci_x s <? ci_y s) (circle_step X Y IsFilled)
      (mk_circle 0 Radius (s16 (1 - Radius)) t0) = Some s'
    /\ new_pixels_in (in_circle X Y Radius IsFilled) g (ci_g s').
Proof.
  intros HX HY HR Ht0 Hfuel.
  pose (Inv := fun s : circle_state =>
    0 <= ci_x s /\ 0 <= ci_y s <= Radius /\ ci_x s <= ci_y s + 1
    /\ ci_d s = (ci_x s + 1) * (ci_x s + 1) + ci_y s * ci_y s - ci_y s - Radius * Radius
    /\ 1 - 2 * ci_y s <= ci_d s
    /\ (ci_x s < ci_y s -> ci_d s <= 2 * ci_x s)
    /\ new_pixels_in (in_circle X Y Radius IsFilled) g (ci_g s)).
  assert (Hstep : forall t, Inv t -> (ci_x t <? ci_y t) = true ->
            Inv (circle_step X Y IsFilled t)
            /\ (Z.to_nat (ci_y (circle_step X Y IsFilled t) - ci_x (circle_step X Y IsFilled t))
                < Z.to_nat (ci_y t - ci_x t))%nat).
  { intros [x y d gt] (Hx & Hy & Hxy & Hd & Hlo & Hhi & Hg) Hc.
    cbv [ci_x ci_y ci_d ci_g] in *. apply Z.ltb_lt in Hc. specialize (Hhi Hc).
    unfold circle_step. cbv [ci_x ci_y ci_d ci_g].
    rewrite (s16_small (x + 1)) by lia.
    assert (Hpts : forall x' y' t,
              0 <= x' -> 0 <= y' <= Radius -> x' <= y' + 1 -> x' <= Radius ->
              - y' <= x' * x' + y' * y' - Radius * Radius <= y' ->
              new_pixels_in (in_circle X Y Radius IsFilled) g t ->
              new_pixels_in (in_circle X Y Radius IsFilled) g
                (if IsFilled =? 0 then circle_octants X Y x' y' t
                 else circle_spans X Y x' y' (circle_octants X Y x' y' t))).
    { clear - HX HY HR. intros x' y' t Hx' Hy' Hxy' HxR He Ht.
      assert (Hoct : new_pixels_in (in_circle X Y Radius IsFilled) g
                       (circle_octants X Y x' y' t)).
      { unfold circle_octants.
        rewrite !(s16_small (X + x')), !(s16_small (X - x')), !(s16_small (X + y')),
          !(s16_small (X - y')), !(s16_small (Y + x')), !(s16_small (Y - x')),
          !(s16_small (Y + y')), !(s16_small (Y - y')) by lia.
        repeat apply new_pixels_in_DrawPoint; try exact Ht;
          unfold in_circle, circle_error; split; intros; nia. }
      destruct (IsFilled =? 0) eqn:Ef; [exact Hoct|].
      apply Z.eqb_neq in Ef.
      unfold circle_spans. rewrite (s16_small (- y')), (s16_small (- x')) by lia.
      apply new_pixels_in_for_range.
      - apply new_pixels_in_for_range; [exact Hoct|].
        intros j t' Hj Ht'.
        rewrite (s16_small (X + x')), (s16_small (X - x')), (s16_small (Y + j)) by lia.
        repeat apply new_pixels_in_DrawPoint; try exact Ht';
          unfold in_circle, circle_error; split; intros; try contradiction; nia.
      - intros j t' Hj Ht'.
        rewrite (s16_small (X + y')), (s16_small (X - y')), (s16_small (Y + j)) by lia.
        repeat apply new_pixels_in_DrawPoint; try exact Ht';
          unfold in_circle, circle_error; split; intros; try contradiction; nia. }
    destruct (Z.ltb_spec d 0) as [Hneg|Hpos].
    - rewrite (s16_small (d + (2 * (x + 1) + 1))) by lia.
      split; [|lia]. unfold Inv. cbv [ci_x ci_y ci_d ci_g].
      split; [lia|]. split; [lia|]. split; [lia|]. split; [lia|]. split; [lia|].
      split; [lia|].
      apply Hpts; try lia. exact Hg.
    - rewrite (s16_small (y - 1)) by lia.
      rewrite (s16_small (d + (2 * (x + 1 - (y - 1)) + 1))) by lia.
      split; [|lia]. unfold Inv. cbv [ci_x ci_y ci_d ci_g].
      split; [lia|]. split; [lia|]. split; [lia|]. split; [lia|]. split; [lia|].
      split; [lia|].
      apply Hpts; try lia. exact Hg. }
  assert (Hinit : Inv (mk_circle 0 Radius (s16 (1 - Radius)) t0)).
  { unfold Inv. cbv [ci_x ci_y ci_d ci_g]. rewrite (s16_small (1 - Radius)) by lia.
    split; [lia|]. split; [lia|]. split; [lia|]. split; [lia|]. split; [lia|].
    split; [lia|exact Ht0]. }
  destruct (while_loop_terminates (fun s => Z.to_nat (ci_y s - ci_x s)) Inv
              (fun s => ci_x s <? ci_y s) (circle_step X Y IsFilled)
              Hstep fuel _ Hinit) as [s' Hrun].
  { cbv [ci_x ci_y]. lia. }
  exists s'. split; [exact Hrun|].
  apply (while_loop_inv Inv) in Hrun as [Hs' _];
    [|exact Hinit|intros t Ht Hc; apply Hstep; assumption].
  apply Hs'.
Qed.

Lemma OLED_DrawCircle_grows fuel X Y Radius IsFilled g :
  gram_ok g = true -> -32768 <= Radius <= 32767 -> (Z.to_nat Radius < fuel)%nat ->
  exists g', OLED_DrawCircle fuel X Y Radius IsFilled g = Some g' /\ grows g g'.
Proof.
  intros Hok HR Hfuel. unfold OLED_DrawCircle.
  match goal with |- context [mk_circle 0 Radius _ ?t] => set (g5 := t) end.
  assert (H5 : grows g g5).
  { unfold g5. destruct (IsFilled =? 0).
    - do 4 apply grows_DrawPoint_white. apply grows_refl, Hok.
    - apply (for_range_inv (grows g));
        [do 4 apply grows_DrawPoint_white; apply grows_refl, Hok|].
      intros j t _ Ht. apply grows_DrawPoint_white, Ht. }
  destruct (circle_loop_terminates X Y IsFilled fuel (mk_circle 0 Radius (s16 (1 - Radius)) g5))
    as [s' Hrun]; [simpl; lia|simpl; lia|simpl; rewrite Z.sub_0_r; exact Hfuel|].
  exists (ci_g s'). rewrite Hrun. split; [reflexivity|].
  apply (while_loop_inv (fun s => grows g (ci_g s))) in Hrun as [Hs' _]; [exact Hs'|exact H5|].
  intros [x y d t] Ht _. cbv [ci_g] in Ht. unfold circle_step. cbv [ci_x ci_y ci_d ci_g].
  assert (Ho : forall x' y', grows g (circle_octants X Y x' y' t))
    by (intros; unfold circle_octants; do 8 apply grows_DrawPoint_white; exact Ht).
  destruct (IsFilled =? 0); [apply Ho|].
  unfold circle_spans. apply (for_range_inv (grows g)).
  - apply (for_range_inv (grows g)); [apply Ho|].
    intros j t' _ Ht'. do 2 apply grows_DrawPoint_white. exact Ht'.
  - intros j t' _ Ht'. do 2 apply grows_DrawPoint_white. exact Ht'.
Qed.

(** X10: a circle stays on its rim.  A pixel that [OLED_DrawCircle]
    turns on lies within [Radius] of the ideal circle in the squared
    distance from the centre, that is less than a pixel from it; when
    the circle is filled it may also lie anywhere inside.  All other
    pixels read as before. *)
Theorem OLED_DrawCircle_stays_on_rim fuel X Y Radius IsFilled g :
  gram_ok g = true ->
  -10000 <= X <= 10000 -> -10000 <= Y <= 10000 -> 0 <= Radius <= 10000 ->
  (Z.to_nat Radius < fuel)%nat ->
  exists g',
    OLED_DrawCircle fuel X Y Radius IsFilled g = Some g'
    /\ forall x y, ~ in_circle X Y Radius IsFilled x y -> pixel g' x y = pixel g x y.
Proof.
  intros Hok HX HY HR Hfuel.
  destruct (OLED_DrawCircle_grows fuel X Y Radius IsFilled g Hok ltac:(lia) Hfuel)
    as (g1 & Hrun1 & _ & Hle1).
  exists g1. split; [exact Hrun1|].
  intros x y Hout. apply (new_pixels_in_unchanged (in_circle X Y Radius IsFilled));
    [|exact Hle1|exact Hout].
  revert Hrun1. unfold OLED_DrawCircle.
  match goal with |- context [mk_circle 0 Radius _ ?t] => set (g5 := t) end.
  assert (H5 : new_pixels_in (in_circle X Y Radius IsFilled) g g5).
  { assert (H4 : new_pixels_in (in_circle X Y Radius IsFilled) g
             (OLED_DrawPoint (s16 (X - Radius)) (s16 (Y - 0)) 1
               (OLED_DrawPoint (s16 (X + Radius)) (s16 (Y + 0)) 1
                  (OLED_DrawPoint (s16 (X - 0)) (s16 (Y - Radius)) 1
                     (OLED_DrawPoint (s16 (X + 0)) (s16 (Y + Radius)) 1 g))))).
    { rewrite !(s16_small (X - Radius)), !(s16_small (X + Radius)), !(s16_small (Y - Radius)),
        !(s16_small (Y + Radius)), !(s16_small (X + 0)), !(s16_small (X - 0)),
        !(s16_small (Y + 0)), !(s16_small (Y - 0)) by lia.
      repeat apply new_pixels_in_DrawPoint; try (apply new_pixels_in_refl, Hok);
        unfold in_circle, circle_error; split; intros; nia. }
    unfold g5. destruct (IsFilled =? 0) eqn:Ef; [exact H4|].
    apply Z.eqb_neq in Ef. rewrite (s16_small (- Radius)) by lia.
    apply new_pixels_in_for_range; [exact H4|].
    intros j t' Hj Ht'. rewrite (s16_small (Y + j)) by lia.
    apply new_pixels_in_DrawPoint; [exact Ht'|].
    unfold in_circle, circle_error; split; intros; try contradiction; nia. }
  destruct (circle_loop_rim X Y Radius IsFilled g fuel g5 HX HY HR H5 Hfuel)
    as (s' & Hrun & Hs').
  rewrite Hrun. intros [= <-]. exact Hs'.
Qed.

Lemma OLED_DrawCircle_stays_on_rim_witness :
  exists g',
    OLED_DrawCircle 10 20 20 5 0 gram_zero = Some g'
    /\ pixel g' 20 20 = pixel gram_zero 20 20.
Proof.
  destruct (OLED_DrawCircle_stays_on_rim 10 20 20 5 0 gram_zero)
    as (g' & Hrun & Hout); [reflexivity|lia|lia|lia|simpl; lia|].
  exists g'. split; [exact Hrun|]. apply Hout.
  unfold in_circle, circle_error. intros [_ H]. specialize (H eq_refl). lia.
Defined.

(** ** OLED_ReverseArea and OLED_ClearArea *)

Lemma for_u8_le_ind {T : Type} (P : Z -> T -> Prop) (body : Z -> T -> option T) a0 last :
  0 <= a0 -> last < 255 ->
  (forall j t, a0 <= j <= last -> P j t -> exists t', body j t = Some t' /\ P (j + 1) t') ->
  forall fuel a s,
    a0 <= a <= last + 1 -> (Z.to_nat (last - a + 1) < fuel)%nat -> P a s ->
    exists s', for_u8_le fuel a last body s = Some s' /\ P (last + 1) s'.
Proof.
  intros Ha0 Hlast Hstep. induction fuel as [|fuel IH]; intros a s Ha Hfuel HP; [lia|].
  simpl. destruct (Z.leb_spec a last) as [Hle|Hgt].
  - destruct (Hstep a s ltac:(lia) HP) as (t' & -> & HP').
    rewrite (u8_small (a + 1)) by lia.
    apply IH; [lia|lia|exact HP'].
  - exists s. split; [reflexivity|]. replace (last + 1) with a by lia. exact HP.
Qed.

Lemma acts_nothing f S g :
  gram_ok g = true ->
  (forall p c b, 0 <= p < 8 -> 0 <= c < 128 -> 0 <= b < 8 -> S p c b = false) ->
  acts f S g g.
Proof.
  intros Hok HS. split; [exact Hok|]. intros p c b Hp Hc Hb. rewrite HS by assumption.
  reflexivity.
Qed.

(** One more disjoint piece. *)
Lemma acts_then f S S' U g t t' :
  acts f S g t -> acts f S' t t' ->
  (forall p c b, 0 <= p < 8 -> 0 <= c < 128 -> 0 <= b < 8 ->
     U p c b = S p c b || S' p c b /\ (S p c b && S' p c b = false)) ->
  acts f U g t'.
Proof.
  intros [_ H1] [Hok H2] HU. split; [exact Hok|].
  intros p c b Hp Hc Hb. rewrite H2, H1 by assumption.
  destruct (HU p c b Hp Hc Hb) as [-> Hd].
  destruct (S p c b), (S' p c b); try discriminate; reflexivity.
Qed.

Lemma acts_ok f S g t : acts f S g t -> gram_ok t = true.
Proof. intros [H _]. exact H. Qed.

(** A store of a byte whose bit [k] went through [f]. *)
Lemma acts_store f (op : Z -> Z -> Z) t p x k :
  (forall a, 0 <= a < 256 ->
     0 <= op a k < 256
     /\ forall b, 0 <= b < 8 ->
          Z.testbit (op a k) b = if b =? k then f (Z.testbit a b) else Z.testbit a b) ->
  gram_ok t = true -> 0 <= p < 8 -> 0 <= x < 128 ->
  acts f (fun p' c b => (p' =? p) && (c =? x) && (b =? k)) t
    (gram_set t p x (op (gram_get t p x) k)).
Proof.
  intros Hop Hok Hp Hx.
  pose proof (gram_ok_shape t Hok) as Hs.
  destruct (Hop (gram_get t p x) (gram_get_byte t p x Hok)) as [Hr Hbits].
  split.
  - apply gram_ok_intro; [apply gram_set_shape, Hs|].
    intros p' c Hp' Hc. rewrite gram_get_set by assumption.
    destruct ((p' =? p) && (c =? x)); [exact Hr|apply gram_get_byte, Hok].
  - intros p' c b Hp' Hc Hb. rewrite gram_get_set by assumption.
    destruct (Z.eqb_spec p' p) as [->|]; [|reflexivity].
    destruct (Z.eqb_spec c x) as [->|]; [|reflexivity].
    cbn [andb]. apply Hbits, Hb.
Qed.

(** The three loops, for a rectangle of bits that lies in the array. *)
Lemma area_bits_acts f op fuel X Width startPage endPage startBit endBit g :
  (forall a k, 0 <= a < 256 -> 0 <= k < 8 ->
     0 <= op a k < 256
     /\ forall b, 0 <= b < 8 ->
          Z.testbit (op a k) b = if b =? k then f (Z.testbit a b) else Z.testbit a b) ->
  gram_ok g = true ->
  0 <= X -> 0 <= Width -> X + Width <= 128 ->
  0 <= startPage <= endPage -> endPage < 8 ->
  0 <= startBit < 8 -> 0 <= endBit < 8 ->
  8 * startPage + startBit <= 8 * endPage + endBit ->
  (9 < fuel)%nat ->
  exists g',
    area_bits fuel op X Width startPage endPage startBit endBit g = Some g'
    /\ acts f (fun p c b =>
                 (X <=? c) && (c <? X + Width)
                 && (8 * startPage + startBit <=? 8 * p + b)
                 && (8 * p + b <=? 8 * endPage + endBit)) g g'.
Proof.
  intros Hop Hok HX HW HXW Hpages Hend Hsb Heb Horder Hfuel.
  unfold area_bits.
  set (lo := fun page => if page =? startPage then startBit else 0).
  set (hi := fun page => if page =? endPage then endBit else 7).
  (* the columns of one bit row *)
  assert (Hcols : forall page k t, 0 <= page < 8 -> 0 <= k < 8 -> gram_ok t = true ->
            acts f (fun p c b => (p =? page) && (b =? k) && (X <=? c) && (c <? X + Width)) t
              (for_range X (X + Width) (fun x g =>
                 gram_set g page x (op (gram_get g page x) k)) t)).
  { intros page k t Hpage Hk Ht.
    apply (for_range_ind (fun j t' =>
             acts f (fun p c b => (p =? page) && (b =? k) && (X <=? c) && (c <? j)) t t'));
      [lia| |].
    - apply acts_nothing; [exact Ht|]. intros p c b _ _ _.
      destruct (Z.leb_spec X c), (Z.ltb_spec c X); try lia;
        rewrite ?andb_false_r; reflexivity.
    - intros j t' Hj Hacc.
      eapply acts_then; [exact Hacc| |].
      + apply (acts_store f op t' page j k); [intros a Ha; apply Hop; assumption| | |];
          [apply (acts_ok _ _ _ _ Hacc)|lia|lia].
      + intros p c b _ _ _. cbv beta.
        destruct (Z.eqb_spec p page), (Z.eqb_spec b k), (Z.eqb_spec c j),
          (Z.leb_spec X c), (Z.ltb_spec c j), (Z.ltb_spec c (j + 1));
          cbn [andb orb]; try lia; split; reflexivity. }
  (* the bit rows of one page *)
  assert (Hrows : forall page t, 0 <= page < 8 -> gram_ok t = true ->
            0 <= lo page < 8 -> 0 <= hi page < 8 -> lo page <= hi page + 1 ->
            exists t',
              for_u8_le fuel (lo page) (hi page) (fun yBit g =>
                Some (for_range X (X + Width) (fun x g =>
                        gram_set g page x (op (gram_get g page x) yBit)) g)) t = Some t'
              /\ acts f (fun p c b => (p =? page) && (lo page <=? b) && (b <=? hi page)
                                      && (X <=? c) && (c <? X + Width)) t t').
  { intros page t Hpage Ht Hlo Hhi Hlh.
    destruct (for_u8_le_ind
                (fun j t' => acts f (fun p c b => (p =? page) && (lo page <=? b) && (b <? j)
                                                  && (X <=? c) && (c <? X + Width)) t t')
                (fun yBit g =>
                   Some (for_range X (X + Width) (fun x g =>
                           gram_set g page x (op (gram_get g page x) yBit)) g))
                (lo page) (hi page) ltac:(lia) ltac:(lia)) with (fuel := fuel) (a := lo page) (s := t)
      as (t' & Hrun & Hacc).
    - intros j u Hj Hacc. eexists. split; [reflexivity|].
      eapply acts_then; [exact Hacc| |].
      + apply Hcols; [lia|lia|apply (acts_ok _ _ _ _ Hacc)].
      + intros p c b _ _ _. cbv beta.
        destruct (Z.eqb_spec p page), (Z.eqb_spec b j), (Z.leb_spec (lo page) b),
          (Z.ltb_spec b j), (Z.ltb_spec b (j + 1)), (Z.leb_spec X c), (Z.ltb_spec c (X + Width));
          cbn [andb orb]; try lia; split; reflexivity.
    - lia.
    - lia.
    - apply acts_nothing; [exact Ht|]. intros p c b _ _ _.
      destruct (Z.leb_spec (lo page) b), (Z.ltb_spec b (lo page)); try lia;
        rewrite ?andb_false_r; reflexivity.
    - exists t'. split; [exact Hrun|].
      destruct Hacc as [Hok' Hbits]. split; [exact Hok'|].
      intros p c b Hp Hc Hb. rewrite Hbits by assumption.
      replace (b <? hi page + 1) with (b <=? hi page); [reflexivity|].
      destruct (Z.leb_spec b (hi page)), (Z.ltb_spec b (hi page + 1)); try lia; reflexivity. }
  (* the pages *)
  destruct (for_u8_le_ind
              (fun j t' => acts f (fun p c b =>
                                     (startPage <=? p) && (p <? j)
                                     && (lo p <=? b) && (b <=? hi p)
                                     && (X <=? c) && (c <? X + Width)) g t')
              (fun page g =>
                 for_u8_le fuel (lo page) (hi page) (fun yBit g =>
                   Some (for_range X (X + Width) (fun x g =>
                           gram_set g page x (op (gram_get g page x) yBit)) g)) g)
              startPage endPage ltac:(lia) ltac:(lia)) with (fuel := fuel) (a := startPage) (s := g)
    as (g' & Hrun & Hacc).
  - intros j t Hj Hacc.
    assert (Hlo : 0 <= lo j < 8) by (unfold lo; destruct (j =? startPage); lia).
    assert (Hhi : 0 <= hi j < 8) by (unfold hi; destruct (j =? endPage); lia).
    assert (Hlh : lo j <= hi j + 1).
    { unfold lo, hi. destruct (Z.eqb_spec j startPage), (Z.eqb_spec j endPage); lia. }
    destruct (Hrows j t ltac:(lia) (acts_ok _ _ _ _ Hacc) Hlo Hhi Hlh) as (t' & Hrun & Hrow).
    exists t'. split; [exact Hrun|].
    eapply acts_then; [exact Hacc|exact Hrow|].
    intros p c b _ _ _. cbv beta.
    destruct (Z.eqb_spec p j) as [->|Hne].
    + destruct (Z.leb_spec startPage j), (Z.ltb_spec j j), (Z.ltb_spec j (j + 1));
        try lia; cbn [andb orb]; split; reflexivity.
    + destruct (Z.leb_spec startPage p), (Z.ltb_spec p j), (Z.ltb_spec p (j + 1));
        try lia; cbn [andb orb]; rewrite ?orb_false_r; split;
        rewrite ?andb_false_r; reflexivity.
  - lia.
  - lia.
  - apply acts_nothing; [exact Hok|]. intros p c b _ _ _.
    destruct (Z.leb_spec startPage p), (Z.ltb_spec p startPage); try lia; reflexivity.
  - exists g'. split; [exact Hrun|].
    destruct Hacc as [Hok' Hbits]. split; [exact Hok'|].
    intros p c b Hp Hc Hb. rewrite Hbits by assumption.
    match goal with |- (if ?a then _ else _) = (if ?b then _ else _) =>
      replace a with b; [reflexivity|] end.
    unfold lo, hi.
    destruct (Z.eqb_spec p startPage), (Z.eqb_spec p endPage),
      (Z.leb_spec startPage p), (Z.ltb_spec p (endPage + 1)),
      (Z.leb_spec X c), (Z.ltb_spec c (X + Width));
      cbn [andb]; try reflexivity;
      repeat match goal with
             | |- context [?a <=? ?b] => destruct (Z.leb_spec a b)
             end; cbn [andb]; try reflexivity; lia.
Qed.

Lemma xor_bit_spec a k :
  0 <= a < 256 -> 0 <= k < 8 ->
  0 <= xor_bit a k < 256
  /\ forall b, 0 <= b < 8 ->
       Z.testbit (xor_bit a k) b = if b =? k then negb (Z.testbit a b) else Z.testbit a b.
Proof.
  intros Ha Hk. split; [apply u8_range|]. intros b Hb.
  unfold xor_bit, u8. change 256 with (2 ^ 8).
  rewrite Z.testbit_mod_pow2 by lia. rewrite Z.lxor_spec.
  rewrite Z.testbit_mod_pow2 by lia.
  rewrite Z.shiftl_1_l, Z.pow2_bits_eqb by lia. rewrite (Z.eqb_sym k b).
  replace (b <? 8) with true by (symmetry; apply Z.ltb_lt; lia).
  destruct (b =? k), (Z.testbit a b); reflexivity.
Qed.

Lemma clear_bit_spec a k :
  0 <= a < 256 -> 0 <= k < 8 ->
  0 <= clear_bit a k < 256
  /\ forall b, 0 <= b < 8 ->
       Z.testbit (clear_bit a k) b = if b =? k then false else Z.testbit a b.
Proof.
  intros Ha Hk. split; [apply u8_range|]. intros b Hb.
  unfold clear_bit, u8. change 256 with (2 ^ 8).
  rewrite Z.testbit_mod_pow2 by lia. rewrite Z.land_spec.
  rewrite Z.testbit_mod_pow2 by lia.
  rewrite Z.lnot_spec, Z.shiftl_1_l, Z.pow2_bits_eqb by lia. rewrite (Z.eqb_sym k b).
  replace (b <? 8) with true by (symmetry; apply Z.ltb_lt; lia).
  destruct (b =? k), (Z.testbit a b); reflexivity.
Qed.

Lemma gram_get_outside g p c :
  gram_shape g -> ~ (0 <= p < 8 /\ 0 <= c < 128) -> gram_get g p c = 0.
Proof.
  intros [Hl Hr] Hout. unfold gram_get.
  destruct (Z.leb_spec 0 p), (Z.leb_spec 0 c); cbn [andb]; try reflexivity.
  destruct (g !! Z.to_nat p) as [row|] eqn:Hrow; [|reflexivity].
  assert (Hp : (Z.to_nat p < 8)%nat) by (rewrite <- Hl; eapply lookup_lt_Some; exact Hrow).
  rewrite Forall_lookup in Hr. specialize (Hr _ _ Hrow).
  rewrite lookup_ge_None_2 by lia. reflexivity.
Qed.

Lemma pixel_off_screen g x y :
  gram_ok g = true -> ~ on_screen x y -> pixel g x y = false.
Proof.
  intros Hok Hout. unfold pixel. rewrite gram_get_outside; [apply Z.testbit_0_l| |].
  - apply gram_ok_shape, Hok.
  - intros [Hp Hc]. apply Hout. unfold on_screen, OLED_WIDTH, OLED_HEIGHT.
    split; [lia|].
    pose proof (Z.div_mod y 8 ltac:(lia)). pose proof (Z.mod_pos_bound y 8 ltac:(lia)). lia.
Qed.

(** Two buffers with the same pixels are the same buffer. *)
Lemma gram_eq_pixels g g' :
  gram_ok g = true -> gram_ok g' = true ->
  (forall x y, on_screen x y -> pixel g x y = pixel g' x y) -> g = g'.
Proof.
  intros Hok Hok' Hpix.
  apply gram_ext; [apply gram_ok_shape, Hok|apply gram_ok_shape, Hok'|].
  intros p c Hp Hc. apply Z.bits_inj'. intros b Hb.
  destruct (Z.lt_ge_cases b 8) as [Hlt|Hge].
  - specialize (Hpix c (8 * p + b)). unfold pixel in Hpix.
    replace ((8 * p + b) / 8) with p in Hpix
      by (apply Z.div_unique with b; lia).
    replace ((8 * p + b) mod 8) with b in Hpix
      by (apply Z.mod_unique with p; lia).
    apply Hpix. unfold on_screen, OLED_WIDTH, OLED_HEIGHT. lia.
  - rewrite !byte_bit_high; try assumption; try reflexivity; apply gram_get_byte; assumption.
Qed.

(** From bits to pixels. *)
Lemma acts_pixel f S g g' x y :
  gram_ok g = true -> acts f S g g' ->
  pixel g' x y
  = if (0 <=? x) && (x <? 128) && (0 <=? y) && (y <? 64) && S (y / 8) x (y mod 8)
    then f (pixel g x y) else pixel g x y.
Proof.
  intros Hok [Hok' Hbits].
  destruct (Z.leb_spec 0 x), (Z.ltb_spec x 128), (Z.leb_spec 0 y), (Z.ltb_spec y 64);
    cbn [andb];
    try (rewrite !pixel_off_screen;
         [reflexivity|assumption|unfold on_screen, OLED_WIDTH, OLED_HEIGHT; lia
         |assumption|unfold on_screen, OLED_WIDTH, OLED_HEIGHT; lia]).
  unfold pixel. apply Hbits; [|lia|apply Z.mod_pos_bound; lia].
  split; [apply Z.div_pos; lia|apply Z.div_lt_upper_bound; lia].
Qed.

(** The common part of the two functions, on pixels: the rectangle is
    first cut to the screen, then every pixel in it goes through [f]. *)
Lemma area_bits_pixels f op fuel X Y Width Height g :
  (forall a k, 0 <= a < 256 -> 0 <= k < 8 ->
     0 <= op a k < 256
     /\ forall b, 0 <= b < 8 ->
          Z.testbit (op a k) b = if b =? k then f (Z.testbit a b) else Z.testbit a b) ->
  gram_ok g = true ->
  0 <= X < 128 -> 0 <= Y < 64 -> 0 < Width <= 255 -> 0 < Height <= 255 ->
  (9 < fuel)%nat ->
  let W := if X + Width >? 128 then u8 (128 - X) else Width in
  let H := if Y + Height >? 64 then u8 (64 - Y) else Height in
  exists g',
    area_bits fuel op X W (u8 (Y ÷ 8)) (u8 ((Y + H - 1) ÷ 8))
      (u8 (Z.rem Y 8)) (u8 (Z.rem (Y + H - 1) 8)) g = Some g'
    /\ gram_ok g' = true
    /\ forall x y, pixel g' x y
                   = if in_area X Y Width Height x y then f (pixel g x y) else pixel g x y.
Proof.
  intros Hop Hok HX HY HW HH Hfuel W H.
  assert (EW : X + W = Z.min (X + Width) 128 /\ 0 < W).
  { unfold W. destruct (Z.gtb_spec (X + Width) 128); [rewrite u8_small by lia|]; lia. }
  assert (EH : Y + H = Z.min (Y + Height) 64 /\ 0 < H).
  { unfold H. destruct (Z.gtb_spec (Y + Height) 64); [rewrite u8_small by lia|]; lia. }
  destruct EW as [EW HW0]. destruct EH as [EH HH0].
  destruct (page_bit_of_row Y HY) as (Eq1 & Er1 & Hp1 & Hb1).
  destruct (page_bit_of_row (Y + H - 1) ltac:(lia)) as (Eq2 & Er2 & Hp2 & Hb2).
  rewrite Eq1, Er1, Eq2, Er2.
  rewrite (u8_small (Y / 8)), (u8_small (Y mod 8)), (u8_small ((Y + H - 1) / 8)),
    (u8_small ((Y + H - 1) mod 8)) by lia.
  pose proof (Z.div_mod Y 8 ltac:(lia)) as Hd1.
  pose proof (Z.div_mod (Y + H - 1) 8 ltac:(lia)) as Hd2.
  assert (Hmono : Y / 8 <= (Y + H - 1) / 8) by (apply Z.div_le_mono; lia).
  destruct (area_bits_acts f op fuel X W (Y / 8) ((Y + H - 1) / 8) (Y mod 8)
              ((Y + H - 1) mod 8) g Hop Hok) as (g' & Hrun & Hacts); try lia.
  exists g'. split; [exact Hrun|]. split; [apply (acts_ok _ _ _ _ Hacts)|].
  intros x y. rewrite (acts_pixel _ _ _ _ x y Hok Hacts).
  match goal with |- (if ?a then _ else _) = (if ?b then _ else _) =>
    replace a with b; [reflexivity|] end.
  unfold in_area, OLED_WIDTH, OLED_HEIGHT. rewrite <- EW, <- EH.
  pose proof (Z.div_mod y 8 ltac:(lia)) as Hdy.
  replace (8 * (y / 8) + y mod 8) with y by lia.
  replace (8 * (Y / 8) + Y mod 8) with Y by lia.
  replace (8 * ((Y + H - 1) / 8) + (Y + H - 1) mod 8) with (Y + H - 1) by lia.
  destruct (Z.leb_spec X x), (Z.ltb_spec x (X + W)), (Z.leb_spec Y y), (Z.ltb_spec y (Y + H)),
    (Z.leb_spec 0 x), (Z.ltb_spec x 128), (Z.leb_spec 0 y), (Z.ltb_spec y 64),
    (Z.leb_spec y (Y + H - 1)); cbn [andb]; try reflexivity; lia.
Qed.

Lemma in_area_rejected X Y Width Height x y :
  0 <= Width -> 0 <= Height ->
  OLED_CHECK_RECTANGLE X Y Width Height = true -> in_area X Y Width Height x y = false.
Proof.
  unfold OLED_CHECK_RECTANGLE, in_area, OLED_WIDTH, OLED_HEIGHT. intros HW HH Hchk.
  destruct (Z.eqb_spec Width 0), (Z.eqb_spec Height 0), (Z.geb_spec X 128), (Z.geb_spec Y 64);
    try discriminate;
    destruct (Z.leb_spec X x), (Z.ltb_spec x (Z.min (X + Width) 128)), (Z.leb_spec Y y),
      (Z.ltb_spec y (Z.min (Y + Height) 64)); cbn [andb]; try reflexivity; lia.
Qed.

Lemma check_rectangle_passed X Y Width Height :
  OLED_CHECK_RECTANGLE X Y Width Height = false ->
  Width <> 0 /\ Height <> 0 /\ X < 128 /\ Y < 64.
Proof.
  unfold OLED_CHECK_RECTANGLE, OLED_WIDTH, OLED_HEIGHT. intros Hchk.
  destruct (Z.eqb_spec Width 0), (Z.eqb_spec Height 0), (Z.geb_spec X 128), (Z.geb_spec Y 64);
    try discriminate. lia.
Qed.

Lemma OLED_ReverseArea_pixels fuel X Y Width Height g :
  gram_ok g = true ->
  0 <= X -> 0 <= Y -> 0 <= Width <= 255 -> 0 <= Height <= 255 ->
  (9 < fuel)%nat ->
  exists g',
    OLED_ReverseArea fuel X Y Width Height g = Some g'
    /\ gram_ok g' = true
    /\ forall x y, pixel g' x y = xorb (pixel g x y) (in_area X Y Width Height x y).
Proof.
  intros Hok HX HY HW HH Hfuel. unfold OLED_ReverseArea.
  destruct (OLED_CHECK_RECTANGLE X Y Width Height) eqn:Hchk.
  { exists g. split; [reflexivity|]. split; [exact Hok|]. intros x y.
    rewrite in_area_rejected by (assumption || lia). rewrite xorb_false_r. reflexivity. }
  apply check_rectangle_passed in Hchk as (HW0 & HH0 & HX1 & HY1).
  destruct (area_bits_pixels negb xor_bit fuel X Y Width Height g xor_bit_spec Hok)
    as (g' & Hrun & Hok' & Hpix); try lia.
  exists g'. split; [exact Hrun|]. split; [exact Hok'|].
  intros x y. rewrite Hpix. destruct (in_area X Y Width Height x y), (pixel g x y); reflexivity.
Qed.

(** X11: what [OLED_ReverseArea] inverts.  For a corner on or right of
    and below the origin, the call returns, and a pixel is inverted
    exactly when it lies in the rectangle cut to the screen; nothing
    else changes. *)
Theorem OLED_ReverseArea_inverts_the_area fuel X Y Width Height g :
  gram_ok g = true ->
  0 <= X -> 0 <= Y -> 0 <= Width <= 255 -> 0 <= Height <= 255 ->
  (9 < fuel)%nat ->
  exists g',
    OLED_ReverseArea fuel X Y Width Height g = Some g'
    /\ forall x y, pixel g' x y = xorb (pixel g x y) (in_area X Y Width Height x y).
Proof.
  intros Hok HX HY HW HH Hfuel.
  destruct (OLED_ReverseArea_pixels fuel X Y Width Height g Hok HX HY HW HH Hfuel)
    as (g' & Hrun & _ & Hpix).
  exists g'. auto.
Qed.

Lemma OLED_ReverseArea_inverts_the_area_witness :
  exists g',
    OLED_ReverseArea 10 120 60 20 9 gram_zero = Some g'
    /\ pixel g' 127 63 = true /\ pixel g' 119 63 = false.
Proof.
  destruct (OLED_ReverseArea_inverts_the_area 10 120 60 20 9 gram_zero)
    as (g' & Hrun & Hpix); [reflexivity|lia|lia|lia|lia|lia|].
  exists g'. split; [exact Hrun|]. rewrite !Hpix. split; reflexivity.
Defined.

(** X12: inverting an area twice restores the buffer, byte for byte. *)
Theorem OLED_ReverseArea_twice_is_identity fuel X Y Width Height g :
  gram_ok g = true ->
  0 <= X -> 0 <= Y -> 0 <= Width <= 255 -> 0 <= Height <= 255 ->
  (9 < fuel)%nat ->
  exists g',
    OLED_ReverseArea fuel X Y Width Height g = Some g'
    /\ OLED_ReverseArea fuel X Y Width Height g' = Some g.
Proof.
  intros Hok HX HY HW HH Hfuel.
  destruct (OLED_ReverseArea_pixels fuel X Y Width Height g Hok HX HY HW HH Hfuel)
    as (g' & Hrun & Hok' & Hpix).
  destruct (OLED_ReverseArea_pixels fuel X Y Width Height g' Hok' HX HY HW HH Hfuel)
    as (g'' & Hrun' & Hok'' & Hpix').
  exists g'. split; [exact Hrun|]. rewrite Hrun'. f_equal.
  apply gram_eq_pixels; [exact Hok''|exact Hok|].
  intros x y _. rewrite Hpix', Hpix.
  destruct (pixel g x y), (in_area X Y Width Height x y); reflexivity.
Qed.

Lemma OLED_ReverseArea_twice_is_identity_witness :
  exists g',
    OLED_ReverseArea 10 3 5 40 30 gram_zero = Some g'
    /\ OLED_ReverseArea 10 3 5 40 30 g' = Some gram_zero.
Proof.
  apply (OLED_ReverseArea_twice_is_identity 10 3 5 40 30 gram_zero);
    [reflexivity|lia|lia|lia|lia|lia].
Defined.

(** The [memset] of the whole-page case. *)
Lemma memset_row_acts g page X Width :
  gram_ok g = true -> 0 <= page < 8 -> 0 <= X -> 0 <= Width -> X + Width <= 128 ->
  acts (fun _ => false) (fun p c b => (p =? page) && (X <=? c) && (c <? X + Width)) g
    (for_range X (X + Width) (fun x g => gram_set g page x 0) g).
Proof.
  intros Hok Hpage HX HW HXW.
  apply (for_range_ind (fun j t =>
           acts (fun _ => false) (fun p c b => (p =? page) && (X <=? c) && (c <? j)) g t));
    [lia| |].
  - apply acts_nothing; [exact Hok|]. intros p c b _ _ _. lia.
  - intros j t Hj Hacc. pose proof (acts_ok _ _ _ _ Hacc) as Ht.
    pose proof (gram_ok_shape t Ht) as Hs.
    eapply acts_then with (S' := fun p c b => (p =? page) && (c =? j)); [exact Hacc| |].
    + split.
      * apply gram_ok_intro; [apply gram_set_shape, Hs|].
        intros p c Hp Hc. rewrite gram_get_set by (assumption || lia).
        destruct ((p =? page) && (c =? j)); [lia|apply gram_get_byte, Ht].
      * intros p c b Hp Hc Hb. rewrite gram_get_set by (assumption || lia).
        destruct ((p =? page) && (c =? j)); [apply Z.testbit_0_l|reflexivity].
    + intros p c b _ _ _. cbv beta. lia.
Qed.

Lemma OLED_ClearArea_pixels fuel X Y Width Height g :
  gram_ok g = true ->
  0 <= X -> 0 <= Y -> 0 <= Width <= 255 -> 0 <= Height <= 255 ->
  (9 < fuel)%nat ->
  exists g',
    OLED_ClearArea fuel X Y Width Height g = Some g'
    /\ gram_ok g' = true
    /\ forall x y, pixel g' x y = pixel g x y && negb (in_area X Y Width Height x y).
Proof.
  intros Hok HX HY HW HH Hfuel. unfold OLED_ClearArea.
  destruct (OLED_CHECK_RECTANGLE X Y Width Height) eqn:Hchk.
  { exists g. split; [reflexivity|]. split; [exact Hok|]. intros x y.
    rewrite in_area_rejected by (assumption || lia). rewrite andb_true_r. reflexivity. }
  apply check_rectangle_passed in Hchk as (HW0 & HH0 & HX1 & HY1).
  match goal with |- context [if ?c then Some _ else area_bits _ _ _ _ _ _ _ _ _] =>
    destruct c eqn:Hfast end.
  - (* one whole page *)
    set (W := if X + Width >? 128 then u8 (128 - X) else Width) in *.
    set (H := if Y + Height >? 64 then u8 (64 - Y) else Height) in *.
    assert (EW : X + W = Z.min (X + Width) 128 /\ 0 < W).
    { unfold W. destruct (Z.gtb_spec (X + Width) 128); [rewrite u8_small by lia|]; lia. }
    assert (EH : Y + H = Z.min (Y + Height) 64 /\ 0 < H).
    { unfold H. destruct (Z.gtb_spec (Y + Height) 64); [rewrite u8_small by lia|]; lia. }
    destruct EW as [EW HW1]. destruct EH as [EH HH1].
    destruct (page_bit_of_row Y ltac:(lia)) as (Eq1 & Er1 & Hp1 & Hb1).
    destruct (page_bit_of_row (Y + H - 1) ltac:(lia)) as (Eq2 & Er2 & Hp2 & Hb2).
    rewrite Eq1, Er1, Eq2, Er2 in Hfast. rewrite Eq1.
    rewrite (u8_small (Y / 8)), (u8_small (Y mod 8)), (u8_small ((Y + H - 1) / 8)),
      (u8_small ((Y + H - 1) mod 8)) in Hfast by lia.
    rewrite (u8_small (Y / 8)) by lia.
    apply andb_true_iff in Hfast as [Hfast He7]. apply andb_true_iff in Hfast as [Hpg Hs0].
    apply Z.eqb_eq in Hpg, Hs0, He7.
    pose proof (Z.div_mod Y 8 ltac:(lia)) as Hd1.
    pose proof (Z.div_mod (Y + H - 1) 8 ltac:(lia)) as Hd2.
    pose proof (memset_row_acts g (Y / 8) X W Hok ltac:(lia) ltac:(lia) ltac:(lia) ltac:(lia))
      as Hacts.
    eexists. split; [reflexivity|]. split; [apply (acts_ok _ _ _ _ Hacts)|].
    intros x y. rewrite (acts_pixel _ _ _ _ x y Hok Hacts).
    replace (in_area X Y Width Height x y)
      with ((0 <=? x) && (x <? 128) && (0 <=? y) && (y <? 64)
            && ((y / 8 =? Y / 8) && (X <=? x) && (x <? X + W))).
    { destruct (_ && _), (pixel g x y); reflexivity. }
    unfold in_area, OLED_WIDTH, OLED_HEIGHT. rewrite <- EW, <- EH.
    pose proof (Z.div_mod y 8 ltac:(lia)) as Hdy.
    pose proof (Z.mod_pos_bound y 8 ltac:(lia)) as Hmy.
    destruct (Z.eqb_spec (y / 8) (Y / 8)); lia.
  - destruct (area_bits_pixels (fun _ => false) clear_bit fuel X Y Width Height g
                clear_bit_spec Hok) as (g' & Hrun & Hok' & Hpix); try lia.
    exists g'. split; [exact Hrun|]. split; [exact Hok'|].
    intros x y. rewrite Hpix.
    destruct (in_area X Y Width Height x y), (pixel g x y); reflexivity.
Qed.

(** X13: what [OLED_ClearArea] clears.  For a corner on or right of and
    below the origin, the call returns, and afterwards a pixel is on
    exactly when it was on before and lies outside the rectangle cut to
    the screen; the [memset] taken for a rectangle that is one whole
    page high gives the same as the bit loops. *)
Theorem OLED_ClearArea_clears_the_area fuel X Y Width Height g :
  gram_ok g = true ->
  0 <= X -> 0 <= Y -> 0 <= Width <= 255 -> 0 <= Height <= 255 ->
  (9 < fuel)%nat ->
  exists g',
    OLED_ClearArea fuel X Y Width Height g = Some g'
    /\ forall x y, pixel g' x y = pixel g x y && negb (in_area X Y Width Height x y).
Proof.
  intros Hok HX HY HW HH Hfuel.
  destruct (OLED_ClearArea_pixels fuel X Y Width Height g Hok HX HY HW HH Hfuel)
    as (g' & Hrun & _ & Hpix).
  exists g'. auto.
Qed.

Lemma OLED_ClearArea_clears_the_area_witness :
  exists g',
    OLED_ClearArea 10 8 16 200 8 (OLED_Reverse gram_zero) = Some g'
    /\ pixel g' 127 23 = false /\ pixel g' 127 24 = true.
Proof.
  destruct (OLED_ClearArea_clears_the_area 10 8 16 200 8 (OLED_Reverse gram_zero))
    as (g' & Hrun & Hpix); [vm_compute; reflexivity|lia|lia|lia|lia|lia|].
  exists g'. split; [exact Hrun|]. rewrite !Hpix. split; vm_compute; reflexivity.
Defined.

Lemma OLED_Reverse_pixel g x y :
  gram_ok g = true ->
  gram_ok (OLED_Reverse g) = true
  /\ pixel (OLED_Reverse g) x y
     = xorb (pixel g x y) ((0 <=? x) && (x <? 128) && (0 <=? y) && (y <? 64)).
Proof.
  intros Hok. destruct (OLED_Reverse_get g (gram_ok_shape g Hok)) as [Hs Hget].
  assert (Hok' : gram_ok (OLED_Reverse g) = true).
  { apply gram_ok_intro; [exact Hs|]. intros p c Hp Hc. rewrite Hget by assumption.
    apply u8_range. }
  split; [exact Hok'|].
  destruct (Z.leb_spec 0 x), (Z.ltb_spec x 128), (Z.leb_spec 0 y), (Z.ltb_spec y 64);
    cbn [andb];
    try (rewrite !pixel_off_screen;
         [reflexivity|assumption|unfold on_screen, OLED_WIDTH, OLED_HEIGHT; lia
         |assumption|unfold on_screen, OLED_WIDTH, OLED_HEIGHT; lia]).
  unfold pixel. destruct (page_bit_of_row y ltac:(lia)) as (_ & _ & Hp & Hb).
  rewrite Hget by lia. rewrite byte_bit_flip by (apply gram_get_byte, Hok).
  replace ((0 <=? y mod 8) && (y mod 8 <? 8)) with true by lia.
  destruct (Z.testbit _ _); reflexivity.
Qed.

Lemma gram_zero_get p c : gram_get gram_zero p c = 0.
Proof.
  unfold gram_get.
  destruct ((0 <=? p) && (0 <=? c)); [|reflexivity].
  destruct (gram_zero !! Z.to_nat p) as [row|] eqn:Hrow; [|reflexivity].
  apply list_elem_of_lookup_2, list_elem_of_In, repeat_spec in Hrow. subst row.
  destruct (repeat 0 (Z.to_nat OLED_COLUMN_COUNT) !! Z.to_nat c) as [v|] eqn:Hv;
    [|reflexivity].
  apply list_elem_of_lookup_2, list_elem_of_In, repeat_spec in Hv. subst v. reflexivity.
Qed.

(** X14: the area functions on the whole screen are the whole-screen
    functions.  [OLED_ReverseArea (0, 0, 128, 64)] gives the buffer that
    [OLED_Reverse] gives, and [OLED_ClearArea (0, 0, 128, 64)] the
    buffer that [OLED_Clear] gives. *)
Theorem area_functions_on_the_whole_screen fuel g :
  gram_ok g = true -> (9 < fuel)%nat ->
  OLED_ReverseArea fuel 0 0 128 64 g = Some (OLED_Reverse g)
  /\ OLED_ClearArea fuel 0 0 128 64 g = Some (OLED_Clear g).
Proof.
  intros Hok Hfuel. split.
  - destruct (OLED_ReverseArea_pixels fuel 0 0 128 64 g Hok) as (g' & -> & Hok' & Hpix);
      try lia.
    f_equal. apply gram_eq_pixels; [exact Hok'|apply (proj1 (OLED_Reverse_pixel g 0 0 Hok))|].
    intros x y [Hx Hy]. unfold OLED_WIDTH, OLED_HEIGHT in *.
    rewrite Hpix. rewrite (proj2 (OLED_Reverse_pixel g x y Hok)). reflexivity.
  - destruct (OLED_ClearArea_pixels fuel 0 0 128 64 g Hok) as (g' & -> & Hok' & Hpix);
      try lia.
    f_equal. apply gram_eq_pixels; [exact Hok'|reflexivity|].
    intros x y [Hx Hy]. unfold OLED_WIDTH, OLED_HEIGHT in *.
    rewrite Hpix. unfold OLED_Clear.
    replace (in_area 0 0 128 64 x y) with true by (unfold in_area, OLED_WIDTH, OLED_HEIGHT; lia).
    rewrite andb_false_r. symmetry.
    unfold pixel. destruct (page_bit_of_row y ltac:(lia)) as (_ & _ & Hp & Hb).
    rewrite gram_zero_get. apply Z.testbit_0_l.
Qed.

Lemma area_functions_on_the_whole_screen_witness :
  OLED_ReverseArea 10 0 0 128 64 (OLED_DrawPoint 3 4 1 gram_zero)
  = Some (OLED_Reverse (OLED_DrawPoint 3 4 1 gram_zero)).
Proof.
  apply (area_functions_on_the_whole_screen 10 (OLED_DrawPoint 3 4 1 gram_zero));
    [vm_compute; reflexivity|lia].
Defined.

(** ** OLED_DrawRectangle *)

Lemma painted_refl S g : gram_ok g = true -> (forall x y, ~ S x y) -> painted S g g.
Proof.
  intros Hok HS. split; [exact Hok|]. intros x y. split; [auto|].
  intros [H|H]; [exact H|destruct (HS x y H)].
Qed.

Lemma painted_ext S U g t :
  painted S g t -> (forall x y, S x y <-> U x y) -> painted U g t.
Proof.
  intros [Hok H] HSU. split; [exact Hok|]. intros x y. rewrite H, HSU. reflexivity.
Qed.

Lemma painted_DrawPoint S U g t X Y :
  painted S g t -> 0 <= X < 128 -> 0 <= Y < 64 ->
  (forall x y, U x y <-> S x y \/ (x = X /\ y = Y)) ->
  painted U g (OLED_DrawPoint X Y 1 t).
Proof.
  intros [Hok H] HX HY HU. split; [apply OLED_DrawPoint_ok, Hok|].
  intros x y. rewrite pixel_DrawPoint by exact Hok.
  replace (OLED_CHECK_COORDINATES X Y) with false
    by (symmetry; apply on_screen_check; lia).
  rewrite HU. cbn [negb andb].
  destruct (Z.eqb_spec x X) as [->|Hx]; cbn [andb].
  - destruct (Z.eqb_spec y Y) as [->|Hy].
    + change (1 =? OLED_COLOR_WHITE) with true. split; auto.
    + rewrite H. tauto.
  - rewrite H. tauto.
Qed.

Lemma painted_DrawPoint_or S g t X Y :
  painted S g t -> 0 <= X < 128 -> 0 <= Y < 64 ->
  painted (fun x y => S x y \/ (x = X /\ y = Y)) g (OLED_DrawPoint X Y 1 t).
Proof.
  intros Hp HX HY.
  apply (painted_DrawPoint S _ g t X Y Hp HX HY). intros x y. reflexivity.
Qed.

Lemma for_u8_ind {T : Type} (P : Z -> T -> Prop) (body : Z -> T -> option T) a0 bound :
  0 <= a0 -> bound <= 255 ->
  (forall j t, a0 <= j < bound -> P j t -> exists t', body j t = Some t' /\ P (j + 1) t') ->
  forall fuel a s,
    a0 <= a <= bound -> (Z.to_nat (bound - a) < fuel)%nat -> P a s ->
    exists s', for_u8 fuel a bound body s = Some s' /\ P bound s'.
Proof.
  intros Ha0 Hb Hstep. induction fuel as [|fuel IH]; intros a s Ha Hfuel HP; [lia|].
  simpl. destruct (Z.ltb_spec a bound) as [Hlt|Hge].
  - destruct (Hstep a s ltac:(lia) HP) as (t' & -> & HP').
    rewrite (u8_small (a + 1)) by lia.
    apply IH; [lia|lia|exact HP'].
  - exists s. split; [reflexivity|]. replace bound with a by lia. exact HP.
Qed.

(** A [uint8_t] counter never reaches a bound above 255. *)
Lemma for_u8_no_end {T : Type} (body : Z -> T -> option T) bound :
  255 < bound ->
  forall fuel i s, 0 <= i <= 255 -> for_u8 fuel i bound body s = None.
Proof.
  intros Hb. induction fuel as [|fuel IH]; intros i s Hi; [reflexivity|].
  simpl. destruct (Z.ltb_spec i bound); [|lia].
  destruct (body i s); [|reflexivity].
  apply IH. pose proof (u8_range (i + 1)). lia.
Qed.

Lemma for_u8_body_none {T : Type} (body : Z -> T -> option T) fuel i bound s :
  i < bound -> body i s = None -> for_u8 fuel i bound body s = None.
Proof.
  intros Hi Hb. destruct fuel as [|fuel]; [reflexivity|].
  simpl. replace (i <? bound) with true by lia. rewrite Hb. reflexivity.
Qed.

Lemma rem_small i n : 0 <= i -> 0 < n -> Z.rem i n = i mod n.
Proof. intros. apply Z.rem_mod_nonneg; lia. Qed.

(** X15: a rectangle that runs past an edge comes back on the other
    side.  With the corner on the screen, a width and a height that are
    not negative and the far corner within 255, [OLED_DrawRectangle]
    returns and turns on exactly the pixels of the rectangle taken
    modulo the screen size (of its outline when it is not filled);
    within the screen that is the rectangle itself. *)
Theorem OLED_DrawRectangle_wraps_around fuel X Y Width Height IsFilled g :
  gram_ok g = true ->
  0 <= X < 128 -> 0 <= Y < 64 -> 0 <= Width -> 0 <= Height ->
  X + Width <= 255 -> Y + Height <= 255 ->
  (256 < fuel)%nat ->
  exists g',
    OLED_DrawRectangle fuel X Y Width Height IsFilled g = Some g'
    /\ forall x y,
         pixel g' x y = true
         <-> pixel g x y = true \/ wrapped_rectangle X Y Width Height IsFilled x y.
Proof.
  intros Hok HX HY HW HH HXW HYH Hfuel.
  assert (Hgoal : exists g',
            OLED_DrawRectangle fuel X Y Width Height IsFilled g = Some g'
            /\ painted (wrapped_rectangle X Y Width Height IsFilled) g g').
  2:{ destruct Hgoal as (g' & Hrun & _ & Hp). exists g'. auto. }
  unfold OLED_DrawRectangle.
  destruct (OLED_CHECK_RECTANGLE X Y Width Height) eqn:Hchk.
  { exists g. split; [reflexivity|]. apply painted_refl; [exact Hok|].
    intros x y (i & j & Hi & Hj & _).
    unfold OLED_CHECK_RECTANGLE, OLED_WIDTH, OLED_HEIGHT in Hchk. lia. }
  apply check_rectangle_passed in Hchk as (HW0 & HH0 & _ & _).
  replace (X >=? 128) with false by lia. replace (X <? 0) with false by lia.
  replace (Y >=? 64) with false by lia. replace (Y <? 0) with false by lia.
  cbv iota. rewrite (u8_small X), (u8_small Y) by lia.
  assert (Hm128 : forall i, 0 <= i -> s16 (Z.rem i 128) = i mod 128 /\ 0 <= i mod 128 < 128).
  { intros i Hi. rewrite rem_small by lia. pose proof (Z.mod_pos_bound i 128 ltac:(lia)).
    rewrite s16_small by lia. lia. }
  assert (Hm64 : forall i, 0 <= i -> s16 (Z.rem i 64) = i mod 64 /\ 0 <= i mod 64 < 64).
  { intros i Hi. rewrite rem_small by lia. pose proof (Z.mod_pos_bound i 64 ltac:(lia)).
    rewrite s16_small by lia. lia. }
  destruct (Z.eqb_spec IsFilled 0) as [Hf|Hf].
  - (* the outline: the two rows, then the two columns *)
    destruct (for_u8_ind
                (fun k t => painted (fun x y => exists i, X <= i < k /\ x = i mod 128
                                       /\ (y = Y \/ y = (Y + Height - 1) mod 64)) g t)
                (fun i g =>
                   Some (OLED_DrawPoint (s16 (Z.rem i 128)) (s16 (Z.rem (Y + Height - 1) 64)) 1
                           (OLED_DrawPoint (s16 (Z.rem i 128)) Y 1 g)))
                X (X + Width) ltac:(lia) ltac:(lia)) with (fuel := fuel) (a := X) (s := g)
      as (g1 & Hrun1 & Hp1).
    { intros k t Hk Hp. eexists. split; [reflexivity|].
      destruct (Hm128 k ltac:(lia)) as [-> Hr]. destruct (Hm64 (Y + Height - 1) ltac:(lia)) as [-> Hr'].
      eapply painted_ext;
        [apply painted_DrawPoint_or; [apply painted_DrawPoint_or; [exact Hp|lia|lia]|lia|lia]|].
      cbv beta. intros x y. split; [|intros (i & Hi & -> & Hy)].
      - { intros [[(i & Hi & -> & Hy)|[-> ->]]|[-> ->]].
          * exists i. split; [lia|]. auto.
          * exists k. split; [lia|]. auto.
          * exists k. split; [lia|]. auto. }
      - { destruct (Z.eq_dec i k) as [->|Hne].
          * destruct Hy as [->| ->]; auto.
          * left. left. exists i. split; [lia|]. auto. } }
    { lia. } { lia. }
    { apply painted_refl; [exact Hok|]. intros x y (i & Hi & _). lia. }
    rewrite Hrun1.
    destruct (for_u8_ind
                (fun k t => painted (fun x y =>
                                       (exists i, X <= i < X + Width /\ x = i mod 128
                                          /\ (y = Y \/ y = (Y + Height - 1) mod 64))
                                       \/ exists j, Y <= j < k /\ y = j mod 64
                                            /\ (x = X \/ x = (X + Width - 1) mod 128)) g t)
                (fun i g =>
                   Some (OLED_DrawPoint (s16 (Z.rem (X + Width - 1) 128)) (s16 (Z.rem i 64)) 1
                           (OLED_DrawPoint X (s16 (Z.rem i 64)) 1 g)))
                Y (Y + Height) ltac:(lia) ltac:(lia)) with (fuel := fuel) (a := Y) (s := g1)
      as (g2 & Hrun2 & Hp2).
    { intros k t Hk Hp. eexists. split; [reflexivity|].
      destruct (Hm64 k ltac:(lia)) as [-> Hr]. destruct (Hm128 (X + Width - 1) ltac:(lia)) as [-> Hr'].
      eapply painted_ext;
        [apply painted_DrawPoint_or; [apply painted_DrawPoint_or; [exact Hp|lia|lia]|lia|lia]|].
      cbv beta. intros x y. split.
      - intros [[[Hrow|(j & Hj & -> & Hx)]|[-> ->]]|[-> ->]].
        + auto.
        + right. exists j. split; [lia|]. auto.
        + right. exists k. split; [lia|]. auto.
        + right. exists k. split; [lia|]. auto.
      - intros [Hrow|(j & Hj & -> & Hx)]; [auto|].
        destruct (Z.eq_dec j k) as [->|Hne].
        + destruct Hx as [->| ->]; auto.
        + left. left. right. exists j. split; [lia|]. auto. }
    { lia. } { lia. }
    { eapply painted_ext; [exact Hp1|]. intros x y. split; [auto|].
      intros [H|(j & Hj & _)]; [exact H|lia]. }
    exists g2. split; [exact Hrun2|].
    eapply painted_ext; [exact Hp2|]. intros x y. unfold wrapped_rectangle. split.
    + intros [(i & Hi & -> & [->| ->])|(j & Hj & -> & [->| ->])].
      * exists i, Y. rewrite (Z.mod_small Y 64) by lia. repeat split; try lia; auto.
      * exists i, (Y + Height - 1). repeat split; try lia; auto.
      * exists X, j. rewrite (Z.mod_small X 128) by lia. repeat split; try lia; auto.
      * exists (X + Width - 1), j. repeat split; try lia; auto.
    + intros (i & j & Hi & Hj & -> & -> & Hb).
      destruct (Hb Hf) as [->|[->|[->| ->]]].
      * right. exists j. split; [lia|]. rewrite (Z.mod_small X 128) by lia. auto.
      * right. exists j. split; [lia|]. auto.
      * left. exists i. split; [lia|]. rewrite (Z.mod_small Y 64) by lia. auto.
      * left. exists i. split; [lia|]. auto.
  - (* filled: column by column *)
    destruct (for_u8_ind
                (fun k t => painted (fun x y => exists i j, X <= i < k /\ Y <= j < Y + Height
                                       /\ x = i mod 128 /\ y = j mod 64) g t)
                (fun i g =>
                   for_u8 fuel Y (Y + Height) (fun j g =>
                     Some (OLED_DrawPoint (s16 (Z.rem i 128)) (s16 (Z.rem j 64)) 1 g)) g)
                X (X + Width) ltac:(lia) ltac:(lia)) with (fuel := fuel) (a := X) (s := g)
      as (g1 & Hrun1 & Hp1).
    { intros k t Hk Hp.
      destruct (for_u8_ind
                  (fun l u => painted (fun x y =>
                                         (exists i j, X <= i < k /\ Y <= j < Y + Height
                                            /\ x = i mod 128 /\ y = j mod 64)
                                         \/ exists j, Y <= j < l /\ x = k mod 128 /\ y = j mod 64)
                                g u)
                  (fun j g => Some (OLED_DrawPoint (s16 (Z.rem k 128)) (s16 (Z.rem j 64)) 1 g))
                  Y (Y + Height) ltac:(lia) ltac:(lia)) with (fuel := fuel) (a := Y) (s := t)
        as (t' & Hrun & Hp').
      { intros l u Hl Hu. eexists. split; [reflexivity|].
        destruct (Hm128 k ltac:(lia)) as [-> Hr]. destruct (Hm64 l ltac:(lia)) as [-> Hr'].
        eapply painted_ext; [apply painted_DrawPoint_or; [exact Hu|lia|lia]|].
        cbv beta. intros x y. split.
        - intros [[Hold|(j & Hj & -> & ->)]|[-> ->]].
          + auto.
          + right. exists j. split; [lia|]. auto.
          + right. exists l. split; [lia|]. auto.
        - intros [Hold|(j & Hj & -> & ->)]; [auto|].
          destruct (Z.eq_dec j l) as [->|Hne]; [auto|].
          left. right. exists j. split; [lia|]. auto. }
      { lia. } { lia. }
      { eapply painted_ext; [exact Hp|]. intros x y. split; [auto|].
        intros [H|(j & Hj & _)]; [exact H|lia]. }
      exists t'. split; [exact Hrun|].
      eapply painted_ext; [exact Hp'|]. intros x y. split.
      - intros [(i & j & Hi & Hj & -> & ->)|(j & Hj & -> & ->)].
        + exists i, j. repeat split; lia.
        + exists k, j. repeat split; lia.
      - intros (i & j & Hi & Hj & -> & ->). destruct (Z.eq_dec i k) as [->|Hne].
        + right. exists j. auto.
        + left. exists i, j. repeat split; lia. }
    { lia. } { lia. }
    { apply painted_refl; [exact Hok|]. intros x y (i & j & Hi & _). lia. }
    exists g1. split; [exact Hrun1|].
    eapply painted_ext; [exact Hp1|]. intros x y. unfold wrapped_rectangle. split.
    + intros (i & j & Hi & Hj & -> & ->). exists i, j. repeat split; try lia;
        intros; contradiction.
    + intros (i & j & Hi & Hj & -> & -> & _). exists i, j. repeat split; lia.
Qed.

Lemma OLED_DrawRectangle_wraps_around_witness :
  exists g',
    OLED_DrawRectangle 300 120 60 16 8 1 gram_zero = Some g'
    /\ pixel g' 7 3 = true.
Proof.
  destruct (OLED_DrawRectangle_wraps_around 300 120 60 16 8 1 gram_zero)
    as (g' & Hrun & Hpix); [reflexivity|lia|lia|lia|lia|lia|lia|lia|].
  exists g'. split; [exact Hrun|]. apply Hpix. right.
  exists 135, 67. repeat split; try lia; discriminate.
Defined.

(** X16: a rectangle that is too wide or too high for the counter.  The
    loops count in a [uint8_t]: with the corner on the screen, a
    positive width and height, and a far corner past 255 in either
    direction, the call never returns. *)
Theorem OLED_DrawRectangle_past_255_never_returns fuel X Y Width Height IsFilled g :
  0 <= X < 128 -> 0 <= Y < 64 -> 0 < Width -> 0 < Height ->
  255 < X + Width \/ 255 < Y + Height ->
  OLED_DrawRectangle fuel X Y Width Height IsFilled g = None.
Proof.
  intros HX HY HW HH Hbig. unfold OLED_DrawRectangle.
  replace (OLED_CHECK_RECTANGLE X Y Width Height) with false
    by (unfold OLED_CHECK_RECTANGLE, OLED_WIDTH, OLED_HEIGHT; lia).
  replace (X >=? 128) with false by lia. replace (X <? 0) with false by lia.
  replace (Y >=? 64) with false by lia. replace (Y <? 0) with false by lia.
  cbv iota. rewrite (u8_small X), (u8_small Y) by lia.
  destruct (IsFilled =? 0).
  - destruct (for_u8 fuel X (X + Width) _ g) as [g1|] eqn:Hrow; [|reflexivity].
    destruct (Z_lt_le_dec 255 (X + Width)) as [Hx|Hx].
    + rewrite for_u8_no_end in Hrow by lia. discriminate.
    + apply for_u8_no_end; lia.
  - destruct (Z_lt_le_dec 255 (X + Width)) as [Hx|Hx]; [apply for_u8_no_end; lia|].
    assert (Hy : 255 < Y + Height) by lia.
    apply for_u8_body_none; [lia|]. apply for_u8_no_end; lia.
Qed.

Lemma OLED_DrawRectangle_past_255_never_returns_witness :
  OLED_DrawRectangle 5000 0 0 256 1 1 gram_zero = None.
Proof.
  apply OLED_DrawRectangle_past_255_never_returns; lia.
Defined.

(** ** OLED_DrawTriangle *)

Lemma OLED_DrawLine_spec fuel X0 Y0 X1 Y1 Color g :
  gram_ok g = true -> (128 <= fuel)%nat ->
  on_screen X0 Y0 -> on_screen X1 Y1 ->
  exists g',
    OLED_DrawLine fuel X0 Y0 X1 Y1 Color g = Some g'
    /\ grows g g'
    /\ pixel g' X0 Y0 = true /\ pixel g' X1 Y1 = true
    /\ forall x y, pixel g' x y = true -> pixel g x y = true \/ near_segment X0 Y0 X1 Y1 x y.
Proof.
  intros Hok Hfuel H0 H1.
  destruct (OLED_DrawLine_endpoints fuel X0 Y0 X1 Y1 Color g Hok Hfuel H0 H1)
    as (g' & Hrun & Hg & Hp0 & Hp1).
  destruct (OLED_DrawLine_new_pixels fuel X0 Y0 X1 Y1 Color g Hok Hfuel)
    as (g'' & Hrun' & _ & Hnear).
  rewrite Hrun in Hrun'. injection Hrun' as <-.
  exists g'. auto.
Qed.

(** X17: the unfilled triangle is its three sides.  With the three
    vertices on the screen the call returns, the three vertices are on
    afterwards, and a pixel that is not within half a pixel of one of
    the three sides reads as before. *)
Theorem OLED_DrawTriangle_outline_is_three_sides fuel X0 Y0 X1 Y1 X2 Y2 g :
  gram_ok g = true -> (128 <= fuel)%nat ->
  on_screen X0 Y0 -> on_screen X1 Y1 -> on_screen X2 Y2 ->
  exists g',
    OLED_DrawTriangle fuel X0 Y0 X1 Y1 X2 Y2 0 g = Some g'
    /\ pixel g' X0 Y0 = true /\ pixel g' X1 Y1 = true /\ pixel g' X2 Y2 = true
    /\ forall x y,
         ~ near_segment X0 Y0 X1 Y1 x y -> ~ near_segment X0 Y0 X2 Y2 x y ->
         ~ near_segment X1 Y1 X2 Y2 x y ->
         pixel g' x y = pixel g x y.
Proof.
  intros Hok Hfuel H0 H1 H2. unfold OLED_DrawTriangle. change (0 =? 0) with true. cbv iota.
  destruct (OLED_DrawLine_spec fuel X0 Y0 X1 Y1 1 g Hok Hfuel H0 H1)
    as (g1 & -> & Hg1 & Ha0 & Ha1 & Hn1).
  destruct (OLED_DrawLine_spec fuel X0 Y0 X2 Y2 1 g1 (proj1 Hg1) Hfuel H0 H2)
    as (g2 & -> & Hg2 & Hb0 & Hb2 & Hn2).
  destruct (OLED_DrawLine_spec fuel X1 Y1 X2 Y2 1 g2 (proj1 Hg2) Hfuel H1 H2)
    as (g3 & -> & Hg3 & Hc1 & Hc2 & Hn3).
  exists g3. split; [reflexivity|].
  split; [eapply pixel_grows; [apply Hg3|exact Hb0]|].
  split; [exact Hc1|]. split; [exact Hc2|].
  intros x y Ho1 Ho2 Ho3.
  destruct (pixel g x y) eqn:Hp.
  - eapply pixel_grows; [apply Hg3|]. eapply pixel_grows; [apply Hg2|].
    eapply pixel_grows; [apply Hg1|exact Hp].
  - destruct (pixel g3 x y) eqn:Hp3; [|reflexivity].
    destruct (Hn3 x y Hp3) as [Hp2|?]; [|contradiction].
    destruct (Hn2 x y Hp2) as [Hp1|?]; [|contradiction].
    destruct (Hn1 x y Hp1) as [Hp0|?]; [congruence|contradiction].
Qed.

Lemma OLED_DrawTriangle_outline_is_three_sides_witness :
  exists g',
    OLED_DrawTriangle 128 10 10 50 10 10 40 0 gram_zero = Some g'
    /\ pixel g' 50 10 = true /\ pixel g' 50 40 = pixel gram_zero 50 40.
Proof.
  destruct (OLED_DrawTriangle_outline_is_three_sides 128 10 10 50 10 10 40 gram_zero)
    as (g' & Hrun & _ & H1 & _ & Hout);
    [reflexivity|lia|split; unfold OLED_WIDTH, OLED_HEIGHT; lia
    |split; unfold OLED_WIDTH, OLED_HEIGHT; lia|split; unfold OLED_WIDTH, OLED_HEIGHT; lia|].
  exists g'. split; [exact Hrun|]. split; [exact H1|].
  apply Hout; unfold near_segment, in_box, line_error; lia.
Defined.

(** No edge crosses the row of a point that has no vertex below it. *)
Lemma OLED_pnpoly_no_vertex_below X0 Y0 X1 Y1 X2 Y2 testx testy :
  Y0 <= testy -> Y1 <= testy -> Y2 <= testy ->
  OLED_pnpoly 3 [X0; X1; X2] [Y0; Y1; Y2] testx testy = 0.
Proof.
  intros H0 H1 H2. unfold OLED_pnpoly, for_range.
  change (Z.to_nat (3 - 0)) with 3%nat. cbn [for_count].
  change (array_get [Y0; Y1; Y2] 0) with Y0.
  change (array_get [Y0; Y1; Y2] (0 + 1)) with Y1.
  change (array_get [Y0; Y1; Y2] (0 + 1 + 1)) with Y2.
  change (array_get [Y0; Y1; Y2] (3 - 1)) with Y2.
  replace (Y0 >? testy) with false by lia.
  replace (Y1 >? testy) with false by lia.
  replace (Y2 >? testy) with false by lia.
  reflexivity.
Qed.

(** X18: the filled triangle leaves out its lowest row.  With the three
    vertices on the screen the call returns, no pixel is cleared, and a
    pixel comes on only inside the bounding box of the vertices and
    above the row of the lowest vertex: that row, the lowest vertex
    included, is never filled. *)
Theorem OLED_DrawTriangle_filled_skips_lowest_row fuel X0 Y0 X1 Y1 X2 Y2 IsFilled g :
  gram_ok g = true -> (129 < fuel)%nat -> IsFilled <> 0 ->
  on_screen X0 Y0 -> on_screen X1 Y1 -> on_screen X2 Y2 ->
  exists g',
    OLED_DrawTriangle fuel X0 Y0 X1 Y1 X2 Y2 IsFilled g = Some g'
    /\ forall x y,
         ~ (Z.min X0 (Z.min X1 X2) <= x <= Z.max X0 (Z.max X1 X2)
            /\ Z.min Y0 (Z.min Y1 Y2) <= y < Z.max Y0 (Z.max Y1 Y2)) ->
         pixel g' x y = pixel g x y.
Proof.
  intros Hok Hfuel Hf [HX0 HY0] [HX1 HY1] [HX2 HY2]. unfold OLED_WIDTH, OLED_HEIGHT in *.
  unfold OLED_DrawTriangle. replace (IsFilled =? 0) with false by lia. cbv iota.
  rewrite !(u8_small X0), !(u8_small Y0), !(u8_small X1), !(u8_small Y1),
    !(u8_small X2), !(u8_small Y2) by lia.
  set (minx := if X2 <? (if X1 <? X0 then X1 else X0) then X2 else (if X1 <? X0 then X1 else X0)).
  set (miny := if Y2 <? (if Y1 <? Y0 then Y1 else Y0) then Y2 else (if Y1 <? Y0 then Y1 else Y0)).
  set (maxx := if X2 >? (if X1 >? X0 then X1 else X0) then X2 else (if X1 >? X0 then X1 else X0)).
  set (maxy := if Y2 >? (if Y1 >? Y0 then Y1 else Y0) then Y2 else (if Y1 >? Y0 then Y1 else Y0)).
  assert (Eminx : minx = Z.min X0 (Z.min X1 X2)).
  { unfold minx. destruct (Z.ltb_spec X1 X0);
      match goal with |- context [?a <? ?b] => destruct (Z.ltb_spec a b) end; lia. }
  assert (Eminy : miny = Z.min Y0 (Z.min Y1 Y2)).
  { unfold miny. destruct (Z.ltb_spec Y1 Y0);
      match goal with |- context [?a <? ?b] => destruct (Z.ltb_spec a b) end; lia. }
  assert (Emaxx : maxx = Z.max X0 (Z.max X1 X2)).
  { unfold maxx. destruct (Z.gtb_spec X1 X0);
      match goal with |- context [?a >? ?b] => destruct (Z.gtb_spec a b) end; lia. }
  assert (Emaxy : maxy = Z.max Y0 (Z.max Y1 Y2)).
  { unfold maxy. destruct (Z.gtb_spec Y1 Y0);
      match goal with |- context [?a >? ?b] => destruct (Z.gtb_spec a b) end; lia. }
  clearbody minx miny maxx maxy.
  pose (Q := fun x y => minx <= x <= maxx /\ miny <= y < maxy).
  pose (P := fun t => grows g t /\ new_pixels_in Q g t).
  assert (Hpt : forall i j t, minx <= i <= maxx -> miny <= j <= maxy -> P t ->
            P (if negb (OLED_pnpoly 3 [X0; X1; X2] [Y0; Y1; Y2] i j =? 0)
               then OLED_DrawPoint i j 1 t else t)).
  { intros i j t Hi Hj [Hg Hn].
    destruct (Z.eqb_spec (OLED_pnpoly 3 [X0; X1; X2] [Y0; Y1; Y2] i j) 0) as [|Hne];
      cbn [negb]; [split; assumption|].
    split; [apply grows_DrawPoint_white, Hg|].
    apply new_pixels_in_DrawPoint; [exact Hn|].
    split; [lia|]. split; [lia|].
    destruct (Z_lt_le_dec j maxy) as [|Hlast]; [assumption|].
    exfalso. apply Hne. apply OLED_pnpoly_no_vertex_below; lia. }
  destruct (for_u8_le_ind (fun _ t => P t)
              (fun i g =>
                 for_u8_le fuel miny maxy (fun j g =>
                   Some (if negb (OLED_pnpoly 3 [X0; X1; X2] [Y0; Y1; Y2] i j =? 0)
                         then OLED_DrawPoint i j 1 g else g)) g)
              minx maxx ltac:(lia) ltac:(lia)) with (fuel := fuel) (a := minx) (s := g)
    as (g' & Hrun & [Hg Hn]).
  - intros i t Hi Ht.
    destruct (for_u8_le_ind (fun _ u => P u)
                (fun j g =>
                   Some (if negb (OLED_pnpoly 3 [X0; X1; X2] [Y0; Y1; Y2] i j =? 0)
                         then OLED_DrawPoint i j 1 g else g))
                miny maxy ltac:(lia) ltac:(lia)) with (fuel := fuel) (a := miny) (s := t)
      as (t' & Hrun & Ht'); [|lia|lia|exact Ht|eauto].
    intros j u Hj Hu. eexists. split; [reflexivity|]. apply Hpt; assumption.
  - lia.
  - lia.
  - split; [apply grows_refl, Hok|apply new_pixels_in_refl, Hok].
  - exists g'. split; [exact Hrun|]. intros x y Hout.
    apply (new_pixels_in_unchanged Q); [exact Hn|apply Hg|].
    unfold Q. subst minx miny maxx maxy. exact Hout.
Qed.

Lemma OLED_DrawTriangle_filled_skips_lowest_row_witness :
  exists g',
    OLED_DrawTriangle 130 10 10 30 10 20 25 1 gram_zero = Some g'
    /\ pixel g' 20 25 = false.
Proof.
  destruct (OLED_DrawTriangle_filled_skips_lowest_row 130 10 10 30 10 20 25 1 gram_zero)
    as (g' & Hrun & Hpix);
    [reflexivity|lia|discriminate|split; unfold OLED_WIDTH, OLED_HEIGHT; lia
    |split; unfold OLED_WIDTH, OLED_HEIGHT; lia|split; unfold OLED_WIDTH, OLED_HEIGHT; lia|].
  exists g'. split; [exact Hrun|].
  rewrite (Hpix 20 25); [reflexivity|lia].
Defined.

(** ** OLED_Pow *)

(** X19: [OLED_Pow] is the power modulo 2^32.  For [uint32_t]
    arguments the call returns [X ^ Y] reduced modulo 2^32; in
    particular [OLED_Pow (X, 0)] is 1, also for [X = 0]. *)
Theorem OLED_Pow_is_power_mod_2_32 fuel X Y :
  0 <= X < 4294967296 -> 0 <= Y < 4294967296 -> (Z.to_nat Y < fuel)%nat ->
  OLED_Pow fuel X Y = Some (X ^ Y mod 4294967296).
Proof.
  intros HX HY Hfuel. unfold OLED_Pow.
  pose (Inv := fun s : Z * Z =>
    0 <= fst s <= Y /\ snd s = X ^ (Y - fst s) mod 4294967296).
  assert (Hstep : forall t, Inv t -> negb (fst t =? 0) = true ->
            Inv (u32 (fst t - 1), u32 (snd t * X))
            /\ (Z.to_nat (fst (u32 (fst t - 1), u32 (snd t * X))) < Z.to_nat (fst t))%nat).
  { intros [y r] [Hy Hr] Hc. cbn [fst snd] in *.
    assert (Hy0 : y <> 0) by (destruct (Z.eqb_spec y 0); [discriminate|assumption]).
    unfold u32. rewrite (Z.mod_small (y - 1)) by lia.
    split; [|lia]. split; [cbn [fst]; lia|]. cbn [fst snd].
    rewrite Hr. rewrite Z.mul_mod_idemp_l by lia.
    replace (Y - (y - 1)) with (Z.succ (Y - y)) by lia.
    rewrite Z.pow_succ_r by lia. f_equal. ring. }
  assert (Hinit : Inv (Y, 1)).
  { split; cbn [fst snd]; [lia|]. rewrite Z.sub_diag. reflexivity. }
  destruct (while_loop_terminates (fun s => Z.to_nat (fst s)) Inv
              (fun s : Z * Z => negb (fst s =? 0))
              (fun s => (u32 (fst s - 1), u32 (snd s * X))) Hstep fuel (Y, 1) Hinit)
    as [s' Hrun]; [cbn [fst]; exact Hfuel|].
  rewrite Hrun. cbn [option_map]. f_equal.
  apply (while_loop_inv Inv) in Hrun as [[Hy Hr] Hexit];
    [|exact Hinit|intros t Ht Hc; apply Hstep; assumption].
  destruct (Z.eqb_spec (fst s') 0) as [E|]; [|discriminate].
  rewrite Hr, E, Z.sub_0_r. reflexivity.
Qed.

Lemma OLED_Pow_is_power_mod_2_32_witness :
  OLED_Pow 40 65536 3 = Some 0 /\ OLED_Pow 1 0 0 = Some 1.
Proof.
  split.
  - rewrite (OLED_Pow_is_power_mod_2_32 40 65536 3); [reflexivity|lia|lia|simpl; lia].
  - rewrite (OLED_Pow_is_power_mod_2_32 1 0 0); [reflexivity|lia|lia|simpl; lia].
Defined.

(** ** The glyph hash table *)

Lemma strncmp_eq_refl n a : strncmp_eq n a a = true.
Proof.
  revert a. induction n as [|n IH]; intros a; [reflexivity|].
  cbn [strncmp_eq]. rewrite Z.eqb_refl. destruct (str_head a =? 0); [reflexivity|apply IH].
Qed.

Lemma strncmp_eq_sym n a b : strncmp_eq n a b = strncmp_eq n b a.
Proof.
  revert a b. induction n as [|n IH]; intros a b; [reflexivity|].
  cbn [strncmp_eq]. rewrite (Z.eqb_sym (str_head b)).
  destruct (Z.eqb_spec (str_head a) (str_head b)) as [E|]; [|reflexivity].
  rewrite E. destruct (str_head b =? 0); [reflexivity|apply IH].
Qed.

Lemma strncmp_eq_trans n a b c :
  strncmp_eq n a b = true -> strncmp_eq n b c = true -> strncmp_eq n a c = true.
Proof.
  revert a b c. induction n as [|n IH]; intros a b c; [reflexivity|].
  cbn [strncmp_eq].
  destruct (Z.eqb_spec (str_head a) (str_head b)) as [E1|]; [|discriminate].
  destruct (Z.eqb_spec (str_head b) (str_head c)) as [E2|]; [|discriminate].
  rewrite <- E2, <- E1, Z.eqb_refl.
  destruct (str_head a =? 0); [reflexivity|apply IH].
Qed.

Lemma hash_bytes_strncmp n a b h :
  strncmp_eq n a b = true -> hash_bytes n a h = hash_bytes n b h.
Proof.
  revert a b h. induction n as [|n IH]; intros a b h; [reflexivity|].
  cbn [strncmp_eq hash_bytes].
  destruct (Z.eqb_spec (str_head a) (str_head b)) as [E|]; [|discriminate].
  rewrite <- E. destruct (str_head a =? 0); [reflexivity|apply IH].
Qed.

Lemma hash_bytes_nonneg n str h : 0 <= h -> 0 <= hash_bytes n str h.
Proof.
  revert str h. induction n as [|n IH]; intros str h Hh; [exact Hh|].
  cbn [hash_bytes]. destruct (str_head str =? 0); [exact Hh|].
  apply IH. unfold u16. apply Z.mod_pos_bound. lia.
Qed.

Lemma OLED_HashString_range str : 0 <= OLED_HashString str < HASH_TABLE_SIZE.
Proof.
  unfold OLED_HashString, HASH_TABLE_SIZE.
  pose proof (hash_bytes_nonneg (Z.to_nat OLED_CHN_CHAR_WIDTH) str 0 ltac:(lia)) as Hn.
  rewrite Z.rem_mod_nonneg by lia. apply Z.mod_pos_bound. lia.
Qed.

Lemma OLED_HashString_strncmp a b :
  strncmp_eq 3 a b = true -> OLED_HashString a = OLED_HashString b.
Proof.
  intros H. unfold OLED_HashString. change (Z.to_nat OLED_CHN_CHAR_WIDTH) with 3%nat.
  rewrite (hash_bytes_strncmp 3 a b 0 H). reflexivity.
Qed.

Lemma probe_slot_range home d : 0 <= probe_slot home d < HASH_TABLE_SIZE.
Proof. unfold probe_slot, HASH_TABLE_SIZE. apply Z.mod_pos_bound. lia. Qed.

Lemma probe_slot_0 home : 0 <= home < HASH_TABLE_SIZE -> probe_slot home 0 = home.
Proof. unfold probe_slot, HASH_TABLE_SIZE. intros H. rewrite Z.add_0_r. apply Z.mod_small, H. Qed.

Lemma probe_slot_next home d :
  0 <= home -> 0 <= d ->
  Z.rem (probe_slot home d + 1) HASH_TABLE_SIZE = probe_slot home (d + 1).
Proof.
  intros Hh Hd. pose proof (probe_slot_range home d) as Hr.
  unfold probe_slot, HASH_TABLE_SIZE in *.
  rewrite Z.rem_mod_nonneg by lia.
  rewrite Z.add_mod_idemp_l by lia. f_equal. lia.
Qed.

(** Two probes of less than a round from the same home meet only at the
    same step. *)
Lemma probe_slot_inj home d d' :
  0 <= d < HASH_TABLE_SIZE -> 0 <= d' < HASH_TABLE_SIZE ->
  probe_slot home d = probe_slot home d' -> d = d'.
Proof.
  unfold probe_slot, HASH_TABLE_SIZE. intros Hd Hd' E.
  pose proof (Z.div_mod (home + d) 131 ltac:(lia)).
  pose proof (Z.div_mod (home + d') 131 ltac:(lia)).
  pose proof (Z.mod_pos_bound (home + d) 131 ltac:(lia)).
  pose proof (Z.mod_pos_bound (home + d') 131 ltac:(lia)).
  lia.
Qed.

(** Within one round every slot is probed. *)
Lemma probe_slot_onto home s :
  0 <= s < HASH_TABLE_SIZE ->
  exists d, 0 <= d < HASH_TABLE_SIZE /\ s = probe_slot home d.
Proof.
  unfold probe_slot, HASH_TABLE_SIZE. intros Hs.
  exists ((s - home) mod 131). split; [apply Z.mod_pos_bound; lia|].
  rewrite Z.add_mod_idemp_r by lia. replace (home + (s - home)) with s by lia.
  symmetry. apply Z.mod_small. lia.
Qed.

Lemma table_get_insert T h h' v :
  length T = Z.to_nat HASH_TABLE_SIZE ->
  0 <= h < HASH_TABLE_SIZE -> 0 <= h' < HASH_TABLE_SIZE ->
  table_get (<[Z.to_nat h := v]> T) h' = if h' =? h then v else table_get T h'.
Proof.
  unfold table_get, HASH_TABLE_SIZE. intros Hl Hh Hh'.
  destruct (Z.eqb_spec h' h) as [->|Hne].
  - rewrite list_lookup_insert_eq by lia. reflexivity.
  - rewrite list_lookup_insert_ne by lia. reflexivity.
Qed.

(** Where the insertion stops: after [d] used slots, at a free slot
    unless the attempts ran out. *)
Lemma probe_free_spec T home :
  0 <= home < HASH_TABLE_SIZE ->
  forall n d0, 0 <= d0 ->
    exists d, d0 <= d <= d0 + Z.of_nat n
      /\ probe_free n T (probe_slot home d0) = probe_slot home d
      /\ (forall d', d0 <= d' < d -> used T (probe_slot home d'))
      /\ (d < d0 + Z.of_nat n -> ~ used T (probe_slot home d)).
Proof.
  intros Hh. induction n as [|n IH]; intros d0 Hd0.
  - exists d0. split; [lia|]. split; [reflexivity|]. split; intros; lia.
  - cbn [probe_free].
    destruct (Z.eqb_spec (isUsed (table_get T (probe_slot home d0))) 0) as [Hfree|Hused];
      cbn [negb].
    + exists d0. split; [lia|]. split; [reflexivity|]. split; [intros; lia|].
      intros _ Hu. apply Hu, Hfree.
    + rewrite probe_slot_next by lia.
      destruct (IH (d0 + 1) ltac:(lia)) as (d & Hd & Hrun & Hpath & Hstop).
      exists d. split; [lia|]. split; [exact Hrun|]. split.
      * intros d' Hd'. destruct (Z.eq_dec d' d0) as [->|]; [exact Hused|apply Hpath; lia].
      * intros Hlt. apply Hstop. lia.
Qed.

Lemma free_count_insert T i s v :
  T !! i = Some s -> isUsed s = 0 -> isUsed v <> 0 ->
  S (free_count (<[i := v]> T)) = free_count T.
Proof.
  intros Hi Hs Hv. unfold free_count.
  rewrite insert_take_drop by (eapply lookup_lt_Some; exact Hi).
  rewrite <- (take_drop_middle T i s Hi) at 3.
  rewrite !filter_app, !filter_cons, !length_app.
  destruct (decide (isUsed v = 0)); [contradiction|].
  destruct (decide (isUsed s = 0)); [|contradiction].
  cbn [length]. lia.
Qed.

Lemma free_count_pos T :
  length T = Z.to_nat HASH_TABLE_SIZE -> (0 < free_count T)%nat ->
  exists s, 0 <= s < HASH_TABLE_SIZE /\ ~ used T s.
Proof.
  unfold free_count. intros Hl Hpos.
  destruct (filter (fun s => isUsed s = 0) T) as [|x l] eqn:Hf; [cbn in Hpos; lia|].
  assert (Hin : x ∈ filter (fun s => isUsed s = 0) T) by (rewrite Hf; left).
  apply list_elem_of_filter in Hin as [Hx Hin].
  apply list_elem_of_lookup in Hin as [i Hi].
  pose proof (lookup_lt_Some _ _ _ Hi) as Hlt.
  exists (Z.of_nat i). split; [lia|].
  unfold used, table_get. rewrite Nat2Z.id, Hi. cbn. intros Hu. apply Hu, Hx.
Qed.

Lemma free_count_zero_table :
  free_count (repeat slot_zero (Z.to_nat HASH_TABLE_SIZE)) = Z.to_nat HASH_TABLE_SIZE.
Proof. vm_compute. reflexivity. Qed.

Lemma used_insert T h v x :
  length T = Z.to_nat HASH_TABLE_SIZE ->
  0 <= h < HASH_TABLE_SIZE -> 0 <= x < HASH_TABLE_SIZE ->
  isUsed v <> 0 -> used T x -> used (<[Z.to_nat h := v]> T) x.
Proof.
  intros Hl Hh Hx Hv Hu. unfold used. rewrite table_get_insert by assumption.
  destruct (x =? h); assumption.
Qed.

Lemma table_get_insert_used T h v x :
  length T = Z.to_nat HASH_TABLE_SIZE ->
  0 <= h < HASH_TABLE_SIZE -> 0 <= x < HASH_TABLE_SIZE ->
  ~ used T h -> used T x -> table_get (<[Z.to_nat h := v]> T) x = table_get T x.
Proof.
  intros Hl Hh Hx Hfree Hu. rewrite table_get_insert by assumption.
  destruct (Z.eqb_spec x h) as [->|]; [contradiction|reflexivity].
Qed.

(** One insertion. *)
Lemma hash_add_spec catalog T nm cell :
  table_ok catalog T -> cell ∈ catalog -> Name cell = Some nm ->
  table_ok catalog (hash_add T nm cell)
  /\ (forall nm' c', stored T nm' c' -> stored (hash_add T nm cell) nm' c')
  /\ ((0 < free_count T)%nat ->
      stored (hash_add T nm cell) nm cell
      /\ S (free_count (hash_add T nm cell)) = free_count T).
Proof.
  intros [Hl Hok] Hin Hnm. unfold hash_add.
  pose proof (OLED_HashString_range nm) as Hhome.
  set (home := OLED_HashString nm) in *.
  destruct (probe_free_spec T home Hhome (Z.to_nat HASH_TABLE_SIZE) 0 ltac:(lia))
    as (d & Hd & Hrun & Hpath & Hstop).
  rewrite (probe_slot_0 home Hhome) in Hrun. rewrite Hrun.
  pose proof (probe_slot_range home d) as Hslot.
  set (h' := probe_slot home d) in *.
  destruct (Z.eqb_spec (isUsed (table_get T h')) 0) as [Hfree|Hused].
  - (* a free slot *)
    assert (Hnot : ~ used T h') by (intros Hu; apply Hu, Hfree).
    assert (Hd131 : d < HASH_TABLE_SIZE).
    { destruct (Z_lt_le_dec d HASH_TABLE_SIZE) as [|Hge]; [assumption|].
      exfalso. apply Hnot. unfold h'.
      replace d with HASH_TABLE_SIZE by (unfold HASH_TABLE_SIZE in *; lia).
      replace (probe_slot home HASH_TABLE_SIZE) with (probe_slot home 0).
      - apply Hpath. unfold HASH_TABLE_SIZE in *. lia.
      - unfold probe_slot, HASH_TABLE_SIZE. rewrite Z.add_0_r.
        rewrite <- (Z.add_mod_idemp_r home 131) by lia. rewrite Z.add_0_r. reflexivity. }
    set (v := mk_slot (Some nm) (Some (Data cell)) 1).
    assert (Hv : isUsed v <> 0) by (cbn; lia).
    assert (Hmono : forall x, 0 <= x < HASH_TABLE_SIZE -> used T x ->
                      used (<[Z.to_nat h' := v]> T) x)
      by (intros x Hx Hu; apply used_insert; assumption).
    assert (Hsame : forall x, 0 <= x < HASH_TABLE_SIZE -> used T x ->
                      table_get (<[Z.to_nat h' := v]> T) x = table_get T x)
      by (intros x Hx Hu; apply table_get_insert_used; assumption).
    split; [|split].
    + split; [rewrite length_insert; exact Hl|].
      intros s Hs Hu. destruct (Z.eq_dec s h') as [->|Hne].
      * exists cell, nm. rewrite table_get_insert by assumption.
        rewrite Z.eqb_refl. cbn [name data v].
        split; [exact Hin|]. split; [exact Hnm|]. split; [reflexivity|].
        split; [reflexivity|].
        exists d. split; [lia|]. split; [reflexivity|].
        intros d' Hd'. apply Hmono; [apply probe_slot_range|apply Hpath; lia].
      * assert (Hu' : used T s).
        { unfold used in Hu |- *. rewrite table_get_insert in Hu by assumption.
          destruct (Z.eqb_spec s h'); [contradiction|exact Hu]. }
        destruct (Hok s Hs Hu') as (c0 & n0 & Hc0 & Hn0 & Hname & Hdata & d0 & Hd0 & Es & Hp0).
        exists c0, n0. rewrite Hsame by assumption.
        split; [exact Hc0|]. split; [exact Hn0|]. split; [exact Hname|].
        split; [exact Hdata|].
        exists d0. split; [exact Hd0|]. split; [exact Es|].
        intros d' Hd'. apply Hmono; [apply probe_slot_range|apply Hp0, Hd'].
    + intros nm' c' (d0 & Hd0 & Hu0 & Hname & Hdata & Hp0).
      exists d0. pose proof (probe_slot_range (OLED_HashString nm') d0) as Hr0.
      rewrite Hsame by assumption.
      split; [exact Hd0|]. split; [apply Hmono; assumption|].
      split; [exact Hname|]. split; [exact Hdata|].
      intros d' Hd'. apply Hmono; [apply probe_slot_range|apply Hp0, Hd'].
    + intros _. split.
      * exists d. fold home. fold h'. rewrite table_get_insert by assumption.
        rewrite Z.eqb_refl. cbn [name data v].
        split; [lia|]. split; [|split; [reflexivity|split; [reflexivity|]]].
        -- unfold used. rewrite table_get_insert by assumption.
           rewrite Z.eqb_refl. exact Hv.
        -- intros d' Hd'. apply Hmono; [apply probe_slot_range|apply Hpath; lia].
      * destruct (lookup_lt_is_Some_2 T (Z.to_nat h')) as [s0 Hs0];
          [unfold HASH_TABLE_SIZE in *; lia|].
        apply (free_count_insert T (Z.to_nat h') s0 v Hs0); [|exact Hv].
        unfold table_get in Hfree. rewrite Hs0 in Hfree. exact Hfree.
  - (* the attempts ran out: the table is full *)
    split; [split; assumption|]. split; [auto|].
    intros Hpos. exfalso.
    destruct (free_count_pos T Hl Hpos) as (s & Hs & Hfree).
    destruct (probe_slot_onto home s Hs) as (d' & Hd' & ->).
    apply Hfree.
    destruct (Z_lt_le_dec d' d) as [Hlt|Hge]; [apply Hpath; lia|].
    exfalso. apply Hstop; [unfold HASH_TABLE_SIZE in *; lia|exact Hused].
Qed.

Lemma table_ok_zero catalog : table_ok catalog (repeat slot_zero (Z.to_nat HASH_TABLE_SIZE)).
Proof.
  split; [apply repeat_length|].
  intros s Hs Hu. exfalso. apply Hu. unfold table_get.
  destruct (repeat slot_zero (Z.to_nat HASH_TABLE_SIZE) !! Z.to_nat s) as [x|] eqn:Hx;
    [|reflexivity].
  apply list_elem_of_lookup_2, list_elem_of_In, repeat_spec in Hx. subst x. reflexivity.
Qed.

Lemma catalog_get_lookup catalog i cell :
  catalog !! i = Some cell -> catalog_get catalog (Z.of_nat i) = cell.
Proof. intros H. unfold catalog_get. rewrite Nat2Z.id, H. reflexivity. Qed.

Lemma catalog_get_end catalog i :
  (length catalog <= i)%nat -> catalog_get catalog (Z.of_nat i) = cell_end.
Proof.
  intros H. unfold catalog_get. rewrite Nat2Z.id, lookup_ge_None_2 by exact H. reflexivity.
Qed.

(** The loop over the catalogue returns, with a table that holds only
    cells of the catalogue; when the catalogue fits into the table, it
    holds every cell. *)
Lemma hash_fill_spec catalog :
  (length catalog <= 255)%nat ->
  forall fuel i T,
    (i <= length catalog)%nat -> (length catalog - i < fuel)%nat ->
    table_ok catalog T ->
    exists T',
      hash_fill fuel catalog (Z.of_nat i) T = Some T'
      /\ table_ok catalog T'
      /\ (named_cells catalog -> (length catalog <= 131)%nat ->
          free_count T = (131 - i)%nat ->
          (forall j cell nm, (j < i)%nat -> catalog !! j = Some cell -> Name cell = Some nm ->
             stored T nm cell) ->
          forall j cell nm, catalog !! j = Some cell -> Name cell = Some nm ->
            stored T' nm cell).
Proof.
  intros Hlen. induction fuel as [|fuel IH]; intros i T Hi Hfuel Hok; [lia|].
  cbn [hash_fill].
  destruct (Nat.eq_dec i (length catalog)) as [->|Hne].
  { rewrite catalog_get_end by lia. cbn [Name cell_end].
    exists T. split; [reflexivity|]. split; [exact Hok|].
    intros _ _ _ Hall j cell nm Hj Hn. apply (Hall j cell nm); [|assumption|assumption].
    eapply lookup_lt_Some. exact Hj. }
  destruct (lookup_lt_is_Some_2 catalog i ltac:(lia)) as [cell Hcell].
  rewrite (catalog_get_lookup _ _ _ Hcell).
  destruct (Name cell) as [nm|] eqn:Hnm.
  2:{ exists T. split; [reflexivity|]. split; [exact Hok|].
      intros Hnamed. exfalso. unfold named_cells in Hnamed. rewrite Forall_lookup in Hnamed.
      destruct (Hnamed i cell Hcell) as (nm' & Hn' & _). congruence. }
  destruct (Z.eqb_spec (str_head nm) 0) as [Hz|Hnz].
  { exists T. split; [reflexivity|]. split; [exact Hok|].
    intros Hnamed. exfalso. unfold named_cells in Hnamed. rewrite Forall_lookup in Hnamed.
    destruct (Hnamed i cell Hcell) as (nm' & Hn' & Hh'). congruence. }
  destruct (hash_add_spec catalog T nm cell Hok) as (Hok' & Hold & Hnew);
    [eapply list_elem_of_lookup_2; exact Hcell|exact Hnm|].
  rewrite (u8_small (Z.of_nat i + 1)) by lia.
  replace (Z.of_nat i + 1) with (Z.of_nat (S i)) by lia.
  destruct (IH (S i) (hash_add T nm cell) ltac:(lia) ltac:(lia) Hok') as (T' & Hrun & HokT & Hall).
  exists T'. split; [exact Hrun|]. split; [exact HokT|].
  intros Hnamed Hfit Hfree Hsofar. 
  destruct Hnew as [Hst Hcount]; [lia|].
  apply (Hall Hnamed Hfit); [lia|].
  intros j c n Hj Hc Hn. destruct (Nat.eq_dec j i) as [->|Hji].
  - rewrite Hcell in Hc. injection Hc as <-. rewrite Hnm in Hn. injection Hn as <-. exact Hst.
  - apply Hold. apply (Hsofar j c n); [lia|assumption|assumption].
Qed.

(** A lookup that answers, answers with a cell whose name agrees with
    the string on three bytes. *)
Lemma find_probe_sound catalog T str :
  table_ok catalog T ->
  forall n d0 d, 0 <= d0 ->
    find_probe n T (probe_slot (OLED_HashString str) d0) str = Some d ->
    exists cell nm,
      cell ∈ catalog /\ Name cell = Some nm /\ strncmp_eq 3 nm str = true /\ Data cell = d.
Proof.
  intros [Hl Hok]. induction n as [|n IH]; intros d0 d Hd0; [discriminate|].
  cbn [find_probe]. pose proof (probe_slot_range (OLED_HashString str) d0) as Hr.
  pose proof (OLED_HashString_range str) as Hh.
  destruct (Z.eqb_spec (isUsed (table_get T (probe_slot (OLED_HashString str) d0))) 0)
    as [|Hused]; cbn [negb]; [discriminate|].
  destruct (Hok _ Hr Hused) as (cell & nm & Hin & Hnm & Hname & Hdata & _).
  rewrite Hname, Hdata. rewrite probe_slot_next by lia.
  destruct (strncmp_eq 3 nm str) eqn:Hcmp.
  - intros [= <-]. exists cell, nm. auto.
  - apply IH. lia.
Qed.

(** A stored cell is found by every string that agrees with its name on
    three bytes. *)
Lemma find_probe_stored catalog T nm cell k str :
  table_ok catalog T -> distinct_names catalog ->
  catalog !! k = Some cell -> Name cell = Some nm ->
  stored T nm cell -> strncmp_eq 3 nm str = true ->
  find_probe (Z.to_nat HASH_TABLE_SIZE) T (OLED_HashString str) str = Some (Data cell).
Proof.
  intros [Hl Hok] Hdist Hk Hnm (d & Hd & Hu & Hname & Hdata & Hpath) Hcmp.
  rewrite <- (OLED_HashString_strncmp nm str Hcmp).
  pose proof (OLED_HashString_range nm) as Hh.
  set (home := OLED_HashString nm) in *.
  assert (Hgen : forall n d0, 0 <= d0 <= d -> (Z.to_nat (d - d0) < n)%nat ->
            find_probe n T (probe_slot home d0) str = Some (Data cell)).
  { induction n as [|n IH]; intros d0 Hd0 Hn; [lia|].
    cbn [find_probe]. pose proof (probe_slot_range home d0) as Hr.
    destruct (Z.eq_dec d0 d) as [->|Hne].
    - destruct (Z.eqb_spec (isUsed (table_get T (probe_slot home d))) 0) as [E|_];
        [destruct (Hu E)|]. cbn [negb]. rewrite Hname, Hcmp. exact Hdata.
    - assert (Hu0 : used T (probe_slot home d0)) by (apply Hpath; lia).
      destruct (Z.eqb_spec (isUsed (table_get T (probe_slot home d0))) 0) as [E|_];
        [destruct (Hu0 E)|]. cbn [negb].
      destruct (Hok _ Hr Hu0) as (c0 & n0 & Hin0 & Hn0 & Hname0 & Hdata0 & _).
      rewrite Hname0, Hdata0. rewrite probe_slot_next by lia.
      destruct (strncmp_eq 3 n0 str) eqn:Hcmp0; [|apply IH; lia].
      apply list_elem_of_lookup in Hin0 as [j Hj].
      assert (Hjk : j = k).
      { apply (Hdist j k c0 cell n0 nm Hj Hk Hn0 Hnm).
        eapply strncmp_eq_trans; [exact Hcmp0|]. rewrite strncmp_eq_sym. exact Hcmp. }
      subst j. rewrite Hk in Hj. injection Hj as <-. reflexivity. }
  rewrite <- (probe_slot_0 home Hh) at 1. apply Hgen; unfold HASH_TABLE_SIZE in *; lia.
Qed.

Lemma strncmp_eq_head n a b :
  strncmp_eq (S n) a b = true -> str_head a = str_head b.
Proof.
  cbn [strncmp_eq]. destruct (Z.eqb_spec (str_head a) (str_head b)); [auto|discriminate].
Qed.

Lemma find_probe_three_bytes T str str' :
  strncmp_eq 3 str str' = true ->
  forall n h, find_probe n T h str = find_probe n T h str'.
Proof.
  intros Hcmp. induction n as [|n IH]; intros h; [reflexivity|].
  cbn [find_probe]. destruct (negb _); [|reflexivity].
  destruct (name (table_get T h)) as [nm|]; [|apply IH].
  replace (strncmp_eq 3 nm str') with (strncmp_eq 3 nm str); [rewrite IH; reflexivity|].
  destruct (strncmp_eq 3 nm str) eqn:E1.
  - symmetry. eapply strncmp_eq_trans; eassumption.
  - destruct (strncmp_eq 3 nm str') eqn:E2; [|reflexivity].
    assert (E3 : strncmp_eq 3 nm str = true)
      by (eapply strncmp_eq_trans; [exact E2|]; rewrite strncmp_eq_sym; exact Hcmp).
    congruence.
Qed.

(** X20: what is put into the table is found.  For a catalogue of at
    most 131 named cells no two of which agree on the first three bytes
    of their names, the first lookup builds the table and returns the
    glyph of the cell whose name agrees with the string on its first
    three bytes; later lookups find it in the table that was built. *)
Theorem OLED_FindChineseChar_finds_every_cell fuel catalog st k cell nm str :
  named_cells catalog -> distinct_names catalog ->
  (length catalog <= 131)%nat -> (length catalog < fuel)%nat ->
  isHashTableInitialized st = 0 ->
  catalog !! k = Some cell -> Name cell = Some nm -> strncmp_eq 3 nm str = true ->
  exists st',
    OLED_FindChineseChar fuel catalog (Some str) st = Some (Some (Data cell), st')
    /\ forall fuel', OLED_FindChineseChar fuel' catalog (Some str) st'
                     = Some (Some (Data cell), st').
Proof.
  intros Hnamed Hdist Hfit Hfuel Hinit Hk Hnm Hcmp.
  destruct (hash_fill_spec catalog ltac:(lia) fuel 0
              (repeat slot_zero (Z.to_nat HASH_TABLE_SIZE)) ltac:(lia) ltac:(lia)
              (table_ok_zero catalog)) as (T & Hrun & Hok & Hall).
  assert (Hst : stored T nm cell).
  { apply (Hall Hnamed Hfit) with (j := k); [apply free_count_zero_table| |exact Hk|exact Hnm].
    intros j c n Hj. lia. }
  assert (Hhead : (str_head str =? 0) = false).
  { apply Z.eqb_neq. rewrite <- (strncmp_eq_head 2 nm str Hcmp).
    unfold named_cells in Hnamed. rewrite Forall_lookup in Hnamed.
    destruct (Hnamed k cell Hk) as (nm' & Hn' & Hh'). congruence. }
  pose proof (find_probe_stored catalog T nm cell k str Hok Hdist Hk Hnm Hst Hcmp) as Hfind.
  exists (mk_hash T 1). split.
  - unfold OLED_FindChineseChar, OLED_InitChineseHashTable. rewrite Hinit.
    change (0 =? 0) with true. cbn [negb]. change (Z.of_nat 0) with 0 in Hrun.
    rewrite Hrun. cbn [chineseHashTable]. rewrite Hhead, Hfind. reflexivity.
  - intros fuel'. unfold OLED_FindChineseChar. cbn [isHashTableInitialized].
    change (1 =? 0) with false. cbv iota. cbn [chineseHashTable].
    rewrite Hhead, Hfind. reflexivity.
Qed.

(** X21: a lookup never answers with the wrong glyph.  For a catalogue
    of at most 255 cells the lookup returns, and when it returns a glyph
    it is the glyph of a cell of the catalogue whose name agrees with
    the string on its first three bytes; for [NULL] and for the empty
    string it returns [NULL]. *)
Theorem OLED_FindChineseChar_answers_a_matching_cell fuel catalog st chineseChar :
  (length catalog <= 255)%nat -> (length catalog < fuel)%nat ->
  isHashTableInitialized st = 0 ->
  exists r st',
    OLED_FindChineseChar fuel catalog chineseChar st = Some (r, st')
    /\ match r with
       | Some d =>
           exists cell nm str,
             chineseChar = Some str /\ str_head str <> 0
             /\ cell ∈ catalog /\ Name cell = Some nm
             /\ strncmp_eq 3 nm str = true /\ Data cell = d
       | None => True
       end.
Proof.
  intros Hlen Hfuel Hinit.
  destruct (hash_fill_spec catalog Hlen fuel 0
              (repeat slot_zero (Z.to_nat HASH_TABLE_SIZE)) ltac:(lia) ltac:(lia)
              (table_ok_zero catalog)) as (T & Hrun & Hok & _).
  unfold OLED_FindChineseChar, OLED_InitChineseHashTable. rewrite Hinit.
  change (0 =? 0) with true. cbn [negb]. change (Z.of_nat 0) with 0 in Hrun. rewrite Hrun.
  destruct chineseChar as [str|]; [|exists None; eexists; split; [reflexivity|exact I]].
  destruct (Z.eqb_spec (str_head str) 0) as [|Hnz];
    [exists None; eexists; split; [reflexivity|exact I]|].
  cbn [chineseHashTable].
  destruct (find_probe (Z.to_nat HASH_TABLE_SIZE) T (OLED_HashString str) str) as [d|] eqn:Hf;
    [|exists None; eexists; split; [reflexivity|exact I]].
  exists (Some d). eexists. split; [reflexivity|].
  rewrite <- (probe_slot_0 (OLED_HashString str) (OLED_HashString_range str)) in Hf.
  destruct (find_probe_sound catalog T str Hok _ 0 d ltac:(lia) Hf)
    as (cell & nm & Hin & Hnm & Hcmp & Hd).
  exists cell, nm, str.
  split; [reflexivity|]. split; [exact Hnz|]. split; [exact Hin|].
  split; [exact Hnm|]. split; [exact Hcmp|exact Hd].
Qed.

(** X22: a lookup reads three bytes.  Two strings that agree on their
    first three bytes get the same answer, whatever follows in either:
    this is what lets [OLED_Printf] look up the glyph at the cursor by
    passing the rest of its text. *)
Theorem OLED_FindChineseChar_reads_three_bytes fuel catalog st str str' :
  strncmp_eq 3 str str' = true ->
  OLED_FindChineseChar fuel catalog (Some str) st
  = OLED_FindChineseChar fuel catalog (Some str') st.
Proof.
  intros Hcmp. unfold OLED_FindChineseChar.
  destruct (if isHashTableInitialized st =? 0
            then OLED_InitChineseHashTable fuel catalog st else Some st) as [st'|];
    [|reflexivity].
  rewrite (strncmp_eq_head 2 str str' Hcmp).
  rewrite (OLED_HashString_strncmp str str' Hcmp).
  rewrite (find_probe_three_bytes _ str str' Hcmp). reflexivity.
Qed.

Lemma OLED_FindChineseChar_finds_every_cell_witness :
  exists st',
    OLED_FindChineseChar 3 sample_catalog (Some [230; 150; 135; 65; 66]) hash_state_init
    = Some (Some [4; 5; 6], st').
Proof.
  destruct (OLED_FindChineseChar_finds_every_cell 3 sample_catalog hash_state_init 1%nat
              (mk_cell (Some [230; 150; 135]) [4; 5; 6] 16 16) [230; 150; 135]
              [230; 150; 135; 65; 66]) as (st' & Hfind & _).
  - repeat constructor; eexists; (split; [reflexivity|]); vm_compute; discriminate.
  - intros i j ci cj ni nj Hi Hj Hni Hnj Hcmp.
    destruct i as [|[|i]], j as [|[|j]]; try reflexivity; try discriminate;
      cbn in Hi, Hj; injection Hi as <-; injection Hj as <-;
      cbn in Hni, Hnj; injection Hni as <-; injection Hnj as <-;
      vm_compute in Hcmp; discriminate.
  - cbn. lia.
  - cbn. lia.
  - reflexivity.
  - reflexivity.
  - reflexivity.
  - reflexivity.
  - exists st'. exact Hfind.
Defined.

Lemma OLED_FindChineseChar_answers_a_matching_cell_witness :
  exists r st',
    OLED_FindChineseChar 3 sample_catalog (Some [65; 66; 67]) hash_state_init = Some (r, st').
Proof.
  destruct (OLED_FindChineseChar_answers_a_matching_cell 3 sample_catalog hash_state_init
              (Some [65; 66; 67])) as (r & st' & Hrun & _); [cbn; lia|cbn; lia|reflexivity|].
  exists r, st'. exact Hrun.
Defined.

Lemma OLED_FindChineseChar_reads_three_bytes_witness :
  OLED_FindChineseChar 3 sample_catalog (Some [228; 184; 173; 10]) hash_state_init
  = OLED_FindChineseChar 3 sample_catalog (Some [228; 184; 173]) hash_state_init.
Proof.
  apply OLED_FindChineseChar_reads_three_bytes. reflexivity.
Defined.

(** ** OLED_DrawASCIIFast *)

Lemma for_break_ind {T : Type} (P : Z -> T -> Prop) (Q : T -> Prop) n j
    (body : Z -> T -> option T) s :
  P j s ->
  (forall k t, j <= k < j + Z.of_nat n -> P k t ->
     match body k t with Some t' => P (k + 1) t' | None => Q t end) ->
  (forall t, P (j + Z.of_nat n) t -> Q t) ->
  Q (for_break n j body s).
Proof.
  revert j s. induction n as [|n IH]; intros j s H0 Hstep Hend.
  - apply Hend. rewrite Z.add_0_r. exact H0.
  - cbn [for_break]. pose proof (Hstep j s ltac:(lia) H0) as Hj.
    destruct (body j s) as [s'|]; [|exact Hj].
    apply IH; [exact Hj| |].
    + intros k t Hk. apply Hstep. lia.
    + intros t Ht. apply Hend. replace (j + Z.of_nat (S n)) with (j + 1 + Z.of_nat n) by lia.
      exact Ht.
Qed.

Lemma acts_ext f S S' g t :
  acts f S g t ->
  (forall p c b, 0 <= p < 8 -> 0 <= c < 128 -> 0 <= b < 8 -> S p c b = S' p c b) ->
  acts f S' g t.
Proof.
  intros [Hok H] HS. split; [exact Hok|]. intros p c b Hp Hc Hb.
  rewrite <- HS by assumption. apply H; assumption.
Qed.

(** One more piece, for an [f] that does nothing the second time. *)
Lemma acts_then_idem f S S' U g t t' :
  (forall b, f (f b) = f b) ->
  acts f S g t -> acts f S' t t' ->
  (forall p c b, 0 <= p < 8 -> 0 <= c < 128 -> 0 <= b < 8 -> U p c b = S p c b || S' p c b) ->
  acts f U g t'.
Proof.
  intros Hf [_ H1] [Hok H2] HU. split; [exact Hok|].
  intros p c b Hp Hc Hb. rewrite H2, H1, HU by assumption.
  destruct (S p c b), (S' p c b); cbn [orb]; try reflexivity. apply Hf.
Qed.

(** [g[p][c] |= v]. *)
Lemma acts_or_store t p c v :
  gram_ok t = true -> 0 <= p < 8 -> 0 <= c < 128 ->
  acts (fun _ => true) (fun p' c' b => (p' =? p) && (c' =? c) && Z.testbit v b) t
    (gram_set t p c (u8 (Z.lor (gram_get t p c) v))).
Proof.
  intros Hok Hp Hc. pose proof (gram_ok_shape t Hok) as Hs. split.
  - apply gram_ok_intro; [apply gram_set_shape, Hs|].
    intros p' c' Hp' Hc'. rewrite gram_get_set by assumption.
    destruct ((p' =? p) && (c' =? c)); [apply u8_range|apply gram_get_byte, Hok].
  - intros p' c' b Hp' Hc' Hb. rewrite gram_get_set by assumption.
    destruct (Z.eqb_spec p' p) as [->|]; [|reflexivity].
    destruct (Z.eqb_spec c' c) as [->|]; [|reflexivity].
    cbn [andb]. unfold u8. change 256 with (2 ^ 8).
    rewrite Z.testbit_mod_pow2 by lia. rewrite Z.lor_spec.
    replace (b <? 8) with true by lia. cbn [andb].
    destruct (Z.testbit v b); [apply orb_true_r|apply orb_false_r].
Qed.

Lemma byte_bit_outside a i : 0 <= a < 256 -> ~ 0 <= i < 8 -> Z.testbit a i = false.
Proof.
  intros Ha Hi. destruct (Z_lt_le_dec i 0); [apply Z.testbit_neg_r; lia|].
  apply byte_bit_high; lia.
Qed.

(** One column of a glyph: the bits of [data] are OR-ed into column
    [x + col] from row [8 destPage + bitOffset] down when the column is
    shifted, from row [8 destPage] down when it is not. *)
Lemma ascii_column_acts x col destPage bitOffset data (shifted : bool) g :
  gram_ok g = true -> 0 <= destPage < 8 -> 0 <= x + col < 128 ->
  0 <= bitOffset < 8 -> 0 <= data < 256 ->
  acts (fun _ => true)
    (fun p c b => (c =? x + col)
                  && Z.testbit data (8 * p + b
                                     - (8 * destPage + (if shifted then bitOffset else 0))))
    g (ascii_column x col destPage bitOffset data shifted g).
Proof.
  intros Hok Hp Hc Hoff Hdata. unfold ascii_column. destruct shifted.
  - pose proof (acts_or_store g destPage (x + col) (Z.shiftl data bitOffset) Hok Hp Hc) as H1.
    set (g1 := gram_set g destPage (x + col) _) in *.
    assert (Hbits : forall b, 0 <= b < 8 ->
              Z.testbit (Z.shiftl data bitOffset) b = Z.testbit data (b - bitOffset)
              /\ Z.testbit (Z.shiftr data (8 - bitOffset)) b
                 = Z.testbit data (b + 8 - bitOffset)).
    { intros b Hb. rewrite Z.shiftl_spec, Z.shiftr_spec by lia.
      split; [reflexivity|]. f_equal. lia. }
    destruct ((destPage + 1 <? 8) && negb (Z.shiftr data (8 - bitOffset) =? 0)) eqn:Hov.
    + apply andb_true_iff in Hov as [Hnext _]. apply Z.ltb_lt in Hnext.
      pose proof (acts_or_store g1 (destPage + 1) (x + col) (Z.shiftr data (8 - bitOffset))
                    (acts_ok _ _ _ _ H1) ltac:(lia) Hc) as H2.
      eapply acts_then_idem; [reflexivity|exact H1|exact H2|].
      intros p c b Hpr Hcr Hb. cbv beta. destruct (Hbits b Hb) as [-> ->].
      destruct (Z.eqb_spec c (x + col)); [|rewrite !andb_false_r; reflexivity].
      rewrite !andb_true_r. cbn [andb].
      destruct (Z.eqb_spec p destPage) as [->|Hn1];
        [|destruct (Z.eqb_spec p (destPage + 1)) as [->|Hn2]].
      * replace (destPage =? destPage + 1) with false by lia. cbn [andb orb].
        rewrite orb_false_r. f_equal. lia.
      * cbn [andb orb]. f_equal. lia.
      * cbn [andb orb]. apply byte_bit_outside; [exact Hdata|lia].
    + eapply acts_ext; [exact H1|].
      intros p c b Hpr Hcr Hb. cbv beta. destruct (Hbits b Hb) as [-> Hsr].
      destruct (Z.eqb_spec c (x + col)); [|rewrite !andb_false_r; reflexivity].
      rewrite !andb_true_r. cbn [andb].
      destruct (Z.eqb_spec p destPage) as [->|Hn1]; cbn [andb].
      * f_equal. lia.
      * symmetry. destruct (Z.eq_dec p (destPage + 1)) as [->|Hn2].
        -- replace (8 * (destPage + 1) + b - (8 * destPage + bitOffset))
             with (b + 8 - bitOffset) by lia.
           rewrite <- Hsr. apply andb_false_iff in Hov as [Hlast|Hzero].
           ++ apply Z.ltb_ge in Hlast. lia.
           ++ apply negb_false_iff, Z.eqb_eq in Hzero. rewrite Hzero. apply Z.testbit_0_l.
        -- apply byte_bit_outside; [exact Hdata|lia].
  - eapply acts_ext; [apply (acts_or_store g destPage (x + col) data Hok Hp Hc)|].
    intros p c b Hpr Hcr Hb. cbv beta.
    destruct (Z.eqb_spec c (x + col)); [|rewrite !andb_false_r; reflexivity].
    rewrite !andb_true_r. cbn [andb].
    destruct (Z.eqb_spec p destPage) as [->|Hn1]; cbn [andb].
    + f_equal. lia.
    + symmetry. apply byte_bit_outside; [exact Hdata|lia].
Qed.

(** The column loop of one page of a glyph: [n] columns, cut at the
    right edge of the screen. *)
Lemma ascii_columns_acts (font : list (list Z)) n x c base destPage bitOffset (shifted : bool) g :
  font_ok font -> gram_ok g = true -> 0 <= destPage < 8 -> 0 <= x < 128 ->
  0 <= bitOffset < 8 ->
  acts (fun _ => true)
    (fun p c' b => (x <=? c') && (c' <? x + Z.of_nat n)
                   && Z.testbit (gram_get font (c - 32) (base + (c' - x)))
                        (8 * p + b - (8 * destPage + (if shifted then bitOffset else 0))))
    g (for_break n 0 (fun col g =>
         if x + col >=? 128 then None
         else Some (ascii_column x col destPage bitOffset
                      (gram_get font (c - 32) (base + col)) shifted g)) g).
Proof.
  intros Hfont Hok Hp Hx Hoff.
  set (top := 8 * destPage + (if shifted then bitOffset else 0)).
  apply (for_break_ind
           (fun k t => acts (fun _ => true)
              (fun p c' b => (x <=? c') && (c' <? x + k)
                             && Z.testbit (gram_get font (c - 32) (base + (c' - x)))
                                  (8 * p + b - top)) g t)).
  - apply acts_nothing; [exact Hok|]. intros p c' b _ _ _. lia.
  - intros k t Hk Hacc. destruct (Z.geb_spec (x + k) 128) as [Hedge|Hin].
    + eapply acts_ext; [exact Hacc|]. intros p c' b _ Hc' _. cbv beta.
      replace (c' <? x + k) with (c' <? x + Z.of_nat n) by lia. reflexivity.
    + eapply acts_then_idem; [reflexivity|exact Hacc| |].
      * apply ascii_column_acts; [apply (acts_ok _ _ _ _ Hacc)|exact Hp|lia|exact Hoff|].
        apply Hfont.
      * intros p c' b _ _ _. cbv beta. fold top.
        destruct (Z.eqb_spec c' (x + k)) as [->|Hne].
        -- replace (x <=? x + k) with true by lia.
           replace (x + k <? x + (k + 1)) with true by lia.
           replace (x + k <? x + k) with false by lia.
           replace (x + k - x) with k by lia. reflexivity.
        -- replace (c' <? x + (k + 1)) with (c' <? x + k) by lia.
           rewrite andb_false_l, orb_false_r. reflexivity.
  - intros t Ht. rewrite Z.add_0_l in Ht. exact Ht.
Qed.

Lemma acts_pixel_or S g g' x y :
  gram_ok g = true -> acts (fun _ => true) S g g' ->
  pixel g' x y
  = pixel g x y
    || ((0 <=? x) && (x <? 128) && (0 <=? y) && (y <? 64) && S (y / 8) x (y mod 8)).
Proof.
  intros Hok Hacts. rewrite (acts_pixel _ _ _ _ x y Hok Hacts).
  destruct (_ && _), (pixel g x y); reflexivity.
Qed.

Lemma row_of_pixel y : 8 * (y / 8) + y mod 8 = y.
Proof. pose proof (Z.div_mod y 8 ltac:(lia)). lia. Qed.

Lemma font_ok_bytes font :
  forallb (forallb (fun b => (0 <=? b) && (b <? 256))) font = true -> font_ok font.
Proof.
  intros H i j. unfold gram_get.
  destruct ((0 <=? i) && (0 <=? j)); [|lia].
  destruct (font !! Z.to_nat i) as [row|] eqn:Hrow; [|lia].
  destruct (row !! Z.to_nat j) as [b|] eqn:Hb; cbn [default id]; [|lia].
  rewrite forallb_forall in H.
  apply list_elem_of_lookup_2, list_elem_of_In, H in Hrow.
  rewrite forallb_forall in Hrow.
  apply list_elem_of_lookup_2, list_elem_of_In, Hrow in Hb. unfold id. lia.
Qed.

(** X23: a 6x8 glyph lands where it is asked.  For a printable
    character at a position on the screen, [OLED_DrawASCIIFast] with the
    8-pixel font turns on the pixels of the glyph, column [k] of the
    glyph in column [x + k] and bit [r] of that byte in row [y + r], as
    far as they are on the screen; every other pixel reads as before. *)
Theorem OLED_DrawASCIIFast_6x8_glyph (F8x16 F6x8 : list (list Z)) x y c g px py :
  font_ok F6x8 -> gram_ok g = true ->
  0 <= x < 128 -> 0 <= y < 64 -> 32 <= c <= 126 ->
  pixel (OLED_DrawASCIIFast F8x16 F6x8 x y c 8 g) px py
  = pixel g px py
    || ((x <=? px) && (px <? x + 6) && (px <? 128)
        && (y <=? py) && (py <? y + 8) && (py <? 64)
        && glyph_bit F6x8 c (px - x) (py - y)).
Proof.
  intros Hfont Hok Hx Hy Hc. unfold OLED_DrawASCIIFast.
  replace ((x <? 0) || (x >=? 128) || (y <? 0) || (y >=? 64) || (c <? 32) || (c >? 126))
    with false by lia.
  change (8 =? 16) with false. change (8 =? 8) with true. cbv iota.
  destruct (page_bit_of_row y Hy) as (-> & -> & Hp & Hb).
  rewrite (u8_small (y / 8)), (u8_small (y mod 8)) by lia.
  pose proof (ascii_columns_acts F6x8 6 x c 0 (y / 8) (y mod 8) (y mod 8 >? 0) g
                Hfont Hok Hp Hx Hb) as Hacts.
  change (fun col g0 => if x + col >=? 128 then None
                        else Some (ascii_column x col (y / 8) (y mod 8)
                                     (gram_get F6x8 (c - 32) (0 + col)) (y mod 8 >? 0) g0))
    with (fun col g0 => if x + col >=? 128 then None
                        else Some (ascii_column x col (y / 8) (y mod 8)
                                     (gram_get F6x8 (c - 32) col) (y mod 8 >? 0) g0)) in Hacts.
  rewrite (acts_pixel_or _ _ _ px py Hok Hacts). f_equal.
  rewrite row_of_pixel.
  replace (8 * (y / 8) + (if y mod 8 >? 0 then y mod 8 else 0)) with y
    by (pose proof (row_of_pixel y); destruct (Z.gtb_spec (y mod 8) 0); lia).
  change (0 + (px - x)) with (px - x). change (Z.of_nat 6) with 6.
  unfold glyph_bit.
  destruct (Z_le_dec y py) as [Hlo|Hlo]; [destruct (Z_lt_dec py (y + 8)) as [Hhi|Hhi]|].
  - destruct (Z.testbit _ _); lia.
  - rewrite (byte_bit_outside _ (py - y)) by (apply Hfont || lia). lia.
  - rewrite (byte_bit_outside _ (py - y)) by (apply Hfont || lia). lia.
Qed.

Lemma OLED_DrawASCIIFast_6x8_glyph_witness :
  pixel (OLED_DrawASCIIFast [] [[0; 0; 95; 0; 0; 0]] 125 60 32 8 gram_zero) 127 62 = true.
Proof.
  rewrite (OLED_DrawASCIIFast_6x8_glyph [] [[0; 0; 95; 0; 0; 0]] 125 60 32 gram_zero 127 62);
    [reflexivity| |reflexivity|lia|lia|lia].
  apply font_ok_bytes. reflexivity.
Defined.

(** X24: the lower half of an 8x16 glyph starts on a page.  With the
    16-pixel font the upper eight rows of the glyph go to rows [y] to
    [y + 7]; the lower eight rows go to the eight rows of the page after
    the one that holds [y], whatever [y] is.  For a [y] that is a
    multiple of 8 these are rows [y + 8] to [y + 15]; for any other [y]
    the lower half overlaps the upper half. *)
Theorem OLED_DrawASCIIFast_8x16_glyph (F8x16 F6x8 : list (list Z)) x y c g px py :
  font_ok F8x16 -> gram_ok g = true ->
  0 <= x < 128 -> 0 <= y < 64 -> 32 <= c <= 126 ->
  pixel (OLED_DrawASCIIFast F8x16 F6x8 x y c 16 g) px py
  = pixel g px py
    || ((x <=? px) && (px <? x + 8) && (px <? 128) && (py <? 64)
        && ((y <=? py) && (py <? y + 8) && glyph_bit F8x16 c (px - x) (py - y)
            || (8 * (y / 8) + 8 <=? py) && (py <? 8 * (y / 8) + 16)
               && glyph_bit F8x16 c (8 + (px - x)) (py - (8 * (y / 8) + 8)))).
Proof.
  intros Hfont Hok Hx Hy Hc. unfold OLED_DrawASCIIFast.
  replace ((x <? 0) || (x >=? 128) || (y <? 0) || (y >=? 64) || (c <? 32) || (c >? 126))
    with false by lia.
  change (16 =? 16) with true. cbv iota.
  destruct (page_bit_of_row y Hy) as (-> & -> & Hp & Hb).
  rewrite (u8_small (y / 8)), (u8_small (y mod 8)) by lia.
  cbn [for_break]. change (0 + 1) with 1.
  rewrite (u8_small (y / 8 + 0)), Z.add_0_r by lia.
  replace (y / 8 >=? 8) with false by lia.
  (* the upper half *)
  pose proof (ascii_columns_acts F8x16 8 x c 0 (y / 8) (y mod 8) ((y mod 8 >? 0) && (0 =? 0)) g
                Hfont Hok Hp Hx Hb) as H1.
  change (fun col g0 => if x + col >=? 128 then None
                        else Some (ascii_column x col (y / 8) (y mod 8)
                                     (gram_get F8x16 (c - 32) (0 + col))
                                     ((y mod 8 >? 0) && (0 =? 0)) g0))
    with (fun col g0 => if x + col >=? 128 then None
                        else Some (ascii_column x col (y / 8) (y mod 8)
                                     (gram_get F8x16 (c - 32) (0 * 8 + col))
                                     ((y mod 8 >? 0) && (0 =? 0)) g0)) in H1.
  set (g1 := for_break 8 0 _ g) in *.
  replace (8 * (y / 8) + (if (y mod 8 >? 0) && (0 =? 0) then y mod 8 else 0)) with y in H1
    by (pose proof (row_of_pixel y); change (0 =? 0) with true;
        destruct (Z.gtb_spec (y mod 8) 0); cbn [andb]; lia).
  change (Z.of_nat 8) with 8 in H1.
  assert (Hgoal : acts (fun _ => true)
            (fun p c' b =>
               (x <=? c') && (c' <? x + 8)
               && (Z.testbit (gram_get F8x16 (c - 32) (0 + (c' - x))) (8 * p + b - y)
                   || Z.testbit (gram_get F8x16 (c - 32) (8 + (c' - x)))
                        (8 * p + b - (8 * (y / 8) + 8)))) g
            (match (if u8 (y / 8 + 1) >=? 8 then None
                    else Some (for_break 8 0 (fun col g0 =>
                           if x + col >=? 128 then None
                           else Some (ascii_column x col (u8 (y / 8 + 1)) (y mod 8)
                                        (gram_get F8x16 (c - 32) (1 * 8 + col))
                                        ((y mod 8 >? 0) && (1 =? 0)) g0)) g1)) with
             | Some s' => s'
             | None => g1
             end)).
  { rewrite (u8_small (y / 8 + 1)) by lia.
    destruct (Z.geb_spec (y / 8 + 1) 8) as [Hlast|Hnext].
    - (* the glyph starts in the last page *)
      eapply acts_ext; [exact H1|]. intros p c' b Hpr _ Hbr. cbv beta.
      rewrite (byte_bit_outside _ (8 * p + b - (8 * (y / 8) + 8))) by (apply Hfont || lia).
      rewrite orb_false_r. reflexivity.
    - pose proof (ascii_columns_acts F8x16 8 x c 8 (y / 8 + 1) (y mod 8)
                    ((y mod 8 >? 0) && (1 =? 0)) g1
                    Hfont (acts_ok _ _ _ _ H1) ltac:(lia) Hx Hb) as H2.
      change (fun col g0 => if x + col >=? 128 then None
                            else Some (ascii_column x col (y / 8 + 1) (y mod 8)
                                         (gram_get F8x16 (c - 32) (8 + col))
                                         ((y mod 8 >? 0) && (1 =? 0)) g0))
        with (fun col g0 => if x + col >=? 128 then None
                            else Some (ascii_column x col (y / 8 + 1) (y mod 8)
                                         (gram_get F8x16 (c - 32) (1 * 8 + col))
                                         ((y mod 8 >? 0) && (1 =? 0)) g0)) in H2.
      replace (if (y mod 8 >? 0) && (1 =? 0) then y mod 8 else 0) with 0 in H2
        by (change (1 =? 0) with false; rewrite andb_false_r; reflexivity).
      eapply acts_then_idem; [reflexivity|exact H1|exact H2|].
      intros p c' b _ _ _. cbv beta. change (Z.of_nat 8) with 8.
      replace (8 * (y / 8 + 1) + 0) with (8 * (y / 8) + 8) by lia.
      destruct ((x <=? c') && (c' <? x + 8)); reflexivity. }
  match goal with |- pixel ?t px py = _ =>
    match type of Hgoal with acts _ _ _ ?u => change t with u end end.
  rewrite (acts_pixel_or _ _ _ px py Hok Hgoal). f_equal.
  rewrite row_of_pixel. change (0 + (px - x)) with (px - x). unfold glyph_bit.
  set (upper := Z.testbit (gram_get F8x16 (c - 32) (px - x)) (py - y)).
  set (lower := Z.testbit (gram_get F8x16 (c - 32) (8 + (px - x))) (py - (8 * (y / 8) + 8))).
  assert (Hup : ~ (y <= py < y + 8) -> upper = false)
    by (intros H; apply byte_bit_outside; [apply Hfont|lia]).
  assert (Hlow : ~ (8 * (y / 8) + 8 <= py < 8 * (y / 8) + 16) -> lower = false)
    by (intros H; apply byte_bit_outside; [apply Hfont|lia]).
  pose proof (row_of_pixel y) as Hrow.
  destruct (Z_le_dec y py), (Z_lt_dec py (y + 8)),
    (Z_le_dec (8 * (y / 8) + 8) py), (Z_lt_dec py (8 * (y / 8) + 16));
    try (rewrite Hup by lia); try (rewrite Hlow by lia);
    destruct upper, lower; lia.
Qed.

Lemma OLED_DrawASCIIFast_8x16_glyph_witness :
  pixel (OLED_DrawASCIIFast [[0; 0; 0; 0; 0; 0; 0; 0; 1; 0; 0; 0; 0; 0; 0; 0]] [] 0 3 32 16
           gram_zero) 0 8 = true.
Proof.
  rewrite (OLED_DrawASCIIFast_8x16_glyph
             [[0; 0; 0; 0; 0; 0; 0; 0; 1; 0; 0; 0; 0; 0; 0; 0]] [] 0 3 32 gram_zero 0 8);
    [reflexivity|apply font_ok_bytes; reflexivity|reflexivity|lia|lia|lia].
Defined.

(** ** Text never clears a pixel *)

Lemma gram_set_outside g p c v :
  gram_shape g -> ~ (0 <= p < 8 /\ 0 <= c < 128) -> gram_set g p c v = g.
Proof.
  intros Hs Hout. unfold gram_set.
  destruct (Z.leb_spec 0 p), (Z.leb_spec 0 c); cbn [andb]; try reflexivity.
  destruct (g !! Z.to_nat p) as [row|] eqn:Hrow; [|reflexivity].
  assert (Hp : (Z.to_nat p < 8)%nat)
    by (destruct Hs as [Hl _]; rewrite <- Hl; eapply lookup_lt_Some; exact Hrow).
  assert (Hlen : length row = 128%nat)
    by (destruct Hs as [_ Hr]; rewrite Forall_lookup in Hr; eapply Hr; exact Hrow).
  rewrite (list_insert_ge row) by lia. apply list_insert_id. exact Hrow.
Qed.

(** [g[p][c] |= v] keeps every bit, wherever it stores. *)
Lemma grows_or_store g t p c v :
  grows g t -> grows g (gram_set t p c (u8 (Z.lor (gram_get t p c) v))).
Proof.
  intros [Hok Hle]. pose proof (gram_ok_shape t Hok) as Hs.
  destruct (Z_le_dec 0 p), (Z_lt_dec p 8), (Z_le_dec 0 c), (Z_lt_dec c 128);
    try (rewrite gram_set_outside by (assumption || lia); split; assumption).
  split.
  - apply gram_ok_intro; [apply gram_set_shape, Hs|].
    intros p' c' Hp' Hc'. rewrite gram_get_set by (assumption || lia).
    destruct ((p' =? p) && (c' =? c)); [apply u8_range|apply gram_get_byte, Hok].
  - intros p' c' b Hbit. apply Hle in Hbit.
    rewrite gram_get_set by (assumption || lia).
    destruct ((p' =? p) && (c' =? c)) eqn:E; [|exact Hbit].
    apply andb_true_iff in E as [->%Z.eqb_eq ->%Z.eqb_eq].
    assert (Hb : 0 <= b < 8).
    { destruct (Z_lt_le_dec b 0) as [Hneg|]; [rewrite Z.testbit_neg_r in Hbit by lia; discriminate|].
      destruct (Z_lt_le_dec b 8) as [|Hhigh]; [lia|].
      rewrite byte_bit_high in Hbit by (try apply gram_get_byte; assumption). discriminate. }
    unfold u8. change 256 with (2 ^ 8). rewrite Z.testbit_mod_pow2 by lia.
    rewrite Z.lor_spec, Hbit. replace (b <? 8) with true by lia. reflexivity.
Qed.

Lemma ascii_column_grows x col destPage bitOffset data shifted g t :
  grows g t -> grows g (ascii_column x col destPage bitOffset data shifted t).
Proof.
  intros H. unfold ascii_column. destruct shifted; [|apply grows_or_store, H].
  destruct (_ && _); repeat apply grows_or_store; exact H.
Qed.

Lemma for_break_inv {T : Type} (P : T -> Prop) n j (body : Z -> T -> option T) s :
  P s ->
  (forall k t, P t -> match body k t with Some t' => P t' | None => True end) ->
  P (for_break n j body s).
Proof.
  intros H0 Hstep. apply (for_break_ind (fun _ => P) P); [exact H0| |auto].
  intros k t _ Ht. specialize (Hstep k t Ht). destruct (body k t); [exact Hstep|exact Ht].
Qed.

Lemma OLED_DrawASCIIFast_grows (F8x16 F6x8 : list (list Z)) x y c fontHeight g t :
  grows g t -> grows g (OLED_DrawASCIIFast F8x16 F6x8 x y c fontHeight t).
Proof.
  intros H. unfold OLED_DrawASCIIFast.
  destruct (_ || _); [exact H|].
  destruct (fontHeight =? 16); [|destruct (fontHeight =? 8); [|exact H]].
  - apply for_break_inv; [exact H|]. intros page u Hu.
    destruct (_ >=? 8); [exact I|].
    apply for_break_inv; [exact Hu|]. intros col v Hv.
    destruct (_ >=? 128); [exact I|].
    apply ascii_column_grows, Hv.
  - apply for_break_inv; [exact H|]. intros col v Hv.
    destruct (_ >=? 128); [exact I|].
    apply ascii_column_grows, Hv.
Qed.

Lemma OLED_ShowImage_grows X Y Width Height Image g t :
  grows g t -> grows g (OLED_ShowImage X Y Width Height Image t).
Proof.
  intros H. unfold OLED_ShowImage.
  destruct (OLED_CHECK_RECTANGLE X Y Width Height); [exact H|].
  destruct (_ || _); [exact H|]. destruct (_ || _); [exact H|].
  apply for_break_inv; [exact H|]. intros page u Hu. unfold ShowImage_page.
  destruct (_ >=? 8); [exact I|].
  apply (for_range_inv (grows g)); [exact Hu|]. intros col v _ Hv.
  unfold ShowImage_column.
  destruct (_ >=? _); [exact Hv|].
  destruct (_ =? 0); [apply grows_or_store, Hv|].
  destruct (_ <? 7); repeat apply grows_or_store; exact Hv.
Qed.

(** X25: printing never clears a pixel.  Whatever the fonts, the glyph
    lookup, the position, the font size and the text, every pixel that
    is on before [OLED_Printf] is on afterwards: text printed over old
    text is merged with it. *)
Theorem OLED_Printf_never_clears (F8x16 F6x8 : list (list Z))
    (find : list Z -> option (list Z)) X Y FontSize text g x y :
  gram_ok g = true ->
  pixel g x y = true ->
  pixel (cur_g (OLED_Printf F8x16 F6x8 find OLED_ShowImage X Y FontSize text g)) x y = true.
Proof.
  intros Hok Hp.
  assert (H : grows g (cur_g (OLED_Printf F8x16 F6x8 find OLED_ShowImage X Y FontSize text g))).
  2:{ eapply pixel_grows; [apply H|exact Hp]. }
  unfold OLED_Printf.
  destruct (OLED_CHECK_COORDINATES X Y); [apply grows_refl, Hok|].
  destruct (_ && _); [apply grows_refl, Hok|].
  set (h := if FontSize =? 16 then 16 else 8).
  set (w := if h =? 16 then 8 else 6).
  assert (Hascii : forall str k, grows g (cur_g k) ->
            grows g (cur_g (Printf_ascii F8x16 F6x8 X h w str k))).
  { induction str as [|c str IH]; intros k Hk; [exact Hk|].
    cbn [Printf_ascii]. destruct (c =? 10); [apply IH, Hk|].
    destruct (c =? 13); [apply IH, Hk|].
    apply IH. cbn [cur_g]. apply OLED_DrawASCIIFast_grows, Hk. }
  assert (Hmixed : forall fuel str k, grows g (cur_g k) ->
            grows g (cur_g (Printf_mixed F8x16 F6x8 find OLED_ShowImage fuel X h w str k))).
  { induction fuel as [|fuel IH]; intros str k Hk; [exact Hk|].
    destruct str as [|c rest]; [exact Hk|]. cbn [Printf_mixed].
    destruct (Z.land c 128 =? 0).
    - destruct (c =? 10); [apply IH, Hk|]. destruct (c =? 13); [apply IH, Hk|].
      apply IH. cbn [cur_g]. apply OLED_DrawASCIIFast_grows, Hk.
    - destruct (find (c :: rest)) as [chineseData|]; [|apply IH, Hk].
      destruct (_ && _); [|apply IH, Hk].
      destruct (_ && _); apply IH; cbn [cur_g]; apply OLED_ShowImage_grows, Hk. }
  destruct (OLED_IsPureASCII _); [apply Hascii|apply Hmixed]; apply grows_refl, Hok.
Qed.

Lemma OLED_Printf_never_clears_witness :
  pixel (cur_g (OLED_Printf [] [] (fun _ => None) OLED_ShowImage 0 0 8 [65; 66]
                  (OLED_DrawPoint 1 1 1 gram_zero))) 1 1 = true.
Proof.
  apply OLED_Printf_never_clears; reflexivity.
Defined.

(** ** OLED_ShowImage *)

(** The byte the column loop builds for a destination page: eight rows
    of the image from [srcStartRow] down. *)
Lemma ShowImage_window Width Height Image srcStartRow cs :
  image_ok Image -> 0 < Width <= 255 -> 0 < Height <= 255 -> Height mod 8 = 0 ->
  0 <= srcStartRow < Height -> 0 <= cs < Width ->
  let srcPage := u8 (srcStartRow ÷ 8) in
  let srcBitOffset := u8 (Z.rem srcStartRow 8) in
  let srcIndex := u16 (u16 (srcPage * Width) + cs) in
  let totalImageSize := u16 (Width * Height) in
  let srcData := array_get Image srcIndex in
  let nextData :=
    if negb (srcBitOffset =? 0) && ((srcPage + 1) * 8 <? Height)
       && (u16 (srcIndex + Width) <? totalImageSize)
    then array_get Image (u16 (srcIndex + Width)) else 0 in
  let combinedData :=
    if srcBitOffset =? 0 then srcData
    else u8 (Z.lor (Z.shiftr srcData srcBitOffset) (Z.shiftl nextData (8 - srcBitOffset))) in
  (srcIndex >=? totalImageSize) = false
  /\ 0 <= combinedData < 256
  /\ forall j, 0 <= j < 8 ->
       Z.testbit combinedData j
       = (srcStartRow + j <? Height) && image_bit Width Image cs (srcStartRow + j).
Proof.
  intros Himg HW HH H8 HR Hcs. cbv zeta.
  rewrite Z.quot_div_nonneg, Z.rem_mod_nonneg by lia.
  pose proof (Z.div_mod srcStartRow 8 ltac:(lia)) as Hdm.
  pose proof (Z.mod_pos_bound srcStartRow 8 ltac:(lia)) as Hmb.
  pose proof (Z.div_mod Height 8 ltac:(lia)) as HdH.
  set (q := srcStartRow / 8) in *. set (r := srcStartRow mod 8) in *.
  assert (Hq : 0 <= q < Height / 8) by lia.
  assert (Hq8 : Height / 8 <= 31) by lia.
  rewrite (u8_small q), (u8_small r) by lia.
  assert (HqW : 0 <= q * Width <= 31 * 255) by nia.
  unfold u16. rewrite (Z.mod_small (q * Width)) by lia.
  rewrite (Z.mod_small (q * Width + cs)) by lia.
  assert (Htot : 0 <= Width * Height < 65536) by nia.
  rewrite (Z.mod_small (Width * Height)) by lia.
  assert (Hidx : q * Width + cs < Width * Height) by nia.
  split; [lia|].
  assert (Hrow : forall j, 0 <= j < 8 - r ->
            (srcStartRow + j <? Height) && image_bit Width Image cs (srcStartRow + j)
            = Z.testbit (array_get Image (q * Width + cs)) (r + j)).
  { intros j Hj. replace (srcStartRow + j <? Height) with true by lia. cbn [andb].
    unfold image_bit.
    replace ((srcStartRow + j) / 8) with q by (apply Z.div_unique with (r + j); lia).
    replace ((srcStartRow + j) mod 8) with (r + j) by (apply Z.mod_unique with q; lia).
    reflexivity. }
  destruct (Z.eqb_spec r 0) as [Hr0|Hr0].
  - split; [apply Himg|]. intros j Hj. rewrite Hrow by lia. rewrite Hr0. reflexivity.
  - split; [apply u8_range|]. intros j Hj. cbn [negb andb].
    unfold u8. change 256 with (2 ^ 8). rewrite Z.testbit_mod_pow2 by lia.
    replace (j <? 8) with true by lia. cbn [andb].
    rewrite Z.lor_spec, Z.shiftr_spec, Z.shiftl_spec by lia.
    destruct (Z_lt_le_dec j (8 - r)) as [Hlow|Hhigh].
    + rewrite Hrow by lia. rewrite (Z.add_comm j r).
      rewrite (Z.testbit_neg_r _ (j - (8 - r))) by lia. apply orb_false_r.
    + rewrite (byte_bit_high _ (j + r)) by (try apply Himg; lia). cbn [orb].
      destruct (Z.ltb_spec ((q + 1) * 8) Height) as [Hnext|Hlast].
      * assert (Hn : q * Width + cs + Width < Width * Height) by nia.
        rewrite (Z.mod_small (q * Width + cs + Width)) by lia.
        replace (q * Width + cs + Width <? Width * Height) with true by lia.
        replace (srcStartRow + j <? Height) with true by lia. cbn [andb].
        unfold image_bit.
        replace ((srcStartRow + j) / 8) with (q + 1)
          by (apply Z.div_unique with (j - (8 - r)); lia).
        replace ((srcStartRow + j) mod 8) with (j - (8 - r))
          by (apply Z.mod_unique with (q + 1); lia).
        f_equal. f_equal. ring.
      * replace (srcStartRow + j <? Height) with false by lia.
        cbn [andb]. apply Z.testbit_0_l.
Qed.

(** The stores of one column of one page: the bits of [data] go into
    column [destPos] from row [8 destPage + off] down. *)
Lemma ShowImage_store_acts t destPage destPos off data :
  gram_ok t = true -> 0 <= destPage < 8 -> 0 <= destPos < 128 ->
  0 <= off < 8 -> 0 <= data < 256 ->
  acts (fun _ => true)
    (fun p c b => (c =? destPos) && Z.testbit data (8 * p + b - (8 * destPage + off)))
    t
    (if off =? 0 then
       gram_set t destPage destPos (u8 (Z.lor (gram_get t destPage destPos) data))
     else
       let g :=
         gram_set t destPage destPos
           (u8 (Z.lor (gram_get t destPage destPos) (Z.shiftl data off))) in
       if destPage <? 7 then
         gram_set g (destPage + 1) destPos
           (u8 (Z.lor (gram_get g (destPage + 1) destPos) (Z.shiftr data (8 - off))))
       else g).
Proof.
  intros Hok Hp Hc Hoff Hdata.
  destruct (Z.eqb_spec off 0) as [->|Hnz].
  - eapply acts_ext; [apply (acts_or_store t destPage destPos data Hok Hp Hc)|].
    intros p c b Hpr Hcr Hb. cbv beta.
    destruct (Z.eqb_spec c destPos); [|rewrite !andb_false_r; reflexivity].
    rewrite !andb_true_r. cbn [andb].
    destruct (Z.eqb_spec p destPage) as [->|Hn1]; cbn [andb].
    + f_equal. lia.
    + symmetry. apply byte_bit_outside; [exact Hdata|lia].
  - cbv zeta.
    pose proof (acts_or_store t destPage destPos (Z.shiftl data off) Hok Hp Hc) as H1.
    set (g1 := gram_set t destPage destPos _) in *.
    assert (Hbits : forall b, 0 <= b < 8 ->
              Z.testbit (Z.shiftl data off) b = Z.testbit data (b - off)
              /\ Z.testbit (Z.shiftr data (8 - off)) b = Z.testbit data (b + 8 - off)).
    { intros b Hb. rewrite Z.shiftl_spec, Z.shiftr_spec by lia.
      split; [reflexivity|]. f_equal. lia. }
    destruct (Z.ltb_spec destPage 7) as [Hnext|Hlast].
    + pose proof (acts_or_store g1 (destPage + 1) destPos (Z.shiftr data (8 - off))
                    (acts_ok _ _ _ _ H1) ltac:(lia) Hc) as H2.
      eapply acts_then_idem; [reflexivity|exact H1|exact H2|].
      intros p c b Hpr Hcr Hb. cbv beta. destruct (Hbits b Hb) as [-> ->].
      destruct (Z.eqb_spec c destPos); [|rewrite !andb_false_r; reflexivity].
      rewrite !andb_true_r. cbn [andb].
      destruct (Z.eqb_spec p destPage) as [->|Hn1];
        [|destruct (Z.eqb_spec p (destPage + 1)) as [->|Hn2]].
      * replace (destPage =? destPage + 1) with false by lia. cbn [andb orb].
        rewrite orb_false_r. f_equal. lia.
      * cbn [andb orb]. f_equal. lia.
      * cbn [andb orb]. apply byte_bit_outside; [exact Hdata|lia].
    + eapply acts_ext; [exact H1|].
      intros p c b Hpr Hcr Hb. cbv beta. destruct (Hbits b Hb) as [-> _].
      destruct (Z.eqb_spec c destPos); [|rewrite !andb_false_r; reflexivity].
      rewrite !andb_true_r. cbn [andb].
      destruct (Z.eqb_spec p destPage) as [->|Hn1]; cbn [andb].
      * f_equal. lia.
      * symmetry. apply byte_bit_outside; [exact Hdata|lia].
Qed.

(** One column of one destination page, in screen coordinates: the
    rows [base .. base + 7] of column [displayX + col] receive the rows
    of the image that lie [Y] above them. *)
Lemma ShowImage_column_acts Width Height Image X Y displayX srcXOffset destPage off
    srcStartRow col t :
  image_ok Image -> 0 < Width <= 255 -> 0 < Height <= 255 -> Height mod 8 = 0 ->
  gram_ok t = true ->
  0 <= destPage < 8 -> 0 <= off < 8 -> 0 <= srcStartRow < Height ->
  srcStartRow = 8 * destPage + off - Y ->
  srcXOffset = displayX - X -> 0 <= srcXOffset -> 0 <= col -> srcXOffset + col < Width ->
  0 <= displayX + col < 128 ->
  acts (fun _ => true)
    (fun p c b =>
       (c =? displayX + col)
       && (8 * destPage + off <=? 8 * p + b) && (8 * p + b <? 8 * destPage + off + 8)
       && (8 * p + b - Y <? Height)
       && image_bit Width Image (c - X) (8 * p + b - Y))
    t
    (ShowImage_column Width Height Image displayX srcXOffset destPage
       (u8 (srcStartRow ÷ 8)) (u8 (Z.rem srcStartRow 8)) off col t).
Proof.
  intros Himg HW HH H8 Hok Hp Hoff HR HRY Hxo Hxo0 Hcol Hcs Hpos.
  unfold ShowImage_column.
  destruct (ShowImage_window Width Height Image srcStartRow (srcXOffset + col)
              Himg HW HH H8 HR ltac:(lia)) as (Hidx & Hbyte & Hbits).
  cbv zeta in Hidx, Hbyte, Hbits. cbv zeta.
  rewrite <- !(Z.add_assoc (u16 (u8 (srcStartRow ÷ 8) * Width)) srcXOffset col).
  rewrite Hidx.
  rewrite (s16_small (displayX + col)) by lia.
  eapply acts_ext;
    [apply (ShowImage_store_acts t destPage (displayX + col) off _ Hok Hp Hpos Hoff Hbyte)|].
  intros p c b Hpr Hcr Hb. cbv beta.
  destruct (Z.eqb_spec c (displayX + col)) as [->|]; [|reflexivity]. cbn [andb].
  set (idx := 8 * p + b - (8 * destPage + off)).
  destruct (Z_le_dec 0 idx) as [Hlo|Hlo]; [destruct (Z_lt_dec idx 8) as [Hhi|Hhi]|].
  - rewrite (Hbits idx) by lia.
    replace (8 * destPage + off <=? 8 * p + b) with true by lia.
    replace (8 * p + b <? 8 * destPage + off + 8) with true by lia. cbn [andb].
    replace (srcStartRow + idx) with (8 * p + b - Y) by lia.
    replace (displayX + col - X) with (srcXOffset + col) by lia. reflexivity.
  - rewrite byte_bit_outside by (exact Hbyte || lia).
    replace (8 * p + b <? 8 * destPage + off + 8) with false by lia.
    rewrite andb_false_r. reflexivity.
  - rewrite byte_bit_outside by (exact Hbyte || lia).
    replace (8 * destPage + off <=? 8 * p + b) with false by lia. reflexivity.
Qed.

(** All columns of one destination page. *)
Lemma ShowImage_columns_acts Width Height Image X Y displayX displayWidth srcXOffset
    destPage off srcStartRow g :
  image_ok Image -> 0 < Width <= 255 -> 0 < Height <= 255 -> Height mod 8 = 0 ->
  gram_ok g = true ->
  0 <= destPage < 8 -> 0 <= off < 8 -> 0 <= srcStartRow < Height ->
  srcStartRow = 8 * destPage + off - Y ->
  srcXOffset = displayX - X -> 0 <= srcXOffset -> 0 <= displayWidth ->
  srcXOffset + displayWidth <= Width ->
  0 <= displayX -> displayX + displayWidth <= 128 ->
  acts (fun _ => true)
    (fun p c b =>
       (displayX <=? c) && (c <? displayX + displayWidth)
       && (8 * destPage + off <=? 8 * p + b) && (8 * p + b <? 8 * destPage + off + 8)
       && (8 * p + b - Y <? Height)
       && image_bit Width Image (c - X) (8 * p + b - Y))
    g
    (for_range 0 displayWidth
       (ShowImage_column Width Height Image displayX srcXOffset destPage
          (u8 (srcStartRow ÷ 8)) (u8 (Z.rem srcStartRow 8)) off) g).
Proof.
  intros Himg HW HH H8 Hok Hp Hoff HR HRY Hxo Hxo0 Hdw Hfit HdX Hedge.
  assert (H : acts (fun _ => true)
            (fun p c b =>
               (displayX <=? c) && (c <? displayX + displayWidth)
               && ((8 * destPage + off <=? 8 * p + b) && (8 * p + b <? 8 * destPage + off + 8)
                   && (8 * p + b - Y <? Height)
                   && image_bit Width Image (c - X) (8 * p + b - Y)))
            g
            (for_range 0 displayWidth
               (ShowImage_column Width Height Image displayX srcXOffset destPage
                  (u8 (srcStartRow ÷ 8)) (u8 (Z.rem srcStartRow 8)) off) g)).
  2:{ eapply acts_ext; [exact H|]. intros p c b _ _ _. cbv beta.
      rewrite !andb_assoc. reflexivity. }
  apply (for_range_ind (fun k t =>
           acts (fun _ => true)
             (fun p c b =>
                (displayX <=? c) && (c <? displayX + k)
                && ((8 * destPage + off <=? 8 * p + b) && (8 * p + b <? 8 * destPage + off + 8)
                    && (8 * p + b - Y <? Height)
                    && image_bit Width Image (c - X) (8 * p + b - Y))) g t)); [lia| |].
  - apply acts_nothing; [exact Hok|]. intros p c b _ _ _.
    replace ((displayX <=? c) && (c <? displayX + 0)) with false by lia. reflexivity.
  - intros k t Hk Hacc.
    eapply acts_then_idem; [reflexivity|exact Hacc| |].
    + apply (ShowImage_column_acts Width Height Image X Y displayX srcXOffset destPage off
               srcStartRow k t); try assumption; try lia.
      apply (acts_ok _ _ _ _ Hacc).
    + intros p c b _ _ _. cbv beta.
      rewrite <- !andb_assoc.
      destruct (Z.eqb_spec c (displayX + k)) as [->|Hne].
      * replace (displayX <=? displayX + k) with true by lia.
        replace (displayX + k <? displayX + (k + 1)) with true by lia.
        replace (displayX + k <? displayX + k) with false by lia. reflexivity.
      * replace (c <? displayX + (k + 1)) with (c <? displayX + k) by lia.
        cbn [andb]. rewrite orb_false_r. reflexivity.
Qed.

(** The page loop: what the pages put together cover is the part of
    the image that is on the screen. *)
Lemma ShowImage_pages_acts Width Height Image X Y displayX displayY displayWidth
    displayHeight g :
  image_ok Image -> 0 < Width <= 255 -> 0 < Height <= 255 -> Height mod 8 = 0 ->
  gram_ok g = true ->
  displayX = Z.max X 0 -> displayY = Z.max Y 0 ->
  0 < displayWidth -> 0 < displayHeight ->
  displayX + displayWidth = Z.min (X + Width) 128 ->
  displayY + displayHeight = Z.min (Y + Height) 64 ->
  acts (fun _ => true)
    (fun p c b =>
       (displayX <=? c) && (c <? displayX + displayWidth)
       && (displayY <=? 8 * p + b) && (8 * p + b - Y <? Height)
       && image_bit Width Image (c - X) (8 * p + b - Y))
    g
    (for_break (Z.to_nat (u8 ((displayHeight + u8 (Z.rem displayY 8) + 7) ÷ 8))) 0
       (ShowImage_page Width Height Image displayX displayWidth (displayX - X) (displayY - Y)
          (u8 (displayY ÷ 8)) (u8 (Z.rem displayY 8))) g).
Proof.
  intros Himg HW HH H8 Hok HdX HdY Hdw Hdh Hright Hbottom.
  assert (HY64 : 0 <= displayY < 64) by lia.
  destruct (page_bit_of_row displayY HY64) as (-> & -> & Hsp & Hbit).
  pose proof (row_of_pixel displayY) as Hrow.
  set (sp := displayY / 8) in *. set (bit := displayY mod 8) in *.
  rewrite (u8_small sp), (u8_small bit) by lia.
  assert (Hpc : 0 <= (displayHeight + bit + 7) / 8 <= 9
                /\ 8 * ((displayHeight + bit + 7) / 8) <= displayHeight + bit + 7
                /\ displayHeight + bit < 8 * ((displayHeight + bit + 7) / 8) + 1).
  { pose proof (Z.div_mod (displayHeight + bit + 7) 8 ltac:(lia)).
    pose proof (Z.mod_pos_bound (displayHeight + bit + 7) 8 ltac:(lia)). lia. }
  rewrite Z.quot_div_nonneg by lia.
  set (pc := (displayHeight + bit + 7) / 8) in *.
  rewrite (u8_small pc) by lia.
  pose (top := fun k => if k =? 0 then displayY
                        else if k =? 1 then displayY + 8 else 8 * (sp + k)).
  pose (S := fun (lim : Z) (p c b : Z) =>
    (displayX <=? c) && (c <? displayX + displayWidth)
    && (displayY <=? 8 * p + b) && (8 * p + b <? lim) && (8 * p + b - Y <? Height)
    && image_bit Width Image (c - X) (8 * p + b - Y)).
  apply (for_break_ind (fun k t => acts (fun _ => true) (S (top k)) g t)).
  - apply acts_nothing; [exact Hok|]. intros p c b _ _ _. unfold S, top.
    change (0 =? 0) with true. cbv iota.
    destruct (image_bit Width Image (c - X) (8 * p + b - Y)); lia.
  - intros k t Hk Hacc. rewrite Z2Nat.id in Hk by lia. unfold ShowImage_page.
    rewrite (u8_small (sp + k)) by lia.
    destruct (Z.geb_spec (sp + k) 8) as [Hbreak|Hpage].
    + (* the rest of the image is below the screen *)
      eapply acts_ext; [exact Hacc|]. intros p c b Hp Hc Hb. unfold S, top.
      destruct (image_bit Width Image (c - X) (8 * p + b - Y));
        destruct (Z.eqb_spec k 0), (Z.eqb_spec k 1); lia.
    + set (off := if k =? 0 then bit else 0).
      assert (Hoff : 0 <= off < 8) by (unfold off; destruct (k =? 0); lia).
      set (R0 := if s16 (displayY - Y + k * 8 - bit) <? 0 then 0
                 else s16 (displayY - Y + k * 8 - bit)).
      assert (HR0 : R0 = 8 * (sp + k) + off - Y /\ 0 <= R0 < Height).
      { unfold R0, off. rewrite (s16_small (displayY - Y + k * 8 - bit)) by lia.
        destruct (Z.eqb_spec k 0) as [Hk0|Hk0];
          destruct (Z.ltb_spec (displayY - Y + k * 8 - bit) 0); lia. }
      destruct HR0 as [HR0 HR0r].
      pose proof (ShowImage_columns_acts Width Height Image X Y displayX displayWidth
                    (displayX - X) (sp + k) off R0 t Himg HW HH H8
                    (acts_ok _ _ _ _ Hacc) ltac:(lia) Hoff HR0r HR0 eq_refl
                    ltac:(lia) ltac:(lia) ltac:(lia) ltac:(lia) ltac:(lia)) as Hcols.
      eapply acts_then_idem; [reflexivity|exact Hacc|exact Hcols|].
      intros p c b Hp Hc Hb. unfold S, top, off. cbv beta.
      destruct (image_bit Width Image (c - X) (8 * p + b - Y));
        destruct (Z.eqb_spec k 0), (Z.eqb_spec k 1), (Z.eqb_spec (k + 1) 0),
          (Z.eqb_spec (k + 1) 1); lia.
  - intros t Ht. rewrite Z2Nat.id, Z.add_0_l in Ht by lia.
    eapply acts_ext; [exact Ht|]. intros p c b Hp Hc Hb. unfold S, top.
    destruct (image_bit Width Image (c - X) (8 * p + b - Y));
      destruct (Z.eqb_spec pc 0), (Z.eqb_spec pc 1); lia.
Qed.

(** X26: [OLED_ShowImage] is an OR-blit clipped to the screen.  For an
    image whose height is a multiple of 8, placed anywhere, also partly
    or wholly off the screen: a pixel of the screen is on afterwards
    exactly when it was on before or the image has a 1 at that place,
    bit [r mod 8] of byte [(r / 8) * Width + k] for the pixel in column
    [k] and row [r] of the image. *)
Theorem OLED_ShowImage_blits_the_image X Y Width Height Image g px py :
  image_ok Image -> gram_ok g = true ->
  -32768 <= X <= 32767 -> -32768 <= Y <= 32767 ->
  0 < Width <= 255 -> 0 < Height <= 255 -> Height mod 8 = 0 ->
  pixel (OLED_ShowImage X Y Width Height Image g) px py
  = pixel g px py
    || ((0 <=? px) && (px <? 128) && (0 <=? py) && (py <? 64)
        && (X <=? px) && (px <? X + Width) && (Y <=? py) && (py <? Y + Height)
        && image_bit Width Image (px - X) (py - Y)).
Proof.
  intros Himg Hok HX HY HW HH H8. unfold OLED_ShowImage.
  assert (Hnone : forall cond : Prop, cond ->
            (cond -> ~ (0 <= px < 128 /\ 0 <= py < 64
                        /\ X <= px < X + Width /\ Y <= py < Y + Height)) ->
            pixel g px py
            = pixel g px py
              || ((0 <=? px) && (px <? 128) && (0 <=? py) && (py <? 64)
                  && (X <=? px) && (px <? X + Width) && (Y <=? py) && (py <? Y + Height)
                  && image_bit Width Image (px - X) (py - Y))).
  { intros cond Hc Hno. specialize (Hno Hc).
    destruct (image_bit Width Image (px - X) (py - Y)), (pixel g px py);
      try reflexivity; cbn [orb]; lia. }
  destruct (OLED_CHECK_RECTANGLE X Y Width Height) eqn:Hchk.
  { apply (Hnone _ Hchk). unfold OLED_CHECK_RECTANGLE, OLED_WIDTH, OLED_HEIGHT. lia. }
  apply check_rectangle_passed in Hchk as (_ & _ & HX128 & HY64).
  set (dX := if X <? 0 then 0 else X).
  set (dY := if Y <? 0 then 0 else Y).
  assert (EdX : dX = Z.max X 0) by (unfold dX; destruct (Z.ltb_spec X 0); lia).
  assert (EdY : dY = Z.max Y 0) by (unfold dY; destruct (Z.ltb_spec Y 0); lia).
  set (dw0 := if X <? 0 then s16 (Width + X) else Width).
  set (dh0 := if Y <? 0 then s16 (Height + Y) else Height).
  assert (Edw0 : dw0 = X + Width - dX).
  { unfold dw0. destruct (Z.ltb_spec X 0); [rewrite s16_small by lia|]; lia. }
  assert (Edh0 : dh0 = Y + Height - dY).
  { unfold dh0. destruct (Z.ltb_spec Y 0); [rewrite s16_small by lia|]; lia. }
  destruct ((dw0 <=? 0) || (dh0 <=? 0) || (dX >=? 128) || (dY >=? 64)) eqn:Hout.
  { apply (Hnone _ Hout). lia. }
  assert (Hin : 0 < dw0 /\ 0 < dh0) by lia. destruct Hin as [Hdw0 Hdh0].
  replace (dw0 <? 0) with false by lia. replace (dh0 <? 0) with false by lia. cbv iota.
  set (dw := if dX + dw0 >? 128 then s16 (128 - dX) else dw0).
  set (dh := if dY + dh0 >? 64 then s16 (64 - dY) else dh0).
  assert (Edw : dX + dw = Z.min (X + Width) 128 /\ 0 < dw).
  { unfold dw. destruct (Z.gtb_spec (dX + dw0) 128); [rewrite s16_small by lia|]; lia. }
  assert (Edh : dY + dh = Z.min (Y + Height) 64 /\ 0 < dh).
  { unfold dh. destruct (Z.gtb_spec (dY + dh0) 64); [rewrite s16_small by lia|]; lia. }
  destruct Edw as [Edw Hdw]. destruct Edh as [Edh Hdh].
  replace ((dw <=? 0) || (dh <=? 0)) with false by lia.
  replace (if X <? 0 then s16 (- X) else 0) with (dX - X)
    by (destruct (Z.ltb_spec X 0); [rewrite s16_small by lia|]; lia).
  replace (if Y <? 0 then s16 (- Y) else 0) with (dY - Y)
    by (destruct (Z.ltb_spec Y 0); [rewrite s16_small by lia|]; lia).
  pose proof (ShowImage_pages_acts Width Height Image X Y dX dY dw dh g
                Himg HW HH H8 Hok EdX EdY Hdw Hdh Edw Edh) as Hacts.
  rewrite (acts_pixel_or _ _ _ px py Hok Hacts). f_equal.
  rewrite row_of_pixel.
  destruct (image_bit Width Image (px - X) (py - Y)); lia.
Qed.

Lemma OLED_ShowImage_blits_the_image_witness :
  pixel (OLED_ShowImage (-3) 60 8 8 [0; 0; 0; 0; 0; 0; 0; 2] gram_zero) 4 61 = true.
Proof.
  rewrite (OLED_ShowImage_blits_the_image (-3) 60 8 8 [0; 0; 0; 0; 0; 0; 0; 2] gram_zero 4 61);
    [reflexivity| |reflexivity|lia|lia|lia|lia|reflexivity].
  intros i. unfold array_get.
  destruct (Z.to_nat i) as [|[|[|[|[|[|[|[|n]]]]]]]]; cbn; try lia.
  destruct n; cbn; lia.
Defined.

(** ** OLED_ReverseRectangle *)

Lemma xor_store_spec a k :
  0 <= a < 256 -> 0 <= k < 8 ->
  0 <= u8 (Z.lxor a (Z.shiftl 1 k)) < 256
  /\ forall b, 0 <= b < 8 ->
       Z.testbit (u8 (Z.lxor a (Z.shiftl 1 k))) b
       = if b =? k then negb (Z.testbit a b) else Z.testbit a b.
Proof.
  intros Ha Hk. split; [apply u8_range|]. intros b Hb.
  unfold u8. change 256 with (2 ^ 8).
  rewrite Z.testbit_mod_pow2 by lia. rewrite Z.lxor_spec.
  rewrite Z.shiftl_1_l, Z.pow2_bits_eqb by lia. rewrite (Z.eqb_sym k b).
  replace (b <? 8) with true by (symmetry; apply Z.ltb_lt; lia).
  destruct (b =? k), (Z.testbit a b); reflexivity.
Qed.

Lemma xor_store_acts p c k g :
  gram_ok g = true -> 0 <= p < 8 -> 0 <= c < 128 -> 0 <= k < 8 ->
  acts negb (fun p' c' b => (p' =? p) && (c' =? c) && (b =? k)) g (xor_store p c k g).
Proof.
  intros Hok Hp Hc Hk. unfold xor_store.
  apply (acts_store negb (fun a k => u8 (Z.lxor a (Z.shiftl 1 k)))); try assumption.
  intros a Ha. apply xor_store_spec; assumption.
Qed.

(** Inverting twice over: the bits inverted are those in one set only. *)
Lemma acts_negb_then S S' g t u :
  acts negb S g t -> acts negb S' t u ->
  acts negb (fun p c b => xorb (S p c b) (S' p c b)) g u.
Proof.
  intros [_ H1] [Hok H2]. split; [exact Hok|].
  intros p c b Hp Hc Hb. rewrite H2, H1 by assumption.
  destruct (S p c b), (S' p c b), (Z.testbit (gram_get g p c) b); reflexivity.
Qed.

Lemma flipper_store p c k :
  0 <= p < 8 -> 0 <= c < 128 -> 0 <= k < 8 ->
  flipper (fun g => Some (xor_store p c k g)).
Proof.
  intros Hp Hc Hk. exists (fun p' c' b => (p' =? p) && (c' =? c) && (b =? k)).
  intros g Hok. exists (xor_store p c k g). split; [reflexivity|].
  apply xor_store_acts; assumption.
Qed.

Lemma flipper_bind (F G : gram -> option gram) :
  flipper F -> flipper G ->
  flipper (fun g => match F g with Some t => G t | None => None end).
Proof.
  intros [M HF] [N HG]. exists (fun p c b => xorb (M p c b) (N p c b)).
  intros g Hok. destruct (HF g Hok) as (t & -> & Ht).
  destruct (HG t (acts_ok _ _ _ _ Ht)) as (u & -> & Hu).
  exists u. split; [reflexivity|]. eapply acts_negb_then; eassumption.
Qed.

Lemma flipper_ext (F G : gram -> option gram) :
  (forall g, F g = G g) -> flipper F -> flipper G.
Proof.
  intros HE [M HF]. exists M. intros g Hok. rewrite <- HE. apply HF, Hok.
Qed.

Lemma flipper_for_u8 (body : Z -> gram -> option gram) a0 bound :
  0 <= a0 -> bound <= 255 ->
  (forall j, a0 <= j < bound -> flipper (body j)) ->
  forall fuel a,
    a0 <= a <= bound -> (Z.to_nat (bound - a) < fuel)%nat ->
    flipper (for_u8 fuel a bound body).
Proof.
  intros Ha0 Hb Hbody. induction fuel as [|fuel IH]; intros a Ha Hfuel; [lia|].
  destruct (Z.ltb_spec a bound) as [Hlt|Hge].
  - apply (flipper_ext (fun g => match body a g with
                                 | Some t => for_u8 fuel (a + 1) bound body t
                                 | None => None
                                 end)).
    + intros g. simpl. replace (a <? bound) with true by lia.
      rewrite (u8_small (a + 1)) by lia. reflexivity.
    + apply flipper_bind; [apply Hbody; lia|apply IH; lia].
  - exists (fun _ _ _ => false). intros g Hok. exists g. split.
    + simpl. replace (a <? bound) with false by lia. reflexivity.
    + apply acts_nothing; [exact Hok|reflexivity].
Qed.

Lemma flipper_for_u8_le (body : Z -> gram -> option gram) a0 last :
  0 <= a0 -> last < 255 ->
  (forall j, a0 <= j <= last -> flipper (body j)) ->
  forall fuel a,
    a0 <= a <= last + 1 -> (Z.to_nat (last - a + 1) < fuel)%nat ->
    flipper (for_u8_le fuel a last body).
Proof.
  intros Ha0 Hb Hbody. induction fuel as [|fuel IH]; intros a Ha Hfuel; [lia|].
  destruct (Z.leb_spec a last) as [Hle|Hgt].
  - apply (flipper_ext (fun g => match body a g with
                                 | Some t => for_u8_le fuel (a + 1) last body t
                                 | None => None
                                 end)).
    + intros g. simpl. replace (a <=? last) with true by lia.
      rewrite (u8_small (a + 1)) by lia. reflexivity.
    + apply flipper_bind; [apply Hbody; lia|apply IH; lia].
  - exists (fun _ _ _ => false). intros g Hok. exists g. split.
    + simpl. replace (a <=? last) with false by lia. reflexivity.
    + apply acts_nothing; [exact Hok|reflexivity].
Qed.

(** A function that inverts a fixed set of bits undoes itself. *)
Lemma flipper_twice (F : gram -> option gram) g :
  flipper F -> gram_ok g = true ->
  exists g', F g = Some g' /\ F g' = Some g.
Proof.
  intros [M HF] Hok. destruct (HF g Hok) as (t & Hrun & Ht).
  pose proof (acts_ok _ _ _ _ Ht) as Hokt.
  destruct (HF t Hokt) as (u & Hrun' & Hu).
  exists t. split; [exact Hrun|]. rewrite Hrun'. f_equal.
  apply gram_eq_pixels; [apply (acts_ok _ _ _ _ Hu)|exact Hok|].
  intros x y _. rewrite (acts_pixel _ _ _ _ x y Hokt Hu), (acts_pixel _ _ _ _ x y Hok Ht).
  destruct ((0 <=? x) && (x <? 128) && (0 <=? y) && (y <? 64) && M (y / 8) x (y mod 8)),
    (pixel g x y); reflexivity.
Qed.

Lemma quot_row j : 0 <= j < 64 -> 0 <= j ÷ 8 < 8 /\ 0 <= Z.rem j 8 < 8.
Proof.
  intros Hj. rewrite Z.quot_div_nonneg, Z.rem_mod_nonneg by lia.
  pose proof (Z.mod_pos_bound j 8 ltac:(lia)).
  pose proof (Z.div_pos j 8 ltac:(lia) ltac:(lia)).
  pose proof (Z.div_lt_upper_bound j 8 8 ltac:(lia) ltac:(lia)). lia.
Qed.

Lemma rem_range i n : 0 <= i -> 0 < n -> 0 <= Z.rem i n < n.
Proof. intros Hi Hn. rewrite Z.rem_mod_nonneg by lia. apply Z.mod_pos_bound. lia. Qed.

Lemma ReverseRectangle_side_flipper fuel x start_y end_y :
  0 <= x < 128 -> 0 <= start_y < 64 -> 0 <= end_y < 64 -> (256 < fuel)%nat ->
  flipper (ReverseRectangle_side fuel x start_y end_y).
Proof.
  intros Hx Hs He Hfuel. unfold ReverseRectangle_side.
  assert (Hflip : forall j, 0 <= j < 64 ->
            flipper (fun g => Some (xor_store (j ÷ 8) x (Z.rem j 8) g))).
  { intros j Hj. destruct (quot_row j Hj). apply flipper_store; assumption. }
  destruct (Z.leb_spec start_y end_y) as [Hle|Hgt].
  - apply (flipper_for_u8_le _ 0); [lia|lia| |lia|lia].
    intros j Hj. apply Hflip. lia.
  - apply flipper_bind.
    + apply (flipper_for_u8 _ 0); [lia|lia| |lia|lia].
      intros j Hj. apply Hflip. lia.
    + apply (flipper_for_u8_le _ 0); [lia|lia| |lia|lia].
      intros j Hj. apply Hflip. lia.
Qed.

Lemma OLED_ReverseRectangle_flipper fuel X Y Width Height IsFilled :
  0 <= X < 128 -> 0 <= Y < 64 -> 0 < Width -> 0 < Height ->
  X + Width <= 255 ->
  (IsFilled = 0 -> 2 <= Y + Height) -> (IsFilled <> 0 -> Y + Height <= 255) ->
  (256 < fuel)%nat ->
  flipper (OLED_ReverseRectangle fuel X Y Width Height IsFilled).
Proof.
  intros HX HY HW HH HXW Hout Hfill Hfuel. unfold OLED_ReverseRectangle.
  replace (OLED_CHECK_RECTANGLE X Y Width Height) with false
    by (unfold OLED_CHECK_RECTANGLE, OLED_WIDTH, OLED_HEIGHT; lia).
  replace (X >=? 128) with false by lia. replace (X <? 0) with false by lia.
  replace (Y >=? 64) with false by lia. replace (Y <? 0) with false by lia.
  cbv zeta. rewrite (u8_small X), (u8_small Y) by lia.
  destruct (quot_row Y HY) as [HYp HYb].
  destruct (Z.eqb_spec IsFilled 0) as [H0|H0].
  - specialize (Hout H0).
    pose proof (rem_range (Y + Height - 1) 64 ltac:(lia) ltac:(lia)) as Hy2.
    pose proof (rem_range (X + Width - 1) 128 ltac:(lia) ltac:(lia)) as Hx2.
    pose proof (rem_range (Y + 1) 64 ltac:(lia) ltac:(lia)) as Hsy.
    pose proof (rem_range (Y + Height - 2) 64 ltac:(lia) ltac:(lia)) as Hey.
    rewrite (u8_small (Z.rem (Y + Height - 1) 64)) by lia.
    rewrite (u8_small (Z.rem (X + Width - 1) 128)) by lia.
    rewrite (u8_small (Z.rem (Y + 1) 64)) by lia.
    rewrite (u8_small (Z.rem (Y + Height - 2) 64)) by lia.
    destruct (quot_row _ Hy2) as [Hy2p Hy2b].
    assert (Hcol : forall i, 0 <= i -> 0 <= u8 (Z.rem i 128) < 128).
    { intros i Hi. pose proof (rem_range i 128 Hi ltac:(lia)).
      rewrite u8_small; lia. }
    apply (flipper_bind (for_u8 fuel X (X + Width) _)).
    { apply (flipper_for_u8 _ 0); [lia|lia| |lia|lia].
      intros i Hi. apply flipper_store; [assumption|apply Hcol; lia|assumption]. }
    apply (flipper_bind (for_u8 fuel X (X + Width) _)).
    { apply (flipper_for_u8 _ 0); [lia|lia| |lia|lia].
      intros i Hi. apply flipper_store; [assumption|apply Hcol; lia|assumption]. }
    apply (flipper_bind (ReverseRectangle_side fuel X _ _)).
    { apply ReverseRectangle_side_flipper; lia. }
    apply ReverseRectangle_side_flipper; lia.
  - specialize (Hfill H0).
    apply (flipper_for_u8 _ 0); [lia|lia| |lia|lia].
    intros j Hj. apply (flipper_for_u8 _ 0); [lia|lia| |lia|lia].
    intros i Hi.
    pose proof (rem_range j 64 ltac:(lia) ltac:(lia)) as Hr.
    pose proof (rem_range i 128 ltac:(lia) ltac:(lia)) as Hc.
    pose proof (rem_range j 8 ltac:(lia) ltac:(lia)) as Hb.
    destruct (quot_row _ Hr) as [Hp _].
    apply flipper_store; assumption.
Qed.

(** X27: as the header of [OLED_ReverseRectangle] says, calling it twice
    restores the buffer: with the corner on the screen, and sizes for
    which the loops end, the call returns, and a second call with the
    same arguments returns the buffer the first one started from, also
    when the rectangle runs past the right or lower edge and comes back
    on the other side. *)
Theorem OLED_ReverseRectangle_twice_is_identity fuel X Y Width Height IsFilled g :
  gram_ok g = true ->
  0 <= X < 128 -> 0 <= Y < 64 -> 0 < Width -> 0 < Height ->
  X + Width <= 255 ->
  (IsFilled = 0 -> 2 <= Y + Height) -> (IsFilled <> 0 -> Y + Height <= 255) ->
  (256 < fuel)%nat ->
  exists g',
    OLED_ReverseRectangle fuel X Y Width Height IsFilled g = Some g'
    /\ OLED_ReverseRectangle fuel X Y Width Height IsFilled g' = Some g.
Proof.
  intros Hok HX HY HW HH HXW Hout Hfill Hfuel.
  apply flipper_twice; [|exact Hok].
  apply OLED_ReverseRectangle_flipper; assumption.
Qed.

Lemma OLED_ReverseRectangle_twice_is_identity_witness :
  exists g',
    OLED_ReverseRectangle 257 120 60 20 9 0 gram_zero = Some g'
    /\ OLED_ReverseRectangle 257 120 60 20 9 0 g' = Some gram_zero.
Proof.
  apply (OLED_ReverseRectangle_twice_is_identity 257 120 60 20 9 0 gram_zero);
    [reflexivity|lia|lia|lia|lia|lia|lia|lia|lia].
Defined.




(** A loop whose pass [j] inverts the bits of [S] with index [j]. *)
Lemma for_u8_acts_negb (body : Z -> gram -> option gram)
    (S : Z -> Z -> Z -> bool) (idx : Z -> Z -> Z -> Z) a0 bound :
  0 <= a0 <= bound -> bound <= 255 ->
  (forall j t, a0 <= j < bound -> gram_ok t = true ->
     exists t', body j t = Some t'
       /\ acts negb (fun p c b => S p c b && (idx p c b =? j)) t t') ->
  forall fuel g,
    (Z.to_nat (bound - a0) < fuel)%nat -> gram_ok g = true ->
    exists g',
      for_u8 fuel a0 bound body g = Some g'
      /\ acts negb (fun p c b => S p c b && (a0 <=? idx p c b) && (idx p c b <? bound)) g g'.
Proof.
  intros Ha Hb Hbody fuel g Hfuel Hok.
  apply (for_u8_ind
           (fun j t => acts negb
              (fun p c b => S p c b && (a0 <=? idx p c b) && (idx p c b <? j)) g t)
           body a0 bound); try lia.
  - intros j t Hj Ht.
    destruct (Hbody j t Hj (acts_ok _ _ _ _ Ht)) as (t' & Hrun & Ht').
    exists t'. split; [exact Hrun|].
    eapply acts_then; [exact Ht|exact Ht'|].
    intros p c b _ _ _. cbv beta. destruct (S p c b); cbn [andb orb]; split; lia.
  - apply acts_nothing; [exact Hok|].
    intros p c b _ _ _. cbv beta. destruct (S p c b); cbn [andb]; lia.
Qed.

Lemma for_u8_le_lt {T : Type} (body : Z -> T -> option T) last :
  forall fuel i s, for_u8_le fuel i last body s = for_u8 fuel i (last + 1) body s.
Proof.
  induction fuel as [|fuel IH]; intros i s; [reflexivity|].
  simpl. replace (i <? last + 1) with (i <=? last) by lia.
  destruct (i <=? last); [|reflexivity].
  destruct (body i s); [apply IH|reflexivity].
Qed.

Lemma bit_index p b j :
  0 <= b < 8 -> (p =? j / 8) && (b =? j mod 8) = (8 * p + b =? j).
Proof.
  intros Hb. pose proof (Z.div_mod j 8 ltac:(lia)).
  pose proof (Z.mod_pos_bound j 8 ltac:(lia)).
  destruct (Z.eqb_spec p (j / 8)), (Z.eqb_spec b (j mod 8)); cbn [andb]; lia.
Qed.

Lemma xorb_and_or (a b : bool) : xorb a b = (a && negb b) || (negb a && b).
Proof. destruct a, b; reflexivity. Qed.

Lemma if_negb_xorb (c b : bool) : (if c then negb b else b) = xorb b c.
Proof. destruct c, b; reflexivity. Qed.

(** A run of one row: the bits [k] of the bytes [a .. bound - 1] of page [p]. *)
Lemma row_run_acts (cf : Z -> Z) fuel g p k a bound :
  gram_ok g = true -> 0 <= p < 8 -> 0 <= k < 8 ->
  0 <= a <= bound -> bound <= 128 -> (Z.to_nat (bound - a) < fuel)%nat ->
  (forall i, a <= i < bound -> cf i = i) ->
  exists g',
    for_u8 fuel a bound (fun i g => Some (xor_store p (cf i) k g)) g = Some g'
    /\ acts negb (fun p' c b => (p' =? p) && (b =? k) && (a <=? c) && (c <? bound)) g g'.
Proof.
  intros Hok Hp Hk Ha Hb Hfuel Hcf.
  apply (for_u8_acts_negb _ (fun p' c b => (p' =? p) && (b =? k)) (fun _ c _ => c));
    try lia; try assumption.
  intros i t Hi Ht. exists (xor_store p (cf i) k t). split; [reflexivity|].
  rewrite Hcf by lia.
  eapply acts_ext; [apply xor_store_acts; try assumption; lia|].
  intros p' c b _ _ _. cbv beta.
  destruct (p' =? p), (c =? i), (b =? k); reflexivity.
Qed.

(** A run of one column: the rows [a .. last] of column [x]. *)
Lemma column_run_acts fuel g x a last :
  gram_ok g = true -> 0 <= x < 128 ->
  0 <= a <= last + 1 -> last < 64 -> (Z.to_nat (last + 1 - a) < fuel)%nat ->
  exists g',
    for_u8_le fuel a last (fun j g => Some (xor_store (j ÷ 8) x (Z.rem j 8) g)) g = Some g'
    /\ acts negb (fun p c b => (c =? x) && (a <=? 8 * p + b) && (8 * p + b <=? last)) g g'.
Proof.
  intros Hok Hx Ha Hl Hfuel. rewrite for_u8_le_lt.
  destruct (for_u8_acts_negb
              (fun j g => Some (xor_store (j ÷ 8) x (Z.rem j 8) g))
              (fun _ c _ => c =? x) (fun p _ b => 8 * p + b) a (last + 1)
              ltac:(lia) ltac:(lia)) with (fuel := fuel) (g := g)
    as (g' & Hrun & Hacts); try assumption.
  - intros j t Hj Ht. exists (xor_store (j ÷ 8) x (Z.rem j 8) t). split; [reflexivity|].
    destruct (quot_row j ltac:(lia)) as [Hq Hr].
    eapply acts_ext; [apply xor_store_acts; assumption|].
    intros p c b _ _ Hb. cbv beta.
    rewrite Z.quot_div_nonneg, Z.rem_mod_nonneg by lia.
    rewrite <- (bit_index p b j Hb).
    destruct (p =? j / 8), (c =? x), (b =? j mod 8); reflexivity.
  - exists g'. split; [exact Hrun|].
    eapply acts_ext; [exact Hacts|].
    intros p c b _ _ _. cbv beta. destruct (c =? x); cbn [andb]; lia.
Qed.

(** X29: within the screen [OLED_ReverseRectangle] inverts the pixels of
    the rectangle and no other; for an outline of at least 2 columns
    and 3 rows, the pixels of its border and no other. *)
Theorem OLED_ReverseRectangle_inverts_the_rectangle fuel X Y Width Height IsFilled g :
  gram_ok g = true ->
  0 <= X -> 0 <= Y -> 0 < Width -> 0 < Height ->
  X + Width <= 128 -> Y + Height <= 64 ->
  (IsFilled = 0 -> 2 <= Width /\ 3 <= Height) ->
  (128 < fuel)%nat ->
  exists g',
    OLED_ReverseRectangle fuel X Y Width Height IsFilled g = Some g'
    /\ forall x y,
         pixel g' x y = xorb (pixel g x y) (rectangle_bits X Y Width Height IsFilled x y).
Proof.
  intros Hok HX HY HW HH HXW HYH Hout Hfuel. unfold OLED_ReverseRectangle.
  replace (OLED_CHECK_RECTANGLE X Y Width Height) with false
    by (unfold OLED_CHECK_RECTANGLE, OLED_WIDTH, OLED_HEIGHT; lia).
  replace (X >=? 128) with false by lia. replace (X <? 0) with false by lia.
  replace (Y >=? 64) with false by lia. replace (Y <? 0) with false by lia.
  cbv zeta. rewrite (u8_small X), (u8_small Y) by lia.
  destruct (Z.eqb_spec IsFilled 0) as [H0|H0].
  - destruct (Hout H0) as [HW2 HH3].
    destruct (quot_row Y ltac:(lia)) as [HYp HYb].
    rewrite (rem_small (Y + Height - 1) 64), (rem_small (X + Width - 1) 128),
      (rem_small (Y + 1) 64), (rem_small (Y + Height - 2) 64) by lia.
    rewrite (Z.mod_small (Y + Height - 1) 64), (Z.mod_small (X + Width - 1) 128),
      (Z.mod_small (Y + 1) 64), (Z.mod_small (Y + Height - 2) 64) by lia.
    rewrite (u8_small (Y + Height - 1)), (u8_small (X + Width - 1)),
      (u8_small (Y + 1)), (u8_small (Y + Height - 2)) by lia.
    destruct (quot_row (Y + Height - 1) ltac:(lia)) as [Hy2p Hy2b].
    assert (Hcf : forall i, X <= i < X + Width -> u8 (Z.rem i 128) = i).
    { intros i Hi. rewrite rem_small, Z.mod_small, u8_small; lia. }
    destruct (row_run_acts (fun i => u8 (Z.rem i 128)) fuel g (Y ÷ 8) (Z.rem Y 8)
                X (X + Width)) as (t1 & -> & H1); try assumption; try lia.
    destruct (row_run_acts (fun i => u8 (Z.rem i 128)) fuel t1
                ((Y + Height - 1) ÷ 8) (Z.rem (Y + Height - 1) 8)
                X (X + Width)) as (t2 & -> & H2); try assumption; try lia.
    { apply (acts_ok _ _ _ _ H1). }
    unfold ReverseRectangle_side. replace (Y + 1 <=? Y + Height - 2) with true by lia.
    destruct (column_run_acts fuel t2 X (Y + 1) (Y + Height - 2))
      as (t3 & -> & H3); try lia.
    { apply (acts_ok _ _ _ _ H2). }
    destruct (column_run_acts fuel t3 (X + Width - 1) (Y + 1) (Y + Height - 2))
      as (t4 & -> & H4); try lia.
    { apply (acts_ok _ _ _ _ H3). }
    exists t4. split; [reflexivity|]. intros x y.
    pose proof (acts_negb_then _ _ _ _ _ (acts_negb_then _ _ _ _ _
                  (acts_negb_then _ _ _ _ _ H1 H2) H3) H4) as HA.
    rewrite (acts_pixel _ _ _ _ x y Hok HA). cbv beta.
    rewrite !Z.quot_div_nonneg, !Z.rem_mod_nonneg by lia.
    rewrite !pixel_index, row_of_pixel.
    unfold rectangle_bits. rewrite H0. change (negb (0 =? 0)) with false.
    rewrite if_negb_xorb. f_equal.
    destruct (Z.eqb_spec y Y), (Z.eqb_spec y (Y + Height - 1)),
      (Z.eqb_spec x X), (Z.eqb_spec x (X + Width - 1));
      cbn [andb orb xorb negb]; rewrite ?xorb_and_or; lia.
  - destruct (for_u8_acts_negb
                (fun j g => for_u8 fuel X (X + Width) (fun i g =>
                   Some (xor_store (Z.rem j 64 ÷ 8) (Z.rem i 128) (Z.rem j 8) g)) g)
                (fun _ c _ => (X <=? c) && (c <? X + Width)) (fun p _ b => 8 * p + b)
                Y (Y + Height) ltac:(lia) ltac:(lia)) with (fuel := fuel) (g := g)
      as (g' & -> & HA); try assumption; try lia.
    + intros j t Hj Ht.
      assert (Hr : Z.rem j 64 = j) by (rewrite rem_small, Z.mod_small; lia).
      destruct (quot_row j ltac:(lia)) as [Hq Hb].
      destruct (row_run_acts (fun i => Z.rem i 128) fuel t (Z.rem j 64 ÷ 8) (Z.rem j 8)
                  X (X + Width)) as (t' & Hrun & Ht'); try assumption; try lia.
      { rewrite Hr. exact Hq. }
      { intros i Hi. rewrite rem_small, Z.mod_small; lia. }
      exists t'. split; [exact Hrun|].
      eapply acts_ext; [exact Ht'|].
      intros p c b _ _ Hbb. cbv beta. rewrite Hr.
      rewrite Z.quot_div_nonneg, Z.rem_mod_nonneg by lia.
      rewrite <- (bit_index p b j Hbb).
      destruct (p =? j / 8), (b =? j mod 8), (X <=? c), (c <? X + Width); reflexivity.
    + exists g'. split; [reflexivity|]. intros x y.
      rewrite (acts_pixel _ _ _ _ x y Hok HA). cbv beta. rewrite row_of_pixel.
      unfold rectangle_bits. replace (IsFilled =? 0) with false by lia.
      cbn [negb orb]. rewrite if_negb_xorb. f_equal. lia.
Qed.

Lemma OLED_ReverseRectangle_inverts_the_rectangle_witness :
  exists g',
    OLED_ReverseRectangle 129 10 20 30 8 0 gram_zero = Some g'
    /\ pixel g' 10 23 = true /\ pixel g' 11 23 = false /\ pixel g' 39 27 = true.
Proof.
  destruct (OLED_ReverseRectangle_inverts_the_rectangle 129 10 20 30 8 0 gram_zero)
    as (g' & Hrun & Hpix); [reflexivity|lia|lia|lia|lia|lia|lia|lia|lia|].
  exists g'. split; [exact Hrun|]. rewrite !Hpix. repeat split; reflexivity.
Defined.

(** ** OLED_DrawCircle: the inside of a filled circle *)

Lemma lit_grows t t' x y : gram_le t t' -> lit t x y -> lit t' x y.
Proof. intros Hle Hl Hon. eapply pixel_grows; [exact Hle|apply Hl, Hon]. Qed.

Lemma lit_DrawPoint_here t x y : gram_ok t = true -> lit (OLED_DrawPoint x y 1 t) x y.
Proof.
  intros Hok [Hx Hy]. unfold OLED_WIDTH, OLED_HEIGHT in *.
  apply pixel_DrawPoint_white; assumption.
Qed.

Lemma lit_DrawPoint_keep t a b x y :
  gram_ok t = true -> lit t x y -> lit (OLED_DrawPoint a b 1 t) x y.
Proof. intros Hok. apply lit_grows, OLED_DrawPoint_white_le, Hok. Qed.

(** A loop of passes that only turn pixels on: the pixels of every pass
    are on at the end. *)
Lemma for_range_lit (body : Z -> gram -> gram) (pts : Z -> Z -> Z -> Prop) a b g :
  gram_ok g = true ->
  (forall j t, gram_ok t = true -> grows t (body j t)) ->
  (forall j t x y, a <= j < b -> gram_ok t = true -> pts j x y -> lit (body j t) x y) ->
  grows g (for_range a b body g)
  /\ forall j x y, a <= j < b -> pts j x y -> lit (for_range a b body g) x y.
Proof.
  intros Hok Hgrow Hpts.
  assert (Hg : grows g (for_range a b body g)).
  { apply for_range_inv; [apply grows_refl, Hok|].
    intros j t _ [Hokt Hle]. destruct (Hgrow j t Hokt) as [Hok' Hle'].
    split; [exact Hok'|]. eapply gram_le_trans; eassumption. }
  split; [exact Hg|].
  destruct (Z_le_gt_dec a b) as [Hab|Hab]; [|intros; lia].
  refine (proj2 (for_range_ind
           (fun k t => gram_ok t = true
                       /\ forall j x y, a <= j < k -> pts j x y -> lit t x y) a b body g Hab _ _)).
  - split; [exact Hok|]. intros; lia.
  - intros k t Hk [Hokt Hlit]. destruct (Hgrow k t Hokt) as [Hok' Hle'].
    split; [exact Hok'|]. intros j x y Hj Hp.
    destruct (Z.eq_dec j k) as [->|Hne].
    + apply (Hpts k t x y); assumption.
    + eapply lit_grows; [exact Hle'|]. apply (Hlit j); [lia|exact Hp].
Qed.

Ltac lit_points :=
  repeat first [ apply lit_DrawPoint_here; repeat apply OLED_DrawPoint_ok; assumption
               | apply lit_DrawPoint_keep; [repeat apply OLED_DrawPoint_ok; assumption|] ].

Lemma circle_octants_lit X Y x y t :
  gram_ok t = true ->
  -10000 <= X <= 10000 -> -10000 <= Y <= 10000 -> 0 <= x <= 10001 -> 0 <= y <= 10001 ->
  grows t (circle_octants X Y x y t)
  /\ forall px py,
       ((px - X = x \/ px - X = - x) /\ (py - Y = y \/ py - Y = - y))
       \/ ((px - X = y \/ px - X = - y) /\ (py - Y = x \/ py - Y = - x)) ->
       lit (circle_octants X Y x y t) px py.
Proof.
  intros Hok HX HY Hx Hy. split.
  { unfold circle_octants. do 8 apply grows_DrawPoint_white. apply grows_refl, Hok. }
  intros px py Hp. unfold circle_octants.
  rewrite !(s16_small (X + x)), !(s16_small (X - x)), !(s16_small (X + y)),
    !(s16_small (X - y)), !(s16_small (Y + x)), !(s16_small (Y - x)),
    !(s16_small (Y + y)), !(s16_small (Y - y)) by lia.
  destruct Hp as [[[Hu|Hu] [Hv|Hv]]|[[Hu|Hu] [Hv|Hv]]].
  - replace px with (X + x) by lia. replace py with (Y + y) by lia. lit_points.
  - replace px with (X + x) by lia. replace py with (Y - y) by lia. lit_points.
  - replace px with (X - x) by lia. replace py with (Y + y) by lia. lit_points.
  - replace px with (X - x) by lia. replace py with (Y - y) by lia. lit_points.
  - replace px with (X + y) by lia. replace py with (Y + x) by lia. lit_points.
  - replace px with (X + y) by lia. replace py with (Y - x) by lia. lit_points.
  - replace px with (X - y) by lia. replace py with (Y + x) by lia. lit_points.
  - replace px with (X - y) by lia. replace py with (Y - x) by lia. lit_points.
Qed.

(** One step of the filled circle: the columns [X - x] and [X + x] are
    on to the height [y], the columns [X - y] and [X + y] to the height
    [x]. *)
Lemma circle_filled_step_lit X Y x y t :
  gram_ok t = true ->
  -10000 <= X <= 10000 -> -10000 <= Y <= 10000 -> 0 <= x <= 10001 -> 0 <= y <= 10001 ->
  grows t (circle_spans X Y x y (circle_octants X Y x y t))
  /\ (forall px py, (px - X = x \/ px - X = - x) -> - y <= py - Y <= y ->
        lit (circle_spans X Y x y (circle_octants X Y x y t)) px py)
  /\ (forall px py, (px - X = y \/ px - X = - y) -> - x <= py - Y <= x ->
        lit (circle_spans X Y x y (circle_octants X Y x y t)) px py).
Proof.
  intros Hok HX HY Hx Hy.
  destruct (circle_octants_lit X Y x y t Hok HX HY Hx Hy) as [[Hoko Hleo] Hlo].
  unfold circle_spans. rewrite (s16_small (- y)), (s16_small (- x)) by lia.
  rewrite !(s16_small (X + x)), !(s16_small (X - x)), !(s16_small (X + y)),
    !(s16_small (X - y)) by lia.
  set (to := circle_octants X Y x y t) in *.
  destruct (for_range_lit
              (fun j g => OLED_DrawPoint (X - x) (s16 (Y + j)) 1
                            (OLED_DrawPoint (X + x) (s16 (Y + j)) 1 g))
              (fun j px py => (px - X = x \/ px - X = - x) /\ py - Y = j)
              (- y) y to Hoko) as [[Hok1 Hle1] Hl1].
  { intros j u Hu. do 2 apply grows_DrawPoint_white. apply grows_refl, Hu. }
  { intros j u px py Hj Hu [[Hpx|Hpx] Hpy]; rewrite (s16_small (Y + j)) by lia.
    - replace px with (X + x) by lia. replace py with (Y + j) by lia. lit_points.
    - replace px with (X - x) by lia. replace py with (Y + j) by lia. lit_points. }
  set (t1 := for_range (- y) y _ to) in *.
  destruct (for_range_lit
              (fun j g => OLED_DrawPoint (X + y) (s16 (Y + j)) 1
                            (OLED_DrawPoint (X - y) (s16 (Y + j)) 1 g))
              (fun j px py => (px - X = y \/ px - X = - y) /\ py - Y = j)
              (- x) x t1 Hok1) as [[Hok2 Hle2] Hl2].
  { intros j u Hu. do 2 apply grows_DrawPoint_white. apply grows_refl, Hu. }
  { intros j u px py Hj Hu [[Hpx|Hpx] Hpy]; rewrite (s16_small (Y + j)) by lia.
    - replace px with (X + y) by lia. replace py with (Y + j) by lia. lit_points.
    - replace px with (X - y) by lia. replace py with (Y + j) by lia. lit_points. }
  set (t2 := for_range (- x) x _ t1) in *.
  split; [|split].
  - split; [exact Hok2|].
    eapply gram_le_trans; [exact Hleo|]. eapply gram_le_trans; eassumption.
  - intros px py Hpx Hpy. apply (lit_grows t1); [exact Hle2|].
    destruct (Z.eq_dec (py - Y) y) as [He|Hne].
    + apply (lit_grows to); [exact Hle1|]. apply Hlo. left. split; [exact Hpx|left; exact He].
    + apply (Hl1 (py - Y)); [lia|]. split; [exact Hpx|reflexivity].
  - intros px py Hpx Hpy.
    destruct (Z.eq_dec (py - Y) x) as [He|Hne].
    + apply (lit_grows t1); [exact Hle2|]. apply (lit_grows to); [exact Hle1|].
      apply Hlo. right. split; [exact Hpx|left; exact He].
    + apply (Hl2 (py - Y)); [lia|]. split; [exact Hpx|reflexivity].
Qed.

Lemma sq_le_bound v y : 0 <= y -> v * v <= y * y + y -> - y <= v <= y.
Proof. intros Hy Hv. nia. Qed.

Lemma sq_lt_bound v x : 0 <= x -> v * v < (x + 1) * (x + 1) -> - x <= v <= x.
Proof. intros Hx Hv. nia. Qed.

(** The loop of the filled circle keeps three facts about the buffer:
    the columns within [x] of the centre are on wherever they cross
    the ideal disc, so are the columns further than [y] from it, and
    the columns at distance [y] are on to the height [x]. *)
Lemma circle_loop_solid X Y Radius IsFilled fuel t0 s' :
  -10000 <= X <= 10000 -> -10000 <= Y <= 10000 -> 0 <= Radius <= 10000 ->
  IsFilled <> 0 ->
  gram_ok t0 = true ->
  (forall px py, px - X = 0 -> circle_error X Y Radius px py <= 0 -> lit t0 px py) ->
  (forall px py, (px - X = Radius \/ px - X = - Radius) -> py - Y = 0 -> lit t0 px py) ->
  while_loop fuel (fun s => ci_x s <? ci_y s) (circle_step X Y IsFilled)
    (mk_circle 0 Radius (s16 (1 - Radius)) t0) = Some s' ->
  forall px py, circle_error X Y Radius px py <= 0 -> lit (ci_g s') px py.
Proof.
  intros HX HY HR HF Hok0 Hcol0 Hends Hrun.
  pose (Inv := fun s : circle_state =>
    0 <= ci_x s /\ 0 <= ci_y s <= Radius /\ ci_x s <= ci_y s + 1
    /\ ci_d s = (ci_x s + 1) * (ci_x s + 1) + ci_y s * ci_y s - ci_y s - Radius * Radius
    /\ 1 - 2 * ci_y s <= ci_d s
    /\ (ci_x s < ci_y s -> ci_d s <= 2 * ci_x s)
    /\ gram_ok (ci_g s) = true
    /\ (forall px py, - ci_x s <= px - X <= ci_x s ->
          circle_error X Y Radius px py <= 0 -> lit (ci_g s) px py)
    /\ (forall px py, (px - X < - ci_y s \/ ci_y s < px - X) ->
          circle_error X Y Radius px py <= 0 -> lit (ci_g s) px py)
    /\ (forall px py, (px - X = ci_y s \/ px - X = - ci_y s) ->
          - ci_x s <= py - Y <= ci_x s -> lit (ci_g s) px py)).
  assert (Hinit : Inv (mk_circle 0 Radius (s16 (1 - Radius)) t0)).
  { unfold Inv. cbv [ci_x ci_y ci_d ci_g]. rewrite (s16_small (1 - Radius)) by lia.
    split; [lia|]. split; [lia|]. split; [lia|]. split; [lia|]. split; [lia|].
    split; [lia|]. split; [exact Hok0|]. split; [|split].
    - intros px py Hpx He. apply Hcol0; [lia|exact He].
    - intros px py Hpx He. exfalso. unfold circle_error in He.
      pose proof (Z.square_nonneg (py - Y)). destruct Hpx; nia.
    - intros px py Hpx Hpy. apply Hends; [exact Hpx|lia]. }
  assert (Hstep : forall t, Inv t -> (ci_x t <? ci_y t) = true ->
            Inv (circle_step X Y IsFilled t)).
  { intros [x y d gt] (Hx & Hy & Hxy & Hd & Hlo & Hhi & Hokt & H1 & H2 & H3) Hc.
    cbv [ci_x ci_y ci_d ci_g] in *. apply Z.ltb_lt in Hc. specialize (Hhi Hc).
    unfold circle_step. cbv [ci_x ci_y ci_d ci_g].
    rewrite (s16_small (x + 1)) by lia.
    replace (IsFilled =? 0) with false by lia.
    destruct (Z.ltb_spec d 0) as [Hneg|Hpos].
    - rewrite (s16_small (d + (2 * (x + 1) + 1))) by lia.
      destruct (circle_filled_step_lit X Y (x + 1) y gt Hokt HX HY ltac:(lia) ltac:(lia))
        as ([Hok' Hle'] & Hc1 & Hc2).
      unfold Inv. cbv [ci_x ci_y ci_d ci_g].
      split; [lia|]. split; [lia|]. split; [lia|]. split; [lia|]. split; [lia|].
      split; [lia|]. split; [exact Hok'|]. split; [|split].
      + intros px py Hpx He.
        destruct (Z_le_dec (- x) (px - X)) as [Hl|Hl];
          [destruct (Z_le_dec (px - X) x) as [Hr|Hr]|].
        * eapply lit_grows; [exact Hle'|]. apply H1; [lia|exact He].
        * apply Hc1; [lia|]. apply sq_le_bound; [lia|].
          unfold circle_error in He. nia.
        * apply Hc1; [lia|]. apply sq_le_bound; [lia|].
          unfold circle_error in He. nia.
      + intros px py Hpx He. eapply lit_grows; [exact Hle'|]. apply H2; assumption.
      + exact Hc2.
    - rewrite (s16_small (y - 1)) by lia.
      rewrite (s16_small (d + (2 * (x + 1 - (y - 1)) + 1))) by lia.
      destruct (circle_filled_step_lit X Y (x + 1) (y - 1) gt Hokt HX HY
                  ltac:(lia) ltac:(lia)) as ([Hok' Hle'] & Hc1 & Hc2).
      unfold Inv. cbv [ci_x ci_y ci_d ci_g].
      split; [lia|]. split; [lia|]. split; [lia|]. split; [lia|]. split; [lia|].
      split; [lia|]. split; [exact Hok'|]. split; [|split].
      + intros px py Hpx He.
        destruct (Z_le_dec (- x) (px - X)) as [Hl|Hl];
          [destruct (Z_le_dec (px - X) x) as [Hr|Hr]|].
        * eapply lit_grows; [exact Hle'|]. apply H1; [lia|exact He].
        * apply Hc1; [lia|]. apply sq_le_bound; [lia|].
          unfold circle_error in He. nia.
        * apply Hc1; [lia|]. apply sq_le_bound; [lia|].
          unfold circle_error in He. nia.
      + intros px py Hpx He. eapply lit_grows; [exact Hle'|].
        destruct (Z_lt_dec (px - X) (- y)) as [Hl|Hl]; [apply H2; [lia|exact He]|].
        destruct (Z_lt_dec y (px - X)) as [Hr|Hr]; [apply H2; [lia|exact He]|].
        apply H3; [lia|]. apply sq_lt_bound; [lia|].
        unfold circle_error in He. nia.
      + exact Hc2. }
  destruct (while_loop_inv Inv _ _ _ _ _ Hinit Hstep Hrun) as [Hs' Hend].
  destruct Hs' as (Hx & Hy & Hxy & _ & _ & _ & _ & H1 & H2 & _).
  apply Z.ltb_ge in Hend.
  intros px py He.
  destruct (Z_le_dec (- ci_x s') (px - X)) as [Hl|Hl];
    [destruct (Z_le_dec (px - X) (ci_x s')) as [Hr|Hr]|].
  - apply H1; [lia|exact He].
  - apply H2; [lia|exact He].
  - apply H2; [lia|exact He].
Qed.

(** X30: a filled circle has no holes.  Every pixel of the screen within
    the distance [Radius] of the centre is on after
    [OLED_DrawCircle] with a non-zero [IsFilled]. *)
Theorem OLED_DrawCircle_filled_is_solid fuel X Y Radius IsFilled g :
  gram_ok g = true ->
  -10000 <= X <= 10000 -> -10000 <= Y <= 10000 -> 0 <= Radius <= 10000 ->
  IsFilled <> 0 ->
  (Z.to_nat Radius < fuel)%nat ->
  exists g',
    OLED_DrawCircle fuel X Y Radius IsFilled g = Some g'
    /\ forall x y, on_screen x y -> circle_error X Y Radius x y <= 0 -> pixel g' x y = true.
Proof.
  intros Hok HX HY HR HF Hfuel.
  destruct (OLED_DrawCircle_grows fuel X Y Radius IsFilled g Hok ltac:(lia) Hfuel)
    as (g1 & Hrun1 & _).
  exists g1. split; [exact Hrun1|].
  intros x y Hon He. revert Hrun1. unfold OLED_DrawCircle.
  replace (IsFilled =? 0) with false by lia.
  rewrite !(s16_small (X - Radius)), !(s16_small (X + Radius)), !(s16_small (Y - Radius)),
    !(s16_small (Y + Radius)), !(s16_small (X + 0)), !(s16_small (X - 0)),
    !(s16_small (Y + 0)), !(s16_small (Y - 0)), (s16_small (- Radius)) by lia.
  set (g4 := OLED_DrawPoint (X - Radius) (Y - 0) 1 _).
  assert (Hok4 : gram_ok g4 = true) by (unfold g4; repeat apply OLED_DrawPoint_ok; exact Hok).
  destruct (for_range_lit
              (fun j g => OLED_DrawPoint X (s16 (Y + j)) 1 g)
              (fun j px py => px - X = 0 /\ py - Y = j)
              (- Radius) Radius g4 Hok4) as [[Hok5 Hle5] Hl5].
  { intros j u Hu. apply grows_DrawPoint_white, grows_refl, Hu. }
  { intros j u px py Hj Hu [Hpx Hpy]. rewrite (s16_small (Y + j)) by lia.
    replace px with X by lia. replace py with (Y + j) by lia. lit_points. }
  set (g5 := for_range (- Radius) Radius _ g4) in *.
  destruct (while_loop fuel _ _ (mk_circle 0 Radius (s16 (1 - Radius)) g5)) as [s'|] eqn:Hrun;
    [|discriminate].
  intros [= <-].
  apply (circle_loop_solid X Y Radius IsFilled fuel g5 s'); try assumption.
  - intros px py Hpx He0.
    assert (Hv : - Radius <= py - Y <= Radius).
    { apply sq_le_bound; [lia|]. unfold circle_error in He0. nia. }
    destruct (Z.eq_dec (py - Y) Radius) as [Hr|Hr].
    + apply (lit_grows g4); [exact Hle5|]. unfold g4.
      replace px with (X + 0) by lia. replace py with (Y + Radius) by lia. lit_points.
    + apply (Hl5 (py - Y)); [lia|]. split; [exact Hpx|reflexivity].
  - intros px py Hpx Hpy. apply (lit_grows g4); [exact Hle5|]. unfold g4.
    destruct Hpx as [Hpx|Hpx].
    + replace px with (X + Radius) by lia. replace py with (Y + 0) by lia. lit_points.
    + replace px with (X - Radius) by lia. replace py with (Y - 0) by lia. lit_points.
Qed.

Lemma OLED_DrawCircle_filled_is_solid_witness :
  exists g',
    OLED_DrawCircle 10 20 20 5 1 gram_zero = Some g'
    /\ pixel g' 23 24 = true /\ pixel g' 20 20 = true.
Proof.
  destruct (OLED_DrawCircle_filled_is_solid 10 20 20 5 1 gram_zero)
    as (g' & Hrun & Hin); [reflexivity|lia|lia|lia|lia|simpl; lia|].
  exists g'. split; [exact Hrun|].
  split; apply Hin;
    try (split; unfold OLED_WIDTH, OLED_HEIGHT; lia); unfold circle_error; lia.
Defined.

(* ================================================================== *)
(** * The colour of a line and of a line chart *)
(* ================================================================== *)

(** ** Two runs of a loop, side by side *)




(** ** Buffers that differ in a few pixels *)






(** ** The parts of the chart *)








(** ** C9 *)



